(* ===== verification/_CoqProject ===== *)
-Q . S2P
Prelude.v
Encoding.v
Kube.v
Sets.v
KubectlApplySet.v
ApplySet.v
RestMapper.v
Metrics.v
Manifest.v
Transforms.v
Addon.v
Reconciler.v
Watch.v
Appliers.v
Loaders.v
MemoryStorage.v
GoLib.v
ServerSideApply.v
MockServer.v
DirectHTTP.v
MockCluster.v
NetURL.v
HTTPRecorder.v
KubeNormalize.v
Utils.v
Typeinfo.v
TestHarness.v
Testutils.v
Validator.v
Smoketest.v
DeepCopy.v
Operator.v
MockRuns.v
Surface.v
