(* ===== verification/Prelude.v ===== *)
(** * kubebuilder-declarative-pattern: a verification library

    The repository is a Go library for writing Kubernetes operators
    declaratively: a controller loads a manifest for an object (the addon),
    transforms it, applies it to the cluster and reports a status. This library
    models its core and proves what makes it correct. Paths are under src/.

    ** The program and where it is modelled

    - [Prelude] (this file): Go's errors, maps (a [RangeOrder] is one order in
      which a map may be ranged over), the string functions in use, shared
      lemmas, tactics and hints.
    - [Encoding]: SHA-256 and base64, which the applyset id is made of.
    - [Kube]: the data types of apimachinery; [Server], an arbitrary API server;
      the monad [M] of code that sends requests, with the log of the requests;
      [sends], a program logic for that log; [Scheduler], an order in which
      goroutines run.
    - [Sets]: applylib/forked/.../util/sets.
    - [KubectlApplySet]: the forked kubectl ApplySet and its pruner
      (applylib/forked/github.com/kubernetes/kubectl/pkg/cmd/apply).
    - [ApplySet]: applylib/applyset: trackers, results, ApplyOnce. Calls
      [KubectlApplySet].
    - [RestMapper]: the caching REST mapper, pkg/restmapper. Discovery is an
      arbitrary state machine.
    - [Metrics]: the metrics and object tracker of
      pkg/patterns/declarative/metrics.go, with its watch handlers.
    - [Manifest]: pkg/patterns/declarative/pkg/manifest, objects on JSON values.
      The unstructured package is the class [Unstructured] with the laws
      [unstructured_ok], which speak of objects whose metadata can be written.
    - [Transforms]: labels.go, annotations.go, image.go, application.go, sort.go
      of pkg/patterns/declarative. Calls [Manifest].
    - [Addon]: pkg/patterns/addon: the common spec and status, the two
      transforms, the kstatus aggregator, the basic aggregator, the version
      check; and the status interface of pkg/patterns/declarative (status.go,
      statusinfo.go). Calls [Transforms].
    - [Reconciler]: options.go, hooks.go, ownerref.go and reconciler.go of
      pkg/patterns/declarative. Calls all of [Manifest], [Transforms], [Addon]
      and [Metrics]. The collaborators of a reconciler are arbitrary state
      machines ([Environment], [reconcilerParams]); each call is logged as an
      [Action], and [runs] is the program logic for that log.
    - [Watch]: pkg/patterns/declarative/watch.go and pkg/watch/dynamic.go: the
      goroutine of a watch as a labelled step function, the hook that opens
      watches before an apply (a [Reconciler] hook), its setup. The hook is
      proved against the class [DynamicWatch], which the goroutines implement.
    - [Appliers]: pkg/patterns/declarative/pkg/applier: the applier on
      [ApplySet], the one on kubectl's packages, the one that runs kubectl.
    - [Loaders]: pkg/patterns/addon/pkg/loaders and init.go: channels, versions,
      and the [Repository]s on files, HTTP and git.
    - [MemoryStorage]: mockkubeapiserver/storage, its memorystorage and hooks:
      the storage of the API server the tests run against. Operations answer an
      [outcome]: they return, wait for ever, or end the process.
    - [GoLib]: reflect.DeepEqual on JSON values, with decidable equality of them,
      and the specification of sort.Slice.
    - [ServerSideApply]: DoServerSideApply and the managed fields of the mock
      server (mockkubeapiserver/storage/resourceinfo.go, forked).
    - [MockServer]: the routing and the handlers of mockkubeapiserver. A handler
      is a program ([prog]) of calls to the storage interface ([call]), which
      [MemoryStorage] performs; [exec] serves one request alone, [pstep] many
      at once.
    - [DirectHTTP]: mockkubeapiserver/direct_http.go, the round trip between a
      client and the server without a socket, as two goroutines; a reader parks
      on the condition variable until the writer broadcasts, and the handler of a
      watch need not return.
    - [MockCluster]: the mock server as the [Server] the applyset library talks
      to, behind a client library ([RESTClient]).
    - [NetURL]: what the rest uses of net/url, path, http.Header and strconv.
    - [HTTPRecorder]: request_log.go and http_recorder.go of ktest/httprecorder.
      Entries and headers are shared objects on a heap ([RequestLog]); a request
      is recorded in two steps ([step], labelled with what happened), so that
      many can be in flight; the specification is a log made from the events.
    - [KubeNormalize]: kube_normalize.go, on [HTTPRecorder].
    - [Utils]: utils/utils.go.
    - [Typeinfo]: mockkubeapiserver/schemas and tools/generate-typeinfo.
    - [TestHarness]: ktest/testharness, as computations [test] on the files,
      errors and clean-ups of a test; its proxy calls [HTTPRecorder].
      [Testutils]: applylib/testutils, on the same computations.
    - [Validator]: pkg/test/golden, whose tests build their objects with the
      model of [Reconciler] and run diff on what differs; and the reconciler of
      pkg/test/testreconciler/simpletest, set up with [Reconciler] and [Watch].
    - [Smoketest]: hack/smoketest.go, on a cluster and a clock ([Cluster]).
    - [DeepCopy]: the generated deep copies of pkg/patterns/addon, of the guestbook
      and of the test type, deepCopyEnvtestEnvironment of ktest, and the accessors
      of these types, on a heap.
    - [Operator]: examples/guestbook-operator (main and controller), set up with
      [Reconciler], [Watch] and [Loaders]; the registration of collectors by
      WithReconcileMetrics; the builds of kustomize.Run; commonclient; the
      constructors of the REST mapper.
    - [MockRuns]: ApplyOnce of [ApplySet] run against the server of [MockCluster].
    - [Surface]: small operations between components: texts of watch events, the
      life of the mock server, client getters, accessors of a parent.

    ** How the code is read

    A function with results [(T, error)] answers a [res T], or a pair with an
    [option error] where both results are meaningful or an argument is changed
    in place. A pointer receiver that a method changes is an argument and a
    result; a pointer into a slice is a position. Machine integers are [Z]; the
    resource version counter, which identifies objects, wraps at 64 bits
    ([wrap64]), the other counters are far from the limits of their types. A nil map is
    an empty one; a nil slice is told apart where reflect.DeepEqual is used.
    Loops are structural recursions or folds. Fuel is used where they are not:
    to take texts apart ([SplitString], [expand], [ipv6Loop]), where the length
    is enough, since every round consumes a byte; for the passes of SortGETs, one
    more than the square of the length, which [SortGETs_sorts] shows to be
    enough; for the parents of a directory, the hundred rounds of the code; and
    for waiting in the smoke test, one round for every tick that fits in the
    duration and one more ([verifyOrTimeout_ends]).
    Ranging over a map and [sort.Slice] are orders about which nothing but
    their specification is assumed; within one run a map is ranged over in one
    order each time (Go may choose another at each loop), and a [RESTMapper]
    gives one answer for each question (a live one may learn new kinds). Where aliasing is the point ([DeepCopy],
    [HTTPRecorder]) a struct is a value, pointers and the arrays behind slices
    are locations of a heap, and a nil dereference is [None]. Log output is left out. Packages that are
    not in the repository are parameters: classes of operations, with their
    documented behaviour as named laws, which the examples show can hold.

    ** What the theorems show

    - Applying ([ApplySet]): deletes are safe ([ApplyOnce_prune_safety]), the
      parent records every kind before an object of it is applied
      ([ApplyOnce_superset_first]), results account for every request
      ([ApplyOnce_accounting]); what the parent records reads back
      ([fetch_after_patch]); the concurrent search for objects to prune equals
      the sequential one ([FindAllObjectsToPrune_schedule]). Limits:
      [WithParent_fetch_iff], [prune_failure_orphans], [ApplyOnce_tooling_slash].
    - Mapping ([RestMapper]): the cache is transparent, asks once and answers
      the first preferred version.
    - Metrics: which series exist, how long a deleted object is remembered.
    - Manifests ([Manifest], [Transforms]): cached identity and text never go
      stale on success, containers, patches, sorting, parsing; where a private
      registry reaches; the order objects are applied in.
    - Status ([Addon]): how phase and health follow from the objects; when the
      version check accepts.
    - Reconciling ([Reconciler]): at most one apply, after nothing refused it
      ([Reconcile_gated]); what is counted; the build does not depend on map
      order ([build_order_independent]; with kustomize only if the files share a
      directory, [kustomize_directory]); namespaces and owners; what a valid configuration guarantees; and
      that a refused version check is reported as health
      ([version_check_reports_healthy]).
    - Watching ([Watch]): what a watch announces is exactly what changed
      ([watch_announces]); a silent server is given up and watched again
      ([silent_server_rewatch], [activity_check]); every kind is handed to a watching goroutine
      before it is applied, once ([children_watched]); and whom a shared watch does
      not tell ([same_name_not_notified]).
    - Appliers: what a success of the ApplySetApplier means
      ([ApplySetApplier_success]), which arguments of the reconciler are
      understood ([reconciler_args], [directArgs_spec]), credentials are removed
      ([exec_cleanup]).
    - Loaders: no path leaves the base directory ([package_path_inside]), which
      version is chosen ([Latest_spec]) and which files are loaded
      ([ResolveManifest_fs], [git_read_stale]).
    - Storage ([MemoryStorage]): each resource is a map ([storage_is_map]),
      versions are unique ([resource_versions_unique]), watches agree with what
      is stored if objects are stored under their own names
      ([watch_consistent], and [misfiled_update_diverges] otherwise); where it
      deadlocks
      ([failed_list_deadlocks], [early_failure_deadlocks]).
    - The mock server ([MockServer], [ServerSideApply], [DirectHTTP]): paths
      reach what they name ([route_paths]), a client reads what was written
      ([read_your_writes]), the storage stays consistent under concurrent
      requests ([traffic_consistent]), discovery lists what is registered
      ([discovery_spec]), responses arrive complete, and
      nobody waits in vain ([direct_lossless], [direct_terminates]); which generation and managers
      an object gets ([put_generation], [ssa_single_manager]). With the applyset
      library on top ([MockCluster]): what is applied is listed
      ([mock_applied_listed]), and what is pruned is not only the set's
      ([mock_prune_ignores_labels]); when a whole run reports success, the server
      has every object of the set ([ApplyOnce_stored]); an event reads the same
      however often and in whatever order its texts are asked for ([event_texts]).
    - Recording ([HTTPRecorder], [KubeNormalize]): a recorder with requests in
      flight shows, for each request in order, the request that was sent and the
      answer that came for it ([recorder_refines]), its shared
      objects stay well formed ([reached_typed]) and no request is lost
      ([recorder_keeps]); discovery requests end up sorted ([SortGETs_sorts]);
      two runs of a test that differ only in what a run happens to get
      normalise to the same log ([NormalizeKubeRequestLog_deterministic]), and
      the order of resource versions is kept ([renumber_keeps_order]).
    - Golden tests ([TestHarness], [Testutils], [Validator]): regenerating a
      file settles it ([golden_regenerates]), every subtest runs
      ([RunGoldenTests_runs]), the proxy is transparent ([proxy_transparent]);
      the channels found are the nearest ([searchUp_nearest]), the tests found
      are all there are ([testNames_complete]), what decides a test
      ([runTest_verdict]); a set-up harness is usable ([WithObjects_ready]); the
      test reconciler watches what it labels ([SetupWithManager_watches]).
    - Tools ([Utils], [Typeinfo], [Smoketest]): the DNS address and domain
      ([FindDNSClusterIP_ipv4], [FindDNSClusterIP_cases], [GetDNSDomain_spec]);
      a schema is parsed once ([Get_stable]); the generated type information
      does not depend on map order ([run_stable], [pathInfo_scope]); waiting
      ends and sees a recovery ([verifyOrTimeout_ends],
      [verifyOrTimeout_recovers]), what is applied and what being up means
      ([KubectlApply_visible], [verifyReadyPods_spec], [main_passed]).
    - Deep copies ([DeepCopy]): a copy reads as its original and shares no cell
      with it ([SimpleTestList_DeepCopyObject_isolated] and those of the other
      types, [deepCopyEnvtestEnvironment_isolated]).
    - The operator ([Operator]): in which order main does its work and how the
      process ends, with the error of the step that failed logged
      ([main_outcome]; GetConfigOrDie is read as it is documented: it logs and
      exits); that the controller watches what it labels
      ([guestbook_setup]) and needs a loader ([guestbook_needs_loader]); what
      repeated metrics options leave ([metrics_options]) and that registering
      twice would panic ([metrics_panic_once]).

    Theorems whose doc comment begins with an id C<n> are the properties of the
    library; each with a hypothesis has a witness named after it.

    ** What is not modelled

    Every component is modelled. Not translated are declarations without
    behaviour: struct and interface types that the model does not need, interface
    assertions, registrations of types in a scheme, names of flags; listening
    sockets and the plumbing of goroutines, contexts and signals around the code
    that is modelled; log output and the text that tests print; the typed
    sources of commonclient; and the variant of NewDiscoveryRESTMapper for
    controller-runtime before 0.15, which does not compile. Packages
    outside the repository are parameters, as said above: their own behaviour
    is assumed only through the named laws. *)

From Stdlib Require Export Ascii String.
From stdpp Require Export sorting.
From stdpp Require Export base gmap strings list numbers.
From stdpp Require Import options.

(** Go's [len(m)], [range m] and string concatenation are used throughout. *)
Declare Scope go_scope.
Delimit Scope go_scope with go.
Open Scope string_scope.
Open Scope list_scope.

(* ------------------------------------------------------------------ *)
(** ** Go's [error] and the result monad *)

(** An [error] value. [Errorf] is [errors.New] or an [fmt.Errorf] with no
    wrapped error; [WrapW] is [fmt.Errorf("...: %w", err)], which
    [errors.Unwrap] undoes; [WrapV] is [fmt.Errorf("...: %v", err)], which
    keeps the text of the cause only. Operands of a format other than the
    cause are left out of the message. *)
Inductive error :=
  | Errorf (msg : string)
  | WrapW (msg : string) (cause : error)
  | WrapV (msg : string) (cause : error).

#[export] Instance error_eq_dec : EqDecision error.
Proof. solve_decision. Defined.

(** [errors.Unwrap]: [nil] unless the error wraps another one with [%w]. *)
Definition Unwrap (e : error) : option error :=
  match e with WrapW _ c => Some c | _ => None end.

(** The result of a Go function with results [(T, error)] of which exactly
    one is meaningful. *)
Inductive res (A : Type) :=
  | Ok (a : A)
  | Err (e : error).
Arguments Ok {A} _.
Arguments Err {A} _.

#[export] Instance res_eq_dec {A} `{EqDecision A} : EqDecision (res A).
Proof. solve_decision. Defined.

#[export] Instance res_ret : MRet res := λ _, Ok.
#[export] Instance res_bind : MBind res := λ _ _ f m,
  match m with Ok a => f a | Err e => Err e end.
#[export] Instance res_fmap : FMap res := λ _ _ f m,
  match m with Ok a => Ok (f a) | Err e => Err e end.

Definition is_Ok {A} (r : res A) : bool :=
  match r with Ok _ => true | Err _ => false end.

(** [if err != nil { return fmt.Errorf("msg: %w", err) }]. *)
Definition wrapW {A} (msg : string) (r : res A) : res A :=
  match r with Ok a => Ok a | Err e => Err (WrapW msg e) end.
Definition wrapV {A} (msg : string) (r : res A) : res A :=
  match r with Ok a => Ok a | Err e => Err (WrapV msg e) end.

Fixpoint res_mapM {A B} (f : A → res B) (l : list A) : res (list B) :=
  match l with
  | [] => Ok []
  | x :: l => y ← f x; ys ← res_mapM f l; Ok (y :: ys)
  end.

(** [utilerrors.NewAggregate] is [nil] for an empty list. *)
Definition NewAggregate (errs : list error) : option (list error) :=
  match errs with [] => None | _ => Some errs end.

(* ------------------------------------------------------------------ *)
(** ** Iterating over a Go map *)

(** [for k, v := range m] visits every entry once, in an order the language
    leaves open. A [RangeOrder] is one such order; what is proved for every
    instance holds whatever the order is. The order is a function of the map:
    two loops over equal maps in one run go the same way, which Go does not
    promise. *)
Class RangeOrder := {
  range {K V} `{EqDecision K, !Countable K} : gmap K V → list (K * V);
  range_perm {K V} `{EqDecision K, !Countable K} (m : gmap K V) :
    range m ≡ₚ map_to_list m
}.

(** The order [map_to_list] has, for the executable examples. *)
Definition canonical_range : RangeOrder :=
  {| range := λ K V _ _ m, map_to_list m;
     range_perm := λ K V _ _ m, reflexivity _ |}.

(** The opposite order, to exhibit order-independence on examples. *)
Definition reversed_range : RangeOrder :=
  {| range := λ K V _ _ m, reverse (map_to_list m);
     range_perm := λ K V _ _ m, reverse_Permutation _ |}.

(** [range] over a [sets.Set], i.e. over the keys of a map. *)
Definition range_set `{RangeOrder} {K} `{EqDecision K, !Countable K}
    (s : gset K) : list K :=
  (range (gset_to_gmap () s)).*1.

(* ------------------------------------------------------------------ *)
(** ** The functions of Go's [strings], [bytes] and [sort] packages in use *)

Module strings.

(** [strings.Split(s, sep)] for a separator of one byte. *)
Fixpoint Split (sep : ascii) (s : string) : list string :=
  match s with
  | "" => [""]
  | String c s' =>
      if decide (c = sep) then "" :: Split sep s'
      else match Split sep s' with
           | w :: ws => String c w :: ws
           | [] => [String c ""]
           end
  end.

Fixpoint Join (ws : list string) (sep : string) : string :=
  match ws with
  | [] => ""
  | [w] => w
  | w :: ws => w +:+ sep +:+ Join ws sep
  end.

(** [strings.Cut(s, sep)] for a separator of one byte: the text before and
    after its first occurrence. *)
Fixpoint Cut (sep : ascii) (s : string) : string * string * bool :=
  match s with
  | "" => ("", "", false)
  | String c s' =>
      if decide (c = sep) then ("", s', true)
      else let '(a, b, found) := Cut sep s' in (String c a, b, found)
  end.

(** [strings.HasPrefix(s, p)], [strings.TrimPrefix(s, p)]. *)
Fixpoint HasPrefix (s p : string) : bool :=
  match p, s with
  | "", _ => true
  | String a p', String b s' => bool_decide (a = b) && HasPrefix s' p'
  | String _ _, "" => false
  end.

Fixpoint strip (s p : string) : option string :=
  match p, s with
  | "", _ => Some s
  | String a p', String b s' => if decide (a = b) then strip s' p' else None
  | String _ _, "" => None
  end.

Definition TrimPrefix (s p : string) : string :=
  match strip s p with Some t => t | None => s end.

Fixpoint rev_string (s acc : string) : string :=
  match s with "" => acc | String c s' => rev_string s' (String c acc) end.

Definition HasSuffix (s p : string) : bool :=
  HasPrefix (rev_string s "") (rev_string p "").

Definition TrimSuffix (s p : string) : string :=
  if HasSuffix s p then substring 0 (String.length s - String.length p) s else s.

(** [strings.Contains(s, p)]. *)
Fixpoint Contains (s p : string) : bool :=
  HasPrefix s p ||
  match s with "" => false | String _ s' => Contains s' p end.

(** [strings.SplitN(s, sep, 2)] for a separator that occurs. *)
Fixpoint CutString (s p : string) : option (string * string) :=
  match strip s p with
  | Some t => Some ("", t)
  | None =>
      match s with
      | "" => None
      | String c s' =>
          match CutString s' p with
          | Some (a, b) => Some (String c a, b)
          | None => None
          end
      end
  end.

(** [strings.ToLower] on ASCII text. *)
Definition lower_ascii (c : ascii) : ascii :=
  let n := N_of_ascii c in
  if (65 <=? n)%N && (n <=? 90)%N then ascii_of_N (n + 32) else c.
Fixpoint ToLower (s : string) : string :=
  match s with "" => "" | String c s' => String (lower_ascii c) (ToLower s') end.

(** No byte of [s] is [c]. *)
Fixpoint free_of (c : ascii) (s : string) : bool :=
  match s with
  | "" => true
  | String a s' => bool_decide (a ≠ c) && free_of c s'
  end.

End strings.

(** Go compares strings byte by byte: [x < y]. *)
Definition string_lt (x y : string) : bool := String.ltb x y.

(** [sort.Strings]. The order is total and antisymmetric, so the sorted
    permutation is unique and the algorithm does not matter. *)
Definition sort_Strings (l : list string) : list string := merge_sort String.le l.

(* ------------------------------------------------------------------ *)
(** ** Generic lemmas *)

Create HintDb go discriminated.
Create Rewrite HintDb go.

(** Split the disjunction or conjunction a boolean test stands for. *)
Ltac bsimpl :=
  repeat match goal with
  | H : Is_true _ |- _ => apply Is_true_eq_true in H
  | H : _ && _ = true |- _ => apply andb_prop in H as [? ?]
  | H : bool_decide _ = true |- _ => apply bool_decide_eq_true_1 in H
  | H : bool_decide _ = false |- _ => apply bool_decide_eq_false_1 in H
  | |- _ && _ = true => apply andb_true_intro; split
  | |- bool_decide _ = true => apply bool_decide_eq_true_2
  end.

(** Case on the scrutinee of every [match] in the hypotheses and the goal,
    discarding the contradictory branches. *)
Ltac case_matches := repeat (case_match; simplify_eq/=; try done).

Lemma bind_Ok {A B} (m : res A) (f : A → res B) b :
  m ≫= f = Ok b ↔ ∃ a, m = Ok a ∧ f a = Ok b.
Proof.
  destruct m as [a|e]; simpl; split; [by eauto|by intros (? & [= <-] & ?)|done|].
  by intros (? & ? & ?).
Qed.

Lemma wrapW_Ok {A} msg (r : res A) a : wrapW msg r = Ok a ↔ r = Ok a.
Proof. by destruct r. Qed.
Lemma wrapV_Ok {A} msg (r : res A) a : wrapV msg r = Ok a ↔ r = Ok a.
Proof. by destruct r. Qed.

Lemma res_mapM_Ok {A B} (f : A → res B) l k :
  res_mapM f l = Ok k ↔ Forall2 (λ x y, f x = Ok y) l k.
Proof.
  revert k; induction l as [|x l IH]; intros k; cbn [res_mapM].
  - split; [intros [= <-]; constructor | by inversion 1].
  - rewrite bind_Ok; split.
    + intros (y & ? & (ys & ?%IH & [= <-])%bind_Ok). by constructor.
    + inversion 1; subst. eexists; split; [done|].
      apply bind_Ok. eexists; split; [by apply IH | done].
Qed.

Section range_lemmas.
Context `{RangeOrder} {K V : Type} `{EqDecision K, !Countable K}.
Implicit Types (m : gmap K V) (s : gset K).

Lemma elem_of_range m k v : (k, v) ∈ range m ↔ m !! k = Some v.
Proof. by rewrite range_perm, elem_of_map_to_list. Qed.

Lemma NoDup_range_keys m : NoDup (range m).*1.
Proof. rewrite range_perm. apply NoDup_fst_map_to_list. Qed.

Lemma length_range m : length (range m) = size m.
Proof. by rewrite range_perm, length_map_to_list. Qed.

Lemma elem_of_range_keys m k : k ∈ (range m).*1 ↔ k ∈ dom m.
Proof.
  rewrite list_elem_of_fmap, elem_of_dom. split.
  - intros [[k' v] [-> Hv%elem_of_range]]. by eexists.
  - intros [v Hv]. exists (k, v). by rewrite elem_of_range.
Qed.
End range_lemmas.

Section range_set_lemmas.
Context `{RangeOrder} {K : Type} `{EqDecision K, !Countable K}.
Implicit Types s : gset K.

Lemma range_set_perm s : range_set s ≡ₚ elements s.
Proof.
  apply NoDup_Permutation; [apply NoDup_range_keys|apply NoDup_elements|].
  intros k. unfold range_set.
  by rewrite elem_of_range_keys, dom_gset_to_gmap, elem_of_elements.
Qed.

Lemma elem_of_range_set s k : k ∈ range_set s ↔ k ∈ s.
Proof. by rewrite range_set_perm, elem_of_elements. Qed.

Lemma NoDup_range_set s : NoDup (range_set s).
Proof. rewrite range_set_perm. apply NoDup_elements. Qed.
End range_set_lemmas.

(** *** Lists *)

(** Where an element lies in a concatenation. *)
Lemma app_split_r {A} (l1 l2 pre post : list A) x :
  x ∉ l1 → l1 ++ l2 = pre ++ x :: post → ∃ l, pre = l1 ++ l ∧ l2 = l ++ x :: post.
Proof.
  revert pre; induction l1 as [|y l1 IH]; intros pre Hx E; [by exists pre|].
  destruct pre as [|z pre]; simplify_eq/=; [set_solver|].
  destruct (IH pre) as (l & -> & ->); [set_solver|done|by exists l].
Qed.

Lemma app_split_l {A} (l1 l2 pre post : list A) x :
  x ∉ l2 → l1 ++ l2 = pre ++ x :: post → ∃ l, post = l ++ l2 ∧ l1 = pre ++ x :: l.
Proof.
  revert pre; induction l1 as [|y l1 IH]; intros pre Hx E; simplify_eq/=; [set_solver|].
  destruct pre as [|z pre]; simplify_eq/=; [by exists l1|].
  destruct (IH pre) as (l & -> & ->); [done..|by exists l].
Qed.

Lemma omap_nil {A B} (f : A → option B) (l : list A) :
  (∀ x, x ∈ l → f x = None) → omap f l = [].
Proof.
  induction l as [|x l IH]; intros Hl; [done|]. simpl.
  rewrite Hl by set_solver. apply IH. set_solver.
Qed.

Lemma filter_none {A} (P : A → Prop) `{∀ x, Decision (P x)} (l : list A) :
  (∀ x, x ∈ l → ¬ P x) → filter P l = [].
Proof.
  induction l as [|x l IH]; intros Hl; [done|]. rewrite filter_cons, decide_False by set_solver.
  apply IH. set_solver.
Qed.

Lemma filter_all {A} (P : A → Prop) `{∀ x, Decision (P x)} (l : list A) :
  (∀ x, x ∈ l → P x) → filter P l = l.
Proof.
  induction l as [|x l IH]; intros Hl; [done|]. rewrite filter_cons, decide_True by set_solver.
  rewrite IH by set_solver. done.
Qed.

Lemma last_filter_unique {A} `{EqDecision B} (f : A → B) (l : list A) x :
  NoDup (f <$> l) → x ∈ l → list.last (filter (λ y, f y = f x) l) = Some x.
Proof.
  induction l as [|y l IH]; intros Hnd Hx; [set_solver|].
  apply list.NoDup_cons in Hnd as [Hy Hnd]. rewrite filter_cons.
  apply elem_of_cons in Hx as [->|Hx].
  - rewrite decide_True by done. rewrite filter_none; [done|]. intros z Hz E.
    apply Hy. rewrite <- E. by apply list_elem_of_fmap_2.
  - rewrite decide_False; [by apply IH|]. intros E. apply Hy. rewrite E.
    by apply list_elem_of_fmap_2.
Qed.

(** *** Sorting *)

Lemma sort_Strings_perm l : sort_Strings l ≡ₚ l.
Proof. apply merge_sort_Permutation. Qed.

Lemma sort_Strings_sorted l : StronglySorted String.le (sort_Strings l).
Proof. apply StronglySorted_merge_sort; apply _. Qed.

(** Whatever order the elements arrive in, the sorted list is the same. *)
Lemma sort_Strings_proper l k : l ≡ₚ k → sort_Strings l = sort_Strings k.
Proof.
  intros Hp. apply (StronglySorted_unique String.le);
    [apply sort_Strings_sorted..|].
  by rewrite !sort_Strings_perm.
Qed.

#[export] Instance sort_Strings_Proper :
  Proper ((≡ₚ) ==> (=)) sort_Strings.
Proof. intros ???. by apply sort_Strings_proper. Qed.

Lemma elem_of_sort_Strings x l : x ∈ sort_Strings l ↔ x ∈ l.
Proof. by rewrite sort_Strings_perm. Qed.

(** The sorted images are the images of a permutation. *)
Lemma sort_Strings_fmap {A} (f : A → string) (l : list A) :
  ∃ k, sort_Strings (f <$> l) = f <$> k ∧ k ≡ₚ l.
Proof.
  destruct (Permutation_map_inv f l (sort_Strings_perm (f <$> l))) as (k & Hk & Hp).
  by exists k.
Qed.

(** *** Strings *)

Section string_lemmas.
Import strings.
Implicit Types (s t w : string) (c : ascii).

(** stdpp blocks [simpl] on [String.append]. *)
Lemma string_app_nil_l s : "" +:+ s = s.
Proof. done. Qed.
Lemma string_app_cons a s t : String a s +:+ t = String a (s +:+ t).
Proof. done. Qed.

Lemma string_app_nil_r s : s +:+ "" = s.
Proof. induction s as [|a s IH]; [done|]. by rewrite !string_app_cons, IH. Qed.

Lemma string_app_assoc s t w : (s +:+ t) +:+ w = s +:+ (t +:+ w).
Proof. induction s as [|a s IH]; [done|]. by rewrite !string_app_cons, IH. Qed.

Lemma string_length_app s t : String.length (s +:+ t) = String.length s + String.length t.
Proof. induction s as [|a s IH]; [done|]. rewrite string_app_cons. simpl. by rewrite IH. Qed.

Lemma free_of_app c s t : free_of c (s +:+ t) = free_of c s && free_of c t.
Proof.
  induction s as [|a s IH]; [done|]. rewrite string_app_cons. simpl.
  by rewrite IH, andb_assoc.
Qed.

(** Appending the same text on the right is injective. *)
Lemma string_app_inj_r s t w : s +:+ w = t +:+ w → s = t.
Proof.
  revert t; induction s as [|a s IH]; intros [|b t]; rewrite ?string_app_nil_l, ?string_app_cons;
    [done|..].
  - intros E%(f_equal String.length). simpl in E. rewrite string_length_app in E. lia.
  - intros E%(f_equal String.length). simpl in E. rewrite string_length_app in E. lia.
  - intros [= -> E]. f_equal. by apply IH.
Qed.

(** The last separator splits a text uniquely. *)
Lemma string_snoc_inj c (n m v w : string) :
  free_of c v → free_of c w → n +:+ String c v = m +:+ String c w → n = m ∧ v = w.
Proof.
  intros Hv Hw. revert m; induction n as [|a n IH]; intros [|b m];
    rewrite ?string_app_nil_l, ?string_app_cons.
  - by intros [= ->].
  - intros [= <- ->]. rewrite free_of_app in Hv. simpl in Hv.
    rewrite bool_decide_eq_false_2 in Hv by naive_solver.
    apply andb_True in Hv as [_ []].
  - intros [= -> <-]. rewrite free_of_app in Hw. simpl in Hw.
    rewrite bool_decide_eq_false_2 in Hw by naive_solver.
    apply andb_True in Hw as [_ []].
  - intros [= -> E]. apply IH in E as [-> ->]. done.
Qed.

Lemma string_get_app s t n :
  String.get (String.length s + n) (s +:+ t) = String.get n t.
Proof. induction s as [|a s IH]; [done|]. rewrite string_app_cons. simpl. apply IH. Qed.

Lemma Split_not_nil c s : Split c s ≠ [].
Proof. destruct s; simpl; [done|]. case_decide; [done|]. by destruct (Split c s). Qed.

Lemma Split_free c s : free_of c s → Split c s = [s].
Proof.
  induction s as [|a s IH]; simpl; [done|]. intros [Ha Hs]%andb_True.
  apply bool_decide_unpack in Ha. rewrite decide_False by done.
  by rewrite IH.
Qed.

Lemma Split_app c s t : free_of c s → Split c (s +:+ String c t) = s :: Split c t.
Proof.
  induction s as [|a s IH]; simpl; intros Hs.
  - by rewrite decide_True.
  - apply andb_True in Hs as [Ha Hs]. apply bool_decide_unpack in Ha.
    rewrite decide_False by done. by rewrite IH.
Qed.

Lemma Join_cons w ws sep : ws ≠ [] → Join (w :: ws) sep = w +:+ sep +:+ Join ws sep.
Proof. by destruct ws. Qed.

Lemma Split_snoc c (n v : string) :
  strings.free_of c v → strings.Split c (n +:+ String c v) = strings.Split c n ++ [v].
Proof.
  intros Hv. induction n as [|x n IH].
  - rewrite string_app_nil_l. cbn [strings.Split]. rewrite decide_True by done.
    by rewrite Split_free.
  - rewrite string_app_cons. cbn [strings.Split]. rewrite IH. case_decide; [done|].
    pose proof (Split_not_nil c n). by destruct (strings.Split c n).
Qed.

Lemma Join_snoc ws w sep : ws ≠ [] → strings.Join (ws ++ [w]) sep = strings.Join ws sep +:+ sep +:+ w.
Proof.
  induction ws as [|x ws IH]; [done|]. intros _. destruct ws as [|y ws]; [done|].
  cbn [app]. rewrite !Join_cons by done. change (y :: ws ++ [w]) with ((y :: ws) ++ [w]).
  rewrite IH by done. rewrite (Join_cons x) by done. by rewrite !string_app_assoc.
Qed.

Lemma Cut_free c s : strings.free_of c s → strings.Cut c s = (s, "", false).
Proof.
  induction s as [|a s IH]; [done|]. cbn [strings.free_of strings.Cut]. intros [H1%bool_decide_unpack H2]%andb_prop_elim.
  rewrite decide_False by done. by rewrite IH.
Qed.

Lemma Cut_app c s t : strings.free_of c s → strings.Cut c (s +:+ String c t) = (s, t, true).
Proof.
  induction s as [|a s IH]; intros H.
  - cbn [String.app]. change ("" +:+ String c t) with (String c t). cbn [strings.Cut]. by rewrite decide_True.
  - cbn [strings.free_of] in H. apply andb_prop_elim in H as [H1%bool_decide_unpack H2].
    rewrite string_app_cons. cbn [strings.Cut]. rewrite decide_False by done. by rewrite IH.
Qed.

(** Joining the pieces gives the text back. *)
Lemma Join_Split c s : Join (Split c s) (String c "") = s.
Proof.
  induction s as [|a s IH]; [done|]. cbn [Split]. case_decide as Ha.
  - rewrite Join_cons by apply Split_not_nil. subst. simpl. by rewrite IH.
  - pose proof (Split_not_nil c s).
    destruct (Split c s) as [|w [|w' ws]]; [done|by simplify_eq/=..].
Qed.

(** Splitting a joined text gives the pieces back, when no piece holds
    the separator. *)
Lemma Split_Join c ws :
  ws ≠ [] → Forall (free_of c) ws → Split c (Join ws (String c "")) = ws.
Proof.
  induction ws as [|w ws IH]; [done|]. intros _ [Hw Hws]%Forall_cons_1.
  destruct ws as [|w' ws]; [by apply Split_free|].
  rewrite Join_cons by done. rewrite string_app_cons, string_app_nil_l.
  rewrite Split_app by done. by rewrite IH.
Qed.

(** A joined list of non-empty pieces is empty only for no pieces. *)
Lemma Join_empty ws sep : Forall (λ w, w ≠ "") ws → Join ws sep = "" → ws = [].
Proof.
  destruct ws as [|w ws]; [done|]. intros [Hw _]%Forall_cons_1.
  destruct ws; [done|]. rewrite Join_cons by done. by destruct w.
Qed.

Lemma Join_nonempty ws sep w : w ∈ ws → w ≠ "" → sep ≠ "" → Join ws sep ≠ "".
Proof.
  destruct ws as [|x [|y ws]]; [set_solver|..].
  - by intros ->%list_elem_of_singleton.
  - intros _ _ Hsep. rewrite Join_cons by done. destruct x; [|done].
    rewrite string_app_nil_l. by destruct sep.
Qed.

Lemma Cut_spec c s a b found :
  Cut c s = (a, b, found) →
  free_of c a ∧ (if found then s = a +:+ String c b else s = a ∧ b = "").
Proof.
  revert a b found; induction s as [|x s IH]; simpl; intros a b found.
  - by intros [= <- <- <-].
  - case_decide; [intros [= <- <- <-]; by subst|].
    destruct (Cut c s) as [[a' b'] f'] eqn:E. intros [= <- <- <-].
    destruct (IH _ _ _ eq_refl) as [Ha Hr]. split.
    + simpl. rewrite bool_decide_eq_true_2 by done. done.
    + destruct f'; [by subst|by destruct Hr as [-> ->]].
Qed.

Lemma strip_spec s p t : strip s p = Some t ↔ s = p +:+ t.
Proof.
  revert s; induction p as [|a p IH]; intros [|b s]; cbn [strip];
    rewrite ?string_app_nil_l, ?string_app_cons; [naive_solver..|].
  case_decide; rewrite ?IH; split; congruence.
Qed.

Lemma HasPrefix_strip s p : HasPrefix s p = bool_decide (is_Some (strip s p)).
Proof.
  revert s; induction p as [|a p IH]; intros [|b s]; cbn [strip HasPrefix]; [done..|].
  rewrite IH. case_bool_decide; [rewrite decide_True by done|rewrite decide_False by done]; done.
Qed.

Lemma HasPrefix_spec s p : HasPrefix s p ↔ ∃ t, s = p +:+ t.
Proof.
  rewrite HasPrefix_strip, bool_decide_spec.
  split; intros [t Ht]; exists t; by apply strip_spec.
Qed.

Lemma CutString_spec s p a b : CutString s p = Some (a, b) → s = a +:+ p +:+ b.
Proof.
  revert a b; induction s as [|c s IH]; intros a b; cbn [CutString].
  - destruct (strip "" p) eqn:E; [|done]. apply strip_spec in E. by intros [= <- <-].
  - destruct (strip (String c s) p) eqn:E.
    + apply strip_spec in E. by intros [= <- <-].
    + destruct (CutString s p) as [[a' b']|] eqn:E'; [|done].
      intros [= <- <-]. by rewrite (IH _ _ eq_refl), !string_app_cons.
Qed.
End string_lemmas.

#[export] Hint Resolve sort_Strings_perm sort_Strings_sorted Split_not_nil : go.
#[export] Hint Rewrite @elem_of_range @elem_of_range_set @elem_of_range_keys
  elem_of_sort_Strings @bind_Ok @wrapW_Ok @wrapV_Ok : go.
