(* ===== verification/Encoding.v ===== *)
(** * Go's [crypto/sha256] and [encoding/base64], as the repository uses them

    [sha256.Sum256] (FIPS 180-4) on byte lists and the two base64 encoders:
    [base64.RawURLEncoding] (URL alphabet, no padding) for applyset ids and
    [base64.StdEncoding] (padded) for Secret data. Bytes are [Z] in
    [0 .. 255]; 32-bit words are [Z] masked after each addition. *)

From S2P Require Import Prelude.
From stdpp Require Import options.
Open Scope Z_scope.

(** The bytes of a Go string. *)
Fixpoint string_bytes (s : string) : list Z :=
  match s with
  | "" => []
  | String c s' => Z.of_N (N_of_ascii c) :: string_bytes s'
  end.

Module sha256.

Definition m32 (x : Z) : Z := Z.land x 0xFFFFFFFF.
Definition rotr (x n : Z) : Z := Z.lor (Z.shiftr x n) (m32 (Z.shiftl x (32 - n))).
Definition Ch (x y z : Z) : Z := Z.lxor (Z.land x y) (Z.land (Z.lxor x 0xFFFFFFFF) z).
Definition Maj (x y z : Z) : Z :=
  Z.lxor (Z.lxor (Z.land x y) (Z.land x z)) (Z.land y z).
Definition Sigma0 (x : Z) : Z := Z.lxor (Z.lxor (rotr x 2) (rotr x 13)) (rotr x 22).
Definition Sigma1 (x : Z) : Z := Z.lxor (Z.lxor (rotr x 6) (rotr x 11)) (rotr x 25).
Definition sigma0 (x : Z) : Z := Z.lxor (Z.lxor (rotr x 7) (rotr x 18)) (Z.shiftr x 3).
Definition sigma1 (x : Z) : Z := Z.lxor (Z.lxor (rotr x 17) (rotr x 19)) (Z.shiftr x 10).

(** The largest [r] below [2^n] with [r^3 <= x], bit by bit. *)
Fixpoint cube_root (n : nat) (r x : Z) : Z :=
  match n with
  | O => r
  | S n =>
      let r' := Z.lor r (Z.shiftl 1 (Z.of_nat n)) in
      cube_root n (if r' * r' * r' <=? x then r' else r) x
  end.

Definition is_prime (p : Z) : bool :=
  forallb (λ d, negb (p mod Z.of_nat d =? 0)) (seq 2 (Z.to_nat (Z.sqrt p - 1))).
Definition primes : list Z := List.filter is_prime (map Z.of_nat (seq 2 310)).

(** The round constants: the first 32 bits of the fractional parts of the cube
    roots of the first 64 primes. *)
Definition K : list Z :=
  [1116352408; 1899447441; 3049323471; 3921009573; 961987163; 1508970993; 2453635748;
   2870763221; 3624381080; 310598401; 607225278; 1426881987; 1925078388; 2162078206;
   2614888103; 3248222580; 3835390401; 4022224774; 264347078; 604807628; 770255983;
   1249150122; 1555081692; 1996064986; 2554220882; 2821834349; 2952996808; 3210313671;
   3336571891; 3584528711; 113926993; 338241895; 666307205; 773529912; 1294757372;
   1396182291; 1695183700; 1986661051; 2177026350; 2456956037; 2730485921; 2820302411;
   3259730800; 3345764771; 3516065817; 3600352804; 4094571909; 275423344; 430227734;
   506948616; 659060556; 883997877; 958139571; 1322822218; 1537002063; 1747873779;
   1955562222; 2024104815; 2227730452; 2361852424; 2428436474; 2756734187; 3204031479;
   3329325298].

Example K_cube_roots : K = map (λ p, m32 (cube_root 35 0 (Z.shiftl p 96))) primes.
Proof. vm_compute. reflexivity. Qed.

Record state := mkState { ra : Z; rb : Z; rc : Z; rd : Z; re : Z; rf : Z; rg : Z; rh : Z }.

(** The initial hash value: the first 32 bits of the fractional parts of the
    square roots of the first eight primes. *)
Definition H0 : state :=
  mkState 1779033703 3144134277 1013904242 2773480762 1359893119
    2600822924 528734635 1541459225.

Example H0_square_roots :
  H0 = let h p := m32 (Z.sqrt (Z.shiftl p 64)) in
       mkState (h 2) (h 3) (h 5) (h 7) (h 11) (h 13) (h 17) (h 19).
Proof. vm_compute. reflexivity. Qed.

(** The message followed by 0x80, zeros and its length in bits. *)
Definition pad (msg : list Z) : list Z :=
  let n := Z.of_nat (List.length msg) in
  msg ++ [0x80] ++ replicate (Z.to_nat ((55 - n) mod 64)) 0
      ++ map (λ i, Z.land (Z.shiftr (8 * n) i) 255) [56; 48; 40; 32; 24; 16; 8; 0].

Fixpoint words (l : list Z) : list Z :=
  match l with
  | a :: b :: c :: d :: l =>
      Z.lor (Z.lor (Z.shiftl a 24) (Z.shiftl b 16)) (Z.lor (Z.shiftl c 8) d) :: words l
  | _ => []
  end.

(** [ws] is the schedule so far, latest word first. *)
Fixpoint extend (n : nat) (ws : list Z) : list Z :=
  match n with
  | O => ws
  | S n =>
      let w i := default 0 (ws !! i) in
      extend n (m32 (sigma1 (w 1%nat) + w 6%nat + sigma0 (w 14%nat) + w 15%nat) :: ws)
  end.

Definition schedule (block : list Z) : list Z := reverse (extend 48 (reverse (words block))).

Definition round (s : state) (kw : Z * Z) : state :=
  let t1 := rh s + Sigma1 (re s) + Ch (re s) (rf s) (rg s) + kw.1 + kw.2 in
  let t2 := Sigma0 (ra s) + Maj (ra s) (rb s) (rc s) in
  mkState (m32 (t1 + t2)) (ra s) (rb s) (rc s) (m32 (rd s + t1)) (re s) (rf s) (rg s).

Definition compress (s : state) (block : list Z) : state :=
  let t := foldl round s (combine K (schedule block)) in
  mkState (m32 (ra s + ra t)) (m32 (rb s + rb t)) (m32 (rc s + rc t)) (m32 (rd s + rd t))
          (m32 (re s + re t)) (m32 (rf s + rf t)) (m32 (rg s + rg t)) (m32 (rh s + rh t)).

Fixpoint blocks (n : nat) (l : list Z) : list (list Z) :=
  match n with O => [] | S n => take 64 l :: blocks n (drop 64 l) end.

Definition word_bytes (w : Z) : list Z :=
  [Z.land (Z.shiftr w 24) 255; Z.land (Z.shiftr w 16) 255;
   Z.land (Z.shiftr w 8) 255; Z.land w 255].

Definition Sum256 (msg : list Z) : list Z :=
  let p := pad msg in
  let s := foldl compress H0 (blocks (Nat.div (List.length p) 64) p) in
  word_bytes (ra s) ++ word_bytes (rb s) ++ word_bytes (rc s) ++ word_bytes (rd s)
  ++ word_bytes (re s) ++ word_bytes (rf s) ++ word_bytes (rg s) ++ word_bytes (rh s).

Lemma length_Sum256 msg : List.length (Sum256 msg) = 32%nat.
Proof. reflexivity. Qed.

Definition hex_digit (n : Z) : string :=
  match String.get (Z.to_nat n) "0123456789abcdef" with
  | Some c => String c "" | None => "" end.
Definition hex (l : list Z) : string :=
  strings.Join (map (λ b, hex_digit (Z.shiftr b 4) +:+ hex_digit (Z.land b 15)) l) "".

(** The digest of "abc" that FIPS 180-4 gives. *)
Example Sum256_abc :
  hex (Sum256 (string_bytes "abc"))
  = "ba7816bf8f01cfea414140de5dae2223b00361a396177a9cb410ff61f20015ad".
Proof. vm_compute. reflexivity. Qed.

End sha256.

Module base64.

Definition encodeStd : string :=
  "ABCDEFGHIJKLMNOPQRSTUVWXYZabcdefghijklmnopqrstuvwxyz0123456789+/".
Definition encodeURL : string :=
  "ABCDEFGHIJKLMNOPQRSTUVWXYZabcdefghijklmnopqrstuvwxyz0123456789-_".

(** The digit of the six low bits of [x]. *)
Definition digit (alphabet : string) (x : Z) : ascii :=
  default "A"%char (String.get (Z.to_nat (Z.land x 63)) alphabet).

(** [padding] is "=" for the padded encoders and "" for the raw ones. *)
Fixpoint encode (alphabet padding : string) (l : list Z) : string :=
  match l with
  | a :: b :: c :: l =>
      String (digit alphabet (Z.shiftr a 2))
      (String (digit alphabet (Z.lor (Z.shiftl a 4) (Z.shiftr b 4)))
      (String (digit alphabet (Z.lor (Z.shiftl b 2) (Z.shiftr c 6)))
      (String (digit alphabet c) (encode alphabet padding l))))
  | [a; b] =>
      String (digit alphabet (Z.shiftr a 2))
      (String (digit alphabet (Z.lor (Z.shiftl a 4) (Z.shiftr b 4)))
      (String (digit alphabet (Z.shiftl b 2)) padding))
  | [a] =>
      String (digit alphabet (Z.shiftr a 2))
      (String (digit alphabet (Z.shiftl a 4)) (padding +:+ padding))
  | [] => ""
  end.

Definition RawURLEncoding (l : list Z) : string := encode encodeURL "" l.
Definition StdEncoding (l : list Z) : string := encode encodeStd "=" l.

Example StdEncoding_ex : StdEncoding (string_bytes "hello") = "aGVsbG8=".
Proof. vm_compute. reflexivity. Qed.

(** Every byte of a string satisfies a test. *)
Fixpoint all_chars (p : ascii → bool) (s : string) : bool :=
  match s with "" => true | String c s' => p c && all_chars p s' end.

Lemma all_chars_app p s t : all_chars p (s +:+ t) = all_chars p s && all_chars p t.
Proof.
  induction s as [|a s IH]; [done|]. rewrite string_app_cons. simpl.
  by rewrite IH, andb_assoc.
Qed.

Lemma all_chars_get p s n c : all_chars p s → String.get n s = Some c → p c.
Proof.
  revert n; induction s as [|a s IH]; intros [|n]; simpl; intros H Hg; simplify_eq;
    apply andb_True in H as [??]; eauto.
Qed.

(** Digits are characters of the alphabet. *)
Lemma digit_all p alphabet x :
  all_chars p alphabet → p "A"%char → p (digit alphabet x).
Proof.
  intros Hp HA. unfold digit. destruct (String.get _ _) eqn:E; [|done].
  by eapply all_chars_get.
Qed.

Lemma encode_all p alphabet padding l :
  all_chars p alphabet → p "A"%char → all_chars p padding →
  all_chars p (encode alphabet padding l).
Proof.
  intros Ha HA Hp.
  induction l as [l IH] using (induction_ltof1 _ List.length). unfold ltof in IH.
  destruct l as [|a [|b [|c l]]]; cbn [encode all_chars];
    rewrite ?all_chars_app, ?andb_True; repeat split; auto using digit_all.
  apply IH. simpl. lia.
Qed.

Lemma length_encode_raw alphabet l :
  String.length (encode alphabet "" l) = Nat.div (4 * List.length l + 2) 3.
Proof.
  induction l as [l IH] using (induction_ltof1 _ List.length). unfold ltof in IH.
  destruct l as [|a [|b [|c l]]]; [done..|].
  cbn [encode String.length List.length]. rewrite IH by (simpl; lia).
  replace (4 * S (S (S (List.length l))) + 2)%nat
    with ((4 * List.length l + 2) + 4 * 3)%nat by lia.
  rewrite Nat.div_add by lia. lia.
Qed.
End base64.
