(* ===== verification/Kube.v ===== *)
(** * Kubernetes data types shared by the components

    The structs of [k8s.io/apimachinery] that the code passes around, as
    records with the same fields, the [meta.RESTMapper] interface the
    components are handed, and the environment monad in which the code talks
    to the API server. These packages are not part of the repository: their
    functions are operations of a class whose laws state what the packages
    document. *)

From S2P Require Import Prelude.
From stdpp Require Import options.

(* ------------------------------------------------------------------ *)
(** ** [schema] and [types] *)

Record GroupKind := mkGK { gk_Group : string; gk_Kind : string }.
Record GroupVersion := mkGV { gv_Group : string; gv_Version : string }.
Record GroupVersionKind :=
  mkGVK { gvk_Group : string; gvk_Version : string; gvk_Kind : string }.
Record GroupVersionResource :=
  mkGVR { gvr_Group : string; gvr_Version : string; gvr_Resource : string }.
Record GroupResource := mkGR { gr_Group : string; gr_Resource : string }.
Record NamespacedName := mkNN { nn_Namespace : string; nn_Name : string }.

#[export] Instance GroupKind_eq_dec : EqDecision GroupKind.
Proof. solve_decision. Defined.
#[export] Instance GroupVersion_eq_dec : EqDecision GroupVersion.
Proof. solve_decision. Defined.
#[export] Instance GroupVersionKind_eq_dec : EqDecision GroupVersionKind.
Proof. solve_decision. Defined.
#[export] Instance GroupVersionResource_eq_dec : EqDecision GroupVersionResource.
Proof. solve_decision. Defined.
#[export] Instance GroupResource_eq_dec : EqDecision GroupResource.
Proof. solve_decision. Defined.
#[export] Instance NamespacedName_eq_dec : EqDecision NamespacedName.
Proof. solve_decision. Defined.

#[export] Instance GroupKind_countable : Countable GroupKind.
Proof.
  apply (inj_countable' (λ g, (gk_Group g, gk_Kind g)) (λ p, mkGK p.1 p.2)).
  by intros [].
Defined.
#[export] Instance GroupVersion_countable : Countable GroupVersion.
Proof.
  apply (inj_countable' (λ g, (gv_Group g, gv_Version g)) (λ p, mkGV p.1 p.2)).
  by intros [].
Defined.
#[export] Instance GroupVersionKind_countable : Countable GroupVersionKind.
Proof.
  apply (inj_countable' (λ g, (gvk_Group g, gvk_Version g, gvk_Kind g))
    (λ p, mkGVK p.1.1 p.1.2 p.2)).
  by intros [].
Defined.
#[export] Instance GroupVersionResource_countable : Countable GroupVersionResource.
Proof.
  apply (inj_countable' (λ g, (gvr_Group g, gvr_Version g, gvr_Resource g))
    (λ p, mkGVR p.1.1 p.1.2 p.2)).
  by intros [].
Defined.
#[export] Instance GroupResource_countable : Countable GroupResource.
Proof.
  apply (inj_countable' (λ g, (gr_Group g, gr_Resource g)) (λ p, mkGR p.1 p.2)).
  by intros [].
Defined.
#[export] Instance NamespacedName_countable : Countable NamespacedName.
Proof.
  apply (inj_countable' (λ g, (nn_Namespace g, nn_Name g)) (λ p, mkNN p.1 p.2)).
  by intros [].
Defined.

(** The projections [gvk.GroupKind()], [gvr.GroupResource()], ... *)
Definition GVK_GroupKind (g : GroupVersionKind) : GroupKind :=
  mkGK (gvk_Group g) (gvk_Kind g).
Definition GVK_GroupVersion (g : GroupVersionKind) : GroupVersion :=
  mkGV (gvk_Group g) (gvk_Version g).
Definition GV_WithKind (gv : GroupVersion) (kind : string) : GroupVersionKind :=
  mkGVK (gv_Group gv) (gv_Version gv) kind.
Definition GV_WithResource (gv : GroupVersion) (r : string) : GroupVersionResource :=
  mkGVR (gv_Group gv) (gv_Version gv) r.
Definition GVR_GroupResource (g : GroupVersionResource) : GroupResource :=
  mkGR (gvr_Group g) (gvr_Resource g).
Definition GVR_GroupVersion (g : GroupVersionResource) : GroupVersion :=
  mkGV (gvr_Group g) (gvr_Version g).
Definition GR_WithVersion (g : GroupResource) (v : string) : GroupVersionResource :=
  mkGVR (gr_Group g) v (gr_Resource g).

(** The text forms of these structs, defined in apimachinery: operations of
    a class, with the laws the code relies on. [ParseGroupKind] documents
    that it reads a string of the form [kind.group]; [String] writes it. *)
Class SchemaText := {
  GK_String : GroupKind → string;
  GV_String : GroupVersion → string;
  ParseGroupKind : string → GroupKind;
  ParseGroupResource : string → GroupResource;
  (** [metav1.FormatLabelSelector] of a [MatchLabels] selector, and of one
      [Exists] requirement on a label key *)
  FormatMatchLabels : gmap string string → string;
  FormatExists : string → string
}.

(** What is relied on for the group-kinds a cluster can serve: their text
    is not empty, holds no comma, and reads back as the same group-kind. *)
Record gk_text_ok `{SchemaText} (gk : GroupKind) : Prop := {
  gk_text_parse : ParseGroupKind (GK_String gk) = gk;
  gk_text_nonempty : GK_String gk ≠ "";
  gk_text_free : strings.free_of "," (GK_String gk)
}.

(* ------------------------------------------------------------------ *)
(** ** [meta]: scopes, mappings, the RESTMapper interface *)

(** [meta.RESTScope] is an interface with a method [Name]. The package has
    two values of it; another implementation may answer any name, and is
    then a different value from [meta.RESTScopeNamespace]. *)
Inductive RESTScope :=
  | RESTScopeNamespace
  | RESTScopeRoot
  | RESTScopeOther (name : string).

#[export] Instance RESTScope_eq_dec : EqDecision RESTScope.
Proof. solve_decision. Defined.

Definition RESTScopeNameNamespace : string := "namespace".
Definition RESTScopeNameRoot : string := "root".

Definition Scope_Name (s : RESTScope) : string :=
  match s with
  | RESTScopeNamespace => RESTScopeNameNamespace
  | RESTScopeRoot => RESTScopeNameRoot
  | RESTScopeOther n => n
  end.

Record RESTMapping := mkMapping {
  rm_Resource : GroupVersionResource;
  rm_GroupVersionKind : GroupVersionKind;
  rm_Scope : RESTScope
}.

#[export] Instance RESTMapping_eq_dec : EqDecision RESTMapping.
Proof. solve_decision. Defined.

(** The two methods of [meta.RESTMapper] the code calls. Within one run the mapper
    gives one answer for each question; one that discovers new kinds between two
    calls is not covered. ([RestMapper] models the repository's own mapper with
    its state.) *)
Class RESTMapper := {
  mapper_RESTMapping : GroupKind → list string → res RESTMapping;
  mapper_KindFor : GroupVersionResource → res GroupVersionKind
}.

(** A mapper that answers for the group and kind it was asked about. *)
Definition mapper_sound (M : RESTMapper) : Prop :=
  ∀ gk vs m, mapper_RESTMapping gk vs = Ok m →
    GVK_GroupKind (rm_GroupVersionKind m) = gk.

(* ------------------------------------------------------------------ *)
(** ** Objects and their metadata *)

(** The metadata of an object that the code reads and writes through
    [metav1.Object]; [om_payload] stands for everything else. A nil Go map
    and an empty one are both [∅]: the code reads a nil map as empty and
    replaces it before writing. *)
Record Object := mkObject {
  o_gvk : GroupVersionKind;
  o_namespace : string;
  o_name : string;
  o_uid : string;
  o_labels : gmap string string;
  o_annotations : gmap string string;
  o_payload : string
}.

Definition with_labels (l : gmap string string) (o : Object) : Object :=
  mkObject (o_gvk o) (o_namespace o) (o_name o) (o_uid o) l (o_annotations o) (o_payload o).
Definition with_annotations (a : gmap string string) (o : Object) : Object :=
  mkObject (o_gvk o) (o_namespace o) (o_name o) (o_uid o) (o_labels o) a (o_payload o).

#[export] Instance Object_eq_dec : EqDecision Object.
Proof. solve_decision. Defined.

(** A [runtime.Object]: [meta.Accessor] answers its metadata, or an error for
    a type without metadata. *)
Inductive RuntimeObject :=
  | Accessible (o : Object)
  | Inaccessible (gvk : GroupVersionKind).

#[export] Instance RuntimeObject_eq_dec : EqDecision RuntimeObject.
Proof. solve_decision. Defined.

Definition RuntimeObject_gvk (r : RuntimeObject) : GroupVersionKind :=
  match r with Accessible o => o_gvk o | Inaccessible g => g end.

Definition meta_Accessor (r : RuntimeObject) : res Object :=
  match r with
  | Accessible o => Ok o
  | Inaccessible _ => Err (Errorf "object does not implement the Object interfaces")
  end.

(* ------------------------------------------------------------------ *)
(** ** Talking to the API server *)

Record PatchOptions := mkPatchOptions { po_FieldManager : string; po_Force : option bool }.
Record DeleteOptions := mkDeleteOptions {
  do_GracePeriodSeconds : option Z;
  do_PropagationPolicy : option string;
  do_DryRun : list string
}.

(** The API server behind the dynamic client and the controller-runtime
    client: any state machine. Nothing is assumed about its answers. *)
Class Server (W : Type) := {
  srv_List : GroupVersionResource → string → string → W → W * res (list Object);
  srv_Patch : GroupVersionResource → string → string → string → PatchOptions →
              W → W * res Object;
  srv_Delete : GroupVersionResource → string → string → DeleteOptions →
               W → W * option error;
  srv_Update : Object → W → W * res Object
}.

(** The requests sent, with their answers, oldest first. *)
Inductive Event :=
  | EvList (gvr : GroupVersionResource) (ns selector : string) (r : res (list Object))
  | EvPatch (gvr : GroupVersionResource) (ns name body : string) (opts : PatchOptions)
            (r : res Object)
  | EvDelete (gvr : GroupVersionResource) (ns name : string) (opts : DeleteOptions)
             (r : option error)
  | EvUpdate (o : Object) (r : res Object).

Record Env (W : Type) := mkEnv { world : W; log : list Event }.
Arguments mkEnv {W} _ _.
Arguments world {W} _.
Arguments log {W} _.

(** Code that sends requests. *)
Definition M (W A : Type) : Type := Env W → A * Env W.

#[export] Instance M_ret {W} : MRet (M W) := λ _ a e, (a, e).
#[export] Instance M_bind {W} : MBind (M W) := λ _ _ f m e, let '(a, e') := m e in f a e'.

Section requests.
Context {W : Type} `{Server W}.

Definition client_List (gvr : GroupVersionResource) (ns selector : string) :
    M W (res (list Object)) := λ e,
  let '(w, r) := srv_List gvr ns selector (world e) in
  (r, mkEnv w (log e ++ [EvList gvr ns selector r])).

Definition client_Patch (gvr : GroupVersionResource) (ns name body : string)
    (opts : PatchOptions) : M W (res Object) := λ e,
  let '(w, r) := srv_Patch gvr ns name body opts (world e) in
  (r, mkEnv w (log e ++ [EvPatch gvr ns name body opts r])).

Definition client_Delete (gvr : GroupVersionResource) (ns name : string)
    (opts : DeleteOptions) : M W (option error) := λ e,
  let '(w, r) := srv_Delete gvr ns name opts (world e) in
  (r, mkEnv w (log e ++ [EvDelete gvr ns name opts r])).

(** A successful update answers the object as the server stored it; the
    client decodes the answer into the object it was given. *)
Definition client_Update (o : Object) : M W (res Object) := λ e,
  let '(w, r) := srv_Update o (world e) in
  (r, mkEnv w (log e ++ [EvUpdate o r])).
End requests.

(** *** Reasoning about the requests a computation sends

    [sends m Q]: from every environment, [m] appends some requests to the log
    and ends with an answer, and [Q] relates the two. The server's state is
    left open, so a [sends] holds whatever the server answers. *)
Definition sends {W A} (m : M W A) (Q : A → list Event → Prop) : Prop :=
  ∀ e, ∃ a new w, m e = (a, mkEnv w (log e ++ new)) ∧ Q a new.

Section sends_lemmas.
Context {W : Type} `{Server W}.

Lemma sends_ret {A} (a : A) (Q : A → list Event → Prop) : Q a [] → sends (mret a : M W A) Q.
Proof. intros HQ [w l]. exists a, [], w. by rewrite app_nil_r. Qed.

Lemma sends_bind {A B} (m : M W A) (f : A → M W B) (P : A → list Event → Prop) Q :
  sends m P → (∀ a new, P a new → sends (f a) (λ b new', Q b (new ++ new'))) →
  sends (m ≫= f) Q.
Proof.
  intros Hm Hf e. destruct (Hm e) as (a & new & w & E & HP).
  destruct (Hf a new HP (mkEnv w (log e ++ new))) as (b & new' & w' & E' & HQ).
  exists b, (new ++ new'), w'. split; [|done].
  unfold mbind, M_bind. rewrite E, E'. simpl. by rewrite (assoc (++)).
Qed.

Lemma sends_mono {A} (m : M W A) (P Q : A → list Event → Prop) :
  sends m P → (∀ a new, P a new → Q a new) → sends m Q.
Proof. intros Hm HPQ e. destruct (Hm e) as (a & new & w & E & HP). exists a, new, w. auto. Qed.

Lemma sends_and {A} (m : M W A) (P Q : A → list Event → Prop) :
  sends m P → sends m Q → sends m (λ a new, P a new ∧ Q a new).
Proof.
  intros HP HQ e. destruct (HP e) as (a & new & w & E & ?).
  destruct (HQ e) as (a' & new' & w' & E' & ?). rewrite E in E'. simplify_eq. by exists a', new', w'.
Qed.

Lemma sends_List gvr ns sel :
  sends (client_List (W := W) gvr ns sel) (λ r new, new = [EvList gvr ns sel r]).
Proof. intros e. unfold client_List. destruct (srv_List _ _ _ _) as [w r]. by exists r, [EvList gvr ns sel r], w. Qed.
Lemma sends_Patch gvr ns name body opts :
  sends (client_Patch (W := W) gvr ns name body opts)
    (λ r new, new = [EvPatch gvr ns name body opts r]).
Proof. intros e. unfold client_Patch. destruct (srv_Patch _ _ _ _ _ _) as [w r]. by exists r, [EvPatch gvr ns name body opts r], w. Qed.
Lemma sends_Delete gvr ns name opts :
  sends (client_Delete (W := W) gvr ns name opts) (λ r new, new = [EvDelete gvr ns name opts r]).
Proof. intros e. unfold client_Delete. destruct (srv_Delete _ _ _ _ _) as [w r]. by exists r, [EvDelete gvr ns name opts r], w. Qed.
Lemma sends_Update o :
  sends (client_Update (W := W) o) (λ r new, new = [EvUpdate o r]).
Proof. intros e. unfold client_Update. destruct (srv_Update _ _) as [w r]. by exists r, [EvUpdate o r], w. Qed.

(** What holds of every run holds of this one. *)
Lemma sends_run {A} (m : M W A) Q e :
  sends m Q → ∃ new, log (m e).2 = log e ++ new ∧ Q (m e).1 new.
Proof. intros Hm. destruct (Hm e) as (a & new & w & -> & HQ). by exists new. Qed.
End sends_lemmas.

(** Goroutines started for the tasks [0 .. n-1] and waited for: they send
    their requests in some order. *)
Class Scheduler := {
  sched : nat → list nat;
  sched_perm n : sched n ≡ₚ seq 0 n
}.

Definition in_order_sched : Scheduler :=
  {| sched := seq 0; sched_perm := λ n, reflexivity _ |}.
Definition reversed_sched : Scheduler :=
  {| sched := λ n, reverse (seq 0 n); sched_perm := λ n, reverse_Permutation _ |}.

(** [for k, v := range src { dst[k] = v }]. *)
Definition merge_into (src dst : gmap string string) : gmap string string := src ∪ dst.

Lemma merge_into_fold `{RangeOrder} (src dst : gmap string string) :
  foldl (λ m kv, <[kv.1 := kv.2]> m) dst (range src) = merge_into src dst.
Proof.
  unfold merge_into. assert (NoDup (range src).*1) as Hnd by apply NoDup_range_keys.
  rewrite <- (list_to_map_to_list src) at 2.
  rewrite <- (list_to_map_proper (range src) (map_to_list src)) by (done || apply range_perm).
  revert dst. induction (range src) as [|[k v] l IH]; intros dst; simpl.
  - by rewrite (left_id_L ∅ (∪)).
  - apply list.NoDup_cons in Hnd as [Hk Hnd]. rewrite IH by done.
    rewrite <- insert_union_r, <- insert_union_l; [done|].
    apply not_elem_of_list_to_map_1. done.
Qed.

(* ------------------------------------------------------------------ *)
(** ** Concrete instances, for the examples *)

(** [kind.group], or [kind] for the core group; [group/version]. *)
Definition example_text : SchemaText := {|
  GK_String gk := if decide (gk_Group gk = "") then gk_Kind gk
                  else gk_Kind gk +:+ "." +:+ gk_Group gk;
  GV_String gv := if decide (gv_Group gv = "") then gv_Version gv
                  else gv_Group gv +:+ "/" +:+ gv_Version gv;
  ParseGroupKind s := let '(kind, group, _) := strings.Cut "." s in mkGK group kind;
  ParseGroupResource s := let '(resource, group, _) := strings.Cut "." s in mkGR group resource;
  FormatMatchLabels m := strings.Join ((λ kv, kv.1 +:+ "=" +:+ kv.2) <$> map_to_list m) ",";
  FormatExists k := k
|}.

(** A mapper that knows Deployments, ConfigMaps, Namespaces and one custom
    resource type, the parent in the examples. *)
Definition example_RESTMapping (gk : GroupKind) : res RESTMapping :=
  if decide (gk = mkGK "apps" "Deployment") then
    Ok (mkMapping (mkGVR "apps" "v1" "deployments") (mkGVK "apps" "v1" "Deployment")
          RESTScopeNamespace)
  else if decide (gk = mkGK "" "ConfigMap") then
    Ok (mkMapping (mkGVR "" "v1" "configmaps") (mkGVK "" "v1" "ConfigMap") RESTScopeNamespace)
  else if decide (gk = mkGK "" "Namespace") then
    Ok (mkMapping (mkGVR "" "v1" "namespaces") (mkGVK "" "v1" "Namespace") RESTScopeRoot)
  else if decide (gk = mkGK "example.org" "Guestbook") then
    Ok (mkMapping (mkGVR "example.org" "v1" "guestbooks") (mkGVK "example.org" "v1" "Guestbook")
          RESTScopeNamespace)
  else Err (Errorf "no match").

Definition example_mapper : RESTMapper := {|
  mapper_RESTMapping gk _ := example_RESTMapping gk;
  mapper_KindFor _ := Err (Errorf "no match")
|}.

(** A small cluster: the objects by resource, namespace and name. A list
    request selects by one [key=value] pair; a patch stores an object whose
    part-of label is the request's body; deletes are refused on demand. *)
Definition example_world : Type := gmap (GroupVersionResource * string * string) Object.

Definition example_selects (ns selector : string) (gvr : GroupVersionResource)
    (entry : GroupVersionResource * string * string * Object) : bool :=
  let '(gvr', ns', _, o) := entry in
  let '(k, v, _) := strings.Cut "=" selector in
  bool_decide (gvr' = gvr) && (bool_decide (ns = "") || bool_decide (ns' = ns))
  && bool_decide (o_labels o !! k = Some v).

Definition example_server (refuseDeletes : bool) : Server example_world := {|
  srv_List gvr ns selector w :=
    (w, Ok (filter (example_selects ns selector gvr) (map_to_list w)).*2);
  srv_Patch gvr ns name body _ w :=
    let o := mkObject (mkGVK (gvr_Group gvr) (gvr_Version gvr) (gvr_Resource gvr)) ns name
               (gvr_Resource gvr +:+ "/" +:+ ns +:+ "/" +:+ name)
               {["applyset.kubernetes.io/part-of" := body]} ∅ "" in
    (<[(gvr, ns, name) := o]> w, Ok o);
  srv_Delete gvr ns name _ w :=
    if refuseDeletes then (w, Some (Errorf "forbidden")) else (delete (gvr, ns, name) w, None);
  srv_Update o w := (w, Ok o)
|}.
