(* ===== verification/Sets.v ===== *)
(** * Generic sets (applylib/forked/k8s.io/apimachinery/pkg/util/sets/set.go)

    [Set[T]] is a map from elements to empty structs; here a [gset T], the
    loops of the file being folds over the elements in an arbitrary [range]
    order. [mutating] methods return the updated map. The theorems show that
    the loops compute the operations of set algebra whatever the order. *)

From S2P Require Import Prelude.
From stdpp Require Import options.

Module sets.
Section sets.
Context `{RangeOrder} {T : Type} `{EqDecision T, !Countable T}.
Implicit Types (s walk other : gset T) (items : list T).

(** Insert adds items to the set. *)
Definition Insert s items : gset T := foldl (λ s item, {[ item ]} ∪ s) s items.

(** New creates a Set from a list of values. *)
Definition New items : gset T := Insert ∅ items.

(** KeySet creates a Set from the keys of a map. *)
Definition KeySet {V} (theMap : gmap T V) : gset T :=
  foldl (λ ret kv, Insert ret [kv.1]) ∅ (range theMap).

(** Delete removes all items from the set. *)
Definition Delete s items : gset T := foldl (λ s item, s ∖ {[ item ]}) s items.

(** Clear empties the set, one element at a time. *)
Definition Clear s : gset T := foldl (λ s key, s ∖ {[ key ]}) s (range_set s).

Definition Has s (item : T) : bool := bool_decide (item ∈ s).

(** HasAll and HasAny stop at the first item that decides the answer. *)
Fixpoint HasAll s items : bool :=
  match items with
  | [] => true
  | item :: items => if negb (Has s item) then false else HasAll s items
  end.

Fixpoint HasAny s items : bool :=
  match items with
  | [] => false
  | item :: items => if Has s item then true else HasAny s items
  end.

Definition Clone s : gset T := foldl (λ r key, Insert r [key]) ∅ (range_set s).

Definition Difference (s1 s2 : gset T) : gset T :=
  foldl (λ r key, if negb (Has s2 key) then Insert r [key] else r) (New []) (range_set s1).

Definition Union (s1 s2 : gset T) : gset T :=
  foldl (λ r key, Insert r [key]) (Clone s1) (range_set s2).

Definition SymmetricDifference (s1 s2 : gset T) : gset T :=
  Union (Difference s1 s2) (Difference s2 s1).

Definition Len s : nat := size s.

(** Intersection walks the smaller of the two sets. *)
Definition Intersection (s1 s2 : gset T) : gset T :=
  let '(walk, other) := if Nat.ltb (Len s1) (Len s2) then (s1, s2) else (s2, s1) in
  foldl (λ r key, if Has other key then Insert r [key] else r) (New []) (range_set walk).

(** IsSuperset returns false at the first missing element. *)
Definition IsSuperset (s1 s2 : gset T) : bool := HasAll s1 (range_set s2).

Definition Equal (s1 s2 : gset T) : bool :=
  Nat.eqb (Len s1) (Len s2) && IsSuperset s1 s2.

Definition UnsortedList s : list T := foldl (λ res key, res ++ [key]) [] (range_set s).

(** PopAny removes and returns the first element the iteration meets. *)
Definition PopAny s : option T * gset T :=
  match range_set s with
  | [] => (None, s)
  | key :: _ => (Some key, Delete s [key])
  end.

(** List sorts the elements with the order of [T]. *)
Definition List (le : relation T) `{!RelDecision le} s : list T :=
  merge_sort le (foldl (λ res key, res ++ [key]) [] (range_set s)).

(* ---------------------------------------------------------------- *)
(** ** Lemmas *)

Lemma Insert_spec s items : Insert s items = s ∪ list_to_set items.
Proof.
  unfold Insert. revert s. induction items as [|x items IH]; intros s; simpl; [set_solver|].
  rewrite IH. set_solver.
Qed.

Lemma Delete_spec s items : Delete s items = s ∖ list_to_set items.
Proof.
  unfold Delete. revert s. induction items as [|x items IH]; intros s; simpl; [set_solver|].
  rewrite IH. set_solver.
Qed.

Lemma Has_spec s x : Has s x ↔ x ∈ s.
Proof. apply bool_decide_spec. Qed.

Lemma HasAll_spec s items : HasAll s items ↔ ∀ x, x ∈ items → x ∈ s.
Proof.
  induction items as [|x items IH]; simpl; [set_solver|].
  unfold Has. case_bool_decide; simpl; [rewrite IH|]; set_solver.
Qed.

Lemma HasAny_spec s items : HasAny s items ↔ ∃ x, x ∈ items ∧ x ∈ s.
Proof.
  induction items as [|x items IH]; simpl; [set_solver|].
  unfold Has. case_bool_decide; simpl; [set_solver|]. rewrite IH. set_solver.
Qed.

(** A loop that inserts the elements passing a test into a set. *)
Lemma fold_insert_spec (p : T → bool) (l : list T) (r : gset T) x :
  x ∈ foldl (λ r key, if p key then Insert r [key] else r) r l
  ↔ x ∈ r ∨ (x ∈ l ∧ p x).
Proof.
  revert r; induction l as [|k l IH]; intros r; cbn [foldl]; [set_solver|].
  rewrite IH, elem_of_cons. destruct (p k) eqn:Hk.
  - rewrite Insert_spec. simpl. rewrite elem_of_union, elem_of_union, elem_of_singleton.
    split.
    + intros [[?|[->|[]%elem_of_empty]]|[? ?]]; auto.
    + intros [?|[[->|?] ?]]; auto.
  - split; [intros [?|[? ?]]; auto|]. intros [?|[[->|?] Hp]]; auto.
    by rewrite Hk in Hp.
Qed.

Lemma fold_insert_all (l : list T) (r : gset T) x :
  x ∈ foldl (λ r key, Insert r [key]) r l ↔ x ∈ r ∨ x ∈ l.
Proof.
  pose proof (fold_insert_spec (λ _, true) l r x) as E. simpl in E.
  rewrite E. naive_solver.
Qed.

Lemma Clone_spec s : Clone s = s.
Proof.
  apply set_eq. intros x. unfold Clone. rewrite fold_insert_all, elem_of_range_set. set_solver.
Qed.

Lemma Union_spec s1 s2 : Union s1 s2 = s1 ∪ s2.
Proof.
  apply set_eq. intros x. unfold Union.
  rewrite fold_insert_all, elem_of_range_set, Clone_spec. set_solver.
Qed.

Lemma Difference_spec s1 s2 : Difference s1 s2 = s1 ∖ s2.
Proof.
  apply set_eq. intros x. unfold Difference.
  rewrite fold_insert_spec, elem_of_range_set, negb_True, Has_spec.
  unfold New. rewrite Insert_spec. set_solver.
Qed.

Lemma Intersection_spec s1 s2 : Intersection s1 s2 = s1 ∩ s2.
Proof.
  apply set_eq. intros x. unfold Intersection, New.
  destruct (Nat.ltb _ _); cbn;
    rewrite fold_insert_spec, elem_of_range_set, Has_spec; set_solver.
Qed.

Lemma IsSuperset_spec s1 s2 : IsSuperset s1 s2 ↔ s2 ⊆ s1.
Proof.
  unfold IsSuperset. rewrite HasAll_spec. setoid_rewrite elem_of_range_set. done.
Qed.

Lemma Equal_spec s1 s2 : Equal s1 s2 ↔ s1 = s2.
Proof.
  unfold Equal, Len. rewrite andb_True, IsSuperset_spec. split.
  - intros [Hlen Hsub]. apply Is_true_eq_true, Nat.eqb_eq in Hlen.
    symmetry. apply set_subseteq_size_eq; [done|lia].
  - intros ->. rewrite Nat.eqb_refl. done.
Qed.

Lemma UnsortedList_app (l acc : list T) : foldl (λ res key, res ++ [key]) acc l = acc ++ l.
Proof.
  revert acc; induction l as [|x l IH]; intros acc; simpl; [by rewrite app_nil_r|].
  by rewrite IH, <- (assoc (++)).
Qed.

Lemma UnsortedList_spec s : UnsortedList s ≡ₚ elements s.
Proof. unfold UnsortedList. rewrite UnsortedList_app. apply range_set_perm. Qed.

Lemma KeySet_spec {V} (m : gmap T V) : KeySet m = dom m.
Proof.
  apply set_eq. intros x. unfold KeySet. rewrite <- elem_of_range_keys.
  pose proof (fold_insert_all (range m).*1 ∅ x) as E.
  rewrite foldl_fmap in E. rewrite E. set_solver.
Qed.

Lemma Clear_spec s : Clear s = ∅.
Proof.
  unfold Clear. change (foldl _ s (range_set s)) with (Delete s (range_set s)).
  rewrite Delete_spec. apply set_eq. intros x.
  rewrite elem_of_difference, elem_of_list_to_set, elem_of_range_set. set_solver.
Qed.

Lemma PopAny_spec s :
  match PopAny s with
  | (None, s') => s = ∅ ∧ s' = ∅
  | (Some x, s') => x ∈ s ∧ s' = s ∖ {[x]} ∧ size s = S (size s')
  end.
Proof.
  unfold PopAny. destruct (range_set s) as [|x l] eqn:E.
  - assert (s = ∅) as ->; [|done]. apply set_eq. intros x. rewrite <- elem_of_range_set, E. set_solver.
  - assert (x ∈ s) as Hx by (rewrite <- elem_of_range_set, E; set_solver).
    rewrite Delete_spec. simpl. rewrite (right_id_L ∅ (∪)). split; [done|]. split; [done|].
    rewrite size_difference, size_singleton by set_solver.
    assert (size s ≠ 0%nat); [|lia]. intros ?%size_empty_inv. set_solver.
Qed.

Lemma List_perm le `{!RelDecision le} s : List le s ≡ₚ elements s.
Proof.
  unfold List. rewrite merge_sort_Permutation, UnsortedList_app. apply range_set_perm.
Qed.
End sets.

(** ** Properties *)

(** The methods of Set compute set algebra whatever the iteration order of
    the maps is: union, intersection, difference, symmetric difference,
    inclusion, equality and popping an element agree with the mathematical
    operations, and List gives the one sorted list of the elements under a
    total order. *)
Theorem set_algebra (R1 R2 : RangeOrder) {T} `{EqDecision T, !Countable T} (s1 s2 : gset T) :
  @Union R1 _ _ _ s1 s2 = s1 ∪ s2
  ∧ @Intersection R1 _ _ _ s1 s2 = s1 ∩ s2
  ∧ @Difference R1 _ _ _ s1 s2 = s1 ∖ s2
  ∧ @SymmetricDifference R1 _ _ _ s1 s2 = (s1 ∖ s2) ∪ (s2 ∖ s1)
  ∧ (@IsSuperset R1 _ _ _ s1 s2 ↔ s2 ⊆ s1)
  ∧ (@Equal R1 _ _ _ s1 s2 ↔ s1 = s2)
  ∧ @Clear R1 _ _ _ s1 = ∅
  ∧ (∀ x s, @PopAny R1 _ _ _ s1 = (Some x, s) → x ∈ s1 ∧ s = s1 ∖ {[x]})
  ∧ (∀ (le : relation T) `{!RelDecision le}, Transitive le → Total le → AntiSymm (=) le →
       StronglySorted le (@List R1 _ _ _ le _ s1)
       ∧ @List R1 _ _ _ le _ s1 = @List R2 _ _ _ le _ s1).
Proof.
  split; [apply Union_spec|]. split; [apply Intersection_spec|]. split; [apply Difference_spec|].
  split; [unfold SymmetricDifference; by rewrite Union_spec, !Difference_spec|].
  split; [apply IsSuperset_spec|]. split; [apply Equal_spec|]. split; [apply Clear_spec|]. split.
  - intros x s E. pose proof (@PopAny_spec R1 _ _ _ s1) as Hp. rewrite E in Hp. tauto.
  - intros le Hdec Htr Hto Hanti. assert (∀ R, StronglySorted le (@List R _ _ _ le _ s1)) as Hs.
    { intros R. apply StronglySorted_merge_sort; apply _. }
    split; [apply Hs|]. apply (StronglySorted_unique le); [apply Hs..|].
    by rewrite !List_perm.
Qed.

Lemma set_algebra_witness :
  @List canonical_range _ _ _ String.le _ {["b"; "a"]} = @List reversed_range _ _ _ String.le _ {["b"; "a"]}.
Proof.
  destruct (@set_algebra canonical_range reversed_range string _ _ {["b"; "a"]} ∅)
    as (_ & _ & _ & _ & _ & _ & _ & _ & H). apply H; apply _.
Defined.
End sets.
