(* ===== verification/KubectlApplySet.v ===== *)
(** * The forked kubectl ApplySet
      (applylib/forked/github.com/kubernetes/kubectl/pkg/cmd/apply)

    [applyset.go], [applyset_pruner.go] and [prune.go]: the bookkeeping of one
    apply-and-prune operation on a set of objects tracked by labels and
    annotations of a parent object. The state is the record [ApplySet]; each
    method is a definition of the same name. Requests go through the
    environment monad of [Kube]. *)

From S2P Require Import Prelude Encoding Kube Sets.
From stdpp Require Import options.

Module kubectlapply.

Definition ApplySetToolingAnnotation : string := "applyset.kubernetes.io/tooling".
Definition ApplySetAdditionalNamespacesAnnotation : string :=
  "applyset.kubernetes.io/additional-namespaces".
Definition DeprecatedApplySetGRsAnnotation : string :=
  "applyset.kubernetes.io/contains-group-resources".
Definition ApplySetGKsAnnotation : string := "applyset.kubernetes.io/contains-group-kinds".
Definition ApplySetParentIDLabel : string := "applyset.kubernetes.io/id".
Definition ApplysetPartOfLabel : string := "applyset.kubernetes.io/part-of".
Definition ApplysetParentCRDLabel : string := "applyset.kubernetes.io/is-parent-type".

(** ApplySetParentRef stores object and type meta for the parent object. *)
Record ApplySetParentRef := mkParentRef {
  pr_Name : string;
  pr_Namespace : string;
  pr_RESTMapping : RESTMapping
}.

Definition IsNamespaced (p : ApplySetParentRef) : bool :=
  bool_decide (Scope_Name (rm_Scope (pr_RESTMapping p)) = RESTScopeNameNamespace).

Definition ParentRef_String (p : ApplySetParentRef) : string :=
  gvr_Resource (rm_Resource (pr_RESTMapping p)) +:+ "." +:+
  gvr_Group (rm_Resource (pr_RESTMapping p)) +:+ "/" +:+ pr_Name p.

Record ApplySetTooling := mkTooling { tool_Name : string; tool_Version : string }.

Definition Tooling_String (t : ApplySetTooling) : string :=
  tool_Name t +:+ "/" +:+ tool_Version t.

Record kindInfo := mkKindInfo { ki_restMapping : RESTMapping }.

(** ApplySet tracks the information about an applyset apply/prune. *)
Record ApplySet := mkApplySet {
  parentRef : ApplySetParentRef;
  toolingID : ApplySetTooling;
  currentResources : gmap GroupKind kindInfo;
  currentNamespaces : gset string;
  updatedResources : gmap GroupKind kindInfo;
  updatedNamespaces : gset string
}.

Definition NewApplySet (parent : ApplySetParentRef) (tooling : ApplySetTooling) : ApplySet :=
  mkApplySet parent tooling ∅ ∅ ∅ ∅.

Definition defaultApplySetParentGVR : GroupVersionResource := mkGVR "" "v1" "secrets".
Definition builtinApplySetParentGVRs : gset GroupVersionResource :=
  sets.New [defaultApplySetParentGVR; mkGVR "" "v1" "configmaps"].

(** The text an applyset id is the hash of. *)
Definition unencodedID (p : ApplySetParentRef) : string :=
  strings.Join [pr_Name p; pr_Namespace p;
                gvk_Kind (rm_GroupVersionKind (pr_RESTMapping p));
                gvk_Group (rm_GroupVersionKind (pr_RESTMapping p))] ".".

(** ID is the label value that we are using to identify this applyset:
    V1ApplySetIdFormat applied to the encoded hash. *)
Definition ID (a : ApplySet) : string :=
  let hashed := sha256.Sum256 (string_bytes (unencodedID (parentRef a))) in
  let b64 := base64.RawURLEncoding hashed in
  "applyset-" +:+ b64 +:+ "-v1".

Definition LabelsForMember (a : ApplySet) : gmap string string :=
  {[ ApplysetPartOfLabel := ID a ]}.

Definition FieldManager (a : ApplySet) : string := tool_Name (toolingID a) +:+ "-applyset".

Definition toolingBaseName (toolAnnotation : string) : string :=
  let parts := strings.Split "/" toolAnnotation in
  if Nat.leb 2 (length parts)
  then strings.Join (take (length parts - 1) parts) "/"
  else toolAnnotation.

(** AddResource registers the given resource and namespace as being part of
    the updated set of resources. The scope is compared as a value, not by
    its name. *)
Definition AddResource (a : ApplySet) (restMapping : RESTMapping) (namespace : string) :
    ApplySet :=
  let gk := GVK_GroupKind (rm_GroupVersionKind restMapping) in
  let resources :=
    match updatedResources a !! gk with
    | Some _ => updatedResources a
    | None => <[gk := mkKindInfo restMapping]> (updatedResources a)
    end in
  let namespaces :=
    if bool_decide (rm_Scope restMapping = RESTScopeNamespace) && bool_decide (namespace ≠ "")
    then sets.Insert (updatedNamespaces a) [namespace]
    else updatedNamespaces a in
  mkApplySet (parentRef a) (toolingID a) (currentResources a) (currentNamespaces a)
    resources namespaces.

Definition getLabelsAndAnnotations (obj : RuntimeObject) :
    res (gmap string string * gmap string string) :=
  accessor ← meta_Accessor obj; Ok (o_labels accessor, o_annotations accessor).

Section text.
Context `{SchemaText, RESTMapper}.

(** The loop of parseDeprecatedResourceAnnotation over the group-resources. *)
Fixpoint parseGRs (grs : list string) (mappings : gmap GroupKind kindInfo) :
    res (gmap GroupKind kindInfo) :=
  match grs with
  | [] => Ok mappings
  | grString :: grs =>
      let gr := ParseGroupResource grString in
      gvk ← wrapW "invalid group resource in annotation"
              (mapper_KindFor (GR_WithVersion gr ""));
      restMapping ← wrapW "could not find kind for resource in annotation"
              (mapper_RESTMapping (GVK_GroupKind gvk) []);
      parseGRs grs (<[GVK_GroupKind gvk := mkKindInfo restMapping]> mappings)
  end.

Definition parseDeprecatedResourceAnnotation (annotation : string) :
    res (gmap GroupKind kindInfo) :=
  if decide (annotation = "") then Ok ∅
  else parseGRs (strings.Split "," annotation) ∅.

(** The loop of parseKindAnnotation over the group-kinds. *)
Fixpoint parseGKs (gks : list string) (mappings : gmap GroupKind kindInfo) :
    res (gmap GroupKind kindInfo) :=
  match gks with
  | [] => Ok mappings
  | grString :: gks =>
      let gk := ParseGroupKind grString in
      restMapping ← wrapW "could not find mapping for kind in annotation"
              (mapper_RESTMapping gk []);
      parseGKs gks (<[gk := mkKindInfo restMapping]> mappings)
  end.

Definition parseKindAnnotation (annotations : gmap string string) :
    res (gmap GroupKind kindInfo) :=
  match annotations !! ApplySetGKsAnnotation with
  | None =>
      let deprecated := default "" (annotations !! DeprecatedApplySetGRsAnnotation) in
      if decide (deprecated ≠ "") then parseDeprecatedResourceAnnotation deprecated
      else Err (Errorf "kubectl requires the annotation to be set on all ApplySet parent objects")
  | Some annotation =>
      if decide (annotation = "") then Ok ∅
      else parseGKs (strings.Split "," annotation) ∅
  end.

Definition parseNamespacesAnnotation (annotations : gmap string string) : gset string :=
  match annotations !! ApplySetAdditionalNamespacesAnnotation with
  | None => ∅
  | Some annotation =>
      if decide (annotation = "") then ∅
      else sets.New (strings.Split "," annotation)
  end.

Definition with_current (a : ApplySet) (r : gmap GroupKind kindInfo) (n : gset string) : ApplySet :=
  mkApplySet (parentRef a) (toolingID a) r n (updatedResources a) (updatedNamespaces a).

(** FetchParent validates the labels and annotations of the parent and reads
    the current resources and namespaces from them. The receiver is returned
    with the error: a failing parse leaves it with no current resources. *)
Definition FetchParent (a : ApplySet) (obj : RuntimeObject) : ApplySet * option error :=
  match getLabelsAndAnnotations obj with
  | Err e => (a, Some (WrapW "getting metadata from parent object" e))
  | Ok (labels, annotations) =>
      match annotations !! ApplySetToolingAnnotation with
      | None => (a, Some (Errorf "parent object is missing required tooling annotation"))
      | Some toolAnnotation =>
          if decide (toolingBaseName toolAnnotation ≠ tool_Name (toolingID a))
          then (a, Some (Errorf "parent object is managed by other tooling"))
          else match labels !! ApplySetParentIDLabel with
          | None => (a, Some (Errorf "parent object does not have required id label"))
          | Some idLabel =>
              if decide (idLabel ≠ ID a)
              then (a, Some (Errorf "parent object has incorrect value for id label"))
              else match parseKindAnnotation annotations with
              | Err e =>
                  (with_current a ∅ (currentNamespaces a),
                   Some (WrapW "parsing ApplySet annotation" e))
              | Ok resources =>
                  let namespaces := parseNamespacesAnnotation annotations in
                  let namespaces :=
                    if IsNamespaced (parentRef a)
                    then sets.Insert namespaces [pr_Namespace (parentRef a)]
                    else namespaces in
                  (with_current a resources namespaces, None)
              end
          end
      end
  end.

Definition LabelSelectorForMembers (a : ApplySet) : string :=
  FormatMatchLabels (LabelsForMember a).
End text.

Section iteration.
Context `{RangeOrder, SchemaText}.

Definition generateNamespacesAnnotation (namespaces : gset string) (skip : string) : string :=
  let nsList := sets.UnsortedList (sets.Delete (sets.Clone namespaces) [skip]) in
  strings.Join (sort_Strings nsList) ",".

Definition generateResourcesAnnotation (resources : gset GroupKind) : string :=
  let gks := foldl (λ gks gk, gks ++ [GK_String gk]) [] (range_set resources) in
  strings.Join (sort_Strings gks) ",".

Definition updateToLatestSet : string := "latest".
Definition updateToSuperset : string := "superset".

Record PartialObjectMetadata := mkPartial {
  pm_Kind : string;
  pm_APIVersion : string;
  pm_Name : string;
  pm_Namespace : string;
  pm_Annotations : gmap string string;
  pm_Labels : gmap string string
}.

(** BuildParentPatch: the metadata the parent should carry, for the resources
    of the previous and the current operation ("superset") or of the current
    one ("latest"). *)
Definition BuildParentPatch (a : ApplySet) (mode : string) : PartialObjectMetadata :=
  let '(newGKsAnnotation, newNsAnnotation) :=
    if decide (mode = updateToSuperset) then
      let grSuperset := sets.Union (sets.KeySet (currentResources a))
                                   (sets.KeySet (updatedResources a)) in
      (generateResourcesAnnotation grSuperset,
       generateNamespacesAnnotation
         (sets.Union (currentNamespaces a) (updatedNamespaces a))
         (pr_Namespace (parentRef a)))
    else if decide (mode = updateToLatestSet) then
      (generateResourcesAnnotation (sets.KeySet (updatedResources a)),
       generateNamespacesAnnotation (updatedNamespaces a) (pr_Namespace (parentRef a)))
    else ("", "") in
  let gvk := rm_GroupVersionKind (pr_RESTMapping (parentRef a)) in
  mkPartial (gvk_Kind gvk) (GV_String (GVK_GroupVersion gvk))
    (pr_Name (parentRef a)) (pr_Namespace (parentRef a))
    (<[ApplySetToolingAnnotation := Tooling_String (toolingID a)]>
     (<[ApplySetGKsAnnotation := newGKsAnnotation]>
      {[ApplySetAdditionalNamespacesAnnotation := newNsAnnotation]}))
    {[ApplySetParentIDLabel := ID a]}.

(** AllPrunableResources, AllPrunableNamespaces: in map iteration order. *)
Definition AllPrunableResources (a : ApplySet) : list kindInfo :=
  (range (currentResources a)).*2.
Definition AllPrunableNamespaces (a : ApplySet) : list string :=
  range_set (currentNamespaces a).
End iteration.

(** ** applyset_pruner.go *)

Record PruneObject := mkPrune {
  p_Name : string;
  p_Namespace : string;
  p_Mapping : RESTMapping;
  p_Object : Object
}.

Definition PruneObject_String `{SchemaText} (p : PruneObject) : string :=
  let s := GK_String (GVK_GroupKind (rm_GroupVersionKind (p_Mapping p))) in
  if decide (p_Namespace p ≠ "") then s +:+ " " +:+ p_Namespace p +:+ "/" +:+ p_Name p
  else s +:+ " " +:+ p_Name p.

Record task := mkTask { t_namespace : string; t_restMapping : RESTMapping }.

(** The objects of a list answer that the apply did not visit. *)
Fixpoint unvisited (visitedUids : gset string) (namespace : string) (mapping : RESTMapping)
    (items : list Object) : list PruneObject :=
  match items with
  | [] => []
  | obj :: items =>
      if sets.Has visitedUids (o_uid obj)
      then unvisited visitedUids namespace mapping items
      else mkPrune (o_name obj) namespace mapping obj
             :: unvisited visitedUids namespace mapping items
  end.

Section tasks.
Context `{RangeOrder}.

(** The tasks of one kind: one per namespace, or a single one for a
    cluster-scoped kind. *)
Fixpoint namespaceTasks (namespaces : list string) (restMapping : RESTMapping) : res (list task) :=
  match namespaces with
  | [] => Ok []
  | namespace :: namespaces =>
      if decide (namespace = "")
      then Err (Errorf "unexpectedly encountered empty namespace during prune of namespace-scoped resource")
      else ts ← namespaceTasks namespaces restMapping;
           Ok (mkTask namespace restMapping :: ts)
  end.

Definition kindTasks (namespaces : list string) (ki : kindInfo) : res (list task) :=
  let restMapping := ki_restMapping ki in
  let scope := Scope_Name (rm_Scope restMapping) in
  if decide (scope = RESTScopeNameNamespace) then namespaceTasks namespaces restMapping
  else if decide (scope = RESTScopeNameRoot) then Ok [mkTask "" restMapping]
  else Err (Errorf "unhandled scope").

Definition buildTasks (a : ApplySet) : res (list task) :=
  tss ← res_mapM (kindTasks (AllPrunableNamespaces a)) (AllPrunableResources a);
  Ok (concat tss).
End tasks.

Section pruner.
Context `{RangeOrder, SchemaText, Scheduler} {W : Type} `{Server W}.

Definition findObjectsToPrune (a : ApplySet) (visitedUids : gset string)
    (namespace : string) (mapping : RESTMapping) : M W (res (list PruneObject)) :=
  objects ← client_List (rm_Resource mapping) namespace (LabelSelectorForMembers a);
  mret (items ← objects; Ok (unvisited visitedUids namespace mapping items)).

(** The goroutines, in the order the scheduler lets them send their request;
    each writes its own task's slot. *)
Fixpoint runTasks (a : ApplySet) (visitedUids : gset string) (tasks : list task)
    (order : list nat) (slots : gmap nat (res (list PruneObject))) :
    M W (gmap nat (res (list PruneObject))) :=
  match order with
  | [] => mret slots
  | i :: order =>
      match tasks !! i with
      | None => runTasks a visitedUids tasks order slots
      | Some t =>
          results ← findObjectsToPrune a visitedUids (t_namespace t) (t_restMapping t);
          runTasks a visitedUids tasks order
            (<[i := wrapW "listing objects for pruning" results]> slots)
      end
  end.

(** After [wg.Wait()]: the first task error in task order, or all results. *)
Fixpoint collectTasks (slots : gmap nat (res (list PruneObject))) (n i : nat) :
    res (list PruneObject) :=
  match n with
  | O => Ok []
  | S n =>
      results ← default (Ok []) (slots !! i);
      rest ← collectTasks slots n (S i);
      Ok (results ++ rest)
  end.

Definition FindAllObjectsToPrune (a : ApplySet) (visitedUids : gset string) :
    M W (res (list PruneObject)) :=
  match buildTasks a with
  | Err e => mret (Err e)
  | Ok tasks =>
      slots ← runTasks a visitedUids tasks (sched (length tasks)) ∅;
      mret (collectTasks slots (length tasks) 0)
  end.

(** ** prune.go *)

Definition DryRunAll : string := "All".

Definition asDeleteOptions (cascadingStrategy : string) (gracePeriod : Z) : DeleteOptions :=
  let options :=
    if (0 <=? gracePeriod)%Z then mkDeleteOptions (Some gracePeriod) None []
    else mkDeleteOptions None None [] in
  mkDeleteOptions (do_GracePeriodSeconds options) (Some cascadingStrategy) (do_DryRun options).

Definition runDelete (namespace name : string) (mapping : RESTMapping)
    (cascadingStrategy : string) (gracePeriod : Z) (serverDryRun : bool) : M W (option error) :=
  let options := asDeleteOptions cascadingStrategy gracePeriod in
  let options :=
    if serverDryRun
    then mkDeleteOptions (do_GracePeriodSeconds options) (do_PropagationPolicy options) [DryRunAll]
    else options in
  client_Delete (rm_Resource mapping) namespace name options.

(** The package's own deleteObjects stops at the first error and passes
    [true] for the dry-run argument. *)
Fixpoint deleteObjects (pruneObjects : list PruneObject) (cascadingStrategy : string)
    (gracePeriod : Z) : M W (option error) :=
  match pruneObjects with
  | [] => mret None
  | p :: pruneObjects =>
      err ← runDelete (p_Namespace p) (p_Name p) (p_Mapping p) cascadingStrategy gracePeriod true;
      match err with
      | Some e => mret (Some (WrapW "pruning" e))
      | None => deleteObjects pruneObjects cascadingStrategy gracePeriod
      end
  end.

Definition pruneAll (a : ApplySet) (visitedUids : gset string) (cascadingStrategy : string)
    (gracePeriod : Z) : M W (option error) :=
  allObjects ← FindAllObjectsToPrune a visitedUids;
  match allObjects with
  | Err e => mret (Some e)
  | Ok objs => deleteObjects objs cascadingStrategy gracePeriod
  end.

(** ** Validation of the parent *)

Definition customresourcedefinitions : GroupVersionResource :=
  mkGVR "apiextensions.k8s.io" "v1" "customresourcedefinitions".

Definition getAllowedCustomResourceParents : M W (res (gset GroupVersionResource)) :=
  list ← client_List customresourcedefinitions "" (FormatExists ApplysetParentCRDLabel);
  mret (items ← list;
        Ok (foldl (λ set item,
              sets.Insert set [GR_WithVersion (ParseGroupResource (o_name item)) ""])
              (sets.New []) items)).

(** Validate imposes restrictions on the parent object. *)
Definition Validate (a : ApplySet) : M W (option (list error)) :=
  let errs1 :=
    if IsNamespaced (parentRef a) && bool_decide (pr_Namespace (parentRef a) = "")
    then [Errorf "namespace is required to use namespace-scoped ApplySet"] else [] in
  let resource := rm_Resource (pr_RESTMapping (parentRef a)) in
  if sets.Has builtinApplySetParentGVRs resource then mret (NewAggregate errs1)
  else
    permitted ← getAllowedCustomResourceParents;
    let '(errs2, permittedCRParents) :=
      match permitted with
      | Err e => ([WrapW "identifying allowed custom resource parent types" e], ∅)
      | Ok s => ([], s)
      end in
    let ignoreVersion := GR_WithVersion (GVR_GroupResource resource) "" in
    let errs3 :=
      if sets.Has permittedCRParents ignoreVersion then []
      else [Errorf "resource is not permitted as an ApplySet parent"] in
    mret (NewAggregate (errs1 ++ errs2 ++ errs3)).
End pruner.
(** A Kubernetes label value: at most 63 characters among alphanumerics,
    '-', '_' and '.', beginning and ending with an alphanumeric one. *)
Definition alnum (c : ascii) : bool :=
  let n := N_of_ascii c in
  ((48 <=? n)%N && (n <=? 57)%N) || ((65 <=? n)%N && (n <=? 90)%N)
  || ((97 <=? n)%N && (n <=? 122)%N).
Definition label_char (c : ascii) : bool :=
  alnum c || bool_decide (c = "-"%char) || bool_decide (c = "_"%char)
  || bool_decide (c = "."%char).
Definition valid_label_value (s : string) : bool :=
  Nat.leb (String.length s) 63 && base64.all_chars label_char s
  && match String.get 0 s with Some c => alnum c | None => false end
  && match String.get (String.length s - 1) s with Some c => alnum c | None => false end.

(** What the prune search finds when listing does not change the server:
    each task's unvisited objects, in task order, or the first error. *)
Definition pruneSpec `{RangeOrder, SchemaText} {W} `{Server W} (a : ApplySet)
    (visitedUids : gset string) (w : W) : res (list PruneObject) :=
  tasks ← buildTasks a;
  rs ← res_mapM (λ t, wrapW "listing objects for pruning"
          (items ← snd (srv_List (rm_Resource (t_restMapping t)) (t_namespace t)
                          (LabelSelectorForMembers a) w);
           Ok (unvisited visitedUids (t_namespace t) (t_restMapping t) items))) tasks;
  Ok (concat rs).

(* ------------------------------------------------------------------ *)
(** ** Annotations *)

Section annotation_lemmas.
Context `{RangeOrder, SchemaText}.

Lemma foldl_snoc_fmap {A B} (f : A → B) (l : list A) acc :
  foldl (λ acc x, acc ++ [f x]) acc l = acc ++ (f <$> l).
Proof.
  revert acc; induction l as [|x l IH]; intros acc; simpl; [by rewrite app_nil_r|].
  by rewrite IH, <- (assoc (++)).
Qed.

Lemma generateResourcesAnnotation_eq S :
  generateResourcesAnnotation S = strings.Join (sort_Strings (GK_String <$> elements S)) ",".
Proof.
  unfold generateResourcesAnnotation. rewrite foldl_snoc_fmap. simpl.
  by rewrite range_set_perm.
Qed.

Lemma generateNamespacesAnnotation_eq N skip :
  generateNamespacesAnnotation N skip
  = strings.Join (sort_Strings (elements (N ∖ {[skip]}))) ",".
Proof.
  unfold generateNamespacesAnnotation.
  rewrite sets.UnsortedList_spec, sets.Delete_spec, sets.Clone_spec.
  simpl. by rewrite (right_id_L ∅ (∪)).
Qed.

(** The kinds and namespaces a patch of each mode advertises. *)
Definition patchKinds (a : ApplySet) (mode : string) : gset GroupKind :=
  if decide (mode = updateToSuperset) then dom (currentResources a) ∪ dom (updatedResources a)
  else dom (updatedResources a).
Definition patchNamespaces (a : ApplySet) (mode : string) : gset string :=
  if decide (mode = updateToSuperset) then currentNamespaces a ∪ updatedNamespaces a
  else updatedNamespaces a.

Lemma BuildParentPatch_annotations a mode :
  mode = updateToSuperset ∨ mode = updateToLatestSet →
  pm_Annotations (BuildParentPatch a mode)
  = <[ApplySetToolingAnnotation := Tooling_String (toolingID a)]>
     (<[ApplySetGKsAnnotation := generateResourcesAnnotation (patchKinds a mode)]>
      {[ApplySetAdditionalNamespacesAnnotation :=
         generateNamespacesAnnotation (patchNamespaces a mode) (pr_Namespace (parentRef a))]}).
Proof.
  intros Hmode. unfold BuildParentPatch, patchKinds, patchNamespaces.
  destruct Hmode as [-> | ->]; simpl; by rewrite ?sets.Union_spec, ?sets.KeySet_spec.
Qed.

Lemma BuildParentPatch_labels a mode :
  pm_Labels (BuildParentPatch a mode) = {[ApplySetParentIDLabel := ID a]}.
Proof. unfold BuildParentPatch. by repeat case_decide. Qed.

Lemma parseGKs_spec `{RESTMapper} (l : list GroupKind) (m : gmap GroupKind kindInfo) :
  (∀ gk, gk ∈ l → gk_text_ok gk ∧ ∃ rm, mapper_RESTMapping gk [] = Ok rm) →
  (∀ gk ki, m !! gk = Some ki → mapper_RESTMapping gk [] = Ok (ki_restMapping ki)) →
  ∃ m', parseGKs (GK_String <$> l) m = Ok m' ∧ dom m' = dom m ∪ list_to_set l
    ∧ ∀ gk ki, m' !! gk = Some ki → mapper_RESTMapping gk [] = Ok (ki_restMapping ki).
Proof.
  revert m; induction l as [|gk l IH]; intros m Hl Hm.
  { exists m. split; [done|]. split; [set_solver|done]. }
  destruct (Hl gk) as [[Hp _ _] [rm Hrm]]; [set_solver|].
  cbn [fmap list_fmap parseGKs]. rewrite Hp, Hrm. cbn.
  destruct (IH (<[gk := mkKindInfo rm]> m)) as (m' & -> & Hdom & Hm').
  - intros gk' ?. apply Hl. set_solver.
  - intros gk' ki [[<- <-]|[? ?]]%lookup_insert_Some; auto.
  - exists m'. split; [done|]. split; [|done]. rewrite Hdom, dom_insert_L. set_solver.
Qed.

(** The text of a set of kinds reads back as the same set, each kind with
    the mapping the mapper has for it. *)
Lemma kinds_roundtrip `{RESTMapper} (S : gset GroupKind) (annotations : gmap string string) :
  (∀ gk, gk ∈ S → gk_text_ok gk ∧ ∃ rm, mapper_RESTMapping gk [] = Ok rm) →
  annotations !! ApplySetGKsAnnotation = Some (generateResourcesAnnotation S) →
  ∃ m, parseKindAnnotation annotations = Ok m ∧ dom m = S
    ∧ ∀ gk ki, m !! gk = Some ki → mapper_RESTMapping gk [] = Ok (ki_restMapping ki).
Proof.
  intros HS Hann. unfold parseKindAnnotation. rewrite Hann, generateResourcesAnnotation_eq.
  destruct (sort_Strings_fmap GK_String (elements S)) as (l & -> & Hperm).
  assert (∀ gk, gk ∈ l ↔ gk ∈ S) as Hin.
  { intros gk. rewrite Hperm. apply elem_of_elements. }
  assert (Forall (λ t, t ≠ "" ∧ strings.free_of "," t) (GK_String <$> l)) as Htext.
  { apply Forall_fmap, list.Forall_forall. intros gk [[? ? ?] _]%Hin%HS. done. }
  apply list.Forall_and in Htext as [Hne Hfree].
  case_decide as Hempty.
  - exists ∅. split; [done|]. split; [|by intros ?? ?%lookup_empty_Some].
    apply Join_empty, fmap_nil_inv in Hempty; [|done].
    rewrite dom_empty_L. symmetry. apply set_eq. intros gk. rewrite <- Hin, Hempty. set_solver.
  - rewrite Split_Join; [|by destruct l|done].
    destruct (parseGKs_spec l ∅) as (m & Hm & Hdom & Hmap); [set_solver|done|].
    exists m. split; [done|]. split; [|done]. rewrite Hdom, dom_empty_L.
    apply set_eq. intros gk. rewrite elem_of_union, elem_of_list_to_set, Hin. set_solver.
Qed.

(** Namespaces written to the annotation are read back, the skipped one
    left out. *)
Lemma namespaces_roundtrip (N : gset string) (skip : string) (annotations : gmap string string) :
  (∀ ns, ns ∈ N → ns ≠ "" ∧ strings.free_of "," ns) →
  annotations !! ApplySetAdditionalNamespacesAnnotation
    = Some (generateNamespacesAnnotation N skip) →
  parseNamespacesAnnotation annotations = N ∖ {[skip]}.
Proof.
  intros HN Hann. unfold parseNamespacesAnnotation. rewrite Hann, generateNamespacesAnnotation_eq.
  assert (Forall (λ t, t ≠ "" ∧ strings.free_of "," t)
            (sort_Strings (elements (N ∖ {[skip]})))) as Htext.
  { apply list.Forall_forall. intros ns. rewrite elem_of_sort_Strings, elem_of_elements.
    set_solver. }
  apply list.Forall_and in Htext as [Hne Hfree]. apply set_eq. intros ns.
  rewrite <- (elem_of_elements (N ∖ {[skip]})), <- elem_of_sort_Strings.
  case_decide as Hempty.
  - apply Join_empty in Hempty as ->; [set_solver|done].
  - rewrite Split_Join; [|intros E; by rewrite E in Hempty|done].
    unfold sets.New. rewrite sets.Insert_spec. set_solver.
Qed.
End annotation_lemmas.

(** ** The tooling annotation *)

Lemma last_separator c (v : string) :
  ¬ strings.free_of c v → ∃ v1 v2, v = v1 +:+ String c v2 ∧ strings.free_of c v2.
Proof.
  induction v as [|x v IH]; [by intros []|]. cbn [strings.free_of]. intros Hv.
  destruct (decide (strings.free_of c v)) as [Hf|Hf].
  - destruct (decide (x = c)) as [->|Hx]; [by exists "", v|].
    destruct Hv. by rewrite bool_decide_eq_true_2.
  - destruct (IH Hf) as (v1 & v2 & -> & ?). exists (String x v1), v2. by rewrite string_app_cons.
Qed.

Lemma toolingBaseName_snoc (n v : string) :
  strings.free_of "/" v → toolingBaseName (n +:+ String "/" v) = n.
Proof.
  intros Hv. unfold toolingBaseName. rewrite Split_snoc by done.
  pose proof (Split_not_nil "/" n) as Hne.
  rewrite length_app. change (length [v]) with 1%nat.
  destruct (Nat.leb_spec 2 (length (strings.Split "/" n) + 1)) as [_|Hlt].
  - rewrite Nat.add_sub, take_app_length. apply Join_Split.
  - destruct (strings.Split "/" n); [done|]. simpl in Hlt. lia.
Qed.

Lemma toolingBaseName_iff t :
  toolingBaseName (Tooling_String t) = tool_Name t ↔ strings.free_of "/" (tool_Version t).
Proof.
  unfold Tooling_String. destruct t as [n v]. simpl.
  change ("/" +:+ v) with (String "/" v). split; [|apply toolingBaseName_snoc].
  intros E. destruct (decide (strings.free_of "/" v)) as [|Hf]; [done|].
  apply last_separator in Hf as (v1 & v2 & -> & Hv2). exfalso.
  rewrite <- string_app_cons, <- string_app_assoc, toolingBaseName_snoc in E by done.
  apply (f_equal String.length) in E. rewrite string_length_app in E. simpl in E. lia.
Qed.

(** ** The prune search *)

Lemma elem_of_unvisited v ns m items p :
  p ∈ unvisited v ns m items ↔
  ∃ obj, obj ∈ items ∧ (o_uid obj ∉ v) ∧ p = mkPrune (o_name obj) ns m obj.
Proof.
  induction items as [|x items IH]; cbn [unvisited]; [set_solver|].
  unfold sets.Has. case_bool_decide; rewrite ?elem_of_cons, IH; set_solver.
Qed.

(** A request of the prune search on behalf of [a]. *)
Definition member_list `{SchemaText} (a : ApplySet) (ev : Event) : Prop :=
  match ev with EvList _ _ selector _ => selector = LabelSelectorForMembers a | _ => False end.

(** The answer [r] of a task, given the server's answer [objects]. *)
Definition task_answer (v : gset string) (t : task) (objects : res (list Object)) :
    res (list PruneObject) :=
  wrapW "listing objects for pruning"
    (items ← objects; Ok (unvisited v (t_namespace t) (t_restMapping t) items)).

Section search_lemmas.
Context `{RangeOrder, SchemaText} {W : Type} `{Server W}.
Implicit Types (e : Env W) (slots : gmap nat (res (list PruneObject))).

Definition task_event (a : ApplySet) (t : task) (objects : res (list Object)) : Event :=
  EvList (rm_Resource (t_restMapping t)) (t_namespace t) (LabelSelectorForMembers a) objects.

Lemma runTasks_spec a v tasks order slots e :
  ∃ new slots' w,
    runTasks a v tasks order slots e = (slots', mkEnv w (log e ++ new))
    ∧ Forall (member_list a) new
    ∧ ∀ i r, slots' !! i = Some r → slots !! i = Some r ∨
        ∃ t objects, tasks !! i = Some t ∧ task_event a t objects ∈ new
          ∧ r = task_answer v t objects.
Proof.
  revert slots e; induction order as [|i order IH]; intros slots e; cbn [runTasks].
  { exists [], slots, (world e). rewrite app_nil_r. split; [by destruct e|]. split; [done|auto]. }
  destruct (tasks !! i) as [t|] eqn:Ht; [|apply IH].
  unfold mbind, M_bind, findObjectsToPrune, mbind, M_bind, client_List, mret, M_ret.
  destruct (srv_List _ _ _ _) as [w objects] eqn:Hs.
  destruct (IH (<[i:=task_answer v t objects]> slots)
              (mkEnv w (log e ++ [task_event a t objects])))
    as (new & slots' & w' & Hrun & Hnew & Hslots).
  exists (task_event a t objects :: new), slots', w'. split; [|split].
  - unfold task_answer, task_event in *. etransitivity; [exact Hrun|].
    simpl. by rewrite <- (assoc (++)).
  - by constructor.
  - intros j r [[[<- <-]|[? ?]]%lookup_insert_Some|(t' & o' & ? & ? & ?)]%Hslots; [right|auto|right].
    + exists t, objects. set_solver.
    + exists t', o'. set_solver.
Qed.

Lemma collectTasks_elem slots n i objs p :
  collectTasks slots n i = Ok objs → p ∈ objs →
  ∃ j rs, slots !! j = Some (Ok rs) ∧ p ∈ rs.
Proof.
  revert i objs; induction n as [|n IH]; intros i objs; cbn [collectTasks].
  { intros [= <-]. set_solver. }
  rewrite bind_Ok. intros (rs & Hi & (rest & Hrest & [= <-])%bind_Ok) [Hp|Hp]%elem_of_app; [|eauto].
  destruct (slots !! i) as [r|] eqn:Hs; simpl in Hi; simplify_eq; [by eauto|set_solver].
Qed.

(** Whatever the server answers, the search sends list requests for members
    of the set only, and every object it returns was listed by one of them
    and not visited. *)
Lemma FindAllObjectsToPrune_spec `{Scheduler} a v :
  sends (W := W) (FindAllObjectsToPrune a v) (λ r new,
    Forall (member_list a) new
    ∧ ∀ objs p, r = Ok objs → p ∈ objs →
        ∃ items, EvList (rm_Resource (p_Mapping p)) (p_Namespace p)
                   (LabelSelectorForMembers a) (Ok items) ∈ new
          ∧ p_Object p ∈ items ∧ (o_uid (p_Object p) ∉ v) ∧ p_Name p = o_name (p_Object p)).
Proof.
  intros e. unfold FindAllObjectsToPrune. destruct (buildTasks a) as [tasks|err].
  2:{ exists (Err err), [], (world e). rewrite app_nil_r. by destruct e. }
  destruct (runTasks_spec a v tasks (sched (length tasks)) ∅ e)
    as (new & slots & w & Hrun & Hnew & Hslots).
  exists (collectTasks slots (length tasks) 0), new, w. split; [|split; [done|]].
  { unfold mbind, M_bind. by rewrite Hrun. }
  intros objs p Hc Hp. eapply collectTasks_elem in Hc as (j & rs & Hj & Hprs); [|done].
  destruct (Hslots _ _ Hj) as [?%lookup_empty_Some|(t & [items|] & Ht & Hev & Hr)];
    [done| |done].
  unfold task_answer in Hr. simplify_eq/=. apply elem_of_unvisited in Hprs as (obj & ? & ? & ->). by exists items.
Qed.

(** The slots when listing leaves the server as it is: exactly the tasks run
    so far have been answered, each as at the start. *)
Lemma runTasks_pure a v tasks order slots e :
  (∀ gvr ns sel w, (srv_List gvr ns sel w).1 = w) →
  ∃ slots' l, runTasks a v tasks order slots e = (slots', mkEnv (world e) l)
    ∧ ∀ i, slots' !! i =
        match tasks !! i with
        | Some t => if decide (i ∈ order) then
            Some (task_answer v t (srv_List (rm_Resource (t_restMapping t)) (t_namespace t)
                                     (LabelSelectorForMembers a) (world e)).2)
            else slots !! i
        | None => slots !! i
        end.
Proof.
  intros Hro. revert slots e; induction order as [|i order IH]; intros slots e; cbn [runTasks].
  { exists slots, (log e). split; [by destruct e|]. intros j. by destruct (tasks !! j). }
  destruct (tasks !! i) as [t|] eqn:Ht.
  - unfold mbind, M_bind, findObjectsToPrune, mbind, M_bind, client_List, mret, M_ret.
    destruct (srv_List _ _ _ _) as [w objects] eqn:Hs.
    assert (w = world e) as -> by (by rewrite <- (Hro (rm_Resource (t_restMapping t))
      (t_namespace t) (LabelSelectorForMembers a) (world e)), Hs).
    destruct (IH (<[i:=task_answer v t objects]> slots)
                (mkEnv (world e) (log e ++ [task_event a t objects]))) as (slots' & l & Hrun & Hsl).
    exists slots', l. split; [exact Hrun|]. intros j. rewrite Hsl.
    destruct (decide (i = j)) as [<-|Hij].
    + rewrite Ht, lookup_insert_eq, (decide_True (P := i ∈ i :: order)) by set_solver.
      case_decide; [done|]. by rewrite Hs.
    + rewrite lookup_insert_ne by done. destruct (tasks !! j); [|done].
      repeat case_decide; set_solver.
  - destruct (IH slots e) as (slots' & l & Hrun & Hsl). exists slots', l. split; [done|].
    intros j. rewrite Hsl. destruct (decide (i = j)) as [<-|]; [by rewrite Ht|].
    destruct (tasks !! j); [|done]. repeat case_decide; set_solver.
Qed.

Lemma collectTasks_mapM {A} (f : A → res (list PruneObject)) (l : list A) slots i :
  (∀ j x, l !! j = Some x → slots !! (i + j)%nat = Some (f x)) →
  collectTasks slots (length l) i = (rs ← res_mapM f l; Ok (concat rs)).
Proof.
  revert i; induction l as [|x l IH]; intros i Hl; [done|]. cbn [length collectTasks res_mapM].
  rewrite (eq_trans (f_equal (slots !!.) (plus_n_O i)) (Hl 0%nat x eq_refl)). simpl.
  destruct (f x) as [y|]; [|done]. simpl.
  rewrite IH. { by destruct (res_mapM f l). }
  intros j x' Hj. rewrite <- (Hl (S j)) by done. f_equal. lia.
Qed.

End search_lemmas.

(** ** Properties *)

(** C4. Nothing is forgotten between operations. When the parent carries the
    labels and annotations of a patch built by one operation, in either mode,
    the next operation's [FetchParent] succeeds, reads back exactly the kinds
    the patch advertises, each with the mapping the mapper has for it, and
    exactly its namespaces, plus the parent's own namespace if it has one. *)
Theorem fetch_after_patch `{RangeOrder, SchemaText, RESTMapper} (a b : ApplySet)
    (mode : string) (o : Object) :
  mode = updateToSuperset ∨ mode = updateToLatestSet →
  parentRef b = parentRef a → toolingID b = toolingID a →
  strings.free_of "/" (tool_Version (toolingID a)) →
  (∀ gk, gk ∈ patchKinds a mode → gk_text_ok gk ∧ ∃ rm, mapper_RESTMapping gk [] = Ok rm) →
  (∀ ns, ns ∈ patchNamespaces a mode → ns ≠ "" ∧ strings.free_of "," ns) →
  pm_Annotations (BuildParentPatch a mode) ⊆ o_annotations o →
  pm_Labels (BuildParentPatch a mode) ⊆ o_labels o →
  ∃ b', FetchParent b (Accessible o) = (b', None)
    ∧ dom (currentResources b') = patchKinds a mode
    ∧ (∀ gk ki, currentResources b' !! gk = Some ki →
         mapper_RESTMapping gk [] = Ok (ki_restMapping ki))
    ∧ currentNamespaces b' =
        (patchNamespaces a mode ∖ {[pr_Namespace (parentRef a)]})
        ∪ (if IsNamespaced (parentRef a) then {[pr_Namespace (parentRef a)]} else ∅)
    ∧ updatedResources b' = updatedResources b ∧ updatedNamespaces b' = updatedNamespaces b.
Proof.
  intros Hmode Hp Ht Hv Hkinds Hns Hann Hlab.
  rewrite BuildParentPatch_annotations in Hann by done. rewrite BuildParentPatch_labels in Hlab.
  unfold FetchParent. cbn [getLabelsAndAnnotations meta_Accessor mbind res_bind].
  erewrite (lookup_weaken _ (o_annotations o) ApplySetToolingAnnotation);
    [|apply lookup_insert_eq|done].
  rewrite decide_False by (rewrite Ht; intros E; by apply E, toolingBaseName_iff).
  erewrite (lookup_weaken _ (o_labels o) ApplySetParentIDLabel);
    [|apply lookup_singleton_eq|done].
  assert (ID b = ID a) as Hid by (unfold ID; by rewrite Hp).
  rewrite decide_False by (by rewrite Hid; intros []).
  destruct (kinds_roundtrip (patchKinds a mode) (o_annotations o)) as (m & -> & Hdom & Hm);
    [done|eapply lookup_weaken; [|done]; by rewrite lookup_insert_ne, lookup_insert_eq|].
  erewrite (namespaces_roundtrip (patchNamespaces a mode)); [|done|].
  2:{ eapply lookup_weaken; [|done]. rewrite !lookup_insert_ne by done. apply lookup_singleton_eq. }
  eexists. split; [done|]. unfold with_current.
  cbn [currentResources currentNamespaces updatedResources updatedNamespaces]. rewrite Hp. split; [done|]. split; [done|].
  split; [|done]. destruct (IsNamespaced _); [|by rewrite (right_id_L ∅ (∪))].
  rewrite sets.Insert_spec. simpl. by rewrite (right_id_L ∅ (∪)).
Qed.
(** C13. The prune search does not depend on how its goroutines are
    scheduled: when listing leaves the server unchanged, under every schedule
    the answer is that of listing the tasks one after the other. *)
Theorem FindAllObjectsToPrune_schedule `{RangeOrder, SchemaText, Scheduler} {W} `{Server W}
    (a : ApplySet) (visitedUids : gset string) (e : Env W)
    (Hread : ∀ gvr ns sel w, (srv_List gvr ns sel w).1 = w) :
  (FindAllObjectsToPrune a visitedUids e).1 = pruneSpec a visitedUids (world e)
  ∧ world (FindAllObjectsToPrune a visitedUids e).2 = world e.
Proof.
  unfold pruneSpec. destruct (buildTasks a) as [tasks|err] eqn:Hb.
  2:{ unfold FindAllObjectsToPrune. by rewrite Hb. }
  destruct (runTasks_pure a visitedUids tasks (sched (length tasks)) ∅ e Hread)
    as (slots & l & Hrun & Hslots).
  assert (FindAllObjectsToPrune a visitedUids e
          = (collectTasks slots (length tasks) 0, mkEnv (world e) l)) as ->.
  { unfold FindAllObjectsToPrune, mbind, M_bind. by rewrite Hb, Hrun. }
  split; [|done]. apply collectTasks_mapM. intros j t Ht. rewrite Hslots. simpl. rewrite Ht.
  rewrite decide_True; [done|]. rewrite sched_perm. apply elem_of_seq.
  apply lookup_lt_Some in Ht. lia.
Qed.

(** Every applyset id is a valid label value, so that the member label
    and the parent label can be set on the cluster. *)
Theorem ID_valid_label (a : ApplySet) : valid_label_value (ID a) = true.
Proof.
  unfold valid_label_value, ID.
  set (bytes := string_bytes _). pose proof (sha256.length_Sum256 bytes) as Hh.
  revert Hh. generalize (sha256.Sum256 bytes). clear bytes. intros h Hh.
  assert (String.length (base64.RawURLEncoding h) = 43%nat) as Hlen
    by (unfold base64.RawURLEncoding; rewrite base64.length_encode_raw, Hh; reflexivity).
  assert (base64.all_chars label_char (base64.RawURLEncoding h)) as Hall
    by (apply base64.encode_all; by vm_compute).
  rewrite !base64.all_chars_app, (Is_true_eq_true _ Hall).
  rewrite <- string_app_assoc, (string_length_app (_ +:+ _)).
  replace (_ + _ - 1)%nat with (String.length ("applyset-" +:+ base64.RawURLEncoding h) + 2)%nat
    by (simpl; lia).
  rewrite string_get_app, !string_length_app, Hlen. done.
Qed.

(** Within one kind of parent, the text hashed into the id identifies the
    parent: two parents whose namespaces have no dot get the same text only
    if they have the same name and namespace. *)
Theorem unencodedID_injective (p q : ApplySetParentRef) :
  rm_GroupVersionKind (pr_RESTMapping p) = rm_GroupVersionKind (pr_RESTMapping q) →
  strings.free_of "." (pr_Namespace p) → strings.free_of "." (pr_Namespace q) →
  unencodedID p = unencodedID q →
  pr_Name p = pr_Name q ∧ pr_Namespace p = pr_Namespace q.
Proof.
  assert (∀ n v t, n +:+ "." +:+ v +:+ t = (n +:+ String "." v) +:+ t) as Hassoc.
  { intros n v t. by rewrite string_app_assoc, string_app_cons. }
  unfold unencodedID. intros Hgvk Hp Hq. rewrite Hgvk. cbn [strings.Join].
  rewrite (Hassoc (pr_Name p)), (Hassoc (pr_Name q)). intros E. apply string_app_inj_r in E. by apply string_snoc_inj in E.
Qed.

(** The patch written to the parent does not depend on the iteration
    order of Go's maps: any two orders give the same annotations and labels. *)
Theorem BuildParentPatch_deterministic `{SchemaText} (R1 R2 : RangeOrder) (a : ApplySet)
    (mode : string) :
  @BuildParentPatch R1 _ a mode = @BuildParentPatch R2 _ a mode.
Proof.
  unfold BuildParentPatch.
  rewrite !(@generateResourcesAnnotation_eq R1), !(@generateResourcesAnnotation_eq R2),
    !(@generateNamespacesAnnotation_eq R1), !(@generateNamespacesAnnotation_eq R2),
    !sets.Union_spec, !sets.KeySet_spec. done.
Qed.

(* ------------------------------------------------------------------ *)
(** ** A concrete parent *)

Definition example_parentRef : ApplySetParentRef :=
  mkParentRef "gb" "default"
    (mkMapping (mkGVR "example.org" "v1" "guestbooks") (mkGVK "example.org" "v1" "Guestbook")
       RESTScopeNamespace).
Definition example_deployments : RESTMapping :=
  mkMapping (mkGVR "apps" "v1" "deployments") (mkGVK "apps" "v1" "Deployment") RESTScopeNamespace.
Definition example_applyset : ApplySet :=
  AddResource (NewApplySet example_parentRef (mkTooling "kdp" "v1")) example_deployments "prod".

Lemma fetch_after_patch_witness :
  ∃ b', @FetchParent example_text example_mapper
          (NewApplySet example_parentRef (mkTooling "kdp" "v1"))
          (Accessible (mkObject (mkGVK "example.org" "v1" "Guestbook") "default" "gb" "uid"
             (pm_Labels (@BuildParentPatch canonical_range example_text example_applyset "latest"))
             (pm_Annotations (@BuildParentPatch canonical_range example_text example_applyset
                                "latest")) "")) = (b', None)
    ∧ dom (currentResources b') = {[mkGK "apps" "Deployment"]}.
Proof.
  assert (patchKinds example_applyset "latest" = {[mkGK "apps" "Deployment"]}) as Hkinds.
  { unfold patchKinds, example_applyset, AddResource. rewrite decide_False by done.
    cbn [updatedResources NewApplySet]. rewrite lookup_empty, dom_insert_L, dom_empty_L. set_solver. }
  assert (patchNamespaces example_applyset "latest" = {["prod"]}) as Hns
    by (vm_compute; reflexivity).
  destruct (@fetch_after_patch canonical_range example_text example_mapper example_applyset
    (NewApplySet example_parentRef (mkTooling "kdp" "v1")) "latest"
    (mkObject (mkGVK "example.org" "v1" "Guestbook") "default" "gb" "uid"
       (pm_Labels (@BuildParentPatch canonical_range example_text example_applyset "latest"))
       (pm_Annotations (@BuildParentPatch canonical_range example_text example_applyset "latest"))
       "")) as (b' & Hb & Hdom & _); [by right|done|done|done|..].
  - rewrite Hkinds. intros gk ->%elem_of_singleton. split; [by split|by eexists].
  - rewrite Hns. by intros ns ->%elem_of_singleton.
  - done.
  - done.
  - exists b'. split; [done|]. by rewrite Hdom.
Defined.

Lemma FindAllObjectsToPrune_schedule_witness :
  (@FindAllObjectsToPrune canonical_range example_text reversed_sched example_world
     (example_server false) (with_current example_applyset (updatedResources example_applyset)
        {["prod"; "test"]}) ∅ (mkEnv ∅ [])).1
  = Ok [].
Proof.
  destruct (@FindAllObjectsToPrune_schedule canonical_range example_text reversed_sched
    example_world (example_server false)
    (with_current example_applyset (updatedResources example_applyset) {["prod"; "test"]})
    ∅ (mkEnv ∅ [])) as [-> _]; [done|]. by vm_compute.
Defined.

Lemma unencodedID_injective_witness :
  pr_Name example_parentRef = "gb".
Proof.
  apply (unencodedID_injective example_parentRef
    (mkParentRef "gb" "default" (pr_RESTMapping example_parentRef))); reflexivity || exact I.
Defined.

End kubectlapply.
