(* ===== verification/ApplySet.v ===== *)
(** * The ApplySet library (applylib/applyset)

    [results.go], [tracker.go], [parentref.go], [health.go] and [applyset.go]:
    an [ApplySet] holds the trackers of the desired objects; [ApplyOnce] makes
    one attempt to apply them all, observes their health, and prunes what the
    set no longer contains. Requests and their answers are recorded in the
    environment; the server is arbitrary. *)

From S2P Require Import Prelude Encoding Kube Sets KubectlApplySet.
From stdpp Require Import options.
Open Scope Z_scope.

Module applyset.
Import kubectlapply.

(** ** results.go *)

Record HealthInfo := mkHealth {
  h_IsHealthy : bool; h_Message : string; h_Error : option error }.
Record ApplyInfo := mkApplyInfo {
  ai_IsPruned : bool; ai_Message : string; ai_Error : option error }.
Record ObjectStatus := mkStatus {
  os_GVK : GroupVersionKind;
  os_NameNamespace : NamespacedName;
  os_Apply : ApplyInfo;
  os_Health : HealthInfo;
  os_LastApplied : option Object
}.

Record ApplyResults := mkResults {
  total : Z;
  applySuccessCount : Z;
  applyFailCount : Z;
  pruneSuccessCount : Z;
  pruneFailCount : Z;
  healthyCount : Z;
  unhealthyCount : Z;
  Objects : list ObjectStatus
}.

(** checkInvariants logs a warning when the counters do not add up; the model
    returns the warning. *)
Definition checkInvariants (r : ApplyResults) : option string :=
  if decide (total r ≠ applySuccessCount r + applyFailCount r)
  then Some "consistency error (apply counts)"
  else if decide (total r ≠ healthyCount r + unhealthyCount r)
  then Some "consistency error (healthy counts)"
  else None.

Definition AllApplied (r : ApplyResults) : bool :=
  (applyFailCount r =? 0) && (pruneFailCount r =? 0).

Definition AllHealthy (r : ApplyResults) : bool := unhealthyCount r =? 0.

Definition applyError (gvk : GroupVersionKind) (nn : NamespacedName) (err : error)
    (r : ApplyResults) : ApplyResults :=
  mkResults (total r) (applySuccessCount r) (applyFailCount r + 1) (pruneSuccessCount r)
    (pruneFailCount r) (healthyCount r) (unhealthyCount r)
    (Objects r ++ [mkStatus gvk nn (mkApplyInfo false "Apply Error" (Some err))
                     (mkHealth false "" None) None]).

Definition applySuccess (gvk : GroupVersionKind) (nn : NamespacedName) (r : ApplyResults) :
    ApplyResults :=
  mkResults (total r) (applySuccessCount r + 1) (applyFailCount r) (pruneSuccessCount r)
    (pruneFailCount r) (healthyCount r) (unhealthyCount r) (Objects r).

Definition pruneError (gvk : GroupVersionKind) (nn : NamespacedName) (err : error)
    (r : ApplyResults) : ApplyResults :=
  mkResults (total r) (applySuccessCount r) (applyFailCount r) (pruneSuccessCount r)
    (pruneFailCount r + 1) (healthyCount r) (unhealthyCount r)
    (Objects r ++ [mkStatus gvk nn (mkApplyInfo true "Prune Error" (Some err))
                     (mkHealth true "" None) None]).

Definition pruneSuccess (gvk : GroupVersionKind) (nn : NamespacedName) (r : ApplyResults) :
    ApplyResults :=
  mkResults (total r) (applySuccessCount r) (applyFailCount r) (pruneSuccessCount r + 1)
    (pruneFailCount r) (healthyCount r) (unhealthyCount r)
    (Objects r ++ [mkStatus gvk nn (mkApplyInfo true "" None) (mkHealth true "" None) None]).

Definition reportHealth (gvk : GroupVersionKind) (nn : NamespacedName) (lastApplied : Object)
    (isHealthy : bool) (message : string) (err : option error) (r : ApplyResults) :
    ApplyResults :=
  mkResults (total r) (applySuccessCount r) (applyFailCount r) (pruneSuccessCount r)
    (pruneFailCount r)
    (if isHealthy then healthyCount r + 1 else healthyCount r)
    (if isHealthy then unhealthyCount r else unhealthyCount r + 1)
    (Objects r ++ [mkStatus gvk nn (mkApplyInfo false "" None)
                     (mkHealth isHealthy message err) (Some lastApplied)]).

(** ** interfaces.go, tracker.go *)

(** An ApplyableObject is a [*unstructured.Unstructured] or another type
    with the interface's methods. *)
Inductive ApplyableObject :=
  | Unstructured (o : Object)
  | OtherApplyable (o : Object).

#[export] Instance ApplyableObject_eq_dec : EqDecision ApplyableObject.
Proof. solve_decision. Defined.

Definition app_object (u : ApplyableObject) : Object :=
  match u with Unstructured o => o | OtherApplyable o => o end.
Definition app_gvk (u : ApplyableObject) : GroupVersionKind := o_gvk (app_object u).
Definition app_namespace (u : ApplyableObject) : string := o_namespace (app_object u).
Definition app_name (u : ApplyableObject) : string := o_name (app_object u).

Record objectTracker := mkTracker {
  desired : ApplyableObject;
  lastApplied : option Object;
  desiredIsApplied : bool;
  isHealthy : bool
}.

(** objectKey: objects with the same group, version, kind, namespace and name
    are the same. *)
Definition objectKey : Type := GroupVersionKind * NamespacedName.

Definition computeKey (u : ApplyableObject) : objectKey :=
  (app_gvk u, mkNN (app_namespace u) (app_name u)).

(** The map of the existing trackers by key; a later one replaces an earlier
    one with the same key. *)
Definition existingTrackers (items : list objectTracker) : gmap objectKey objectTracker :=
  foldl (λ m tracker, <[computeKey (desired tracker) := tracker]> m) ∅ items.

Definition newTracker (existing : gmap objectKey objectTracker) (obj : ApplyableObject) :
    objectTracker :=
  match existing !! computeKey obj with
  | None => mkTracker obj None false false
  | Some t =>
      if decide (desired t = obj)
      then mkTracker obj (lastApplied t) (desiredIsApplied t) (isHealthy t)
      else mkTracker obj (lastApplied t) false (isHealthy t)
  end.

Definition setDesiredObjects (items : list objectTracker) (objects : list ApplyableObject) :
    list objectTracker :=
  map (newTracker (existingTrackers items)) objects.

(** ** parentref.go *)

Record ParentRef := mkParent {
  par_namespace : string;
  par_name : string;
  par_restMapping : RESTMapping;
  par_object : RuntimeObject
}.

Definition NewParentRef (object : RuntimeObject) (name namespace : string)
    (rest : RESTMapping) : ParentRef :=
  mkParent namespace name rest object.

Definition ParentRef_GroupVersionKind (p : ParentRef) : GroupVersionKind :=
  RuntimeObject_gvk (par_object p).

Definition with_subject (p : ParentRef) (o : RuntimeObject) : ParentRef :=
  mkParent (par_namespace p) (par_name p) (par_restMapping p) o.

(** ** health.go *)

(** The statuses of kstatus. [Compute] is a function of that library; it
    answers a status and a message, or an error and no result. *)
Inductive Status :=
  | InProgressStatus | FailedStatus | TerminatingStatus | UnknownStatus | CurrentStatus
  | OtherStatus (s : string).

(** A health callback; [None] stands for a nil pointer dereference. *)
Definition ComputeHealthCallback : Type := Object → option (bool * string * option error).

(** IsHealthy reads [result.Message] on the error path too, where kstatus has
    no result to give. *)
Definition IsHealthy (Compute : Object → option (Status * string) * option error) :
    ComputeHealthCallback := λ u,
  let '(result, err) := Compute u in
  match err with
  | Some e =>
      match result with Some (_, message) => Some (false, message, Some e) | None => None end
  | None =>
      match result with
      | None => None
      | Some (InProgressStatus, message) => Some (false, message, None)
      | Some (FailedStatus, message) => Some (false, message, None)
      | Some (TerminatingStatus, message) => Some (false, message, None)
      | Some (UnknownStatus, message) => Some (false, message, None)
      | Some (CurrentStatus, message) => Some (true, message, None)
      | Some (OtherStatus _, message) => Some (false, message, None)
      end
  end.

(** humanName returns an identifier for the object suitable for printing. *)
Definition humanName (u : Object) : string :=
  let gvk := o_gvk u in
  gvk_Kind gvk
  +:+ (if decide (gvk_Group gvk ≠ "") then "." +:+ gvk_Group gvk else "")
  +:+ ":"
  +:+ (if decide (o_namespace u ≠ "") then o_namespace u +:+ "/" +:+ o_name u else o_name u).

(** ** applyset.go *)

Record ApplySet := mkSet {
  patchOptions : PatchOptions;
  deleteOptions : DeleteOptions;
  trackers : list objectTracker;
  prune : bool;
  parent : ParentRef;
  tooling : ApplySetTooling;
  computeHealth : ComputeHealthCallback
}.

Record Options := mkOptions {
  opt_PatchOptions : PatchOptions;
  opt_DeleteOptions : DeleteOptions;
  opt_Prune : bool;
  opt_Parent : ParentRef;
  opt_Tooling : string;
  opt_ComputeHealth : option ComputeHealthCallback
}.

Definition kubectl_parentRef (p : ParentRef) : ApplySetParentRef :=
  mkParentRef (par_name p) (par_namespace p) (par_restMapping p).

(** New constructs a new ApplySet. The tooling string is cut at its first
    slash into a name and a version. *)
Definition NewTooling (options : Options) : ApplySetTooling :=
  let '(toolName, toolVersion, _) := strings.Cut "/" (opt_Tooling options) in
  let toolName :=
    if decide (toolName = "") then gvk_Kind (ParentRef_GroupVersionKind (opt_Parent options))
    else toolName in
  mkTooling toolName toolVersion.

Definition New (Compute : Object → option (Status * string) * option error)
    (options : Options) : ApplySet :=
  let tooling := NewTooling options in
  let kapplyset := NewApplySet (kubectl_parentRef (opt_Parent options)) tooling in
  let patchOptions :=
    if decide (po_FieldManager (opt_PatchOptions options) = "")
    then mkPatchOptions (FieldManager kapplyset) (po_Force (opt_PatchOptions options))
    else opt_PatchOptions options in
  mkSet patchOptions (opt_DeleteOptions options) [] (opt_Prune options) (opt_Parent options)
    tooling (default (IsHealthy Compute) (opt_ComputeHealth options)).

Definition with_trackers (a : ApplySet) (ts : list objectTracker) : ApplySet :=
  mkSet (patchOptions a) (deleteOptions a) ts (prune a) (parent a) (tooling a) (computeHealth a).
Definition with_parent (a : ApplySet) (p : ParentRef) : ApplySet :=
  mkSet (patchOptions a) (deleteOptions a) (trackers a) (prune a) p (tooling a) (computeHealth a).

(** SetDesiredObjects replaces the desired state of all the objects. *)
Definition SetDesiredObjects (a : ApplySet) (objects : list ApplyableObject) : ApplySet :=
  with_trackers a (setDesiredObjects (trackers a) objects).

Record restMappingResult := mkRMR {
  rmr_restMapping : option RESTMapping; rmr_err : option error }.

Definition zeroRMR : restMappingResult := mkRMR None None.

(** updateManifestLabel adds the part-of label to the manifest. *)
Definition updateManifestLabel (obj : ApplyableObject) (applysetLabels : gmap string string) :
    res ApplyableObject :=
  match obj with
  | Unstructured u => Ok (Unstructured (with_labels (merge_into applysetLabels (o_labels u)) u))
  | OtherApplyable _ =>
      Err (Errorf "unable to convert ApplyableObject to unstructured.Unstructured")
  end.

(** What ApplyOnce comes to: the results (nil when the scope of a kind is
    unknown) and error it returns, or a panic in the health callback. *)
Inductive outcome :=
  | Returned (results : option ApplyResults) (err : option error)
  | Panicked.

Record loopState := mkLoop { ls_results : ApplyResults; ls_visited : gset string }.

Inductive step :=
  | Next (st : loopState)
  | Stop (o : outcome).

(** One call of the REST mapper, its results kept. *)
Definition lookupRESTMapping `{RESTMapper} (gvk : GroupVersionKind) : restMappingResult :=
  match mapper_RESTMapping (GVK_GroupKind gvk) [gvk_Version gvk] with
  | Ok m => mkRMR (Some m) None
  | Err e => mkRMR None (Some e)
  end.

(** The first loop: resolve the mapping of each kind once, and register the
    kinds that have one with the kubectl applyset. *)
Definition resolveTracker `{RESTMapper}
    (st : gmap GroupVersionKind restMappingResult * kubectlapply.ApplySet)
    (tracker : objectTracker) :
    gmap GroupVersionKind restMappingResult * kubectlapply.ApplySet :=
  let '(restMappings, kapplyset) := st in
  let obj := desired tracker in
  let gvk := app_gvk obj in
  let '(result, restMappings) :=
    match restMappings !! gvk with
    | Some result => (result, restMappings)
    | None =>
        let result := lookupRESTMapping gvk in
        (result, <[gvk := result]> restMappings)
    end in
  match rmr_restMapping result with
  | Some restMapping => (restMappings, AddResource kapplyset restMapping (app_namespace obj))
  | None => (restMappings, kapplyset)
  end.

Definition resolveTrackers `{RESTMapper} (kapplyset : kubectlapply.ApplySet)
    (ts : list objectTracker) :
    gmap GroupVersionKind restMappingResult * kubectlapply.ApplySet :=
  foldl resolveTracker (∅, kapplyset) ts.

Section requests.
Context `{RangeOrder, SchemaText, RESTMapper, Scheduler} {W : Type} `{Server W}.

(** [json.Marshal] of an object. *)
Context (Marshal : ApplyableObject → res string).

(** The parent with the patch of the given mode merged into its labels and
    annotations. *)
Definition patchedParent (kapplyset : kubectlapply.ApplySet) (mode : string) (parent : Object) :
    Object :=
  let partialParent := BuildParentPatch kapplyset mode in
  let annotations := merge_into (pm_Annotations partialParent) (o_annotations parent) in
  let annotations :=
    if decide (annotations !! DeprecatedApplySetGRsAnnotation = Some "")
    then delete DeprecatedApplySetGRsAnnotation annotations else annotations in
  let labels := merge_into (pm_Labels partialParent) (o_labels parent) in
  with_labels labels (with_annotations annotations parent).

(** updateParentLabelsAndAnnotations: merge the patch of the given mode into
    the subject's metadata, and update the cluster when that changed it. *)
Definition updateParentLabelsAndAnnotations (subject : RuntimeObject)
    (kapplyset : kubectlapply.ApplySet) (mode : string) :
    M W (RuntimeObject * option error) :=
  match meta_Accessor subject with
  | Err e => mret (subject, Some e)
  | Ok original =>
      let parent := patchedParent kapplyset mode original in
      if decide (o_labels original ≠ o_labels parent
                 ∨ o_annotations original ≠ o_annotations parent)
      then
        answer ← client_Update parent;
        match answer with
        | Err e => mret (Accessible parent, Some (WrapW "error updating parent" e))
        | Ok stored => mret (Accessible stored, None)
        end
      else mret (Accessible parent, None)
  end.

(** The labels and annotations kubectlapply requires, set on the subject
    before it is fetched. *)
Definition prepareParent (a : ApplySet) (kapplyset : kubectlapply.ApplySet) (object : Object) :
    Object :=
  let annotations := <[ApplySetToolingAnnotation := Tooling_String (tooling a)]>
                       (o_annotations object) in
  let annotations :=
    match annotations !! ApplySetGKsAnnotation with
    | Some _ => annotations
    | None => <[ApplySetGKsAnnotation := ""]> annotations
    end in
  let labels := <[ApplySetParentIDLabel := ID kapplyset]> (o_labels object) in
  with_labels labels (with_annotations annotations object).

(** WithParent guarantees the parent has the right applyset labels, in
    superset mode. *)
Definition WithParent (a : ApplySet) (kapplyset : kubectlapply.ApplySet) :
    M W (RuntimeObject * kubectlapply.ApplySet * option error) :=
  let subject := par_object (parent a) in
  match meta_Accessor subject with
  | Err e => mret (subject, kapplyset, Some e)
  | Ok object =>
      let subject := Accessible (prepareParent a kapplyset object) in
      let '(kapplyset, err) := FetchParent kapplyset subject in
      match err with
      | Some e => mret (subject, kapplyset, Some e)
      | None =>
          r ← updateParentLabelsAndAnnotations subject kapplyset updateToSuperset;
          mret (r.1, kapplyset, r.2)
      end
  end.

(** [results.applyError(...)] and [continue]. *)
Definition failTracker (tracker : objectTracker) (st : loopState) (err : error) :
    M W (objectTracker * step) :=
  let obj := desired tracker in
  let nn := mkNN (app_namespace obj) (app_name obj) in
  mret (tracker, Next (mkLoop (applyError (app_gvk obj) nn err (ls_results st)) (ls_visited st))).

(** The end of an iteration, once the resource to patch is known: send the
    object, remember its uid, and report its health. *)
Definition patchTracker (a : ApplySet) (gvr : GroupVersionResource) (resourceNamespace : string)
    (tracker : objectTracker) (st : loopState) : M W (objectTracker * step) :=
  let obj := desired tracker in
  let gvk := app_gvk obj in
  let nn := mkNN (app_namespace obj) (app_name obj) in
  match Marshal obj with
  | Err e => failTracker tracker st (WrapW "failed to marshal object to JSON" e)
  | Ok j =>
      answer ← client_Patch gvr resourceNamespace (app_name obj) j (patchOptions a);
      match answer with
      | Err e => failTracker tracker st (WrapW "error from apply" e)
      | Ok applied =>
          let visited := sets.Insert (ls_visited st) [o_uid applied] in
          let results := applySuccess gvk nn (ls_results st) in
          match computeHealth a applied with
          | None => mret (mkTracker obj (Some applied) (desiredIsApplied tracker)
                            (isHealthy tracker), Stop Panicked)
          | Some (healthy, message, err) =>
              mret (mkTracker obj (Some applied) (desiredIsApplied tracker) healthy,
                    Next (mkLoop (reportHealth gvk nn applied healthy message err results)
                            visited))
          end
      end
  end.

(** One iteration of the second loop. *)
Definition applyTracker (a : ApplySet)
    (restMappings : gmap GroupVersionKind restMappingResult)
    (memberLabels : gmap string string) (tracker : objectTracker) (st : loopState) :
    M W (objectTracker * step) :=
  let ns := app_namespace (desired tracker) in
  let result := default zeroRMR (restMappings !! app_gvk (desired tracker)) in
  match rmr_err result with
  | Some e => failTracker tracker st (WrapW "error getting rest mapping" e)
  | None =>
  match rmr_restMapping result with
  | None => failTracker tracker st (Errorf "rest mapping result not found")
  | Some restMapping =>
  match updateManifestLabel (desired tracker) memberLabels with
  | Err e =>
      mret (tracker, Stop (Returned (Some (ls_results st)) (Some (WrapW "unable to update label" e))))
  | Ok obj =>
      let tracker := mkTracker obj (lastApplied tracker) (desiredIsApplied tracker)
                       (isHealthy tracker) in
      let gvr := rm_Resource restMapping in
      let scope := Scope_Name (rm_Scope restMapping) in
      if decide (scope = RESTScopeNameNamespace) then
        if decide (ns = "")
        then failTracker tracker st
               (Errorf "namespace was not provided for namespace-scoped object")
        else patchTracker a gvr ns tracker st
      else if decide (scope = RESTScopeNameRoot) then
        if decide (ns ≠ "")
        then failTracker tracker st (Errorf "namespace was provided for cluster-scoped object")
        else patchTracker a gvr "" tracker st
      else mret (tracker, Stop (Returned None (Some (Errorf "unknown scope for gvk"))))
  end end end.

(** The second loop. The trackers are returned as the loop leaves them. *)
Fixpoint applyTrackers (a : ApplySet)
    (restMappings : gmap GroupVersionKind restMappingResult)
    (memberLabels : gmap string string) (ts : list objectTracker) (st : loopState) :
    M W (list objectTracker * step) :=
  match ts with
  | [] => mret ([], Next st)
  | t :: ts =>
      r ← applyTracker a restMappings memberLabels t st;
      match r.2 with
      | Stop o => mret (r.1 :: ts, Stop o)
      | Next st =>
          rest ← applyTrackers a restMappings memberLabels ts st;
          mret (r.1 :: rest.1, rest.2)
      end
  end.

(** deleteObjects records the outcome of each delete and goes on. *)
Fixpoint deletePruned (a : ApplySet) (pruneObjects : list PruneObject)
    (results : ApplyResults) : M W ApplyResults :=
  match pruneObjects with
  | [] => mret results
  | p :: pruneObjects =>
      let gvk := o_gvk (p_Object p) in
      let nn := mkNN (p_Namespace p) (p_Name p) in
      err ← client_Delete (rm_Resource (p_Mapping p)) (p_Namespace p) (p_Name p)
              (deleteOptions a);
      match err with
      | Some e =>
          deletePruned a pruneObjects (pruneError gvk nn (WrapW "error from delete" e) results)
      | None => deletePruned a pruneObjects (pruneSuccess gvk nn results)
      end
  end.

(** The pruning phase, run when every object was applied. An error of the
    final parent update is only logged. *)
Definition prunePhase (a : ApplySet) (kapplyset : kubectlapply.ApplySet) (st : loopState) :
    M W (RuntimeObject * outcome) :=
  let subject := par_object (parent a) in
  let results := ls_results st in
  if prune a && (applyFailCount results =? 0) then
    found ← FindAllObjectsToPrune kapplyset (ls_visited st);
    match found with
    | Err e => mret (subject, Returned (Some results) (Some e))
    | Ok pruneObjects =>
        results ← deletePruned a pruneObjects results;
        r ← updateParentLabelsAndAnnotations subject kapplyset updateToLatestSet;
        mret (r.1, Returned (Some results) None)
    end
  else mret (subject, Returned (Some results) None).

Definition initialResults (n : nat) : ApplyResults := mkResults (Z.of_nat n) 0 0 0 0 0 0 [].

(** ApplyOnce makes one attempt to apply all objects. *)
Definition ApplyOnce (a : ApplySet) : M W (ApplySet * outcome) :=
  let results := initialResults (length (trackers a)) in
  let kapplyset := NewApplySet (kubectl_parentRef (parent a)) (tooling a) in
  let '(restMappings, kapplyset) := resolveTrackers kapplyset (trackers a) in
  r ← WithParent a kapplyset;
  let '(subject, kapplyset, err) := r in
  let a := with_parent a (with_subject (parent a) subject) in
  match err with
  | Some e => mret (a, Returned (Some results) (Some (WrapW "unable to update Parent" e)))
  | None =>
      r ← applyTrackers a restMappings (LabelsForMember kapplyset) (trackers a)
            (mkLoop results ∅);
      let a := with_trackers a r.1 in
      match r.2 with
      | Stop o => mret (a, o)
      | Next st =>
          r ← prunePhase a kapplyset st;
          mret (with_parent a (with_subject (parent a) r.1), r.2)
      end
  end.
End requests.

(* ------------------------------------------------------------------ *)
(** ** Vocabulary of the specifications *)

(** The uids of the objects the server answered to successful patches. *)
Definition applied_uid (ev : Event) : option string :=
  match ev with EvPatch _ _ _ _ _ (Ok applied) => Some (o_uid applied) | _ => None end.
Definition applied_uids (evs : list Event) : list string := omap applied_uid evs.

Definition status_key (s : ObjectStatus) : objectKey := (os_GVK s, os_NameNamespace s).
Definition tracker_key (t : objectTracker) : objectKey := computeKey (desired t).

(** A patch request for one of the trackers: for the resource its kind maps
    to, in its namespace, with its object labelled as a member as the body. *)
Definition patch_of `{RESTMapper} (Marshal : ApplyableObject → res string)
    (opts : PatchOptions) (memberLabels : gmap string string) (t : objectTracker) (ev : Event) :
    Prop :=
  ∃ u rm body r, desired t = Unstructured u
    ∧ mapper_RESTMapping (GVK_GroupKind (o_gvk u)) [gvk_Version (o_gvk u)] = Ok rm
    ∧ Marshal (Unstructured (with_labels (memberLabels ∪ o_labels u) u)) = Ok body
    ∧ ev = EvPatch (rm_Resource rm) (o_namespace u) (o_name u) body opts r.

(** The counters of the apply loop moved on by [n] objects. *)
Record advanced (r r' : ApplyResults) (ok : nat) (keys : list objectKey) : Prop := {
  adv_total : total r' = total r;
  adv_success : applySuccessCount r' = applySuccessCount r + Z.of_nat ok;
  adv_fail : applySuccessCount r' + applyFailCount r'
             = applySuccessCount r + applyFailCount r + Z.of_nat (length keys);
  adv_mono : applyFailCount r <= applyFailCount r';
  adv_health : healthyCount r' + unhealthyCount r'
               = healthyCount r + unhealthyCount r + Z.of_nat ok;
  adv_prune : pruneSuccessCount r' = pruneSuccessCount r ∧ pruneFailCount r' = pruneFailCount r;
  adv_objects : status_key <$> Objects r' = (status_key <$> Objects r) ++ keys
}.

(* ------------------------------------------------------------------ *)
(** ** The first loop *)

Section resolve_lemmas.
Context `{RESTMapper}.
Implicit Types (rms : gmap GroupVersionKind restMappingResult) (k : kubectlapply.ApplySet).

(** What the first loop keeps and what it has done for the trackers so far. *)
Record resolved (k0 : kubectlapply.ApplySet) (ts : list objectTracker) rms k : Prop := {
  res_parentRef : parentRef k = parentRef k0;
  res_tooling : toolingID k = toolingID k0;
  res_current : currentResources k = currentResources k0
                ∧ currentNamespaces k = currentNamespaces k0;
  res_sound gvk r : rms !! gvk = Some r → r = lookupRESTMapping gvk;
  res_complete t : t ∈ ts → is_Some (rms !! app_gvk (desired t));
  res_kinds t rm : t ∈ ts → rmr_restMapping (lookupRESTMapping (app_gvk (desired t))) = Some rm →
    GVK_GroupKind (rm_GroupVersionKind rm) ∈ dom (updatedResources k);
  res_only gk : gk ∈ dom (updatedResources k) → gk ∈ dom (updatedResources k0) ∨
    ∃ t rm, t ∈ ts ∧ rmr_restMapping (lookupRESTMapping (app_gvk (desired t))) = Some rm
      ∧ gk = GVK_GroupKind (rm_GroupVersionKind rm)
}.

Lemma AddResource_dom k rm ns :
  dom (updatedResources (AddResource k rm ns))
  = dom (updatedResources k) ∪ {[GVK_GroupKind (rm_GroupVersionKind rm)]}.
Proof.
  unfold AddResource. cbn [updatedResources].
  destruct (updatedResources k !! _) eqn:E; [|rewrite dom_insert_L; set_solver].
  apply elem_of_dom_2 in E. set_solver.
Qed.

Lemma resolveTracker_spec k0 ts rms k t :
  resolved k0 ts rms k →
  resolved k0 (ts ++ [t]) (resolveTracker (rms, k) t).1 (resolveTracker (rms, k) t).2.
Proof.
  intros [Hp Ht Hc Hs Hco Hk Ho]. unfold resolveTracker.
  set (gvk := app_gvk (desired t)).
  assert (∃ rms', (match rms !! gvk with
            | Some result => (result, rms)
            | None => (lookupRESTMapping gvk, <[gvk := lookupRESTMapping gvk]> rms) end)
          = (lookupRESTMapping gvk, rms')
          ∧ (∀ g r, rms' !! g = Some r → r = lookupRESTMapping g)
          ∧ (∀ g, is_Some (rms !! g) ∨ g = gvk → is_Some (rms' !! g))) as (rms' & -> & Hs' & Hco').
  { destruct (rms !! gvk) as [r|] eqn:E.
    - exists rms. rewrite <- (Hs _ _ E). split; [done|]. split; [done|].
      intros g [?| ->]; [done|by rewrite E].
    - eexists. split; [done|]. split.
      + intros g r [[<- <-]|[_ ?]]%lookup_insert_Some; eauto.
      + intros g [?| ->]; [by apply lookup_insert_is_Some'; right|by rewrite lookup_insert_eq]. }
  destruct (rmr_restMapping (lookupRESTMapping gvk)) as [rm|] eqn:Hrm; cbn [fst snd].
  - split; try done.
    + intros t' [?| ->%list_elem_of_singleton]%elem_of_app; apply Hco'; [by left; apply Hco|by right].
    + intros t' rm' Hin Hrm'. rewrite AddResource_dom.
      apply elem_of_app in Hin as [?| ->%list_elem_of_singleton]; [set_solver|].
      subst gvk. simplify_eq. set_solver.
    + intros gk. rewrite AddResource_dom. intros [[?|(t' & rm' & ? & ? & ?)]%Ho|Hgk]%elem_of_union.
      * by left.
      * right. exists t', rm'. set_solver.
      * right. exists t, rm. set_solver.
  - split; try done.
    + intros t' [?| ->%list_elem_of_singleton]%elem_of_app; apply Hco'; [by left; apply Hco|by right].
    + intros t' rm' [?| ->%list_elem_of_singleton]%elem_of_app ?; [by eauto|].
      subst gvk. congruence.
    + intros gk [?|(t' & rm' & ? & ? & ?)]%Ho; [by left|right]. exists t', rm'. set_solver.
Qed.

Lemma resolveTrackers_spec k ts :
  resolved k ts (resolveTrackers k ts).1 (resolveTrackers k ts).2.
Proof.
  unfold resolveTrackers. induction ts as [|t ts IH] using rev_ind.
  - split; try done; [set_solver|set_solver|by left].
  - rewrite foldl_app. cbn [foldl].
    rewrite (surjective_pairing (foldl resolveTracker (∅, k) ts)). by apply resolveTracker_spec.
Qed.

(** The second loop sees exactly the mapper's answer for each tracker. *)
Lemma resolveTrackers_lookup k ts t :
  t ∈ ts → (resolveTrackers k ts).1 !! app_gvk (desired t)
           = Some (lookupRESTMapping (app_gvk (desired t))).
Proof.
  intros Hin. destruct (resolveTrackers_spec k ts) as [_ _ _ Hs Hc _ _].
  destruct (Hc t Hin) as [r Hr]. by rewrite Hr, <- (Hs _ _ Hr).
Qed.
End resolve_lemmas.

(* ------------------------------------------------------------------ *)
(** ** The second loop *)

Section apply_lemmas.
Context `{RangeOrder, SchemaText, RESTMapper, Scheduler} {W : Type} `{Server W}.
Context (Marshal : ApplyableObject → res string).
Implicit Types (a : ApplySet) (st : loopState).

(** What one iteration does: it records a failure without a request, records
    the answer of one patch request, or stops with an error or a panic. *)
Inductive iteration (opts : PatchOptions) (labels : gmap string string) (t : objectTracker)
    (st : loopState) : step → list Event → Prop :=
  | iter_skip err :
      iteration opts labels t st
        (Next (mkLoop (applyError (tracker_key t).1 (tracker_key t).2 err (ls_results st))
                 (ls_visited st))) []
  | iter_refused ev err :
      patch_of Marshal opts labels t ev → applied_uid ev = None →
      iteration opts labels t st
        (Next (mkLoop (applyError (tracker_key t).1 (tracker_key t).2 err (ls_results st))
                 (ls_visited st))) [ev]
  | iter_applied ev applied healthy message err :
      patch_of Marshal opts labels t ev → applied_uid ev = Some (o_uid applied) →
      iteration opts labels t st
        (Next (mkLoop (reportHealth (tracker_key t).1 (tracker_key t).2 applied healthy message err
                         (applySuccess (tracker_key t).1 (tracker_key t).2 (ls_results st)))
                 (ls_visited st ∪ {[o_uid applied]}))) [ev]
  | iter_error results err : iteration opts labels t st (Stop (Returned results (Some err))) []
  | iter_panic ev : patch_of Marshal opts labels t ev → iteration opts labels t st (Stop Panicked) [ev].

Lemma failTracker_spec opts labels t t' st err :
  tracker_key t' = tracker_key t →
  sends (W := W) (failTracker t' st err) (λ r new, iteration opts labels t st r.2 new).
Proof.
  intros Hk. apply sends_ret. cbn [snd].
  change (app_gvk (desired t')) with (tracker_key t').1.
  change (mkNN _ _) with (tracker_key t').2. rewrite Hk. apply iter_skip.
Qed.

Lemma patchTracker_spec a labels rm ns u t t' st :
  desired t = Unstructured u → ns = o_namespace u →
  mapper_RESTMapping (GVK_GroupKind (o_gvk u)) [gvk_Version (o_gvk u)] = Ok rm →
  desired t' = Unstructured (with_labels (labels ∪ o_labels u) u) →
  sends (W := W) (patchTracker Marshal a (rm_Resource rm) ns t' st)
    (λ r new, iteration (patchOptions a) labels t st r.2 new).
Proof.
  intros Hd -> Hrm Hd'.
  assert (tracker_key t' = tracker_key t) as Hk
    by (unfold tracker_key, computeKey; by rewrite Hd, Hd').
  unfold patchTracker. destruct (Marshal _) as [j|err] eqn:Hj; [|by apply failTracker_spec].
  eapply sends_bind; [apply sends_Patch|]. intros r new ->. rewrite Hd' in *.
  set (ev := EvPatch _ _ _ _ _ r).
  assert (patch_of Marshal (patchOptions a) labels t ev) as Hpatch by (by exists u, rm, j, r).
  destruct r as [applied|err].
  - replace (app_gvk _) with (tracker_key t).1 by (unfold tracker_key; by rewrite Hd).
    replace (mkNN _ _) with (tracker_key t).2 by (unfold tracker_key; by rewrite Hd).
    destruct (computeHealth a applied) as [[[healthy message] err]|];
      apply sends_ret; cbn [app snd]; [|by apply iter_panic].
    rewrite sets.Insert_spec. simpl. rewrite (right_id_L ∅ (∪)). by apply iter_applied.
  - apply sends_ret. cbn [snd app]. change (app_gvk (desired t')) with (tracker_key t').1.
    change (mkNN _ _) with (tracker_key t').2. rewrite Hk. by apply iter_refused.
Qed.

Lemma applyTracker_spec a rms labels t st :
  rms !! app_gvk (desired t) = Some (lookupRESTMapping (app_gvk (desired t))) →
  sends (W := W) (applyTracker Marshal a rms labels t st)
    (λ r new, iteration (patchOptions a) labels t st r.2 new).
Proof.
  intros Hrm. unfold applyTracker. rewrite Hrm. cbn [default from_option id].
  unfold lookupRESTMapping. destruct (mapper_RESTMapping _ _) as [rm|err] eqn:Hmap;
    cbn [rmr_err rmr_restMapping]; [|by apply failTracker_spec].
  destruct (desired t) as [u|u] eqn:Hd; cbn [updateManifestLabel]; [|apply sends_ret, iter_error].
  assert (∀ l, tracker_key (mkTracker (Unstructured (with_labels l u)) (lastApplied t)
            (desiredIsApplied t) (isHealthy t)) = tracker_key t) as Hk
    by (intros l; unfold tracker_key, computeKey; by rewrite Hd).
  repeat case_decide; try (by apply failTracker_spec).
  - by eapply patchTracker_spec.
  - by eapply patchTracker_spec.
  - apply sends_ret, iter_error.
Qed.

(** The loop: the requests are patches for distinct positions of the list of
    trackers, in its order; when it runs to its end the counters, the visited
    uids and the reported statuses are those of the answers. *)
Record looped (opts : PatchOptions) (labels : gmap string string) (ts : list objectTracker)
    (st : loopState) (s : step) (new : list Event) : Prop := {
  lp_patches : Forall (λ ev, ∃ t, t ∈ ts ∧ patch_of Marshal opts labels t ev) new;
  lp_next st' : s = Next st' →
    advanced (ls_results st) (ls_results st') (length (applied_uids new)) (tracker_key <$> ts)
    ∧ ls_visited st' = ls_visited st ∪ list_to_set (applied_uids new);
  lp_stop results : s ≠ Stop (Returned results None)
}.

Lemma iteration_next opts labels t st st' new :
  iteration opts labels t st (Next st') new →
  advanced (ls_results st) (ls_results st') (length (applied_uids new)) [tracker_key t]
  ∧ ls_visited st' = ls_visited st ∪ list_to_set (applied_uids new).
Proof.
  inversion 1 as [|? ? ? Hu|? ? healthy ? ? ? Hu| |]; subst; cbn [applied_uids omap list_omap ls_visited ls_results];
    rewrite ?Hu; simpl; (split; [|set_solver]); split; simpl; rewrite ?fmap_app; try done; try lia.
  all: try (by destruct (tracker_key t)).
  all: destruct healthy; lia.
Qed.

Lemma iteration_patches opts labels t st s new :
  iteration opts labels t st s new → Forall (patch_of Marshal opts labels t) new.
Proof. destruct 1; auto. Qed.

Lemma advanced_trans r1 r2 r3 m n k l :
  advanced r1 r2 m k → advanced r2 r3 n l → advanced r1 r3 (m + n) (k ++ l).
Proof.
  intros [H11 H12 H13 H14 H15 [H16 H16'] H17] [H21 H22 H23 H24 H25 [H26 H26'] H27].
  split; rewrite ?length_app; try lia; try (split; congruence).
  by rewrite H27, H17, (assoc (++)).
Qed.

Lemma applyTrackers_spec a rms labels ts st :
  Forall (λ t, rms !! app_gvk (desired t) = Some (lookupRESTMapping (app_gvk (desired t)))) ts →
  sends (W := W) (applyTrackers Marshal a rms labels ts st)
    (λ r new, looped (patchOptions a) labels ts st r.2 new).
Proof.
  intros Hts. revert st; induction Hts as [|t ts Ht Hts IH]; intros st; cbn [applyTrackers].
  { apply sends_ret. split; [done| |done]. intros st' [= <-]. split; [|set_solver].
    split; simpl; try lia; try done. by rewrite app_nil_r. }
  eapply sends_bind; [by apply applyTracker_spec|]. intros r new Hit.
  pose proof (iteration_patches _ _ _ _ _ _ Hit) as Hp.
  assert (Forall (λ ev, ∃ t', t' ∈ t :: ts ∧ patch_of Marshal (patchOptions a) labels t' ev) new)
    as Hp' by (eapply list.Forall_impl; [done|]; intros ev ?; exists t; set_solver).
  destruct r as [t' [st1|o]]; cbn [fst snd] in *.
  - eapply sends_bind; [apply IH|]. intros [ts' s] new' [Hps Hnext Hstop]. apply sends_ret.
    rewrite app_nil_r. cbn [snd]. split; [|intros st2 ->|done].
    + apply list.Forall_app. split; [done|]. eapply list.Forall_impl; [done|].
      intros ev (t'' & ? & ?). exists t''. set_solver.
    + destruct (Hnext st2 eq_refl) as [Hadv2 ->]. apply iteration_next in Hit as [Hadv1 ->].
      unfold applied_uids in *. rewrite omap_app, length_app. split; [|set_solver].
      by apply (advanced_trans _ _ _ _ _ [_] _ Hadv1).
  - apply sends_ret. rewrite app_nil_r. cbn [snd]. split; [done|done|].
    inversion Hit; subst; by intros ? [=].
Qed.
End apply_lemmas.

(* ------------------------------------------------------------------ *)
(** ** The parent *)

Section parent_lemmas.
Context `{RangeOrder, SchemaText, RESTMapper, Scheduler} {W : Type} `{Server W}.
Implicit Types (a : ApplySet) (k : kubectlapply.ApplySet) (o : Object).

Lemma prepareParent_GKs a k o :
  o_annotations (prepareParent a k o) !! ApplySetGKsAnnotation
  = Some (default "" (o_annotations o !! ApplySetGKsAnnotation)).
Proof.
  unfold prepareParent. cbn [with_labels with_annotations o_annotations].
  rewrite lookup_insert_ne by done.
  destruct (o_annotations o !! _) eqn:E; simpl.
  - by rewrite lookup_insert_ne, E.
  - by rewrite lookup_insert_eq.
Qed.

Lemma prepareParent_tooling a k o :
  o_annotations (prepareParent a k o) !! ApplySetToolingAnnotation
  = Some (Tooling_String (tooling a)).
Proof.
  unfold prepareParent. cbn [with_labels with_annotations o_annotations].
  destruct (<[_:=_]> _ !! ApplySetGKsAnnotation); [by rewrite lookup_insert_eq|].
  by rewrite lookup_insert_ne, lookup_insert_eq.
Qed.

(** Fetching the prepared parent can fail for two reasons only. *)
Lemma FetchParent_prepared a k o :
  toolingID k = tooling a →
  let p := prepareParent a k o in
  FetchParent k (Accessible p) =
    if decide (strings.free_of "/" (tool_Version (tooling a)) = true) then
      match parseKindAnnotation (o_annotations p) with
      | Err e => (with_current k ∅ (currentNamespaces k), Some (WrapW "parsing ApplySet annotation" e))
      | Ok resources =>
          let ns := parseNamespacesAnnotation (o_annotations p) in
          (with_current k resources
             (if IsNamespaced (parentRef k) then sets.Insert ns [pr_Namespace (parentRef k)] else ns),
           None)
      end
    else (k, Some (Errorf "parent object is managed by other tooling")).
Proof.
  intros Ht p. unfold FetchParent. cbn [getLabelsAndAnnotations meta_Accessor mbind res_bind].
  subst p. rewrite prepareParent_tooling, <- Ht. case_decide as Hv.
  - rewrite decide_False; [done|]. intros Hf. apply Hv, toolingBaseName_iff. by rewrite Hf.
  - apply toolingBaseName_iff in Hv.
    rewrite decide_True by by destruct (strings.free_of _ _).
    cbn [prepareParent with_labels o_labels]. rewrite lookup_insert_eq.
    rewrite decide_False by auto. done.
Qed.

Lemma updateParent_spec o k mode :
  let p := patchedParent k mode o in
  sends (W := W) (updateParentLabelsAndAnnotations (Accessible o) k mode) (λ r new,
    (new = [] ∧ r = (Accessible p, None) ∧ o_annotations p = o_annotations o
      ∧ o_labels p = o_labels o)
    ∨ ∃ answer, new = [EvUpdate p answer]
      ∧ ((∃ stored, answer = Ok stored) ↔ r.2 = None)).
Proof.
  intros p. unfold updateParentLabelsAndAnnotations. cbn [meta_Accessor]. fold p.
  case_decide as Hch.
  - eapply sends_bind; [apply sends_Update|]. intros answer new ->.
    destruct answer as [stored|err]; apply sends_ret; right; eexists; (split; [done|]); simpl.
    + split; [done|by eexists].
    + split; [by intros [? ?]|done].
  - apply sends_ret. left. split; [done|]. split; [done|].
    destruct (decide (o_labels o = o_labels p)), (decide (o_annotations o = o_annotations p));
      [done|tauto..].
Qed.

Lemma patchedParent_GKs k mode o :
  mode = updateToSuperset ∨ mode = updateToLatestSet →
  o_annotations (patchedParent k mode o) !! ApplySetGKsAnnotation
  = Some (generateResourcesAnnotation (patchKinds k mode)).
Proof.
  intros Hm. unfold patchedParent. cbn [with_labels with_annotations o_annotations].
  assert (merge_into (pm_Annotations (BuildParentPatch k mode)) (o_annotations o)
            !! ApplySetGKsAnnotation = Some (generateResourcesAnnotation (patchKinds k mode))) as E.
  { unfold merge_into. apply lookup_union_Some_l. rewrite BuildParentPatch_annotations by done.
    by rewrite lookup_insert_ne, lookup_insert_eq. }
  case_decide; [|done]. by rewrite lookup_delete_ne.
Qed.

(** The parent as it is before any object is applied: it was updated to, or
    already had, an annotation with the kinds recorded earlier and the kinds
    about to be applied. *)
Definition recorded (a : ApplySet) (k : kubectlapply.ApplySet) (up : list Event) : Prop :=
  ∃ object prev,
    par_object (parent a) = Accessible object
    ∧ parseKindAnnotation (o_annotations (prepareParent a k object)) = Ok prev
    ∧ let text := generateResourcesAnnotation (dom prev ∪ dom (updatedResources k)) in
      (up = [] ∧ default "" (o_annotations object !! ApplySetGKsAnnotation) = text)
      ∨ ∃ p stored, up = [EvUpdate p (Ok stored)]
          ∧ o_annotations p !! ApplySetGKsAnnotation = Some text.

Lemma WithParent_spec a k :
  toolingID k = tooling a →
  sends (W := W) (WithParent a k) (λ r new,
    (r.2 = None → recorded a k new
      ∧ ∃ rs ns, r.1.2 = with_current k rs ns)
    ∧ (∀ ev, ev ∈ new → ∃ p answer, ev = EvUpdate p answer)).
Proof.
  intros Ht. unfold WithParent. destruct (par_object (parent a)) as [object|] eqn:Hobj;
    cbn [meta_Accessor]; [|apply sends_ret; split; [done|set_solver]].
  rewrite FetchParent_prepared by done. case_decide; [|apply sends_ret; split; [done|set_solver]].
  destruct (parseKindAnnotation _) as [prev|err] eqn:Hprev;
    [|apply sends_ret; split; [done|set_solver]].
  cbv zeta. set (ns := if IsNamespaced _ then _ else _).
  eapply sends_bind; [apply updateParent_spec|]. intros r new Hup. apply sends_ret.
  rewrite app_nil_r. cbn [fst snd].
  assert (∀ p, o_annotations (patchedParent (with_current k prev ns) updateToSuperset p)
      !! ApplySetGKsAnnotation
    = Some (generateResourcesAnnotation (dom prev ∪ dom (updatedResources k)))) as Htext
    by (intros p; by rewrite patchedParent_GKs by auto).
  split.
  - intros Hnone. split; [|by eauto]. exists object, prev. split; [done|]. split; [done|].
    destruct Hup as [(-> & -> & Hann & _)|(answer & -> & Hok)]; [left|right].
    + split; [done|]. specialize (Htext (prepareParent a k object)).
      rewrite Hann, prepareParent_GKs in Htext. congruence.
    + apply Hok in Hnone as [stored ->]. by eexists _, _.
  - intros ev Hin. destruct Hup as [(-> & _)|(answer & -> & _)]; set_solver.
Qed.

(** *** The pruning phase *)

(** A delete of an object that was listed as a member and not applied. *)
Definition prune_of (a : ApplySet) (k : kubectlapply.ApplySet) (visited : gset string)
    (lists : list Event) (ev : Event) : Prop :=
  ∃ gvr ns r items obj,
    ev = EvDelete gvr ns (o_name obj) (deleteOptions a) r
    ∧ EvList gvr ns (LabelSelectorForMembers k) (Ok items) ∈ lists
    ∧ obj ∈ items ∧ o_uid obj ∉ visited.

Definition delete_failed (ev : Event) : bool :=
  match ev with EvDelete _ _ _ _ (Some _) => true | _ => false end.

Record pruned (r r' : ApplyResults) (deletes : list Event) : Prop := {
  pr_total : total r' = total r ∧ applySuccessCount r' = applySuccessCount r
             ∧ applyFailCount r' = applyFailCount r
             ∧ healthyCount r' = healthyCount r ∧ unhealthyCount r' = unhealthyCount r;
  pr_fail : pruneFailCount r' = pruneFailCount r + Z.of_nat (length (filter delete_failed deletes));
  pr_sum : pruneSuccessCount r' + pruneFailCount r'
           = pruneSuccessCount r + pruneFailCount r + Z.of_nat (length deletes);
  pr_objects : ∃ keys, status_key <$> Objects r' = (status_key <$> Objects r) ++ keys
               ∧ length keys = length deletes
}.

Lemma deletePruned_spec a objs r :
  sends (W := W) (deletePruned a objs r) (λ r' new,
    Forall2 (λ p ev, ∃ answer, ev = EvDelete (rm_Resource (p_Mapping p)) (p_Namespace p)
                                     (p_Name p) (deleteOptions a) answer) objs new
    ∧ pruned r r' new).
Proof.
  revert r; induction objs as [|p objs IH]; intros r; cbn [deletePruned].
  { apply sends_ret. split; [constructor|]. split; simpl; try done; try lia.
    exists []. by rewrite app_nil_r. }
  eapply sends_bind; [apply sends_Delete|]. intros answer new ->.
  destruct answer as [err|]; (eapply sends_mono; [apply IH|]); intros r' new [Hall Hpr];
    (split; [constructor; [by eexists|done]|]);
    destruct Hpr as [(? & ? & ? & ? & ?) Hf Hs (keys & Hk & Hl)]; simpl in *;
    (split; [tauto| | |]); cbn [app]; rewrite ?filter_cons; cbn [delete_failed];
    rewrite ?(decide_True (P := Is_true true)), ?(decide_False (P := Is_true false)) by auto;
    cbn [length]; try lia.
  all: rewrite fmap_app, <- (assoc (++)) in Hk; eexists; (split; [exact Hk|]); simpl; lia.
Qed.

End parent_lemmas.

(* ------------------------------------------------------------------ *)
(** ** The whole operation *)

(** The kubectl applyset ApplyOnce starts from, and with the kinds of the
    trackers registered. *)
Definition freshApplySet (a : ApplySet) : kubectlapply.ApplySet :=
  NewApplySet (kubectl_parentRef (parent a)) (tooling a).
Definition resolvedApplySet `{RESTMapper} (a : ApplySet) : kubectlapply.ApplySet :=
  (resolveTrackers (freshApplySet a) (trackers a)).2.

Section whole.
Context `{RangeOrder, SchemaText, RESTMapper, Scheduler} {W : Type} `{Server W}.
Context (Marshal : ApplyableObject → res string).
Implicit Types (a : ApplySet) (o : outcome).

(** The requests of one ApplyOnce, in five phases: the parent, the patches,
    the search, the deletes, and the parent again. *)
Record phases a o (up patches lists deletes up2 : list Event) : Prop := {
  ph_up ev : ev ∈ up → ∃ p answer, ev = EvUpdate p answer;
  ph_recorded : patches ≠ [] → recorded a (resolvedApplySet a) up;
  ph_patches : Forall (λ ev, ∃ t, t ∈ trackers a
    ∧ patch_of Marshal (patchOptions a) (LabelsForMember (freshApplySet a)) t ev) patches;
  ph_prune : lists ++ deletes ++ up2 ≠ [] →
    prune a = true ∧ length (applied_uids patches) = length (trackers a);
  ph_lists : Forall (member_list (freshApplySet a)) lists;
  ph_deletes : Forall (prune_of a (freshApplySet a) (list_to_set (applied_uids patches)) lists)
                 deletes;
  ph_up2 ev : ev ∈ up2 → ∃ p answer, ev = EvUpdate p answer;
  ph_results r : o = Returned (Some r) None →
    ∃ r', advanced (initialResults (length (trackers a))) r' (length (applied_uids patches))
            (tracker_key <$> trackers a)
      ∧ pruned r' r deletes
}.

Lemma pruned_nil r : pruned r r [].
Proof. split; simpl; try done; try lia. exists []. by rewrite app_nil_r. Qed.

Lemma member_list_parentRef (k k' : kubectlapply.ApplySet) ev :
  parentRef k = parentRef k' → member_list k ev → member_list k' ev.
Proof.
  intros E. unfold member_list, LabelSelectorForMembers, LabelsForMember, ID. by rewrite E.
Qed.

Lemma applied_all m r n keys :
  advanced (initialResults m) r n keys →
  (applyFailCount r =? 0) = true → n = length keys.
Proof. intros [_ Hs Hf _ _ _ _] Hz. apply Z.eqb_eq in Hz. simpl in *. lia. Qed.

Lemma updateParent_events (subject : RuntimeObject) k mode :
  sends (W := W) (updateParentLabelsAndAnnotations subject k mode)
    (λ _ new, ∀ ev, ev ∈ new → ∃ p answer, ev = EvUpdate p answer).
Proof.
  destruct subject as [o|]; [|apply sends_ret; set_solver].
  eapply sends_mono; [apply updateParent_spec|].
  intros r new [(-> & _)|(answer & -> & _)]; set_solver.
Qed.

Lemma prunePhase_spec a k st m n keys :
  parentRef k = parentRef (freshApplySet a) →
  advanced (initialResults m) (ls_results st) n keys →
  sends (W := W) (prunePhase a k st) (λ r new,
    ∃ lists deletes up2, new = lists ++ deletes ++ up2
      ∧ (new ≠ [] → prune a = true ∧ n = length keys)
      ∧ Forall (member_list (freshApplySet a)) lists
      ∧ Forall (prune_of a (freshApplySet a) (ls_visited st) lists) deletes
      ∧ (∀ ev, ev ∈ up2 → ∃ p answer, ev = EvUpdate p answer)
      ∧ (∀ res, r.2 = Returned (Some res) None → pruned (ls_results st) res deletes)).
Proof.
  intros Hk Hadv. unfold prunePhase. destruct (prune a) eqn:Hp; simpl.
  2:{ apply sends_ret. exists [], [], []. repeat (split; [done || set_solver|]).
      intros ? [= ->]. apply pruned_nil. }
  destruct (applyFailCount (ls_results st) =? 0) eqn:Hz.
  2:{ apply sends_ret. exists [], [], []. repeat (split; [done || set_solver|]).
      intros ? [= ->]. apply pruned_nil. }
  pose proof (applied_all _ _ _ _ Hadv Hz) as Hn.
  eapply sends_bind; [apply FindAllObjectsToPrune_spec|]. intros found lists [Hlists Hfound].
  assert (Forall (member_list (freshApplySet a)) lists) as Hmem
    by (eapply list.Forall_impl; [done|]; intros ?; by apply member_list_parentRef).
  destruct found as [objs|err].
  2:{ apply sends_ret. exists lists, [], []. rewrite !app_nil_r.
      repeat (split; [done || set_solver|]). done. }
  eapply sends_bind; [apply deletePruned_spec|]. intros res deletes [Hdel Hpruned].
  eapply sends_bind; [apply updateParent_events|]. intros r up2 Hup2.
  apply sends_ret. exists lists, deletes, up2. rewrite app_nil_r.
  split; [done|]. split; [done|]. split; [done|]. split; [|split; [done|by intros ? [= <-]]].
  apply list.Forall_forall. intros ev (i & Hi)%list_elem_of_lookup.
  destruct (Forall2_lookup_r _ _ _ _ _ Hdel Hi) as (p & Hpi & answer & ->).
  apply list_elem_of_lookup_2 in Hpi.
  destruct (Hfound _ _ eq_refl Hpi) as (items & Hin & Hobj & Huid & ->).
  exists (rm_Resource (p_Mapping p)), (p_Namespace p), answer, items, (p_Object p).
  unfold LabelSelectorForMembers, LabelsForMember, ID in *. by rewrite <- Hk.
Qed.

Lemma ApplyOnce_phases a :
  sends (W := W) (ApplyOnce Marshal a) (λ r new,
    ∃ up patches lists deletes up2, new = up ++ patches ++ lists ++ deletes ++ up2
      ∧ phases a r.2 up patches lists deletes up2).
Proof.
  unfold ApplyOnce.
  pose proof (resolveTrackers_spec (freshApplySet a) (trackers a)) as [Hpr Htl _ _ _ _ _].
  pose proof (resolveTrackers_lookup (freshApplySet a) (trackers a)) as Hlook.
  fold (freshApplySet a).
  destruct (resolveTrackers (freshApplySet a) (trackers a)) as [rms k] eqn:Hres.
  assert (resolvedApplySet a = k) as Hk by (unfold resolvedApplySet; by rewrite Hres).
  cbn [fst snd] in *. eapply sends_bind; [by apply WithParent_spec|].
  intros [[subject k'] err] up [Hrec Hup]. cbn [fst snd] in *. destruct err as [err|].
  { apply sends_ret. exists up, [], [], [], []. split; [done|].
    by split; [| | | | | |set_solver|]. }
  destruct (Hrec eq_refl) as (Hrecorded & rs & ns & ->). rewrite <- Hk in Hrecorded.
  assert (parentRef (with_current k rs ns) = parentRef (freshApplySet a)) as Hpr' by done.
  assert (LabelsForMember (with_current k rs ns) = LabelsForMember (freshApplySet a)) as Hlab
    by (unfold LabelsForMember, ID; by rewrite Hpr').
  rewrite Hlab. eapply sends_bind.
  { apply applyTrackers_spec, list.Forall_forall. intros t Ht. by apply Hlook. }
  intros [ts s] patches [Hpat Hnext Hstop]. cbn [fst snd with_parent patchOptions] in *.
  destruct s as [st|o].
  - destruct (Hnext st eq_refl) as [Hadv Hvis].
    cbn [ls_results ls_visited] in Hadv, Hvis. rewrite (left_id_L ∅ (∪)) in Hvis.
    eapply sends_bind; [by eapply prunePhase_spec|].
    intros r new (lists & deletes & up2 & -> & Hprune & Hli & Hde & Hup2 & Hr). apply sends_ret.
    rewrite app_nil_r. exists up, patches, lists, deletes, up2. split; [done|].
    rewrite Hvis in Hde. rewrite length_fmap in Hprune. split; try done.
    intros res Hres'. exists (ls_results st). auto.
  - apply sends_ret. exists up, patches, [], [], []. rewrite !app_nil_r. split; [done|].
    split; try done; [intros ev; by rewrite elem_of_nil|].
    intros r Ho. cbn [snd] in Ho. subst. by destruct (Hstop (Some r)).
Qed.
End whole.

(** ** Consequences of the phases *)

Definition is_delete (ev : Event) : bool :=
  match ev with EvDelete _ _ _ _ _ => true | _ => false end.

Section consequences.
Context `{RangeOrder, SchemaText, RESTMapper}.
Context (Marshal : ApplyableObject → res string).
Implicit Types (a : ApplySet) (o : outcome).

(** Which phase a kind of request belongs to. *)
Lemma phases_kinds a o up patches lists deletes up2 :
  phases Marshal a o up patches lists deletes up2 →
  Forall (λ ev, applied_uid ev = None ∧ is_delete ev = false) (up ++ lists ++ up2)
  ∧ Forall (λ ev, is_delete ev = false) patches
  ∧ Forall (λ ev, applied_uid ev = None ∧ is_delete ev = true) deletes.
Proof.
  intros [Hup _ Hpat _ Hli Hde Hup2 _]. split; [|split].
  - rewrite !list.Forall_app, !list.Forall_forall. split; [|split].
    + by intros ev (? & ? & ->)%Hup.
    + intros [] ?%(proj1 (list.Forall_forall _ _) Hli); done.
    + by intros ev (? & ? & ->)%Hup2.
  - eapply list.Forall_impl; [done|]. by intros ev (t & _ & u & rm & body & r & _ & _ & _ & ->).
  - eapply list.Forall_impl; [done|]. by intros ev (? & ? & ? & ? & ? & -> & _).
Qed.

Lemma applied_uids_nil (evs : list Event) (Q : Event → Prop) :
  Forall (λ ev, applied_uid ev = None ∧ Q ev) evs → applied_uids evs = [].
Proof. intros Hf. apply omap_nil. intros ev Hev. by eapply list.Forall_forall in Hf as [? _]. Qed.

(** All the deletes of a run are those of its fourth phase. *)
Lemma phases_deletes a o up patches lists deletes up2 :
  phases Marshal a o up patches lists deletes up2 →
  filter is_delete (up ++ patches ++ lists ++ deletes ++ up2) = deletes
  ∧ applied_uids (up ++ patches ++ lists ++ deletes ++ up2) = applied_uids patches.
Proof.
  intros Hph. destruct (phases_kinds _ _ _ _ _ _ _ Hph) as (Ho & Hp & Hd).
  apply list.Forall_app in Ho as [Hup [Hli Hup2]%list.Forall_app]. split.
  - rewrite list.Forall_forall in Hup, Hp, Hli, Hd, Hup2.
    rewrite !list.filter_app, (filter_all _ deletes), !filter_none; rewrite ?app_nil_r; try done.
    all: intros ev Hev; (apply Hup2 in Hev as [_ ->] || apply Hd in Hev as [_ ->]
      || apply Hli in Hev as [_ ->] || apply Hp in Hev as -> || apply Hup in Hev as [_ ->]); auto.
  - apply applied_uids_nil in Hup, Hli, Hd, Hup2. unfold applied_uids in *.
    by rewrite !omap_app, Hup, Hli, Hd, Hup2, !app_nil_r.
Qed.

(** A delete splits the requests of a run within its fourth phase. *)
Lemma phases_split_delete a o up patches lists deletes up2 pre ev post :
  phases Marshal a o up patches lists deletes up2 → is_delete ev = true →
  up ++ patches ++ lists ++ deletes ++ up2 = pre ++ ev :: post →
  ∃ d1 d2, deletes = d1 ++ ev :: d2 ∧ pre = up ++ patches ++ lists ++ d1 ∧ post = d2 ++ up2.
Proof.
  intros Hph Hev E. destruct (phases_kinds _ _ _ _ _ _ _ Hph) as (Ho & Hp & Hd).
  apply list.Forall_app in Ho as [Hup [Hli Hup2]%list.Forall_app].
  rewrite list.Forall_forall in Hup, Hli, Hup2, Hp.
  assert (ev ∉ up ++ patches ++ lists) as Hn1.
  { rewrite !elem_of_app. intros [[]%Hup|[?%Hp|[]%Hli]]; congruence. }
  assert (ev ∉ up2) as Hn2 by (intros []%Hup2; congruence).
  rewrite (assoc (++) patches), (assoc (++) up) in E.
  apply app_split_r in E as (l & -> & E); [|done].
  apply app_split_l in E as (l' & -> & ->); [|done].
  exists l, l'. by rewrite <- !(assoc (++)).
Qed.

(** A patch splits them within the second. *)
Lemma phases_split_patch a o up patches lists deletes up2 pre gvr ns name body opts r post :
  phases Marshal a o up patches lists deletes up2 →
  up ++ patches ++ lists ++ deletes ++ up2 = pre ++ EvPatch gvr ns name body opts r :: post →
  ∃ p1 p2, patches = p1 ++ EvPatch gvr ns name body opts r :: p2 ∧ pre = up ++ p1.
Proof.
  intros [Hup _ _ _ Hli Hde Hup2 _] E. rewrite list.Forall_forall in Hli, Hde.
  apply app_split_r in E as (l & -> & E); [|by intros (? & ? & ?)%Hup].
  apply app_split_l in E as (l' & -> & ->); [by exists l, l'|].
  rewrite !elem_of_app. intros [[]%Hli|[(? & ? & ? & ? & ? & ? & _)%Hde|(? & ? & ?)%Hup2]]; done.
Qed.
End consequences.

(* ------------------------------------------------------------------ *)
(** ** Every tracker was applied, when none failed *)

Definition is_patch (ev : Event) : bool :=
  match ev with EvPatch _ _ _ _ _ _ => true | _ => false end.

Section patched_all.
Context `{RangeOrder, SchemaText, RESTMapper, Scheduler} {W : Type} `{Server W}.
Context (Marshal : ApplyableObject → res string).

Definition applied_patch (opts : PatchOptions) labels (t : objectTracker) (ev : Event) : Prop :=
  patch_of Marshal opts labels t ev ∧ is_Some (applied_uid ev).

Lemma iteration_applied opts labels t st st' new :
  iteration Marshal opts labels t st (Next st') new →
  applyFailCount (ls_results st') = applyFailCount (ls_results st) →
  ∃ ev, new = [ev] ∧ applied_patch opts labels t ev.
Proof.
  inversion 1 as [|ev err Hp Hu|ev applied healthy message err Hp Hu| |]; subst; cbn; intros Hf; [lia|lia|].
  exists ev; split; [done|]; split; [done|]; by rewrite Hu.
Qed.

Lemma applyTrackers_applied a rms labels ts st :
  Forall (λ t, rms !! app_gvk (desired t) = Some (lookupRESTMapping (app_gvk (desired t)))) ts →
  sends (W := W) (applyTrackers Marshal a rms labels ts st) (λ r new, ∀ st', r.2 = Next st' →
    applyFailCount (ls_results st') = applyFailCount (ls_results st) →
    Forall2 (applied_patch (patchOptions a) labels) ts new).
Proof.
  intros Hts; revert st; induction Hts as [|t ts Ht Hts IH]; intros st; cbn [applyTrackers].
  { apply sends_ret; constructor. }
  eapply sends_bind; [by apply applyTracker_spec|]; intros [t' [st1|o]] new Hit; cbn [fst snd] in *.
  2:{ by apply sends_ret. }
  eapply sends_bind; [apply sends_and; [apply IH|by apply (applyTrackers_spec Marshal a rms labels)]|].
  intros [ts' s] new' [Happ [_ Hnext _]]; apply sends_ret; cbn [snd] in *; intros st' -> Hf.
  destruct (Hnext st' eq_refl) as [[_ _ _ Hm2 _ _ _] _].
  destruct (iteration_next _ _ _ _ _ _ _ Hit) as [[_ _ _ Hm1 _ _ _] _].
  destruct (iteration_applied _ _ _ _ _ _ Hit) as (ev & -> & Hev); [lia|].
  rewrite app_nil_r; constructor; [done|]; apply (Happ st'); [done|lia].
Qed.

Lemma no_deletes (l : list Event) : filter is_delete l = [] ↔ ∀ ev, ev ∈ l → is_delete ev = false.
Proof.
  split.
  - intros E ev Hev. destruct (is_delete ev) eqn:Hd; [|done].
    assert (ev ∈ filter is_delete l) as Hin by (apply list_elem_of_filter; rewrite Hd; by split).
    by rewrite E in Hin; apply elem_of_nil in Hin.
  - intros Hl. apply filter_none. intros ev Hev. rewrite (Hl ev Hev). by intros [].
Qed.

Lemma applied_patches_patches opts labels ts patches :
  Forall2 (applied_patch opts labels) ts patches → ∀ ev, ev ∈ patches → is_patch ev = true.
Proof.
  induction 1 as [|t ev ts patches [(u & rm & body & r & _ & _ & _ & ->) _] _ IH]; intros ev' Hin; [set_solver|].
  apply elem_of_cons in Hin as [->|Hin]; [done|by apply IH].
Qed.

Lemma applied_patches_no_deletes opts labels ts patches :
  Forall2 (applied_patch opts labels) ts patches → ∀ ev, ev ∈ patches → is_delete ev = false.
Proof.
  induction 1 as [|t ev ts patches [(u & rm & body & r & _ & _ & _ & ->) _] _ IH]; intros ev' Hin; [set_solver|].
  apply elem_of_cons in Hin as [->|Hin]; [done|by apply IH].
Qed.

(** The requests of an ApplyOnce that reports no failure: the parent, one accepted
    patch for each tracker, and the requests of the pruning. *)
Lemma ApplyOnce_patched_all a :
  sends (W := W) (ApplyOnce Marshal a) (λ r new, ∀ res, r.2 = Returned (Some res) None → applyFailCount res = 0%Z →
    ∃ up patches rest, new = up ++ patches ++ rest
      ∧ Forall2 (applied_patch (patchOptions a) (kubectlapply.LabelsForMember (freshApplySet a))) (trackers a) patches
      ∧ (∀ ev, ev ∈ up → is_delete ev = false ∧ is_patch ev = false)
      ∧ (∀ ev, ev ∈ rest → is_patch ev = false) ∧ (prune a = false → rest = [])).
Proof.
  unfold ApplyOnce; fold (freshApplySet a).
  pose proof (resolveTrackers_spec (freshApplySet a) (trackers a)) as [Hpr Htl _ _ _ _ _].
  pose proof (resolveTrackers_lookup (freshApplySet a) (trackers a)) as Hlook.
  destruct (resolveTrackers (freshApplySet a) (trackers a)) as [rms k] eqn:Hres; cbn [fst snd] in *.
  eapply sends_bind; [by apply WithParent_spec|]; intros [[subject k'] err] up [Hrec Hup]; cbn [fst snd] in *.
  destruct err as [err|]; [by apply sends_ret|].
  destruct (Hrec eq_refl) as (_ & rs & ns & ->).
  assert (kubectlapply.LabelsForMember (kubectlapply.with_current k rs ns) = kubectlapply.LabelsForMember (freshApplySet a))
    as -> by (unfold kubectlapply.LabelsForMember, kubectlapply.ID; cbn; by rewrite Hpr).
  assert (Forall (λ t, rms !! app_gvk (desired t) = Some (lookupRESTMapping (app_gvk (desired t)))) (trackers a)) as HF
    by (apply list.Forall_forall; intros t Ht; by apply Hlook).
  eapply sends_bind; [apply sends_and; [by apply applyTrackers_applied|by apply applyTrackers_spec]|].
  intros [ts [st|o]] patches [Happ [_ Hnext Hstop]]; cbn [fst snd] in *.
  2:{ apply sends_ret; cbn [snd]; intros res -> _; by destruct (Hstop (Some res)). }
  destruct (Hnext st eq_refl) as [Hadv _]; cbn [ls_results] in Hadv.
  eapply sends_bind; [by eapply prunePhase_spec|].
  intros r new (lists & deletes & up2 & -> & Hprune & Hli & Hde & Hup2 & Hr); apply sends_ret; rewrite app_nil_r.
  intros res Hout Hzero; cbn [snd] in Hout; exists up, patches, (lists ++ deletes ++ up2); split; [done|].
  destruct (Hr res Hout) as [(_ & _ & Hfail & _) _ _ _].
  split; [apply (Happ st eq_refl); cbn; congruence|].
  split; [intros ev Hev; by destruct (Hup ev Hev) as (p & answer & ->)|].
  split.
  { rewrite list.Forall_forall in Hli, Hde. intros ev.
    rewrite !elem_of_app; intros [Hev|[Hev|Hev]].
    - specialize (Hli _ Hev). by destruct ev.
    - by destruct (Hde _ Hev) as (? & ? & ? & ? & ? & -> & _).
    - by destruct (Hup2 _ Hev) as (? & ? & ->). }
  intros Hp; destruct (lists ++ deletes ++ up2); [done|]; destruct Hprune as [Hp' _]; [done|].
  cbn in Hp'; congruence.
Qed.

(** The requests of an ApplyOnce that succeeded with every object applied: an
    accepted patch for each tracker, in order, and no other patches; and no delete
    that failed, or that was not asked for. *)
Lemma ApplyOnce_applied a (env : Env W) set' results env' :
  ApplyOnce Marshal a env = ((set', Returned (Some results) None), env') →
  AllApplied results = true →
  ∃ new, log env' = log env ++ new
    ∧ Forall2 (applied_patch (patchOptions a) (kubectlapply.LabelsForMember (freshApplySet a)))
        (trackers a) (filter is_patch new)
    ∧ ∀ gvr ns name o r, EvDelete gvr ns name o r ∈ new → prune a = true ∧ r = None.
Proof.
  intros Honce Hall. unfold AllApplied in Hall. apply andb_prop in Hall as [Hf Hpf].
  apply Z.eqb_eq in Hf, Hpf.
  destruct (sends_run _ _ env (sends_and _ _ _ (ApplyOnce_patched_all a) (ApplyOnce_phases Marshal a)))
    as (new & Hlog & Hpat & up & patches & lists & deletes & up2 & Enew & Hph).
  rewrite Honce in Hlog, Hph, Hpat. cbn [fst snd] in *. exists new. split; [exact Hlog|].
  split.
  - destruct (Hpat results eq_refl Hf) as (up' & ps & rest & -> & Hall & Hup & Hrest & _).
    assert (filter is_patch (up' ++ ps ++ rest) = ps) as ->; [|exact Hall].
    rewrite !list.filter_app.
    assert (∀ l, (∀ ev, ev ∈ l → is_patch ev = false) → filter is_patch l = []) as Hnone.
    { intros l Hl. apply filter_none. intros ev Hev. rewrite (Hl ev Hev). by intros []. }
    rewrite (Hnone up'), (Hnone rest), app_nil_r; [|done|intros ev Hev; by apply Hup].
    apply filter_all. intros ev Hev. rewrite (applied_patches_patches _ _ _ _ Hall ev Hev). exact I.
  - subst new. destruct (phases_deletes _ _ _ _ _ _ _ _ Hph) as [Hdel _].
    destruct (ph_results _ _ _ _ _ _ _ _ Hph results eq_refl) as (r' & [_ _ _ _ _ [_ A7] _] & [_ P6 _ _]).
    intros gvr ns name o r Hin.
    assert (EvDelete gvr ns name o r ∈ deletes) as Hd by (rewrite <- Hdel; by apply list_elem_of_filter).
    split; [apply (ph_prune _ _ _ _ _ _ _ _ Hph); destruct deletes; [by apply elem_of_nil in Hd|by destruct lists]|].
    destruct r as [e|]; [exfalso|done].
    assert (EvDelete gvr ns name o (Some e) ∈ filter delete_failed deletes) as Hin'
      by (by apply list_elem_of_filter).
    destruct (filter delete_failed deletes); [by apply elem_of_nil in Hin'|cbn -[Z.add] in *; lia].
Qed.
End patched_all.

(* ------------------------------------------------------------------ *)
(** ** Properties *)

(** C1. Pruning is safe, whatever the server answers. A delete is sent only
    with pruning enabled and after every object of the set was applied; what
    it deletes was listed before, under the delete's resource and namespace,
    by a request for members of this set, and is none of the objects the
    server answered for the objects applied. Nothing is applied after it. *)
Theorem ApplyOnce_prune_safety `{RangeOrder, SchemaText, RESTMapper, Scheduler} {W} `{Server W}
    (Marshal : ApplyableObject → res string) (a : ApplySet) (e : Env W) :
  ∃ new, log (ApplyOnce Marshal a e).2 = log e ++ new
    ∧ ∀ pre gvr ns name opts r post, new = pre ++ EvDelete gvr ns name opts r :: post →
      prune a = true ∧ opts = deleteOptions a
      ∧ length (applied_uids pre) = length (trackers a) ∧ applied_uids post = []
      ∧ ∃ items obj,
          EvList gvr ns (LabelSelectorForMembers (freshApplySet a)) (Ok items) ∈ pre
          ∧ obj ∈ items ∧ o_name obj = name ∧ o_uid obj ∉ applied_uids pre.
Proof.
  destruct (sends_run _ _ e (ApplyOnce_phases Marshal a))
    as (new & Hlog & up & patches & lists & deletes & up2 & -> & Hph).
  eexists. split; [done|]. intros pre gvr ns name opts r post E.
  destruct (phases_deletes _ _ _ _ _ _ _ _ Hph) as [_ Hall].
  destruct (phases_kinds _ _ _ _ _ _ _ _ Hph) as (Ho & _ & Hd).
  apply list.Forall_app in Ho as [Hup [Hli Hup2]%list.Forall_app].
  apply (phases_split_delete _ _ _ _ _ _ _ _ _ _ _ Hph) in E as (d1 & d2 & -> & -> & ->); [|done].
  apply list.Forall_app in Hd as [Hd1 [_ Hd2]%list.Forall_cons].
  assert (applied_uids (up ++ patches ++ lists ++ d1) = applied_uids patches) as Hpre.
  { apply applied_uids_nil in Hup, Hli, Hd1. unfold applied_uids in *.
    by rewrite !omap_app, Hup, Hli, Hd1, !app_nil_r. }
  destruct (ph_prune _ _ _ _ _ _ _ _ Hph) as [-> Hn]; [by destruct lists, d1|].
  pose proof (ph_deletes _ _ _ _ _ _ _ _ Hph) as [_ [Hdel _]%list.Forall_cons]%list.Forall_app.
  destruct Hdel as (gvr' & ns' & r' & items & obj & [= -> -> -> -> ->] & Hin & Hobj & Huid).
  rewrite Hpre. split; [done|]. split; [done|]. split; [done|]. split.
  { apply applied_uids_nil in Hd2, Hup2. unfold applied_uids in *. by rewrite omap_app, Hd2, Hup2. }
  exists items, obj. rewrite elem_of_list_to_set in Huid. set_solver.
Qed.

(** C9. The results account for every object and every request. When ApplyOnce
    returns without an error, each tracker was either applied, as many as the
    server accepted patches, or counted as failed; the health of each applied
    object was reported; every delete sent is counted as a success or a
    failure by its answer; the statuses list the trackers in their order, then
    the pruned objects. The consistency check stays silent exactly when no
    object failed. *)
Theorem ApplyOnce_accounting `{RangeOrder, SchemaText, RESTMapper, Scheduler} {W} `{Server W}
    (Marshal : ApplyableObject → res string) (a : ApplySet) (e : Env W) :
  ∃ new, log (ApplyOnce Marshal a e).2 = log e ++ new
    ∧ ∀ r, (ApplyOnce Marshal a e).1.2 = Returned (Some r) None →
      total r = Z.of_nat (length (trackers a))
      ∧ applySuccessCount r = Z.of_nat (length (applied_uids new))
      ∧ applySuccessCount r + applyFailCount r = total r
      ∧ healthyCount r + unhealthyCount r = applySuccessCount r
      ∧ pruneSuccessCount r + pruneFailCount r = Z.of_nat (length (filter is_delete new))
      ∧ pruneFailCount r = Z.of_nat (length (filter delete_failed (filter is_delete new)))
      ∧ take (length (trackers a)) (status_key <$> Objects r) = (tracker_key <$> trackers a)
      ∧ Z.of_nat (length (Objects r)) = total r + pruneSuccessCount r + pruneFailCount r
      ∧ (checkInvariants r = None ↔ applyFailCount r = 0).
Proof.
  destruct (sends_run _ _ e (ApplyOnce_phases Marshal a))
    as (new & Hlog & up & patches & lists & deletes & up2 & -> & Hph).
  eexists. split; [done|]. intros r Hr.
  destruct (phases_deletes _ _ _ _ _ _ _ _ Hph) as [-> ->].
  destruct (ph_results _ _ _ _ _ _ _ _ Hph r Hr) as (r' & [A1 A2 A3 A4 A5 [A6 A7] A8] & Hpr).
  destruct Hpr as [(P1 & P2 & P3 & P4 & P5) P6 P7 (keys & P8 & P9)]. cbn -[Z.add] in *.
  rewrite length_fmap in A3. rewrite A8 in P8. cbn [app fmap list_fmap] in P8.
  repeat (split; [lia|]). split; [|split; [|split]].
  - rewrite P8, take_app_le by (by rewrite length_fmap).
    by rewrite <- (length_fmap tracker_key), firstn_all.
  - apply (f_equal length) in P8. rewrite length_app, !length_fmap in P8. lia.
  - unfold checkInvariants. repeat case_decide; [done|done|lia].
  - unfold checkInvariants. intros. rewrite !decide_False by lia. done.
Qed.

(** C2. No object is applied before the parent records its kind. Each patch
    request is for the object of a tracker, with the member label, at the
    resource the mapper gives for its kind; before it, the parent's
    contains-group-kinds annotation was updated to, or already was, the text
    of a set that has the kind of the object and every kind the parent
    recorded before. A crash at any point leaves no object behind whose kind
    the next prune does not look at. *)
Theorem ApplyOnce_superset_first `{RangeOrder, SchemaText, RESTMapper, Scheduler} {W} `{Server W}
    (Marshal : ApplyableObject → res string) (a : ApplySet) (e : Env W) :
  (∀ t rm, t ∈ trackers a →
     mapper_RESTMapping (GVK_GroupKind (app_gvk (desired t))) [gvk_Version (app_gvk (desired t))]
       = Ok rm →
     GK_String (GVK_GroupKind (rm_GroupVersionKind rm)) ≠ "") →
  ∃ new, log (ApplyOnce Marshal a e).2 = log e ++ new
    ∧ ∀ pre gvr ns name body opts r post, new = pre ++ EvPatch gvr ns name body opts r :: post →
      ∃ object prev u rm kinds,
        par_object (parent a) = Accessible object
        ∧ parseKindAnnotation (o_annotations (prepareParent a (resolvedApplySet a) object)) = Ok prev
        ∧ Unstructured u ∈ (desired <$> trackers a)
        ∧ mapper_RESTMapping (GVK_GroupKind (o_gvk u)) [gvk_Version (o_gvk u)] = Ok rm
        ∧ gvr = rm_Resource rm ∧ ns = o_namespace u ∧ name = o_name u ∧ opts = patchOptions a
        ∧ Marshal (Unstructured (with_labels
            (<[ApplysetPartOfLabel := ID (freshApplySet a)]> (o_labels u)) u)) = Ok body
        ∧ GVK_GroupKind (rm_GroupVersionKind rm) ∈ kinds ∧ dom prev ⊆ kinds
        ∧ (o_annotations object !! ApplySetGKsAnnotation
             = Some (generateResourcesAnnotation kinds)
           ∨ ∃ p stored, EvUpdate p (Ok stored) ∈ pre
               ∧ o_annotations p !! ApplySetGKsAnnotation
                 = Some (generateResourcesAnnotation kinds)).
Proof.
  intros Htext. destruct (sends_run _ _ e (ApplyOnce_phases Marshal a))
    as (new & Hlog & up & patches & lists & deletes & up2 & -> & Hph).
  eexists. split; [done|]. intros pre gvr ns name body opts r post E.
  eapply phases_split_patch in E as (p1 & p2 & -> & ->); [|done].
  destruct (ph_recorded _ _ _ _ _ _ _ _ Hph) as (object & prev & Hobj & Hprev & Hup);
    [by destruct p1|].
  pose proof (ph_patches _ _ _ _ _ _ _ _ Hph) as [_ [Hpat _]%list.Forall_cons]%list.Forall_app.
  destruct Hpat as (t & Ht & u & rm & body' & r' & Hd & Hrm & Hj & [= -> -> -> -> -> ->]).
  assert (GVK_GroupKind (rm_GroupVersionKind rm) ∈ dom (updatedResources (resolvedApplySet a)))
    as Hkind.
  { eapply (res_kinds _ _ _ _ (resolveTrackers_spec (freshApplySet a) (trackers a))); [done|].
    unfold lookupRESTMapping, app_gvk. rewrite Hd. cbn [app_object]. by rewrite Hrm. }
  exists object, prev, u, rm, (dom prev ∪ dom (updatedResources (resolvedApplySet a))).
  split; [done|]. split; [done|]. split. { apply list_elem_of_fmap. by exists t. }
  split; [done|]. do 4 (split; [done|]). split; [by rewrite insert_union_singleton_l|].
  split; [set_solver|]. split; [set_solver|].
  destruct Hup as [[-> Hsame]|(p & stored & -> & Hann)]; [left|right].
  - destruct (o_annotations object !! _); simpl in Hsame; [by subst|exfalso].
    symmetry in Hsame. revert Hsame. rewrite generateResourcesAnnotation_eq.
    apply (Join_nonempty _ _ (GK_String (GVK_GroupKind (rm_GroupVersionKind rm)))); [|eapply Htext; [done|]|done].
    + rewrite elem_of_sort_Strings. apply list_elem_of_fmap.
      eexists. split; [done|]. apply elem_of_elements. set_solver.
    + unfold app_gvk. by rewrite Hd.
  - exists p, stored. split; [set_solver|done].
Qed.

(** ApplyOnce never refuses a parent because another tool manages it:
    whatever tooling annotation and id label the parent carries, they are
    replaced before the check, and fetching it succeeds exactly when the
    version of the tooling has no slash and the kinds annotation parses. *)
Theorem WithParent_fetch_iff `{RESTMapper, SchemaText} (a : ApplySet)
    (object : Object) :
  let k := resolvedApplySet a in
  (FetchParent k (Accessible (prepareParent a k object))).2 = None
  ↔ strings.free_of "/" (tool_Version (tooling a)) = true
    ∧ ∃ prev, parseKindAnnotation (o_annotations (prepareParent a k object)) = Ok prev.
Proof.
  intros k. rewrite FetchParent_prepared
    by apply (res_tooling _ _ _ _ (resolveTrackers_spec (freshApplySet a) (trackers a))).
  case_decide; [|naive_solver]. destruct (parseKindAnnotation _); naive_solver.
Qed.

(** A tooling string with a second slash, such as name/version/suffix,
    can never apply anything: ApplyOnce returns an error and sends no request,
    whatever the server and the parent. *)
Theorem ApplyOnce_tooling_slash `{RangeOrder, SchemaText, RESTMapper, Scheduler} {W} `{Server W}
    (Marshal : ApplyableObject → res string) (a : ApplySet) (e : Env W) :
  strings.free_of "/" (tool_Version (tooling a)) = false →
  (ApplyOnce Marshal a e).2 = e
  ∧ ∃ r err, (ApplyOnce Marshal a e).1.2 = Returned (Some r) (Some err).
Proof.
  intros Hv.
  pose proof (res_tooling _ _ _ _ (resolveTrackers_spec (freshApplySet a) (trackers a))) as Ht.
  unfold ApplyOnce. fold (freshApplySet a).
  destruct (resolveTrackers (freshApplySet a) (trackers a)) as [rms k].
  assert (∃ s k' err, WithParent (W := W) a k e = ((s, k', Some err), e)) as (s & k' & err & HW).
  { unfold WithParent. destruct (par_object (parent a)); cbn [meta_Accessor]; [|by repeat eexists].
    rewrite FetchParent_prepared by done. rewrite decide_False by congruence. by repeat eexists. }
  unfold mbind, M_bind. rewrite HW. split; [done|by repeat eexists].
Qed.

(** *** The desired objects *)

Lemma existingTrackers_lookup (items : list objectTracker) key :
  existingTrackers items !! key = list.last (filter (λ t, tracker_key t = key) items).
Proof.
  unfold existingTrackers. induction items as [|t items IH] using rev_ind; [done|].
  rewrite foldl_app, list.filter_app. cbn [foldl]. rewrite filter_cons. fold (tracker_key t).
  rewrite filter_nil. case_decide as Hk.
  - rewrite list.last_snoc. subst. by rewrite lookup_insert_eq.
  - by rewrite lookup_insert_ne, app_nil_r by done.
Qed.

Lemma newTracker_desired existing obj : desired (newTracker existing obj) = obj.
Proof. unfold newTracker. repeat case_match; done. Qed.

Lemma setDesiredObjects_desired items objects :
  desired <$> setDesiredObjects items objects = objects.
Proof.
  unfold setDesiredObjects. rewrite <- list_fmap_compose.
  rewrite <- (list_fmap_id objects) at 2. apply list_fmap_ext.
  intros ? ? ?. apply newTracker_desired.
Qed.

(** Setting the desired objects keeps their order and drops what is no
    longer desired; an object whose key was tracked keeps what was last
    applied and its health. Setting the same objects, with distinct keys,
    again changes nothing. *)
Theorem SetDesiredObjects_spec (a : ApplySet) (objects : list ApplyableObject) :
  (desired <$> trackers (SetDesiredObjects a objects) = objects)
  ∧ (∀ t, t ∈ trackers (SetDesiredObjects a objects) →
       match list.last (filter (λ t', tracker_key t' = tracker_key t) (trackers a)) with
       | Some t0 => lastApplied t = lastApplied t0 ∧ isHealthy t = isHealthy t0
                    ∧ desiredIsApplied t = (desiredIsApplied t0 && bool_decide (desired t = desired t0))
       | None => lastApplied t = None ∧ isHealthy t = false ∧ desiredIsApplied t = false
       end)
  ∧ (NoDup (computeKey <$> objects) →
     SetDesiredObjects (SetDesiredObjects a objects) objects = SetDesiredObjects a objects).
Proof.
  unfold SetDesiredObjects. cbn [trackers with_trackers]. split; [apply setDesiredObjects_desired|].
  split.
  - intros t (obj & -> & _)%list_elem_of_fmap.
    replace (tracker_key (newTracker _ obj)) with (computeKey obj)
      by (unfold tracker_key; by rewrite newTracker_desired).
    rewrite <- existingTrackers_lookup. unfold newTracker.
    destruct (existingTrackers _ !! _) as [t0|]; [|done].
    case_decide as Heq; simpl; rewrite ?andb_true_r.
    + by rewrite bool_decide_eq_true_2, andb_true_r.
    + by rewrite bool_decide_eq_false_2, andb_false_r.
  - intros Hnd. f_equal. set (ts := setDesiredObjects (trackers a) objects).
    rewrite <- (setDesiredObjects_desired (trackers a) objects) at 1. fold ts.
    assert (NoDup (tracker_key <$> ts)) as Hnd'.
    { unfold tracker_key. rewrite (list_fmap_compose desired computeKey). unfold ts. by rewrite setDesiredObjects_desired. }
    unfold setDesiredObjects at 1. change (map ?f ?l) with (f <$> l).
    rewrite <- list_fmap_compose. rewrite <- (list_fmap_id ts) at 3.
    apply list_fmap_ext. intros i t Ht%list_elem_of_lookup_2. simpl. unfold newTracker.
    fold (tracker_key t). rewrite existingTrackers_lookup, last_filter_unique by done.
    rewrite decide_True by done. by destruct t.
Qed.

(* ------------------------------------------------------------------ *)
(** ** A concrete cluster *)

Definition example_guestbook : Object :=
  mkObject (mkGVK "example.org" "v1" "Guestbook") "default" "gb" "uid-gb" ∅ ∅ "".
Definition example_parent : ParentRef :=
  NewParentRef (Accessible example_guestbook) "gb" "default"
    (mkMapping (mkGVR "example.org" "v1" "guestbooks") (mkGVK "example.org" "v1" "Guestbook")
       RESTScopeNamespace).
Definition example_healthy : ComputeHealthCallback := λ _, Some (true, "", None).
Definition example_options (tooling : string) : Options :=
  mkOptions (mkPatchOptions "" (Some true)) (mkDeleteOptions None None []) true example_parent
    tooling (Some example_healthy).
Definition example_set (tooling : string) : ApplySet :=
  New (λ _, (None, None)) (example_options tooling).

Definition example_deployment : ApplyableObject :=
  Unstructured (mkObject (mkGVK "apps" "v1" "Deployment") "default" "web" "" ∅ ∅ "").
Definition example_configmap : ApplyableObject :=
  Unstructured (mkObject (mkGVK "" "v1" "ConfigMap") "default" "settings" "" ∅ ∅ "").

(** The body of a patch in the example cluster: the value of the part-of
    label. *)
Definition example_marshal (u : ApplyableObject) : res string :=
  Ok (default "" (o_labels (app_object u) !! ApplysetPartOfLabel)).

Definition example_once (refuseDeletes : bool) (a : ApplySet) (objects : list ApplyableObject) :
    Env example_world → (ApplySet * outcome) * Env example_world :=
  @ApplyOnce canonical_range example_text example_mapper in_order_sched example_world
    (example_server refuseDeletes) example_marshal (SetDesiredObjects a objects).

(** Three operations on one set: apply a Deployment and a ConfigMap; remove
    the ConfigMap from the set while the server refuses deletes; try again
    while it accepts them. *)
Definition example_run : (ApplySet * outcome) * Env example_world :=
  let '((a1, _), e1) := example_once false (example_set "kdp/v1")
                          [example_deployment; example_configmap] (mkEnv ∅ []) in
  let '((a2, _), e2) := example_once true a1 [example_deployment] e1 in
  example_once false a2 [example_deployment] (mkEnv (world e2) []).

Definition outcome_results (o : outcome) : option ApplyResults :=
  match o with Returned r None => r | _ => None end.

(** A refused delete orphans the object. The operation in which the
    server refuses the delete still ends by recording only the kinds of the
    current objects on the parent; the next operation, with the server
    accepting deletes, reports complete success, sends no delete, and the
    ConfigMap that is no longer desired stays on the cluster. *)
Theorem prune_failure_orphans :
  match outcome_results example_run.1.2 with
  | Some r => AllApplied r = true ∧ pruneSuccessCount r = 0
  | None => False
  end
  ∧ length (filter is_delete (log example_run.2)) = 0%nat
  ∧ bool_decide (is_Some (world example_run.2
      !! (mkGVR "" "v1" "configmaps", "default", "settings"))) = true.
Proof. vm_compute. tauto. Qed.

(** With the server accepting deletes, the removed ConfigMap is pruned at
    once. *)
Example prune_accepted :
  let '((a1, _), e1) := example_once false (example_set "kdp/v1")
                          [example_deployment; example_configmap] (mkEnv ∅ []) in
  let '((_, o), e2) := example_once false a1 [example_deployment] (mkEnv (world e1) []) in
  match outcome_results o with
  | Some r => AllApplied r = true ∧ pruneSuccessCount r = 1
  | None => False
  end
  ∧ length (filter is_delete (log e2)) = 1%nat
  ∧ bool_decide (is_Some (world e2 !! (mkGVR "" "v1" "configmaps", "default", "settings")))
    = false.
Proof. vm_compute. tauto. Qed.

Definition example_desired (tooling : string) : ApplySet :=
  SetDesiredObjects (example_set tooling) [example_deployment; example_configmap].

Lemma ApplyOnce_superset_first_witness :
  ∃ new, log (@ApplyOnce canonical_range example_text example_mapper in_order_sched example_world
                (example_server false) example_marshal (example_desired "kdp/v1") (mkEnv ∅ [])).2
         = [] ++ new
    ∧ length (applied_uids new) = 2%nat.
Proof.
  destruct (@ApplyOnce_superset_first canonical_range example_text example_mapper in_order_sched
    example_world (example_server false) example_marshal (example_desired "kdp/v1") (mkEnv ∅ []))
    as (new & Hlog & _).
  { intros t rm Ht. repeat (apply elem_of_cons in Ht as [->|Ht]); [..|by apply elem_of_nil in Ht];
      intros [= <-]; discriminate. }
  exists new. cbn [log] in Hlog. split; [exact Hlog|].
  apply (f_equal (λ l, length (applied_uids l))) in Hlog. change ([] ++ new) with new in Hlog.
  cbv beta in Hlog. rewrite <- Hlog. vm_compute. reflexivity.
Defined.

Lemma ApplyOnce_tooling_slash_witness :
  (@ApplyOnce canonical_range example_text example_mapper in_order_sched example_world
    (example_server false) example_marshal (example_desired "kdp/v1/beta") (mkEnv ∅ [])).2
  = mkEnv ∅ [].
Proof.
  apply (@ApplyOnce_tooling_slash canonical_range example_text example_mapper in_order_sched
    example_world (example_server false) example_marshal (example_desired "kdp/v1/beta")
    (mkEnv ∅ [])). reflexivity.
Defined.

Lemma SetDesiredObjects_spec_witness :
  SetDesiredObjects (example_desired "kdp/v1") [example_deployment; example_configmap]
  = example_desired "kdp/v1".
Proof.
  apply (SetDesiredObjects_spec (example_set "kdp/v1") [example_deployment; example_configmap]).
  apply (bool_decide_unpack _). vm_compute. exact I.
Defined.

End applyset.
