(* ===== verification/RestMapper.v ===== *)
(** * The caching REST mapper (pkg/restmapper)

    [caching.go] and [controllerrestmapper.go]: a [meta.RESTMapper] that asks
    the discovery client about a group/version the first time it is needed and
    keeps the answer. The state is the cache, the discovery server's own state
    and the discovery requests sent so far. The theorems show that the cache is
    transparent: it refines the mapper that would ask every time, and asks at
    most once. *)

From S2P Require Import Prelude Kube.
From stdpp Require Import options.

Module restmapper.

(** ** The discovery client *)

Record APIGroup := mkAPIGroup {
  ag_Name : string;
  ag_Versions : list string;
  ag_PreferredVersion : string
}.

Record APIResource := mkAPIResource {
  ar_Name : string;
  ar_Namespaced : bool;
  ar_Kind : string
}.

(** An error of discovery: one that [meta.IsNoMatchError] or
    [apierrors.IsNotFound] recognises, or another one. *)
Inductive discovery_error :=
  | NotFoundError
  | OtherError (e : error).

(** [discovery.DiscoveryInterface]: any state machine. *)
Class Discovery (W : Type) := {
  disc_ServerGroups : W → W * res (list APIGroup);
  disc_ServerResourcesForGroupVersion : string → W → W * (discovery_error + list APIResource)
}.

Inductive call :=
  | CallServerGroups
  | CallServerResources (gv : GroupVersion).

#[export] Instance call_eq_dec : EqDecision call.
Proof. solve_decision. Defined.

(** ** The cache *)

Record cachedResource := mkCached {
  cr_resource : string;
  cr_scope : RESTScope;
  cr_gvk : GroupVersionKind
}.

Definition cachedResource_GVR (r : cachedResource) : GroupVersionResource :=
  GV_WithResource (GVK_GroupVersion (cr_gvk r)) (cr_resource r).
Definition cachedResource_GVK (r : cachedResource) : GroupVersionKind := cr_gvk r.
Definition cachedResource_RESTMapping (r : cachedResource) : RESTMapping :=
  mkMapping (cachedResource_GVR r) (cachedResource_GVK r) (cr_scope r).

(** A group/version's entry: [None] until its resources were fetched. *)
Record cachedGroupVersion := mkCachedGV {
  cgv_gv : GroupVersion;
  cgv_cachedServerResources : option (gmap string cachedResource)
}.

Record cache := mkCache {
  cachedAllGroups : option (gmap string APIGroup);
  cachedGroupVersions : gmap GroupVersion cachedGroupVersion
}.

Definition newCache : cache := mkCache None ∅.

(** ** Code that may ask discovery *)

Record state (W : Type) := mkState { st_cache : cache; st_world : W; st_calls : list call }.
Arguments mkState {W} _ _ _.
Arguments st_cache {W} _.
Arguments st_world {W} _.
Arguments st_calls {W} _.

(** Errors are returned early; what was cached before them stays. *)
Definition D (W A : Type) : Type := state W → res A * state W.

#[export] Instance D_ret {W} : MRet (D W) := λ _ a s, (Ok a, s).
#[export] Instance D_bind {W} : MBind (D W) := λ _ _ f m s,
  match m s with (Ok a, s') => f a s' | (Err e, s') => (Err e, s') end.

Definition fail {W A} (e : error) : D W A := λ s, (Err e, s).

(** The map of the groups by name, a later one replacing an earlier one. *)
Definition groupsByName (groups : list APIGroup) : gmap string APIGroup :=
  foldl (λ m g, <[ag_Name g := g]> m) ∅ groups.

(** The resources of a group/version by name, without its subresources. *)
Definition resourcesByName (gv : GroupVersion) (resources : list APIResource) :
    gmap string cachedResource :=
  foldl (λ m r,
    if strings.Contains (ar_Name r) "/" then m
    else <[ar_Name r := mkCached (ar_Name r)
             (if ar_Namespaced r then RESTScopeNamespace else RESTScopeRoot)
             (GV_WithKind gv (ar_Kind r))]> m) ∅ resources.

Section mapper.
Context `{RangeOrder, SchemaText} {W : Type} `{Discovery W}.

(** fetchAllGroups queries discovery if the groups are not cached. *)
Definition fetchAllGroups : D W (gmap string APIGroup) := λ s,
  match cachedAllGroups (st_cache s) with
  | Some groups => (Ok groups, s)
  | None =>
      let '(w, answer) := disc_ServerGroups (st_world s) in
      let calls := st_calls s ++ [CallServerGroups] in
      match answer with
      | Err e => (Err (WrapW "error from ServerGroups" e), mkState (st_cache s) w calls)
      | Ok serverGroups =>
          let groups := groupsByName serverGroups in
          (Ok groups, mkState (mkCache (Some groups) (cachedGroupVersions (st_cache s))) w calls)
      end
  end.

(** cacheForGroupVersion creates the entry if there is none. *)
Definition cacheForGroupVersion (gv : GroupVersion) : D W cachedGroupVersion := λ s,
  match cachedGroupVersions (st_cache s) !! gv with
  | Some cached => (Ok cached, s)
  | None =>
      let cached := mkCachedGV gv None in
      (Ok cached, mkState (mkCache (cachedAllGroups (st_cache s))
                             (<[gv := cached]> (cachedGroupVersions (st_cache s))))
                    (st_world s) (st_calls s))
  end.

(** fetchServerResources: the entry is shared by reference, so filling it
    updates the cache. A [nil] map, for a group/version the server does not
    have, is returned empty and not remembered. *)
Definition fetchServerResources (c : cachedGroupVersion) : D W (gmap string cachedResource) := λ s,
  match cgv_cachedServerResources c with
  | Some resources => (Ok resources, s)
  | None =>
      let gv := cgv_gv c in
      let '(w, answer) := disc_ServerResourcesForGroupVersion (GV_String gv) (st_world s) in
      let calls := st_calls s ++ [CallServerResources gv] in
      match answer with
      | inl NotFoundError => (Ok ∅, mkState (st_cache s) w calls)
      | inl (OtherError e) =>
          (Err (WrapW "error from ServerResourcesForGroupVersion" e), mkState (st_cache s) w calls)
      | inr resourceList =>
          let result := resourcesByName gv resourceList in
          (Ok result, mkState (mkCache (cachedAllGroups (st_cache s))
             (<[gv := mkCachedGV gv (Some result)]> (cachedGroupVersions (st_cache s)))) w calls)
      end
  end.

(** The first resource of the kind, in map iteration order. *)
Fixpoint findKind (kind : string) (resources : list cachedResource) : option RESTMapping :=
  match resources with
  | [] => None
  | resource :: resources =>
      if decide (gvk_Kind (cachedResource_GVK resource) = kind)
      then Some (cachedResource_RESTMapping resource) else findKind kind resources
  end.

Definition findRESTMapping (gv : GroupVersion) (kind : string) : D W (option RESTMapping) :=
  cachedGV ← cacheForGroupVersion gv;
  resources ← fetchServerResources cachedGV;
  mret (findKind kind (range resources).*2).

(** The resources of one group/version a partial resource matches. *)
Definition gvr_matches (filterGVR resourceGVR : GroupVersionResource) : bool :=
  bool_decide (gvr_Group resourceGVR = gvr_Group filterGVR)
  && (bool_decide (gvr_Version filterGVR = "")
      || bool_decide (gvr_Version resourceGVR = gvr_Version filterGVR))
  && (bool_decide (gvr_Resource filterGVR = "")
      || bool_decide (gvr_Resource resourceGVR = gvr_Resource filterGVR)).

Definition cachedGV_KindsFor (c : cachedGroupVersion) (filterGVR : GroupVersionResource) :
    D W (list GroupVersionKind) :=
  serverResources ← fetchServerResources c;
  mret (foldl (λ matches resource,
          if gvr_matches filterGVR (cachedResource_GVR resource)
          then matches ++ [cachedResource_GVK resource] else matches)
        [] (range serverResources).*2).

(** The loop over the versions of a group. *)
Fixpoint KindsForVersions (groupName : string) (versions : list string)
    (gvr : GroupVersionResource) (matches : list GroupVersionKind) : D W (list GroupVersionKind) :=
  match versions with
  | [] => mret matches
  | version :: versions =>
      cachedGV ← cacheForGroupVersion (mkGV groupName version);
      all ← cachedGV_KindsFor cachedGV gvr;
      KindsForVersions groupName versions gvr (matches ++ all)
  end.

(** The loop over the groups, which skips all but the one asked for. *)
Fixpoint KindsForGroups (groups : list (string * APIGroup)) (gvr : GroupVersionResource)
    (matches : list GroupVersionKind) : D W (list GroupVersionKind) :=
  match groups with
  | [] => mret matches
  | (groupName, group) :: groups =>
      if decide (groupName ≠ gvr_Group gvr) then KindsForGroups groups gvr matches
      else
        matches ← KindsForVersions groupName (ag_Versions group) gvr matches;
        KindsForGroups groups gvr matches
  end.

Definition cache_KindsFor (gvr : GroupVersionResource) : D W (list GroupVersionKind) :=
  if decide (gvr_Version gvr ≠ "") then
    cachedGV ← cacheForGroupVersion (GVR_GroupVersion gvr);
    all ← cachedGV_KindsFor cachedGV gvr;
    mret ([] ++ all)
  else
    allGroups ← fetchAllGroups;
    KindsForGroups (range allGroups) gvr [].

(** ** controllerrestmapper.go *)

Definition KindFor (resource : GroupVersionResource) : D W GroupVersionKind :=
  kinds ← cache_KindsFor resource;
  match kinds with
  | [] => fail (Errorf "found no matching kinds")
  | [kind] => mret kind
  | _ => fail (Errorf "found multiple kinds")
  end.

(** One mapping is looked up per version, and kept when there is one. *)
Fixpoint RESTMappingsFor (gk : GroupKind) (versions : list string) (mappings : list RESTMapping) :
    D W (list RESTMapping) :=
  match versions with
  | [] => mret mappings
  | version :: versions =>
      mapping ← findRESTMapping (mkGV (gk_Group gk) version) (gk_Kind gk);
      match mapping with
      | Some mapping => RESTMappingsFor gk versions (mappings ++ [mapping])
      | None => RESTMappingsFor gk versions mappings
      end
  end.

(** The versions of a group in the order they are tried: the preferred one,
    then the others. *)
Definition versionOrder (group : APIGroup) : list string :=
  (if decide (ag_PreferredVersion group ≠ "") then [ag_PreferredVersion group] else [])
  ++ filter (λ v, v ≠ ag_PreferredVersion group) (ag_Versions group).

Definition NoResourceMatchError : error := Errorf "no matches for resource".
Definition NoKindMatchError : error := Errorf "no matches for kind".

Definition RESTMappings (gk : GroupKind) (versions : list string) : D W (list RESTMapping) :=
  mappings ←
    match versions with
    | [] =>
        allGroups ← fetchAllGroups;
        match allGroups !! gk_Group gk with
        | None => fail NoResourceMatchError
        | Some group => RESTMappingsFor gk (versionOrder group) []
        end
    | _ => RESTMappingsFor gk versions []
    end;
  match mappings with
  | [] => fail NoResourceMatchError
  | _ => mret mappings
  end.

Definition RESTMapping (gk : GroupKind) (versions : list string) : D W Kube.RESTMapping :=
  restMappings ← RESTMappings gk versions;
  match restMappings with
  | restMapping :: _ => mret restMapping
  | [] => fail NoKindMatchError
  end.
End mapper.

(* ------------------------------------------------------------------ *)
(** ** The mapper without a cache *)

Section spec.
Context `{RangeOrder, SchemaText}.

(** What discovery answers, when its answers do not change. *)
Context (G : res (list APIGroup)) (R : string → discovery_error + list APIResource).

Definition specGroups : res (gmap string APIGroup) :=
  match G with
  | Ok groups => Ok (groupsByName groups)
  | Err e => Err (WrapW "error from ServerGroups" e)
  end.

Definition specResources (gv : GroupVersion) : res (gmap string cachedResource) :=
  match R (GV_String gv) with
  | inl NotFoundError => Ok ∅
  | inl (OtherError e) => Err (WrapW "error from ServerResourcesForGroupVersion" e)
  | inr resourceList => Ok (resourcesByName gv resourceList)
  end.

(** The mapping a group/version has for a kind. *)
Definition specFind (gv : GroupVersion) (kind : string) : res (option Kube.RESTMapping) :=
  resources ← specResources gv; Ok (findKind kind (range resources).*2).

(** The versions to try, in their order. *)
Definition specVersions (gk : GroupKind) (versions : list string) : res (list string) :=
  match versions with
  | [] => groups ← specGroups;
          match groups !! gk_Group gk with
          | None => Err NoResourceMatchError
          | Some group => Ok (versionOrder group)
          end
  | _ => Ok versions
  end.

Definition specRESTMappings (gk : GroupKind) (versions : list string) :
    res (list Kube.RESTMapping) :=
  vs ← specVersions gk versions;
  found ← res_mapM (λ v, specFind (mkGV (gk_Group gk) v) (gk_Kind gk)) vs;
  match omap id found with
  | [] => Err NoResourceMatchError
  | mappings => Ok mappings
  end.

Definition specRESTMapping (gk : GroupKind) (versions : list string) : res Kube.RESTMapping :=
  mappings ← specRESTMappings gk versions;
  match mappings with m :: _ => Ok m | [] => Err NoKindMatchError end.

Definition specMatches (gv : GroupVersion) (gvr : GroupVersionResource) :
    res (list GroupVersionKind) :=
  resources ← specResources gv;
  Ok (cachedResource_GVK <$>
        filter (λ r, gvr_matches gvr (cachedResource_GVR r)) (range resources).*2).

Definition specKindFor (gvr : GroupVersionResource) : res GroupVersionKind :=
  kinds ←
    (if decide (gvr_Version gvr ≠ "") then specMatches (GVR_GroupVersion gvr) gvr
     else
       groups ← specGroups;
       match groups !! gvr_Group gvr with
       | None => Ok []
       | Some group =>
           all ← res_mapM (λ v, specMatches (mkGV (gvr_Group gvr) v) gvr) (ag_Versions group);
           Ok (concat all)
       end);
  match kinds with
  | [] => Err (Errorf "found no matching kinds")
  | [kind] => Ok kind
  | _ => Err (Errorf "found multiple kinds")
  end.
End spec.

(** The states the mapper goes through, from an empty cache: any sequence of
    the operations clients may call. *)
Inductive reachable `{RangeOrder, SchemaText} {W} `{Discovery W} (w : W) : state W → Prop :=
  | reach_init : reachable w (mkState newCache w [])
  | reach_KindFor s gvr : reachable w s → reachable w (KindFor gvr s).2
  | reach_RESTMappings s gk vs : reachable w s → reachable w (RESTMappings gk vs s).2
  | reach_RESTMapping s gk vs : reachable w s → reachable w (RESTMapping gk vs s).2.

(* ------------------------------------------------------------------ *)
(** ** Computations whose answer the cache does not change *)

Section answers.
Context `{RangeOrder, SchemaText} {W : Type} `{Discovery W}.
Context (G : res (list APIGroup)) (R : string → discovery_error + list APIResource).
Context (I : state W → Prop).

(** [m] answers [r] in every state with the invariant, and keeps it. *)
Definition answers {A} (m : D W A) (r : res A) : Prop :=
  ∀ s, I s → (m s).1 = r ∧ I (m s).2.

Lemma answers_ret {A} (a : A) : answers (mret a) (Ok a).
Proof. by intros s. Qed.
Lemma answers_fail {A} e : answers (fail (A := A) e) (Err e).
Proof. by intros s. Qed.

Lemma answers_bind {A B} (m : D W A) (f : A → D W B) (r : res A) (g : A → res B) :
  answers m r → (∀ a, r = Ok a → answers (f a) (g a)) → answers (m ≫= f) (r ≫= g).
Proof.
  intros Hm Hf s Hs. destruct (Hm s Hs) as [Hr Hs']. unfold mbind at 1 3, D_bind.
  destruct (m s) as [[a|e] s'] eqn:E; simpl in *; subst; [|done]. by apply Hf.
Qed.

Lemma answers_eq {A} (m : D W A) r r' : answers m r → r = r' → answers m r'.
Proof. by intros ? <-. Qed.

Lemma answers_assoc {A B C} (m : D W A) (f : A → D W B) (g : B → D W C) r :
  answers ((m ≫= f) ≫= g) r → answers (m ≫= (λ a, f a ≫= g)) r.
Proof.
  intros Hm s Hs. specialize (Hm s Hs). revert Hm. unfold mbind, D_bind.
  by destruct (m s) as [[a|e] s'].
Qed.

Context (Hgroups : answers fetchAllGroups (specGroups G)).
Context (Hres : ∀ gv, answers (cacheForGroupVersion gv ≫= fetchServerResources) (specResources R gv)).

Lemma findRESTMapping_answers gv kind :
  answers (findRESTMapping gv kind) (specFind R gv kind).
Proof using Hres.
  apply answers_assoc. apply answers_bind; [apply Hres|]. intros rs _. apply answers_ret.
Qed.

Lemma foldl_filter_snoc {A B} (p : A → bool) (f : A → B) l acc :
  foldl (λ acc x, if p x then acc ++ [f x] else acc) acc l = acc ++ (f <$> filter p l).
Proof.
  revert acc; induction l as [|x l IH]; intros acc; simpl; [by rewrite app_nil_r|].
  rewrite IH, filter_cons. destruct (p x); [rewrite decide_True by done|rewrite decide_False by auto];
    simpl; rewrite <- ?(assoc (++)); done.
Qed.

Lemma cachedGV_KindsFor_answers gv gvr :
  answers (c ← cacheForGroupVersion gv; cachedGV_KindsFor c gvr) (specMatches R gv gvr).
Proof using Hres.
  apply answers_assoc. apply answers_bind; [apply Hres|]. intros rs _.
  rewrite foldl_filter_snoc. apply answers_ret.
Qed.

Lemma RESTMappingsFor_answers gk vs acc :
  answers (RESTMappingsFor gk vs acc)
    (found ← res_mapM (λ v, specFind R (mkGV (gk_Group gk) v) (gk_Kind gk)) vs;
     Ok (acc ++ omap id found)).
Proof using Hres.
  revert acc; induction vs as [|v vs IH]; intros acc; cbn [RESTMappingsFor res_mapM].
  { eapply answers_eq; [apply answers_ret|]. simpl. by rewrite app_nil_r. }
  eapply answers_eq.
  - eapply (answers_bind _ _ _ (λ m,
      found ← res_mapM (λ v, specFind R (mkGV (gk_Group gk) v) (gk_Kind gk)) vs;
      Ok (acc ++ omap id (m :: found)))); [apply findRESTMapping_answers|].
    intros [x|] _; (eapply answers_eq; [apply IH|]); destruct (res_mapM _ vs); simpl;
      rewrite <- ?(assoc (++)); done.
  - destruct (specFind R _ _); [|done]. simpl. by destruct (res_mapM _ vs).
Qed.

Lemma RESTMappings_answers gk vs : answers (RESTMappings gk vs) (specRESTMappings G R gk vs).
Proof using Hgroups Hres.
  unfold RESTMappings, specRESTMappings. eapply answers_eq.
  - eapply (answers_bind _ _ (vs ← specVersions G gk vs;
      found ← res_mapM (λ v, specFind R (mkGV (gk_Group gk) v) (gk_Kind gk)) vs; Ok (omap (M := list) id found))
      (λ l, match l with [] => Err NoResourceMatchError | _ => Ok l end)).
    + destruct vs as [|v vs]; [|apply RESTMappingsFor_answers]. unfold specVersions.
      eapply answers_eq; [eapply (answers_bind _ _ _ (λ groups,
        group ← match groups !! gk_Group gk with
          None => Err NoResourceMatchError | Some group => Ok (versionOrder group) end;
        found ← res_mapM (λ v, specFind R (mkGV (gk_Group gk) v) (gk_Kind gk)) group;
        Ok (omap (M := list) id found))); [apply Hgroups|]|].
      * intros groups _. destruct (groups !! gk_Group gk);
          [apply RESTMappingsFor_answers|apply answers_fail].
      * by destruct (specGroups G).
    + intros [|m l] _; [apply answers_fail|apply answers_ret].
  - destruct (specVersions G gk vs); [|done]. simpl.
    destruct (res_mapM _ _) as [found|]; [|done]. simpl. by destruct (omap id found).
Qed.

Lemma RESTMapping_answers gk vs : answers (RESTMapping gk vs) (specRESTMapping G R gk vs).
Proof using Hgroups Hres.
  apply answers_bind; [apply RESTMappings_answers|].
  intros [|m l] _; [apply answers_fail|apply answers_ret].
Qed.

Lemma KindsForVersions_answers g vs gvr acc :
  answers (KindsForVersions g vs gvr acc)
    (all ← res_mapM (λ v, specMatches R (mkGV g v) gvr) vs; Ok (acc ++ concat all)).
Proof using Hres.
  revert acc; induction vs as [|v vs IH]; intros acc; cbn [KindsForVersions res_mapM].
  { eapply answers_eq; [apply answers_ret|]. simpl. by rewrite app_nil_r. }
  apply answers_assoc. eapply answers_eq.
  - apply answers_bind; [apply cachedGV_KindsFor_answers|]. intros all _. apply IH.
  - destruct (specMatches R _ _) as [all|]; [|done]. simpl.
    destruct (res_mapM _ vs); [|done]. simpl. by rewrite <- (assoc (++)).
Qed.

(** Only the group asked for contributes, whatever the iteration order. *)
Lemma KindsForGroups_answers (l : list (string * APIGroup)) gvr acc :
  NoDup l.*1 →
  answers (KindsForGroups l gvr acc)
    (match (list_to_map l : gmap string APIGroup) !! gvr_Group gvr with
     | None => Ok acc
     | Some group =>
         all ← res_mapM (λ v, specMatches R (mkGV (gvr_Group gvr) v) gvr) (ag_Versions group);
         Ok (acc ++ concat all)
     end).
Proof using Hres.
  revert acc; induction l as [|[g group] l IH]; intros acc Hnd; [apply answers_ret|].
  apply list.NoDup_cons in Hnd as [Hg Hnd]. cbn [KindsForGroups]. rewrite list_to_map_cons.
  change (g ∉ l.*1) in Hg. case_decide as Hne.
  - rewrite lookup_insert_ne by done. by apply IH.
  - subst g. rewrite lookup_insert_eq. eapply answers_eq.
    + apply answers_bind; [apply KindsForVersions_answers|]. intros m _.
      eapply (answers_eq _ _ (Ok m)); [by apply IH|]. by rewrite not_elem_of_list_to_map_1.
    + by destruct (res_mapM _ _).
Qed.

Lemma KindFor_answers gvr : answers (KindFor gvr) (specKindFor G R gvr).
Proof using Hgroups Hres.
  apply answers_bind; [|intros [|k [|? ?]] _; apply answers_fail || apply answers_ret].
  unfold cache_KindsFor. case_decide.
  - eapply answers_eq; [apply answers_assoc, answers_bind; [apply cachedGV_KindsFor_answers|]|].
    + intros all _. apply answers_ret.
    + by destruct (specMatches _ _ _).
  - eapply answers_bind; [apply Hgroups|]. intros groups _. eapply answers_eq.
    + apply KindsForGroups_answers, NoDup_range_keys.
    + rewrite (list_to_map_proper (range groups) (map_to_list groups)), list_to_map_to_list
        by (apply NoDup_range_keys || apply range_perm). done.
Qed.
End answers.

(* ------------------------------------------------------------------ *)
(** ** The invariants of the cache *)

(** What is cached is what discovery answers. *)
Record coherent `{SchemaText} (G : res (list APIGroup))
    (R : string → discovery_error + list APIResource) (c : cache) : Prop := {
  coh_groups groups : cachedAllGroups c = Some groups → specGroups G = Ok groups;
  coh_resources gv e : cachedGroupVersions c !! gv = Some e →
    cgv_gv e = gv
    ∧ ∀ rs, cgv_cachedServerResources e = Some rs → specResources R gv = Ok rs
}.

(** What was asked for is cached, and nothing was asked for twice. *)
Record asked_once {W} (s : state W) : Prop := {
  ao_nodup : NoDup (st_calls s);
  ao_groups : CallServerGroups ∈ st_calls s → is_Some (cachedAllGroups (st_cache s));
  ao_resources gv : CallServerResources gv ∈ st_calls s →
    ∃ rs, cachedGroupVersions (st_cache s) !! gv = Some (mkCachedGV gv (Some rs))
}.

Section invariants.
Context `{RangeOrder, SchemaText} {W : Type} `{Discovery W}.
Context (G : res (list APIGroup)) (R : string → discovery_error + list APIResource).

Lemma coherent_new : coherent G R newCache.
Proof. split; [done|]. simpl. by intros gv e ?%lookup_empty_Some. Qed.

(** Adding an entry that agrees with discovery. *)
Lemma coherent_insert c gv o :
  coherent G R c → (∀ rs, o = Some rs → specResources R gv = Ok rs) →
  coherent G R (mkCache (cachedAllGroups c) (<[gv := mkCachedGV gv o]> (cachedGroupVersions c))).
Proof.
  intros [Cg Cr] Ho. split; [done|]. simpl.
  intros gv' e [[<- <-]|[_ ?]]%lookup_insert_Some; [done|by apply Cr].
Qed.

Context (HG : ∀ w, (disc_ServerGroups w).2 = G).
Context (HR : ∀ gv w, (disc_ServerResourcesForGroupVersion gv w).2 = R gv).

Lemma fetchAllGroups_coherent :
  answers (λ s : state W, coherent G R (st_cache s)) fetchAllGroups (specGroups G).
Proof using HG.
  intros s Hc. destruct Hc as [Cg Cr] eqn:Hc'. clear Hc'. unfold fetchAllGroups.
  destruct (cachedAllGroups (st_cache s)) as [groups|] eqn:E.
  { by rewrite (Cg _ eq_refl). }
  pose proof (HG (st_world s)) as Ha.
  assert (specGroups G = match (disc_ServerGroups (st_world s)).2 with
    | Ok groups => Ok (groupsByName groups)
    | Err e => Err (WrapW "error from ServerGroups" e) end) as Hs by (by rewrite Ha).
  destruct (disc_ServerGroups (st_world s)) as [w [groups|err]]; simpl in *; [|done].
  split; [done|]. split; [|done]. simpl. by intros ? [= <-].
Qed.

(** Asking about a group/version whose entry is empty. *)
Lemma fetchServerResources_empty gv (s : state W) :
  coherent G R (st_cache s) →
  let r := fetchServerResources (mkCachedGV gv None) s in
  r.1 = specResources R gv ∧ coherent G R (st_cache r.2).
Proof using HR.
  intros Hc. pose proof (HR (GV_String gv) (st_world s)) as Ha. cbv zeta.
  unfold fetchServerResources, specResources. simpl.
  destruct (disc_ServerResourcesForGroupVersion _ _) as [w answer]. simpl in Ha.
  rewrite <- Ha. destruct answer as [[|err]|rs]; [done..|]. split; [done|].
  apply coherent_insert; [done|]. intros ? [= <-]. unfold specResources. by rewrite <- Ha.
Qed.

Lemma resources_coherent gv :
  answers (λ s : state W, coherent G R (st_cache s))
    (cacheForGroupVersion gv ≫= fetchServerResources) (specResources R gv).
Proof using HR.
  intros s Hc. unfold mbind, D_bind, cacheForGroupVersion.
  destruct (cachedGroupVersions (st_cache s) !! gv) as [[gv' [rs|]]|] eqn:Ec.
  - destruct (coh_resources _ _ _ Hc _ _ Ec) as [_ Hrs]. by rewrite (Hrs rs).
  - destruct (coh_resources _ _ _ Hc _ _ Ec) as [<- _]. by apply fetchServerResources_empty.
  - by apply fetchServerResources_empty, coherent_insert.
Qed.

Lemma reachable_coherent w (s : state W) : reachable w s → coherent G R (st_cache s).
Proof using HG HR.
  pose proof fetchAllGroups_coherent as Hg. pose proof resources_coherent as Hr.
  induction 1 as [|s gvr _ IH|s gk vs _ IH|s gk vs _ IH]; [apply coherent_new|..].
  - by apply (KindFor_answers _ _ _ Hg Hr gvr s).
  - by apply (RESTMappings_answers _ _ _ Hg Hr gk vs s).
  - by apply (RESTMapping_answers _ _ _ Hg Hr gk vs s).
Qed.

(** *** Each question once, when discovery answers them all *)

Context (HGok : ∃ groups, G = Ok groups) (HRok : ∀ gv, ∃ rs, R gv = inr rs).

Lemma fetchAllGroups_once :
  answers (λ s : state W, coherent G R (st_cache s) ∧ asked_once s) fetchAllGroups (specGroups G).
Proof using HG HGok.
  intros s [Hc Ho]. destruct (fetchAllGroups_coherent s Hc) as [Hans Hc'].
  split; [done|]. split; [done|]. clear Hans Hc'. unfold fetchAllGroups.
  destruct (cachedAllGroups (st_cache s)) eqn:E; [done|].
  pose proof (HG (st_world s)) as Ha. destruct HGok as [groups' ->].
  destruct (disc_ServerGroups _) as [w answer]. simpl in Ha. subst answer.
  destruct Ho as [Hnd Hg Hr]. split; simpl.
  - apply list.NoDup_app. split; [done|]. split; [|apply NoDup_singleton].
    intros c Hin ->%list_elem_of_singleton. rewrite E in Hg. by destruct (Hg Hin).
  - done.
  - intros gv [?|?%list_elem_of_singleton]%elem_of_app; [by apply Hr|done].
Qed.

Lemma asked_once_fill gv rs (w : W) (s : state W) :
  asked_once s → (∀ rs, cachedGroupVersions (st_cache s) !! gv ≠ Some (mkCachedGV gv (Some rs))) →
  asked_once (mkState (mkCache (cachedAllGroups (st_cache s))
    (<[gv := mkCachedGV gv (Some rs)]> (cachedGroupVersions (st_cache s)))) w
    (st_calls s ++ [CallServerResources gv])).
Proof.
  intros [Hnd Hg Hr] Hfresh. split; simpl.
  - apply list.NoDup_app. split; [done|]. split; [|apply NoDup_singleton].
    intros c Hin ->%list_elem_of_singleton. destruct (Hr gv Hin) as [rs' ?]. by apply (Hfresh rs').
  - intros [?|?%list_elem_of_singleton]%elem_of_app; [by apply Hg|done].
  - intros gv' Hin. destruct (decide (gv' = gv)) as [->|Hne]; [rewrite lookup_insert_eq; by eexists|].
    rewrite lookup_insert_ne by done. apply Hr.
    apply elem_of_app in Hin as [?|[= ?]%list_elem_of_singleton]; done.
Qed.

Lemma resources_once gv :
  answers (λ s : state W, coherent G R (st_cache s) ∧ asked_once s)
    (cacheForGroupVersion gv ≫= fetchServerResources) (specResources R gv).
Proof using HR HRok.
  intros s [Hc Ho]. destruct (resources_coherent gv s Hc) as [Hans Hc'].
  split; [done|]. split; [done|]. clear Hans Hc'.
  destruct (HRok (GV_String gv)) as [rs Hrs].
  unfold mbind, D_bind, cacheForGroupVersion, fetchServerResources.
  pose proof (HR (GV_String gv) (st_world s)) as Ha. rewrite Hrs in Ha.
  destruct (cachedGroupVersions (st_cache s) !! gv) as [[gv' [rs'|]]|] eqn:Ec; [done|..].
  - destruct (coh_resources _ _ _ Hc _ _ Ec) as [Hgv _]. simpl in *. subst gv'.
    destruct (disc_ServerResourcesForGroupVersion _ _) as [w answer]. simpl in Ha. subst answer.
    apply asked_once_fill; [done|]. by rewrite Ec.
  - simpl. destruct (disc_ServerResourcesForGroupVersion _ _) as [w answer]. simpl in Ha. subst answer.
    simpl. rewrite insert_insert_eq. apply asked_once_fill; [done|]. by rewrite Ec.
Qed.

Lemma reachable_once w (s : state W) :
  reachable w s → coherent G R (st_cache s) ∧ asked_once s.
Proof using HG HR HGok HRok.
  pose proof fetchAllGroups_once as Hg. pose proof resources_once as Hr.
  induction 1 as [|s gvr _ IH|s gk vs _ IH|s gk vs _ IH].
  - split; [apply coherent_new|]. split; simpl; [constructor|set_solver..].
  - by apply (KindFor_answers _ _ _ Hg Hr gvr s).
  - by apply (RESTMappings_answers _ _ _ Hg Hr gk vs s).
  - by apply (RESTMapping_answers _ _ _ Hg Hr gk vs s).
Qed.
End invariants.

(* ------------------------------------------------------------------ *)
(** ** What a mapping is *)

Section mappings.
Context `{RangeOrder, SchemaText}.

Lemma resourcesByName_values gv l n r :
  resourcesByName gv l !! n = Some r → cr_resource r = n ∧ GVK_GroupVersion (cr_gvk r) = gv.
Proof.
  unfold resourcesByName. induction l as [|x l IH] using rev_ind; [simpl; by intros ?%lookup_empty_Some|].
  rewrite foldl_app. cbn [foldl]. destruct (strings.Contains _ _); [done|].
  intros [[<- <-]|[_ ?]]%lookup_insert_Some; [|by apply IH]. by destruct gv.
Qed.

Lemma findKind_Some kind l m :
  findKind kind l = Some m →
  ∃ r, r ∈ l ∧ gvk_Kind (cr_gvk r) = kind ∧ m = cachedResource_RESTMapping r.
Proof.
  induction l as [|r l IH]; [done|]. cbn [findKind]. case_decide as Hk.
  - intros [= <-]. exists r. set_solver.
  - intros (r' & ? & ?)%IH. exists r'. set_solver.
Qed.

Lemma findKind_None kind l : findKind kind l = None ↔ Forall (λ r, gvk_Kind (cr_gvk r) ≠ kind) l.
Proof.
  induction l as [|r l IH]; [done|]. cbn [findKind]. rewrite list.Forall_cons.
  case_decide; rewrite ?IH; naive_solver.
Qed.

Lemma elem_of_range_values {V} (m : gmap string V) v : v ∈ (range m).*2 ↔ ∃ k, m !! k = Some v.
Proof.
  rewrite list_elem_of_fmap. split.
  - intros ([k v'] & -> & Hin%elem_of_range). by exists k.
  - intros [k Hk]. exists (k, v). by rewrite elem_of_range.
Qed.

(** A mapping found in a group/version is of that group/version and kind. *)
Lemma specFind_sound R gv kind m :
  specFind R gv kind = Ok (Some m) → rm_GroupVersionKind m = GV_WithKind gv kind.
Proof.
  unfold specFind. rewrite bind_Ok. intros (rs & Hrs & [= Hf]).
  apply findKind_Some in Hf as (r & [n Hr]%elem_of_range_values & <- & ->).
  assert (GVK_GroupVersion (cr_gvk r) = gv) as <-.
  { unfold specResources in Hrs. destruct (R _) as [[]|l]; simplify_eq.
    by apply resourcesByName_values in Hr as [_ ?]. }
  unfold cachedResource_RESTMapping, cachedResource_GVK. simpl. by destruct (cr_gvk r).
Qed.

(** The answer is the mapping of the first version that has the kind. *)
Lemma specRESTMapping_first G R gk vs m :
  specRESTMapping G R gk vs = Ok m →
  ∃ pre v post, specVersions G gk vs = Ok (pre ++ v :: post)
    ∧ Forall (λ v', specFind R (mkGV (gk_Group gk) v') (gk_Kind gk) = Ok None) pre
    ∧ specFind R (mkGV (gk_Group gk) v) (gk_Kind gk) = Ok (Some m).
Proof.
  unfold specRESTMapping, specRESTMappings. rewrite bind_Ok.
  intros (ms & (vs' & -> & (found & Hfound%res_mapM_Ok & Hms)%bind_Ok)%bind_Ok & Hm).
  assert (∃ ms', omap id found = m :: ms') as [ms' Ho].
  { destruct (omap id found); [done|]. simplify_eq. by eexists. }
  clear Hms Hm. revert vs' Hfound. induction found as [|[m'|] found IH]; intros vs' Hfound; [done|..].
  - simpl in Ho. simplify_eq. apply Forall2_cons_inv_r in Hfound as (v & vs'' & ? & ? & ->).
    by exists [], v, vs''.
  - apply Forall2_cons_inv_r in Hfound as (v & vs'' & ? & Hrest & ->).
    destruct (IH Ho _ Hrest) as (pre & v' & post & [= ->] & ? & ?).
    exists (v :: pre), v', post. split; [done|]. split; [by constructor|done].
Qed.

Lemma specRESTMapping_sound G R gk vs m :
  specRESTMapping G R gk vs = Ok m → GVK_GroupKind (rm_GroupVersionKind m) = gk.
Proof.
  intros (pre & v & post & _ & _ & ->%specFind_sound)%specRESTMapping_first. by destruct gk.
Qed.

(** The interface of [Kube] that the apply libraries are written against,
    discharged by the caching mapper in any state. *)
Definition controllerRESTMapper {W} `{Discovery W} (s : state W) : RESTMapper := {|
  mapper_RESTMapping gk vs := (RESTMapping gk vs s).1;
  mapper_KindFor gvr := (KindFor gvr s).1
|}.

(** No two resources of the answer about a group/version have one kind. *)
Definition kinds_unique (l : list APIResource) : Prop :=
  ∀ r r', r ∈ l → r' ∈ l → ar_Kind r = ar_Kind r' →
    strings.Contains (ar_Name r) "/" = false → strings.Contains (ar_Name r') "/" = false → r = r'.

Lemma resourcesByName_source gv l n r :
  resourcesByName gv l !! n = Some r →
  ∃ x, x ∈ l ∧ strings.Contains (ar_Name x) "/" = false
    ∧ r = mkCached (ar_Name x) (if ar_Namespaced x then RESTScopeNamespace else RESTScopeRoot)
            (GV_WithKind gv (ar_Kind x)).
Proof.
  unfold resourcesByName. induction l as [|x l IH] using rev_ind; [simpl; by intros ?%lookup_empty_Some|].
  rewrite foldl_app. cbn [foldl]. destruct (strings.Contains _ _) eqn:E.
  - intros (x' & ? & ?)%IH. exists x'. set_solver.
  - intros [[<- <-]|[_ Hr]]%lookup_insert_Some.
    + exists x. set_solver.
    + apply IH in Hr as (x' & ? & ?). exists x'. set_solver.
Qed.
End mappings.

(** With one resource per kind the iteration order does not matter. *)
Lemma findKind_order `{R1 : RangeOrder} (R2 : RangeOrder) gv l kind :
  kinds_unique l →
  findKind kind (@range R1 _ _ _ _ (resourcesByName gv l)).*2
  = findKind kind (@range R2 _ _ _ _ (resourcesByName gv l)).*2.
Proof.
  intros Hu. set (m := resourcesByName gv l).
  assert (∀ r r' n n', m !! n = Some r → m !! n' = Some r' →
            gvk_Kind (cr_gvk r) = gvk_Kind (cr_gvk r') → r = r') as Hinj.
  { intros r r' n n' (x & ? & ? & ->)%resourcesByName_source (x' & ? & ? & ->)%resourcesByName_source.
    simpl. intros Hk. by rewrite (Hu x x'). }
  destruct (findKind kind (@range R1 _ _ _ _ m).*2) as [m1|] eqn:E1,
    (findKind kind (@range R2 _ _ _ _ m).*2) as [m2|] eqn:E2; [..|done].
  - apply findKind_Some in E1 as (r1 & [n1 H1]%elem_of_range_values & K1 & ->).
    apply findKind_Some in E2 as (r2 & [n2 H2]%elem_of_range_values & K2 & ->).
    rewrite (Hinj r1 r2 n1 n2); [done..|congruence].
  - apply findKind_Some in E1 as (r1 & [n1 H1]%elem_of_range_values & K1 & _).
    rewrite findKind_None, list.Forall_forall in E2.
    destruct (E2 r1); [|done]. apply elem_of_range_values. by exists n1.
  - apply findKind_Some in E2 as (r2 & [n2 H2]%elem_of_range_values & K2 & _).
    rewrite findKind_None, list.Forall_forall in E1.
    destruct (E1 r2); [|done]. apply elem_of_range_values. by exists n2.
Qed.

Lemma specFind_order `{SchemaText} (R1 R2 : RangeOrder) R gv kind :
  (∀ t l, R t = inr l → kinds_unique l) →
  @specFind R1 _ R gv kind = @specFind R2 _ R gv kind.
Proof.
  intros Hu. unfold specFind, specResources. destruct (R (GV_String gv)) as [[]|l] eqn:E; [|done|].
  - simpl. assert (∀ R3 : RangeOrder, (@range R3 _ _ _ _ (∅ : gmap string cachedResource)) = []) as Hn.
    { intros R3. apply Permutation_nil_r. by rewrite range_perm, map_to_list_empty. }
    by rewrite !Hn.
  - simpl. by rewrite (findKind_order R2) by eauto.
Qed.

(* ------------------------------------------------------------------ *)
(** ** Properties *)

(** C10. The cache is transparent. When discovery's answers do not change,
    after any sequence of operations every operation answers what the mapper
    without a cache answers, errors included. *)
Theorem mapper_cache_transparent `{RangeOrder, SchemaText} {W} `{Discovery W}
    (G : res (list APIGroup)) (R : string → discovery_error + list APIResource) (w : W)
    (s : state W) :
  (∀ w, (disc_ServerGroups w).2 = G) →
  (∀ gv w, (disc_ServerResourcesForGroupVersion gv w).2 = R gv) →
  reachable w s →
  (∀ gk vs, (RESTMapping gk vs s).1 = specRESTMapping G R gk vs)
  ∧ (∀ gk vs, (RESTMappings gk vs s).1 = specRESTMappings G R gk vs)
  ∧ (∀ gvr, (KindFor gvr s).1 = specKindFor G R gvr).
Proof.
  intros HG HR Hs. pose proof (reachable_coherent G R HG HR w s Hs) as Hc.
  pose proof (fetchAllGroups_coherent G R HG) as Hg. pose proof (resources_coherent G R HR) as Hr.
  split; [|split]; intros.
  - by apply (RESTMapping_answers _ _ _ Hg Hr gk vs s).
  - by apply (RESTMappings_answers _ _ _ Hg Hr gk vs s).
  - by apply (KindFor_answers _ _ _ Hg Hr gvr s).
Qed.

(** Discovery is asked at most once about the groups and about each
    group/version, when it answers every question without an error. *)
Theorem mapper_discovers_once `{RangeOrder, SchemaText} {W} `{Discovery W}
    (groups : list APIGroup) (R : string → list APIResource) (w : W) (s : state W) :
  (∀ w, (disc_ServerGroups w).2 = Ok groups) →
  (∀ gv w, (disc_ServerResourcesForGroupVersion gv w).2 = inr (R gv)) →
  reachable w s → NoDup (st_calls s).
Proof.
  intros HG HR Hs.
  apply (reachable_once (Ok groups) (inr ∘ R) HG HR) in Hs as [_ [? _ _]];
    [done|by eexists|intros gv; by eexists].
Qed.

(** The caching mapper keeps the promise the apply libraries rely on, and
    answers for the best version: a mapping it returns is of the kind asked
    for, found at the first version, in the order given or with the group's
    preferred version first, that serves the kind. When each kind has one
    resource per group/version, Go's map order cannot change the answer. *)
Theorem mapper_first_version `{RO : RangeOrder, SchemaText} {W} `{Discovery W}
    (G : res (list APIGroup)) (R : string → discovery_error + list APIResource) (w : W)
    (s : state W) :
  (∀ w, (disc_ServerGroups w).2 = G) →
  (∀ gv w, (disc_ServerResourcesForGroupVersion gv w).2 = R gv) →
  reachable w s →
  mapper_sound (controllerRESTMapper s)
  ∧ (∀ gk vs m, (RESTMapping gk vs s).1 = Ok m →
       ∃ pre v post, specVersions G gk vs = Ok (pre ++ v :: post)
         ∧ Forall (λ v', specFind R (mkGV (gk_Group gk) v') (gk_Kind gk) = Ok None) pre
         ∧ rm_GroupVersionKind m = mkGVK (gk_Group gk) v (gk_Kind gk))
  ∧ ((∀ t l, R t = inr l → kinds_unique l) →
     ∀ (R2 : RangeOrder) gk vs, (@RESTMapping RO _ _ _ gk vs s).1 = @specRESTMapping R2 _ G R gk vs).
Proof.
  intros HG HR Hs. pose proof (reachable_coherent G R HG HR w s Hs) as Hc.
  pose proof (fetchAllGroups_coherent G R HG) as Hg. pose proof (resources_coherent G R HR) as Hr.
  assert (∀ gk vs, (RESTMapping gk vs s).1 = specRESTMapping G R gk vs) as Hspec.
  { intros gk vs. by apply (RESTMapping_answers _ _ _ Hg Hr gk vs s). }
  split; [|split].
  - intros gk vs m Hm. simpl in Hm. rewrite Hspec in Hm. by eapply specRESTMapping_sound.
  - intros gk vs m. rewrite Hspec.
    intros (pre & v & post & ? & ? & ->%specFind_sound)%specRESTMapping_first. by exists pre, v, post.
  - intros Hu R2 gk vs. rewrite Hspec. unfold specRESTMapping, specRESTMappings.
    assert (∀ l, res_mapM (λ v, @specFind RO _ R (mkGV (gk_Group gk) v) (gk_Kind gk)) l
      = res_mapM (λ v, @specFind R2 _ R (mkGV (gk_Group gk) v) (gk_Kind gk)) l) as Hext;
      [|destruct (specVersions G gk vs); [|done]; simpl; by rewrite Hext].
    induction l as [|v l IH]; [done|]. cbn [res_mapM]. by rewrite IH, (specFind_order RO R2).
Qed.

(** A resource served at two versions has no kind without a version. When
    the group of a partial resource without a version lists two versions that
    both serve the resource, KindFor fails, whatever was cached, and so does
    reading the deprecated group-resources annotation that names it. *)
Theorem KindFor_two_versions `{RangeOrder, SchemaText} {W} `{Discovery W}
    (G : res (list APIGroup)) (R : string → discovery_error + list APIResource) (w : W)
    (s : state W) (g r v1 v2 : string) (group : APIGroup)
    (rs1 rs2 : gmap string cachedResource) (c1 c2 : cachedResource) :
  (∀ w, (disc_ServerGroups w).2 = G) →
  (∀ gv w, (disc_ServerResourcesForGroupVersion gv w).2 = R gv) →
  reachable w s →
  (groups ← specGroups G; Ok (groups !! g)) = Ok (Some group) →
  ag_Versions group = [v1; v2] →
  specResources R (mkGV g v1) = Ok rs1 → rs1 !! r = Some c1 →
  specResources R (mkGV g v2) = Ok rs2 → rs2 !! r = Some c2 →
  ∃ e, (KindFor (mkGVR g "" r) s).1 = Err e.
Proof.
  intros HG HR Hs Hgroup Hvs Hr1 Hc1 Hr2 Hc2.
  pose proof (reachable_coherent G R HG HR w s Hs) as Hc.
  pose proof (fetchAllGroups_coherent G R HG) as Hg. pose proof (resources_coherent G R HR) as Hr.
  destruct (KindFor_answers _ _ _ Hg Hr (mkGVR g "" r) s Hc) as [-> _].
  assert (∀ v rs c, specResources R (mkGV g v) = Ok rs → rs !! r = Some c →
    ∃ k ks, specMatches R (mkGV g v) (mkGVR g "" r) = Ok (k :: ks)) as Hm.
  { intros v rs c Hrs Hlook. unfold specMatches. rewrite Hrs. simpl.
    assert (c ∈ filter (λ c', gvr_matches (mkGVR g "" r) (cachedResource_GVR c')) (range rs).*2) as Hin.
    { apply list_elem_of_filter. split; [|apply elem_of_range_values; by exists r].
      unfold specResources in Hrs. destruct (R _) as [[]|l]; simplify_eq.
      apply resourcesByName_values in Hlook as [Hn Hgv]. unfold cachedResource_GVR. rewrite Hgv, Hn.
      unfold gvr_matches. simpl. rewrite (bool_decide_eq_true_2 (g = g)), (bool_decide_eq_true_2 (r = r)) by done.
      by rewrite orb_true_r. }
    destruct (filter _ _) as [|c' l]; [set_solver|]. by eexists _, _. }
  destruct (Hm _ _ _ Hr1 Hc1) as (k1 & ks1 & E1), (Hm _ _ _ Hr2 Hc2) as (k2 & ks2 & E2).
  unfold specKindFor. rewrite decide_False by (simpl; auto).
  destruct (specGroups G) as [groups|]; [|done]. simpl in *. simplify_eq. rewrite Hgroup, Hvs.
  cbn [res_mapM]. rewrite E1, E2. simpl. destruct ks1; simpl; by eexists.
Qed.

(* ------------------------------------------------------------------ *)
(** ** A concrete discovery server *)

(** Deployments and their status at two versions of apps. *)
Definition example_groups : list APIGroup := [mkAPIGroup "apps" ["v1"; "v1beta1"] "v1"].
Definition example_resources : list APIResource :=
  [mkAPIResource "deployments" true "Deployment";
   mkAPIResource "deployments/status" true "Deployment"].
Definition example_discovery : Discovery () := {|
  disc_ServerGroups w := (w, Ok example_groups);
  disc_ServerResourcesForGroupVersion _ w := (w, inr example_resources)
|}.

Definition example_first : state () :=
  (@RESTMapping canonical_range example_text () example_discovery (mkGK "apps" "Deployment") []
     (mkState newCache () [])).2.

Lemma example_first_reachable :
  @reachable canonical_range example_text () example_discovery () example_first.
Proof. apply reach_RESTMapping, reach_init. Qed.

Lemma mapper_cache_transparent_witness :
  (@RESTMapping canonical_range example_text () example_discovery (mkGK "apps" "Deployment") []
     example_first).1
  = Ok (mkMapping (mkGVR "apps" "v1" "deployments") (mkGVK "apps" "v1" "Deployment")
          RESTScopeNamespace).
Proof.
  destruct (@mapper_cache_transparent canonical_range example_text () example_discovery
    (Ok example_groups) (λ _, inr example_resources) () example_first) as [H _];
    [done|done|apply example_first_reachable|]. rewrite H. vm_compute. reflexivity.
Defined.

Lemma mapper_discovers_once_witness : NoDup (st_calls example_first).
Proof.
  apply (@mapper_discovers_once canonical_range example_text () example_discovery
    example_groups (λ _, example_resources) () example_first); [done|done|].
  apply example_first_reachable.
Defined.

Lemma mapper_first_version_witness :
  mapper_sound (@controllerRESTMapper canonical_range example_text () example_discovery example_first).
Proof.
  apply (@mapper_first_version canonical_range example_text () example_discovery
    (Ok example_groups) (λ _, inr example_resources) () example_first); [done|done|].
  apply example_first_reachable.
Defined.

Lemma KindFor_two_versions_witness :
  ∃ e, (@KindFor canonical_range example_text () example_discovery
          (mkGVR "apps" "" "deployments") example_first).1 = Err e.
Proof.
  eapply (@KindFor_two_versions canonical_range example_text () example_discovery
    (Ok example_groups) (λ _, inr example_resources) () example_first "apps" "deployments"
    "v1" "v1beta1"); [done|done|apply example_first_reachable|vm_compute; reflexivity
    |reflexivity|reflexivity|vm_compute; reflexivity|reflexivity|vm_compute; reflexivity].
Defined.

End restmapper.
