(* ===== verification/Metrics.v ===== *)
(** * Metrics of managed objects (pkg/patterns/declarative/metrics.go)

    The [ObjectTracker] records the objects the controllers apply, by kind,
    namespace and name; watch events set the gauge of a recorded object, and an
    object seen deleted is forgotten, its gauge series with it, once enough
    reconciliations have passed without it. The state is the tracker and the
    Prometheus vectors; the operations are those of the source, and [step]
    composes them into the runs a process can have. *)

From S2P Require Import Prelude Kube.
From stdpp Require Import options.
Open Scope Z_scope.

Module metrics.

Definition emptyNamespace : string := "_Empty_".
Definition clusterScoped : string := "_Cluster_".

Definition gvkString (gvk : GroupVersionKind) : string :=
  if decide (gvk_Group gvk = "" ∧ gvk_Version gvk = "v1")
  then gvk_Version gvk +:+ "/" +:+ gvk_Kind gvk
  else gvk_Group gvk +:+ "/" +:+ gvk_Version gvk +:+ "/" +:+ gvk_Kind gvk.

Definition namespaced `{RESTMapper} (gvk : GroupVersionKind) : res bool :=
  mapping ← mapper_RESTMapping (GVK_GroupKind gvk) [gvk_Version gvk];
  Ok (bool_decide (Scope_Name (rm_Scope mapping) = RESTScopeNameNamespace)).

(** ** Prometheus vectors: a value per triple of label values *)

Abbreviation labelValues := (string * string * string)%type.
Abbreviation Vec := (gmap labelValues Z).

(** [WithLabelValues(...).Inc()] on a counter. *)
Definition Inc_vec (v : Vec) (l : labelValues) : Vec := <[l := default 0 (v !! l) + 1]> v.

Record reconcileMetrics := mkReconcileMetrics { rcm_groupVersionKind : string }.
Definition reconcileMetricsFor (gvk : GroupVersionKind) : reconcileMetrics :=
  mkReconcileMetrics (gvkString gvk).

Definition reconcileWith (rm : reconcileMetrics) (req : NamespacedName) (reconcileCount : Vec) : Vec :=
  Inc_vec reconcileCount (rcm_groupVersionKind rm, nn_Namespace req, nn_Name req).

Definition reconcileFailedWith (rm : reconcileMetrics) (req : NamespacedName) (err : option error)
    (reconcileFailure : Vec) : Vec :=
  match err with
  | Some _ => Inc_vec reconcileFailure (rcm_groupVersionKind rm, nn_Namespace req, nn_Name req)
  | None => reconcileFailure
  end.

Record objectRecorder := mkRecorder { rec_groupVersionKind : string }.
Definition objectRecorderFor (gvk : GroupVersionKind) : objectRecorder := mkRecorder (gvkString gvk).

(** The namespace label: the two markers are shown as no namespace. *)
Definition namespaceLabel (namespace : string) : string :=
  if decide (namespace = emptyNamespace ∨ namespace = clusterScoped) then "" else namespace.

Definition recorder_Set (or : objectRecorder) (namespace name : string) (num : Z) (gauge : Vec) : Vec :=
  <[(rec_groupVersionKind or, namespaceLabel namespace, name) := num]> gauge.
Definition recorder_Unset (or : objectRecorder) (namespace name : string) (gauge : Vec) : Vec :=
  delete (rec_groupVersionKind or, namespaceLabel namespace, name) gauge.

(** ** record: the counters of one namespace *)

Record counter := mkCounter { count : Z; deleted : bool }.
#[export] Instance counter_eq_dec : EqDecision counter.
Proof. solve_decision. Defined.

Abbreviation record := (gmap string counter).

Definition Insert (r : record) (names : list string) : record :=
  foldl (λ r name, <[name := mkCounter 0 false]> r) r names.
Definition Has (r : record) (name : string) : bool := bool_decide (is_Some (r !! name)).
Definition incCounter (c : counter) : counter :=
  if deleted c then mkCounter (count c + 1) (deleted c) else c.
Definition Inc (r : record) : record := incCounter <$> r.
Definition ResetIfItHas (r : record) (name : string) : bool * record :=
  match r !! name with
  | Some c => (true, if deleted c then <[name := mkCounter 0 false]> r else r)
  | None => (false, r)
  end.
Definition MarkDeletedIfItHas (r : record) (name : string) : bool * record :=
  match r !! name with
  | Some c => (true, <[name := mkCounter (count c) true]> r)
  | None => (false, r)
  end.
Definition DeleteIfNeeded (r : record) (name : string) (limit : Z) : bool * record :=
  match r !! name with
  | Some c => if deleted c && (limit <=? count c) then (true, delete name r) else (false, r)
  | None => (false, r)
  end.

(** ** items: the records of one kind by namespace *)

Abbreviation items := (gmap string record).
Abbreviation nsnPairs := (gmap string (list string)).

Definition newItems : items := ∅.

Definition items_insert (i : items) (namespace : string) (names : list string) : items :=
  let i := match i !! namespace with Some _ => i | None => <[namespace := ∅]> i end in
  <[namespace := Insert (default ∅ (i !! namespace)) names]> i.

Definition items_has (i : items) (namespace name : string) : bool :=
  match i !! namespace with Some r => Has r name | None => false end.

Definition hasPairs `{RangeOrder} (i : items) (nsnp : nsnPairs) : bool :=
  forallb (λ p, forallb (items_has i p.1) p.2) (range nsnp).

Definition items_inc (i : items) : items := Inc <$> i.

Definition items_resetIfItHas (i : items) (namespace name : string) : bool * items :=
  match i !! namespace with
  | Some r => let '(b, r) := ResetIfItHas r name in (b, <[namespace := r]> i)
  | None => (false, i)
  end.

Definition items_markDeletedIfItHas (i : items) (namespace name : string) : bool * items :=
  match i !! namespace with
  | Some r => let '(b, r) := MarkDeletedIfItHas r name in (b, <[namespace := r]> i)
  | None => (false, i)
  end.

(** The two loops of deleteIfNeeded; deleting from a map while iterating over
    it visits the remaining keys. *)
Definition deleteName (limit : Z) (ns : string) (st : items * bool * nsnPairs) (n : string) :
    items * bool * nsnPairs :=
  let '(i, b, p) := st in
  let '(gone, r) := DeleteIfNeeded (default ∅ (i !! ns)) n limit in
  if gone then (<[ns := r]> i, true, <[ns := default [] (p !! ns) ++ [n]]> p) else (i, b, p).

Definition deleteNamespace `{RangeOrder} (limit : Z) (st : items * bool * nsnPairs) (ns : string) :
    items * bool * nsnPairs :=
  let '(i, _, _) := st in
  let '(i, b, p) := foldl (deleteName limit ns) st (range (default ∅ (i !! ns))).*1 in
  if decide (size (default ∅ (i !! ns)) = 0%nat) then (delete ns i, b, p) else (i, b, p).

Definition items_deleteIfNeeded `{RangeOrder} (i : items) (metricsDuration : Z) :
    items * bool * nsnPairs :=
  foldl (deleteNamespace metricsDuration) (i, false, ∅) (range i).*1.

(** ** gvkTracker *)

Record gvkTracker := mkTracker {
  gt_list : items;
  gt_namespaced : bool;
  gt_recorder : objectRecorder
}.

Definition with_list (t : gvkTracker) (i : items) : gvkTracker :=
  mkTracker i (gt_namespaced t) (gt_recorder t).

Definition newGVKTracker (gvk : GroupVersionKind) (namespaced : bool) : gvkTracker :=
  mkTracker newItems namespaced (objectRecorderFor gvk).

Definition gvkTracker_insert (t : gvkTracker) (namespace : string) (names : list string) : gvkTracker :=
  with_list t (items_insert (gt_list t) namespace names).

Definition gvkTracker_resetIfItHas (t : gvkTracker) (namespace name : string) : bool * gvkTracker :=
  let '(has, i) := items_resetIfItHas (gt_list t) namespace name in (has, with_list t i).

Definition unsetPairs `{RangeOrder} (or : objectRecorder) (pairs : nsnPairs) (gauge : Vec) : Vec :=
  foldl (λ g p, foldl (λ g n, recorder_Unset or p.1 n g) g p.2) gauge (range pairs).

Definition gvkTracker_deleteMetricsIfNeeded `{RangeOrder} (t : gvkTracker) (metricsDuration : Z)
    (gauge : Vec) : gvkTracker * Vec :=
  let '(i, b, pairs) := items_deleteIfNeeded (gt_list t) metricsDuration in
  (with_list t i, if b then unsetPairs (gt_recorder t) pairs gauge else gauge).

(** ** ObjectTracker *)

Record ObjectTracker := mkOT {
  metricsDuration : Z;
  trackedGVK : gmap GroupVersionKind gvkTracker
}.

Definition NewObjectTracker : ObjectTracker := mkOT 0 ∅.
Definition GetMetricsDuration (ot : ObjectTracker) : Z := metricsDuration ot.
Definition SetMetricsDuration (d : Z) (ot : ObjectTracker) : ObjectTracker := mkOT d (trackedGVK ot).
Definition setMetricsDurationInternal (i : Z) (ot : ObjectTracker) : ObjectTracker :=
  if decide (i > 0 ∧ i > metricsDuration ot) then mkOT i (trackedGVK ot) else ot.

Definition ot_inc (ot : ObjectTracker) : ObjectTracker :=
  mkOT (metricsDuration ot) ((λ t, with_list t (items_inc (gt_list t))) <$> trackedGVK ot).

Definition ot_deleteMetricsIfNeeded `{RangeOrder} (ot : ObjectTracker) (gauge : Vec) :
    ObjectTracker * Vec :=
  if decide (metricsDuration ot > 0) then
    foldl (λ st gt,
      let '(ot, gauge) := st in
      let '(t, gauge) := gvkTracker_deleteMetricsIfNeeded gt.2 (metricsDuration ot) gauge in
      (mkOT (metricsDuration ot) (<[gt.1 := t]> (trackedGVK ot)), gauge))
      (ot, gauge) (range (trackedGVK ot))
  else (ot, gauge).

(** The errors addIfNotPresent collects. *)
Inductive trackErr :=
  | noRESTMapperErr (gvk : GroupVersionKind) (err : error)
  | emptyNamespaceErr (gvk : GroupVersionKind) (name : string)
  | startErr (err : error).

Section tracker.
Context `{RangeOrder, RESTMapper}.

(** [source.Start] of a kind's watch, a call into controller-runtime. *)
Context (start : GroupVersionKind → option error).

(** The namespace an object is recorded under, and the error if it has none. *)
Definition recordedNamespace (isNamespaced : bool) (gvk : GroupVersionKind) (ns name : string) :
    string * list trackErr :=
  if isNamespaced then
    if decide (ns = "") then (emptyNamespace, [emptyNamespaceErr gvk name]) else (ns, [])
  else (clusterScoped, []).

(** One iteration of addIfNotPresent. *)
Definition addObject (defaultNamespace : string) (st : ObjectTracker * list trackErr)
    (object : Object) : ObjectTracker * list trackErr :=
  let '(ot, errs) := st in
  let gvk := o_gvk object in
  let name := o_name object in
  let ns := if decide (defaultNamespace ≠ "") then defaultNamespace else o_namespace object in
  match namespaced gvk with
  | Err e => (ot, errs ++ [noRESTMapperErr gvk e])
  | Ok isNamespaced =>
      let '(ns, errs') := recordedNamespace isNamespaced gvk ns name in
      let errs := errs ++ errs' in
      match trackedGVK ot !! gvk with
      | Some t =>
          let '(has, t) := gvkTracker_resetIfItHas t ns name in
          let t := if negb has then gvkTracker_insert t ns [name] else t in
          (mkOT (metricsDuration ot) (<[gvk := t]> (trackedGVK ot)), errs)
      | None =>
          let t := newGVKTracker gvk isNamespaced in
          let t := gvkTracker_insert t ns [name] in
          (mkOT (metricsDuration ot) (<[gvk := t]> (trackedGVK ot)),
           errs ++ match start gvk with Some e => [startErr e] | None => [] end)
      end
  end.

(** addIfNotPresent records the objects; its deferred calls then run in
    reverse order, inc before deleteMetricsIfNeeded. *)
Definition addIfNotPresent (objects : list Object) (defaultNamespace : string)
    (ot : ObjectTracker) (gauge : Vec) : ObjectTracker * Vec * list trackErr :=
  let '(ot, errs) := foldl (addObject defaultNamespace) (ot, []) objects in
  let ot := ot_inc ot in
  let '(ot, gauge) := ot_deleteMetricsIfNeeded ot gauge in
  (ot, gauge, errs).

(** ** recordTrigger: the handler of a kind's watch *)

Definition eventNamespace (t : gvkTracker) (ns : string) : string :=
  if gt_namespaced t then (if decide (ns = "") then emptyNamespace else ns) else clusterScoped.

Definition trigger_Create (t : gvkTracker) (obj : NamespacedName) (gauge : Vec) : Vec :=
  let ns := eventNamespace t (nn_Namespace obj) in
  if items_has (gt_list t) ns (nn_Name obj)
  then recorder_Set (gt_recorder t) ns (nn_Name obj) 1 gauge else gauge.

Definition trigger_Update (t : gvkTracker) (old new : NamespacedName) (gauge : Vec) : Vec :=
  let ons := eventNamespace t (nn_Namespace old) in
  let nns := eventNamespace t (nn_Namespace new) in
  let nsnp : nsnPairs := <[ons := [nn_Name old]]> ∅ in
  let nsnp := <[nns := default [] (nsnp !! nns) ++ [nn_Name new]]> nsnp in
  if negb (hasPairs (gt_list t) nsnp) then gauge
  else if decide (ons = nns ∧ nn_Name old = nn_Name new)
  then recorder_Set (gt_recorder t) ons (nn_Name old) 1 gauge
  else recorder_Set (gt_recorder t) nns (nn_Name new) 1
         (recorder_Set (gt_recorder t) ons (nn_Name old) 0 gauge).

Definition trigger_Delete (t : gvkTracker) (obj : NamespacedName) (gauge : Vec) : gvkTracker * Vec :=
  let ns := eventNamespace t (nn_Namespace obj) in
  let '(has, i) := items_markDeletedIfItHas (gt_list t) ns (nn_Name obj) in
  if has then (with_list t i, recorder_Set (gt_recorder t) ns (nn_Name obj) 0 gauge)
  else (with_list t i, gauge).

Definition trigger_Generic (t : gvkTracker) (gauge : Vec) : Vec := gauge.

(** ** Runs *)

Record metricsState := mkMetrics { ms_tracker : ObjectTracker; ms_gauge : Vec }.

Inductive action :=
  | Reconciled (objects : list Object) (defaultNamespace : string)
  | Created (gvk : GroupVersionKind) (obj : NamespacedName)
  | Updated (gvk : GroupVersionKind) (old new : NamespacedName)
  | Deleted (gvk : GroupVersionKind) (obj : NamespacedName)
  | DurationSet (d : Z)
  | DurationRaised (d : Z).

(** A watch event reaches the handler of its kind, if the kind is tracked. *)
Definition step (s : metricsState) (a : action) : metricsState :=
  let '(mkMetrics ot gauge) := s in
  match a with
  | Reconciled objects ns =>
      let '(ot, gauge, _) := addIfNotPresent objects ns ot gauge in mkMetrics ot gauge
  | Created gvk obj =>
      match trackedGVK ot !! gvk with
      | Some t => mkMetrics ot (trigger_Create t obj gauge) | None => s end
  | Updated gvk old new =>
      match trackedGVK ot !! gvk with
      | Some t => mkMetrics ot (trigger_Update t old new gauge) | None => s end
  | Deleted gvk obj =>
      match trackedGVK ot !! gvk with
      | Some t =>
          let '(t, gauge) := trigger_Delete t obj gauge in
          mkMetrics (mkOT (metricsDuration ot) (<[gvk := t]> (trackedGVK ot))) gauge
      | None => s end
  | DurationSet d => mkMetrics (SetMetricsDuration d ot) gauge
  | DurationRaised d => mkMetrics (setMetricsDurationInternal d ot) gauge
  end.

Definition run (actions : list action) : metricsState :=
  foldl step (mkMetrics NewObjectTracker ∅) actions.
End tracker.

(* ------------------------------------------------------------------ *)
(** ** items as one map from namespace and name *)

Definition item (i : items) (ns n : string) : option counter := i !! ns ≫= (.!! n).

(** A counter that deleteIfNeeded removes. *)
Definition expired (limit : Z) (c : counter) : bool := deleted c && (limit <=? count c).

(** What is left of an entry after deleteIfNeeded. *)
Definition survive (limit : Z) (o : option counter) : option counter :=
  c ← o; if expired limit c then None else Some c.

(** The record of the namespace, as [default ∅] of a lookup. *)
Lemma item_default i ns n : default ∅ (i !! ns) !! n = item i ns n.
Proof. unfold item. destruct (i !! ns); [done|]. apply lookup_empty. Qed.

Lemma item_insert_record i ns r ns' n :
  item (<[ns := r]> i) ns' n = if decide (ns' = ns) then r !! n else item i ns' n.
Proof.
  unfold item. case_decide; [subst; by rewrite lookup_insert_eq|by rewrite lookup_insert_ne].
Qed.

Lemma items_has_item i ns n : items_has i ns n = bool_decide (is_Some (item i ns n)).
Proof. unfold items_has, item, Has. by destruct (i !! ns). Qed.

Lemma item_insert i ns n ns' n' :
  item (items_insert i ns [n]) ns' n'
  = if decide (ns' = ns ∧ n' = n) then Some (mkCounter 0 false) else item i ns' n'.
Proof.
  unfold items_insert. rewrite item_insert_record. cbn [Insert foldl].
  assert (∀ m, item (match i !! ns with Some _ => i | None => <[ns:=∅]> i end) ns' m
               = item i ns' m) as Hsame.
  { intros m. destruct (i !! ns) eqn:E; [done|]. rewrite item_insert_record. case_decide; [|done].
    subst. unfold item. by rewrite E, lookup_empty. }
  case_decide as Hns; [subst ns'|].
  - destruct (decide (n' = n)) as [->|Hn].
    + by rewrite lookup_insert_eq, decide_True.
    + rewrite lookup_insert_ne, decide_False, item_default by naive_solver. apply Hsame.
  - rewrite decide_False by naive_solver. apply Hsame.
Qed.

Lemma item_of i ns r n : i !! ns = Some r → item i ns n = r !! n.
Proof. intros E. unfold item. by rewrite E. Qed.
Lemma item_none i ns n : i !! ns = None → item i ns n = None.
Proof. intros E. unfold item. by rewrite E. Qed.

(** Replacing the counter of one name, if it is there. *)
Lemma item_alter i ns n r (f : counter → counter) ns' n' :
  i !! ns = Some r →
  item (<[ns := alter f n r]> i) ns' n'
  = if decide (ns' = ns ∧ n' = n) then f <$> item i ns' n' else item i ns' n'.
Proof.
  intros E. rewrite item_insert_record. destruct (decide (ns' = ns)) as [->|Hns].
  - rewrite (item_of _ _ _ n' E). destruct (decide (n' = n)) as [->|Hn].
    + by rewrite lookup_alter_eq, decide_True.
    + by rewrite lookup_alter_ne, decide_False by naive_solver.
  - by rewrite decide_False by naive_solver.
Qed.

Lemma alter_insert_Some (r : record) n c (f : counter → counter) :
  r !! n = Some c → <[n := f c]> r = alter f n r.
Proof.
  intros E. apply map_eq. intros m. destruct (decide (m = n)) as [->|].
  - by rewrite lookup_insert_eq, lookup_alter_eq, E.
  - by rewrite lookup_insert_ne, lookup_alter_ne.
Qed.
Lemma alter_None (r : record) n (f : counter → counter) : r !! n = None → alter f n r = r.
Proof.
  intros E. apply map_eq. intros m. destruct (decide (m = n)) as [->|].
  - by rewrite lookup_alter_eq, E.
  - by rewrite lookup_alter_ne.
Qed.

(** What ResetIfItHas makes of a counter. *)
Definition resetCounter (c : counter) : counter := if deleted c then mkCounter 0 false else c.

Lemma ResetIfItHas_alter r n : (ResetIfItHas r n).2 = alter resetCounter n r.
Proof.
  unfold ResetIfItHas. destruct (r !! n) as [c|] eqn:E; [|by rewrite alter_None].
  rewrite <- (alter_insert_Some _ _ _ _ E). unfold resetCounter. simpl.
  destruct (deleted c); [done|]. by rewrite insert_id.
Qed.
Lemma MarkDeletedIfItHas_alter r n :
  (MarkDeletedIfItHas r n).2 = alter (λ c, mkCounter (count c) true) n r.
Proof.
  unfold MarkDeletedIfItHas. destruct (r !! n) as [c|] eqn:E; [|by rewrite alter_None].
  by rewrite <- (alter_insert_Some _ _ _ _ E).
Qed.

Lemma item_reset i ns n ns' n' :
  item (items_resetIfItHas i ns n).2 ns' n'
  = (if decide (ns' = ns ∧ n' = n) then resetCounter <$> item i ns' n' else item i ns' n').
Proof.
  unfold items_resetIfItHas. destruct (i !! ns) as [r|] eqn:E.
  - rewrite <- (item_alter i ns n r resetCounter), <- ResetIfItHas_alter by done.
    by destruct (ResetIfItHas r n).
  - case_decide as Hd; [|done]. destruct Hd as [-> ->]. simpl. by rewrite item_none.
Qed.

Lemma reset_has i ns n : (items_resetIfItHas i ns n).1 = bool_decide (is_Some (item i ns n)).
Proof.
  unfold items_resetIfItHas, ResetIfItHas, item. destruct (i !! ns) as [r|]; [|done].
  simpl. by destruct (r !! n).
Qed.

Lemma item_mark i ns n ns' n' :
  item (items_markDeletedIfItHas i ns n).2 ns' n'
  = (if decide (ns' = ns ∧ n' = n) then (λ c, mkCounter (count c) true) <$> item i ns' n'
     else item i ns' n').
Proof.
  unfold items_markDeletedIfItHas. destruct (i !! ns) as [r|] eqn:E.
  - rewrite <- (item_alter i ns n r (λ c, mkCounter (count c) true)), <- MarkDeletedIfItHas_alter by done.
    by destruct (MarkDeletedIfItHas r n).
  - case_decide as Hd; [|done]. destruct Hd as [-> ->]. simpl. by rewrite item_none.
Qed.

Lemma mark_has i ns n : (items_markDeletedIfItHas i ns n).1 = bool_decide (is_Some (item i ns n)).
Proof.
  unfold items_markDeletedIfItHas, MarkDeletedIfItHas, item. destruct (i !! ns) as [r|]; [|done].
  simpl. by destruct (r !! n).
Qed.

Lemma item_inc i ns n : item (items_inc i) ns n = incCounter <$> item i ns n.
Proof.
  unfold item, items_inc, Inc. rewrite lookup_fmap. destruct (i !! ns) as [r|]; [|done].
  simpl. apply lookup_fmap.
Qed.

(** *** deleteIfNeeded *)

Section delete_lemmas.
Context `{RangeOrder}.
Implicit Types (i : items) (p : nsnPairs).

(** [(i', b', p')] is what [(i, b, p)] becomes by deleting the expired items
    of [Z]. *)
Definition deletes_in (limit : Z) (Z : string → string → Prop)
    (st st' : items * bool * nsnPairs) : Prop :=
  (∀ ns n, (Z ns n ∧ item st'.1.1 ns n = survive limit (item st.1.1 ns n))
           ∨ (¬ Z ns n ∧ item st'.1.1 ns n = item st.1.1 ns n))
  ∧ (∀ ns n, n ∈ default [] (st'.2 !! ns) ↔
       n ∈ default [] (st.2 !! ns)
       ∨ Z ns n ∧ ∃ c, item st.1.1 ns n = Some c ∧ expired limit c = true)
  ∧ (st'.1.2 = false → st.1.2 = false ∧
       ∀ ns n c, Z ns n → item st.1.1 ns n = Some c → expired limit c = false).

Lemma survive_twice limit o : survive limit (survive limit o) = survive limit o.
Proof. destruct o as [c|]; [|done]. simpl. destruct (expired limit c) eqn:E; [done|]. simpl. by rewrite E. Qed.

Lemma survive_Some limit o c :
  survive limit o = Some c ↔ o = Some c ∧ expired limit c = false.
Proof.
  destruct o as [c'|]; simpl; [|by split; [|intros [? _]]].
  destruct (expired limit c') eqn:E; split; try done.
  - intros [[= ->] ?]. congruence.
  - by intros [= ->].
  - by intros [[= ->] ?].
Qed.

Lemma deletes_in_refl limit st : deletes_in limit (λ _ _, False) st st.
Proof.
  split; [|split]; [intros; right; split; [by intros []|done]|naive_solver|].
  intros Hb. split; [done|]. by intros ? ? ? [].
Qed.

Lemma deletes_in_trans limit (Z1 Z2 : string → string → Prop) st1 st2 st3 :
  (∀ ns n, Decision (Z1 ns n)) → (∀ ns n, Decision (Z2 ns n)) →
  deletes_in limit Z1 st1 st2 → deletes_in limit Z2 st2 st3 →
  deletes_in limit (λ ns n, Z1 ns n ∨ Z2 ns n) st1 st3.
Proof.
  intros D1 D2 (A1 & B1 & C1) (A2 & B2 & C2). split; [|split].
  - intros ns n. destruct (A1 ns n) as [[? E1]|[? E1]], (A2 ns n) as [[? E2]|[? E2]];
      rewrite E2, E1, ?survive_twice; [left; tauto..|right; tauto].
  - intros ns n. rewrite B2, B1.
    assert ((∃ c, item st2.1.1 ns n = Some c ∧ expired limit c = true) ↔
      ¬ Z1 ns n ∧ ∃ c, item st1.1.1 ns n = Some c ∧ expired limit c = true) as ->; [|destruct (D1 ns n); tauto].
    destruct (A1 ns n) as [[? ->]|[? ->]]; [|tauto]. split; [|tauto].
    intros (c & [_ ?]%survive_Some & ?). congruence.
  - intros Hb. destruct (C2 Hb) as [Hb2 H2]. destruct (C1 Hb2) as [Hb1 H1]. split; [done|].
    intros ns n c Hz Hc. destruct (decide (Z1 ns n)); [by eapply H1|].
    destruct Hz as [?|Hz]; [done|]. apply (H2 ns n c Hz).
    destruct (A1 ns n) as [[? _]|[_ E1]]; [done|]. by rewrite E1.
Qed.

Lemma deletes_in_ext limit (Z1 Z2 : string → string → Prop) st st' :
  (∀ ns n, Z1 ns n ↔ Z2 ns n) → deletes_in limit Z1 st st' → deletes_in limit Z2 st st'.
Proof.
  intros HZ (A & B & C). split; [|split].
  - intros ns n. rewrite <- HZ. apply A.
  - intros ns n. rewrite <- HZ. apply B.
  - intros Hb. destruct (C Hb) as [? Hc]. split; [done|]. intros ns n c Hz. by apply Hc, HZ.
Qed.

Lemma deleteName_spec limit ns n st :
  deletes_in limit (λ ns' n', ns' = ns ∧ n' = n) st (deleteName limit ns st n).
Proof.
  destruct st as [[i b] p]. unfold deleteName, DeleteIfNeeded. rewrite item_default.
  assert (survive limit (item i ns n) = item i ns n →
    (∀ c, item i ns n = Some c → expired limit c = false) →
    deletes_in limit (λ ns' n', ns' = ns ∧ n' = n) (i, b, p) (i, b, p)) as Hnothing.
  { intros Hs Hc. split; [|split]; simpl.
    - intros ns' n'. destruct (decide (ns' = ns ∧ n' = n)) as [[-> ->]|]; [left|by right]. by rewrite Hs.
    - intros ns' n'. split; [by left|]. intros [?|([-> ->] & c & Hc' & ?)]; [done|].
      rewrite (Hc _ Hc') in *. done.
    - intros Hb. split; [done|]. intros ns' n' c [-> ->]. apply Hc. }
  destruct (item i ns n) as [c|] eqn:E; [|by apply Hnothing].
  fold (expired limit c). destruct (expired limit c) eqn:Ex.
  - clear Hnothing. split; [|split]; simpl; [| |done].
    + intros ns' n'. rewrite item_insert_record.
      destruct (decide (ns' = ns ∧ n' = n)) as [[-> ->]|Hne]; [left|right].
      * rewrite decide_True by done. rewrite lookup_delete_eq, E. simpl. by rewrite Ex.
      * split; [done|]. case_decide; [|done]. subst. rewrite lookup_delete_ne, item_default by naive_solver. done.
    + intros ns' n'. destruct (decide (ns' = ns)) as [->|Hne].
      * rewrite lookup_insert_eq. simpl. rewrite elem_of_app, list_elem_of_singleton.
        split; [intros [?| ->]; [by left|right; by eauto]|]. intros [?|[[_ ->] _]]; tauto.
      * rewrite lookup_insert_ne by done. tauto.
  - apply Hnothing; simpl; [by rewrite Ex|by intros ? [= <-]].
Qed.

Lemma deleteNames_spec limit ns l st :
  deletes_in limit (λ ns' n', ns' = ns ∧ n' ∈ l) st (foldl (deleteName limit ns) st l).
Proof.
  revert st; induction l as [|n l IH]; intros st; cbn [foldl].
  { eapply deletes_in_ext; [|apply deletes_in_refl]. set_solver. }
  eapply deletes_in_ext; [|eapply deletes_in_trans; [..|apply deleteName_spec|apply IH]]; [set_solver|apply _..].
Qed.

Lemma deleteNamespace_spec limit ns st :
  deletes_in limit (λ ns' n', ns' = ns) st (deleteNamespace limit st ns).
Proof.
  unfold deleteNamespace. destruct st as [[i b] p] eqn:Est. rewrite <- Est.
  set (l := (range (default ∅ (i !! ns))).*1).
  pose proof (deleteNames_spec limit ns l st) as Hd.
  assert (deletes_in limit (λ ns' n', ns' = ns) st (foldl (deleteName limit ns) st l)) as Hd'.
  { assert (∀ n, n ∉ l → item i ns n = None) as Hl.
    { intros n Hn. rewrite <- item_default. apply eq_None_not_Some. intros Hs. apply Hn.
      apply elem_of_range_keys. by apply elem_of_dom. }
    subst st. destruct Hd as (A & B & C). split; [|split].
    - intros ns' n'. destruct (decide (ns' = ns)) as [->|]; [left|right].
      + split; [done|]. destruct (A ns n') as [[_ ?]|[Hn E]]; [done|]. rewrite E. simpl.
        rewrite Hl; [done|]. naive_solver.
      + split; [done|]. destruct (A ns' n') as [[[? _] _]|[_ ?]]; [done|done].
    - intros ns' n'. rewrite B. split; [naive_solver|]. intros [?|(-> & c & Hc & Hx)]; [by left|right].
      split; [|by exists c]. split; [done|]. destruct (decide (n' ∈ l)); [done|].
      simpl in Hc. by rewrite Hl in Hc.
    - intros Hb. destruct (C Hb) as [? Hc]. split; [done|]. intros ns' n c -> Hn.
      apply (Hc ns n c); [|done]. split; [done|]. destruct (decide (n ∈ l)); [done|].
      simpl in Hn. by rewrite Hl in Hn. }
  destruct (foldl (deleteName limit ns) st l) as [[i' b'] p'].
  case_decide as Hsz; [|done]. destruct Hd' as (A & B & C). split; [|split; [done|done]].
  intros ns' n'. destruct (A ns' n') as [[-> E]|[? E]]; [left|right]; (split; [done|]); simpl in *;
    rewrite <- E; unfold item.
  - rewrite lookup_delete_eq. apply map_size_empty_inv in Hsz.
    destruct (i' !! ns); [|done]. simpl in *. subst. by rewrite lookup_empty.
  - by rewrite lookup_delete_ne.
Qed.

(** deleteIfNeeded removes exactly the expired items and reports them. *)
Lemma items_deleteIfNeeded_spec i limit :
  deletes_in limit (λ _ _, True) (i, false, ∅) (items_deleteIfNeeded i limit).
Proof.
  unfold items_deleteIfNeeded. set (l := (range i).*1).
  assert (∀ st, deletes_in limit (λ ns _, ns ∈ l) st (foldl (deleteNamespace limit) st l)) as Hf.
  { clear. induction l as [|ns l IH]; intros st; cbn [foldl].
    - eapply deletes_in_ext; [|apply deletes_in_refl]. set_solver.
    - eapply deletes_in_ext; [|eapply deletes_in_trans; [..|apply deleteNamespace_spec|apply IH]];
        [set_solver|intros ? ?; cbv beta; apply _..]. }
  assert (∀ ns n, ns ∉ l → item i ns n = None) as Hl.
  { intros ns n Hn. unfold item. destruct (i !! ns) as [r|] eqn:E; [|done]. destruct Hn.
    apply elem_of_range_keys. by apply elem_of_dom_2 in E. }
  destruct (Hf (i, false, ∅)) as (A & B & C). simpl in *. split; [|split].
  - intros ns n. left. split; [done|]. destruct (A ns n) as [[_ ?]|[Hn E]]; [done|].
    simpl. by rewrite E, Hl.
  - intros ns n. rewrite B. simpl. split; [naive_solver|]. intros [?|(_ & c & Hc & Hx)]; [by left|right].
    split; [|by exists c]. destruct (decide (ns ∈ l)); [done|]. by rewrite Hl in Hc.
  - intros Hb. destruct (C Hb) as [? Hc]. split; [done|]. intros ns n c _ Hn. simpl in Hn.
    apply (Hc ns n c); [|done]. destruct (decide (ns ∈ l)); [done|]. by rewrite Hl in Hn.
Qed.
End delete_lemmas.

(* ------------------------------------------------------------------ *)
(** ** The tracker as one map *)

Definition tracked (ot : ObjectTracker) (gvk : GroupVersionKind) (ns n : string) : option counter :=
  t ← trackedGVK ot !! gvk; item (gt_list t) ns n.

Definition gaugeKey (t : gvkTracker) (ns n : string) : labelValues :=
  (rec_groupVersionKind (gt_recorder t), namespaceLabel ns, n).

(** An expired item of the trackers [l] has this gauge key. *)
Definition expired_key (limit : Z) (l : list (GroupVersionKind * gvkTracker)) (k : labelValues) :
    Prop :=
  ∃ gvk t ns n c, (gvk, t) ∈ l ∧ item (gt_list t) ns n = Some c ∧ expired limit c = true
    ∧ k = gaugeKey t ns n.

Section gauge_lemmas.
Context `{RangeOrder}.

Lemma foldl_nested {A} (F : A → string * string → A) (l : list (string * list string)) g :
  foldl (λ g p, foldl (λ g n, F g (p.1, n)) g p.2) g l
  = foldl F g (l ≫= λ p, (p.1,.) <$> p.2).
Proof.
  revert g; induction l as [|[ns names] l IH]; intros g; [done|].
  change (((ns, names) :: l) ≫= λ p, (p.1,.) <$> p.2)
    with (((ns,.) <$> names) ++ (l ≫= λ p, (p.1,.) <$> p.2)).
  rewrite foldl_app. cbn [foldl fst snd]. rewrite IH. f_equal. clear.
  revert g; induction names as [|n names IH]; intros g; [done|]. simpl. apply IH.
Qed.

Lemma foldl_delete_lookup {X} (f : X → labelValues) (l : list X) (g : Vec) k :
  (k ∈ f <$> l → foldl (λ g x, delete (f x) g) g l !! k = None)
  ∧ (k ∉ f <$> l → foldl (λ g x, delete (f x) g) g l !! k = g !! k).
Proof.
  induction l as [|x l IH] using rev_ind; [split; [set_solver|done]|].
  rewrite foldl_app, fmap_app. cbn [foldl]. split.
  - intros Hk. destruct (decide (k = f x)) as [->|Hne]; [by rewrite lookup_delete_eq|].
    rewrite lookup_delete_ne by done. apply IH. set_solver.
  - intros Hk. rewrite lookup_delete_ne by set_solver. apply IH. set_solver.
Qed.

Lemma unsetPairs_lookup or pairs gauge k :
  ((∃ ns n, n ∈ default [] (pairs !! ns) ∧ k = (rec_groupVersionKind or, namespaceLabel ns, n)) →
     unsetPairs or pairs gauge !! k = None)
  ∧ ((¬ ∃ ns n, n ∈ default [] (pairs !! ns) ∧ k = (rec_groupVersionKind or, namespaceLabel ns, n)) →
     unsetPairs or pairs gauge !! k = gauge !! k).
Proof.
  unfold unsetPairs, recorder_Unset.
  rewrite (foldl_nested (λ g x, delete (rec_groupVersionKind or, namespaceLabel x.1, x.2) g)).
  set (l := range pairs ≫= _). set (f := λ x : string * string, (rec_groupVersionKind or, namespaceLabel x.1, x.2)).
  assert (∀ ns n, (ns, n) ∈ l ↔ n ∈ default [] (pairs !! ns)) as Hl.
  { intros ns n. unfold l. rewrite list_elem_of_bind. split.
    - intros ([ns' names] & (n' & [= -> ->] & Hn)%list_elem_of_fmap & Hp%elem_of_range).
      simpl in *. by rewrite Hp.
    - intros Hn. destruct (pairs !! ns) as [names|] eqn:E; [|set_solver].
      exists (ns, names). split; [|by apply elem_of_range]. apply list_elem_of_fmap. by exists n. }
  assert (k ∈ f <$> l ↔ ∃ ns n, n ∈ default [] (pairs !! ns) ∧ k = (rec_groupVersionKind or, namespaceLabel ns, n)) as Hk.
  { rewrite list_elem_of_fmap. split.
    - intros ([ns n] & -> & Hn%Hl). by exists ns, n.
    - intros (ns & n & Hn & ->). exists (ns, n). by rewrite Hl. }
  destruct (foldl_delete_lookup f l gauge k) as [H1 H2]. rewrite <- Hk. done.
Qed.

Lemma gvkTracker_delete_spec gvk t d gauge :
  let r := gvkTracker_deleteMetricsIfNeeded t d gauge in
  (∀ ns n, item (gt_list r.1) ns n = survive d (item (gt_list t) ns n))
  ∧ gt_recorder r.1 = gt_recorder t ∧ gt_namespaced r.1 = gt_namespaced t
  ∧ (∀ k, (expired_key d [(gvk, t)] k → r.2 !! k = None)
        ∧ (¬ expired_key d [(gvk, t)] k → r.2 !! k = gauge !! k)).
Proof.
  unfold gvkTracker_deleteMetricsIfNeeded.
  pose proof (items_deleteIfNeeded_spec (gt_list t) d) as (A & B & C).
  destruct (items_deleteIfNeeded (gt_list t) d) as [[i b] pairs]. simpl in *.
  split; [intros ns n; by destruct (A ns n) as [[_ ?]|[[] _]]|]. split; [done|]. split; [done|].
  assert (∀ k, expired_key d [(gvk, t)] k ↔
    ∃ ns n, n ∈ default [] (pairs !! ns) ∧ k = gaugeKey t ns n) as Hk.
  { intros k. split.
    - intros (gvk' & t' & ns & n & c & [= -> ->]%list_elem_of_singleton & ? & ? & ->).
      exists ns, n. split; [|done]. apply B. by eauto.
    - intros (ns & n & [?|(_ & c & ? & ?)]%B & ->); [set_solver|].
      exists gvk, t, ns, n, c. set_solver. }
  intros k. destruct b; [rewrite Hk; apply unsetPairs_lookup|].
  destruct (C eq_refl) as [_ Hno]. split; [|done].
  intros (gvk' & t' & ns & n & c & [= -> ->]%list_elem_of_singleton & Hc & Hx & ->).
  by rewrite (Hno ns n c I Hc) in Hx.
Qed.

Lemma expired_key_app d l1 l2 k :
  expired_key d (l1 ++ l2) k ↔ expired_key d l1 k ∨ expired_key d l2 k.
Proof. unfold expired_key. setoid_rewrite elem_of_app. naive_solver. Qed.

(** Deleting, for all the trackers of a list with distinct kinds. *)
Lemma ot_delete_loop (l : list (GroupVersionKind * gvkTracker)) (ot : ObjectTracker) (gauge : Vec) :
  NoDup l.*1 →
  let r := foldl (λ st gt,
      let '(ot, gauge) := st in
      let '(t, gauge) := gvkTracker_deleteMetricsIfNeeded gt.2 (metricsDuration ot) gauge in
      (mkOT (metricsDuration ot) (<[gt.1 := t]> (trackedGVK ot)), gauge)) (ot, gauge) l in
  metricsDuration r.1 = metricsDuration ot
  ∧ (∀ gvk t, (gvk, t) ∈ l → ∃ t', trackedGVK r.1 !! gvk = Some t'
       ∧ gt_recorder t' = gt_recorder t ∧ gt_namespaced t' = gt_namespaced t
       ∧ ∀ ns n, item (gt_list t') ns n = survive (metricsDuration ot) (item (gt_list t) ns n))
  ∧ (∀ gvk, gvk ∉ l.*1 → trackedGVK r.1 !! gvk = trackedGVK ot !! gvk)
  ∧ (∀ k, (expired_key (metricsDuration ot) l k → r.2 !! k = None)
        ∧ (¬ expired_key (metricsDuration ot) l k → r.2 !! k = gauge !! k)).
Proof.
  induction l as [|[g t] l IH] using rev_ind; intros Hnd.
  { simpl. split; [done|]. split; [set_solver|]. split; [done|]. intros k. split; [|done].
    intros (? & ? & ? & ? & ? & ? & _). set_solver. }
  rewrite fmap_app in Hnd. apply list.NoDup_app in Hnd as (Hnd & Hdis & _).
  cbv zeta. rewrite foldl_app. cbn [foldl fst snd]. cbv zeta in IH. specialize (IH Hnd).
  destruct (foldl _ (ot, gauge) l) as [ot1 gauge1]. destruct IH as (Id & It & Io & Ig). simpl in *.
  pose proof (gvkTracker_delete_spec g t (metricsDuration ot1) gauge1) as (Gi & Gr & Gn & Gg).
  destruct (gvkTracker_deleteMetricsIfNeeded t (metricsDuration ot1) gauge1) as [t' gauge2].
  rewrite Id in *. simpl in *. split; [done|]. split; [|split].
  - intros gvk t0 [Hin|[= -> ->]%list_elem_of_singleton]%elem_of_app.
    + destruct (It _ _ Hin) as (t0' & ? & ?). exists t0'. split; [|done].
      rewrite lookup_insert_ne; [done|]. intros ->.
      apply (Hdis gvk); [|set_solver]. apply list_elem_of_fmap. by exists (gvk, t0).
    + exists t'. by rewrite lookup_insert_eq.
  - intros gvk Hn. rewrite fmap_app in Hn. rewrite lookup_insert_ne by set_solver. apply Io. set_solver.
  - intros k. rewrite expired_key_app. destruct (Gg k) as [G1 G2], (Ig k) as [I1 I2]. split.
    + intros [He|He]; [|by apply G1].
      destruct (decide (gauge2 !! k = None)) as [|Hne]; [done|]. exfalso. apply Hne.
      rewrite G2; [by apply I1|]. intros He'. by apply Hne, G1.
    + intros He. rewrite G2 by tauto. apply I2. tauto.
Qed.

(** What deleteMetricsIfNeeded leaves. *)
Lemma ot_delete_spec ot gauge :
  let r := ot_deleteMetricsIfNeeded ot gauge in
  metricsDuration r.1 = metricsDuration ot
  ∧ (∀ gvk t, trackedGVK ot !! gvk = Some t → ∃ t', trackedGVK r.1 !! gvk = Some t'
       ∧ gt_recorder t' = gt_recorder t ∧ gt_namespaced t' = gt_namespaced t)
  ∧ (∀ gvk, trackedGVK ot !! gvk = None → trackedGVK r.1 !! gvk = None)
  ∧ (∀ gvk ns n, tracked r.1 gvk ns n =
       if decide (metricsDuration ot > 0) then survive (metricsDuration ot) (tracked ot gvk ns n)
       else tracked ot gvk ns n)
  ∧ (∀ k, (metricsDuration ot > 0 ∧ expired_key (metricsDuration ot) (range (trackedGVK ot)) k →
             r.2 !! k = None)
        ∧ (¬ (metricsDuration ot > 0 ∧ expired_key (metricsDuration ot) (range (trackedGVK ot)) k) →
             r.2 !! k = gauge !! k)).
Proof.
  cbv zeta. unfold ot_deleteMetricsIfNeeded. case_decide as Hd.
  2:{ simpl. split; [done|]. split; [by eauto|]. split; [done|]. split; [done|]. intros k. tauto. }
  pose proof (ot_delete_loop (range (trackedGVK ot)) ot gauge (NoDup_range_keys _)) as (Ld & Lt & Lo & Lg).
  set (r := foldl _ _ _) in *. split; [done|]. split; [|split; [|split]].
  - intros gvk t Ht%elem_of_range. destruct (Lt _ _ Ht) as (t' & ? & ? & ? & _). by exists t'.
  - intros gvk Hn. rewrite Lo; [done|]. rewrite elem_of_range_keys. by apply not_elem_of_dom.
  - intros gvk ns n. unfold tracked. destruct (trackedGVK ot !! gvk) as [t|] eqn:E.
    + apply elem_of_range in E. destruct (Lt _ _ E) as (t' & -> & _ & _ & Hi). simpl. apply Hi.
    + rewrite Lo; [by rewrite E|]. rewrite elem_of_range_keys. by apply not_elem_of_dom.
  - intros k. destruct (Lg k) as [L1 L2]. split; [intros [_ ?]; by apply L1|]. intros Hn. apply L2. tauto.
Qed.
End gauge_lemmas.

(** ** addIfNotPresent *)

(** What an object is recorded under. *)
Definition recordKey `{RESTMapper} (defaultNamespace : string) (object : Object) :
    res (GroupVersionKind * string * string) :=
  isNamespaced ← namespaced (o_gvk object);
  let ns := if decide (defaultNamespace ≠ "") then defaultNamespace else o_namespace object in
  Ok (o_gvk object, (recordedNamespace isNamespaced (o_gvk object) ns (o_name object)).1,
      o_name object).

(** The recorder of each kind writes the series of that kind. *)
Definition recorders_ok (ot : ObjectTracker) : Prop :=
  ∀ gvk t, trackedGVK ot !! gvk = Some t → gt_recorder t = objectRecorderFor gvk.

Lemma tracked_insert ot d gvk t gvk' ns n :
  tracked (mkOT d (<[gvk := t]> (trackedGVK ot))) gvk' ns n
  = if decide (gvk' = gvk) then item (gt_list t) ns n else tracked ot gvk' ns n.
Proof.
  unfold tracked. simpl. case_decide; [subst; by rewrite lookup_insert_eq|by rewrite lookup_insert_ne].
Qed.

Lemma recorders_ok_insert ot d gvk t :
  recorders_ok ot → gt_recorder t = objectRecorderFor gvk →
  recorders_ok (mkOT d (<[gvk := t]> (trackedGVK ot))).
Proof.
  intros Hok Ht g t'. simpl. intros [[<- <-]|[_ ?]]%lookup_insert_Some; [done|by apply Hok].
Qed.

Section add_lemmas.
Context `{RangeOrder, RESTMapper} (start : GroupVersionKind → option error).

Lemma addObject_spec dns ot errs obj :
  let r := addObject start dns (ot, errs) obj in
  metricsDuration r.1 = metricsDuration ot
  ∧ (recorders_ok ot → recorders_ok r.1)
  ∧ ∀ gvk ns n, tracked r.1 gvk ns n =
      if decide (recordKey dns obj = Ok (gvk, ns, n))
      then Some (default (mkCounter 0 false) (resetCounter <$> tracked ot gvk ns n))
      else tracked ot gvk ns n.
Proof.
  cbv zeta. unfold addObject, recordKey.
  set (ns0 := if decide (dns ≠ "") then dns else o_namespace obj).
  destruct (namespaced (o_gvk obj)) as [b|e]; cbn [mbind res_bind].
  2:{ split; [done|]. split; [done|]. intros gvk ns n. by rewrite decide_False. }
  destruct (recordedNamespace b (o_gvk obj) ns0 (o_name obj)) as [ns1 errs'].
  destruct (trackedGVK ot !! o_gvk obj) as [t|] eqn:Et; cbn [fst snd].
  - pose proof (item_reset (gt_list t) ns1 (o_name obj)) as Hreset.
    pose proof (reset_has (gt_list t) ns1 (o_name obj)) as Hhas.
    unfold gvkTracker_resetIfItHas.
    destruct (items_resetIfItHas (gt_list t) ns1 (o_name obj)) as [has i]. simpl in Hreset, Hhas.
    assert ((if negb has then gvkTracker_insert (with_list t i) ns1 [o_name obj] else with_list t i)
            = with_list t (if negb has then items_insert i ns1 [o_name obj] else i)) as ->
      by (by destruct has).
    split; [done|]. split; [intros Hok; apply recorders_ok_insert; [done|exact (Hok _ _ Et)]|].
    intros gvk ns n. cbn [fst]. rewrite tracked_insert. cbn [with_list gt_list].
    destruct (decide (gvk = o_gvk obj)) as [->|Hg]; [|rewrite decide_False by congruence; done].
    assert (tracked ot (o_gvk obj) ns n = item (gt_list t) ns n) as Htr
      by (unfold tracked; by rewrite Et).
    rewrite Htr. subst has. case_bool_decide as Hs; simpl; rewrite ?item_insert, Hreset.
    + repeat case_decide; destruct_and?; simplify_eq; try tauto. destruct Hs as [c ->]. done.
    + apply eq_None_not_Some in Hs.
      repeat case_decide; destruct_and?; simplify_eq; try tauto. by rewrite Hs.
  - split; [done|]. split; [intros Hok; by apply recorders_ok_insert|].
    intros gvk ns n. rewrite tracked_insert. cbn [gvkTracker_insert with_list gt_list newGVKTracker].
    destruct (decide (gvk = o_gvk obj)) as [->|Hg]; [|rewrite decide_False by congruence; done].
    rewrite item_insert. assert (tracked ot (o_gvk obj) ns n = None) as ->
      by (unfold tracked; by rewrite Et).
    unfold newItems. assert (item ∅ ns n = None) as -> by (unfold item; by rewrite lookup_empty).
    repeat case_decide; destruct_and?; simplify_eq; try tauto; done.
Qed.

(** What a list of objects leaves: the keys it names are live, the others
    are as before. *)
Definition live (o : option counter) : option counter :=
  Some (default (mkCounter 0 false) (resetCounter <$> o)).

Lemma resetCounter_twice c : resetCounter (resetCounter c) = resetCounter c.
Proof. unfold resetCounter. destruct (deleted c) eqn:E; simpl; [done|by rewrite E]. Qed.

Lemma live_twice o : live (live o) = live o.
Proof. destruct o; [|done]. unfold live. simpl. by rewrite resetCounter_twice. Qed.

Lemma addObjects_spec dns objects ot errs :
  let r := foldl (addObject start dns) (ot, errs) objects in
  metricsDuration r.1 = metricsDuration ot
  ∧ (recorders_ok ot → recorders_ok r.1)
  ∧ ∀ gvk ns n,
      (Ok (gvk, ns, n) ∈ recordKey dns <$> objects → tracked r.1 gvk ns n = live (tracked ot gvk ns n))
      ∧ (Ok (gvk, ns, n) ∉ recordKey dns <$> objects → tracked r.1 gvk ns n = tracked ot gvk ns n).
Proof.
  induction objects as [|obj objects IH] using rev_ind.
  { simpl. split; [done|]. split; [done|]. intros gvk ns n. split; [set_solver|done]. }
  cbv zeta in *. rewrite foldl_app. cbn [foldl].
  destruct (foldl (addObject start dns) (ot, errs) objects) as [ot1 errs1].
  destruct IH as (Id & Iok & It). cbn [fst snd] in *.
  destruct (addObject_spec dns ot1 errs1 obj) as (Ad & Aok & At).
  split; [by rewrite Ad|]. split; [auto|]. intros gvk ns n. destruct (It gvk ns n) as [I1 I2].
  rewrite At, fmap_app. fold (live (tracked ot1 gvk ns n)).
  destruct (decide (Ok (gvk, ns, n) ∈ recordKey dns <$> objects)) as [Hin|Hin].
  - split; [|set_solver]. intros _. rewrite I1 by done. case_decide; [apply live_twice|done].
  - rewrite I2 by done. split.
    + intros [?|Hk%list_elem_of_singleton]%elem_of_app; [done|]. by rewrite decide_True.
    + intros Hn. rewrite decide_False; [done|]. set_solver.
Qed.

Lemma tracked_inc ot gvk ns n : tracked (ot_inc ot) gvk ns n = incCounter <$> tracked ot gvk ns n.
Proof.
  unfold tracked, ot_inc. simpl. rewrite lookup_fmap. destruct (trackedGVK ot !! gvk); [|done].
  simpl. apply item_inc.
Qed.

Lemma live_inc o : incCounter <$> live o = live o.
Proof. destruct o as [c|]; [|done]. unfold live, resetCounter, incCounter. simpl. destruct (deleted c) eqn:E; simpl; [done|by rewrite E]. Qed.

Lemma live_survive d o : survive d (live o) = live o.
Proof.
  destruct o as [c|]; [|done]. unfold live, resetCounter. simpl.
  destruct (deleted c) eqn:E; simpl; [done|]. unfold expired. by rewrite E.
Qed.

(** One call: a key it names is live; another one ages by one and is dropped,
    its series with it, when it has expired. *)
Lemma addIfNotPresent_spec objects dns ot gauge :
  let r := addIfNotPresent start objects dns ot gauge in
  let d := metricsDuration ot in
  metricsDuration r.1.1 = d
  ∧ (recorders_ok ot → recorders_ok r.1.1)
  ∧ (∀ gvk ns n, Ok (gvk, ns, n) ∈ recordKey dns <$> objects →
       tracked r.1.1 gvk ns n = live (tracked ot gvk ns n))
  ∧ (∀ gvk ns n, Ok (gvk, ns, n) ∉ recordKey dns <$> objects →
       tracked r.1.1 gvk ns n =
         let o := incCounter <$> tracked ot gvk ns n in
         if decide (d > 0) then survive d o else o)
  ∧ (recorders_ok ot → ∀ k, is_Some (r.1.2 !! k) → r.1.2 !! k = gauge !! k
       ∧ (d > 0 → ∀ gvk ns n c, k = (gvkString gvk, namespaceLabel ns, n) →
           Ok (gvk, ns, n) ∉ recordKey dns <$> objects →
           incCounter <$> tracked ot gvk ns n = Some c → expired d c = false)).
Proof.
  cbv zeta. unfold addIfNotPresent.
  destruct (addObjects_spec dns objects ot []) as (Ad & Aok & At). cbv zeta in *.
  destruct (foldl (addObject start dns) (ot, []) objects) as [ot1 errs]. cbn [fst snd] in *.
  destruct (ot_delete_spec (ot_inc ot1) gauge) as (Dd & Dt & Dn & Dk & Dg). cbv zeta in *.
  destruct (ot_deleteMetricsIfNeeded (ot_inc ot1) gauge) as [ot2 gauge2]. cbn [fst snd] in *.
  assert (metricsDuration (ot_inc ot1) = metricsDuration ot) as Hd by done. rewrite Hd in *.
  assert (recorders_ok ot → recorders_ok (ot_inc ot1)) as Hinc.
  { intros Hok gvk t. simpl. rewrite lookup_fmap. intros (t0 & Ht0 & ->)%fmap_Some.
    simpl. by apply Aok. }
  split; [done|]. split; [|split; [|split]].
  - intros Hok gvk t2 Ht2. specialize (Hinc Hok).
    destruct (trackedGVK (ot_inc ot1) !! gvk) as [t1|] eqn:E1; [|by rewrite Dn in Ht2].
    destruct (Dt _ _ E1) as (t2' & E2 & Hr & _). rewrite E2 in Ht2. simplify_eq. rewrite Hr. by apply Hinc.
  - intros gvk ns n Hk. rewrite Dk, tracked_inc. destruct (At gvk ns n) as [-> _]; [|done].
    rewrite live_inc, live_survive. by case_decide.
  - intros gvk ns n Hk. rewrite Dk, tracked_inc. destruct (At gvk ns n) as [_ ->]; done.
  - intros Hok k Hs. destruct (Dg k) as [D1 D2].
    assert (¬ (metricsDuration ot > 0 ∧ expired_key (metricsDuration ot) (range (trackedGVK (ot_inc ot1))) k))
      as Hne by (intros He; rewrite (D1 He) in Hs; by destruct Hs).
    split; [by apply D2|]. intros Hpos gvk ns n c -> Hk Hc.
    destruct (expired (metricsDuration ot) c) eqn:Hx; [|done]. destruct Hne. split; [done|].
    destruct (At gvk ns n) as [_ Heq]. rewrite <- (Heq Hk), <- tracked_inc in Hc.
    unfold tracked in Hc. destruct (trackedGVK (ot_inc ot1) !! gvk) as [t|] eqn:Et; [|done].
    exists gvk, t, ns, n, c. rewrite elem_of_range. split; [done|]. split; [done|]. split; [done|].
    unfold gaugeKey. by rewrite (Hinc Hok gvk t Et).
Qed.
End add_lemmas.

(* ------------------------------------------------------------------ *)
(** ** The gauge series are those of tracked objects *)

Definition gauge_ok (s : metricsState) : Prop :=
  recorders_ok (ms_tracker s)
  ∧ ∀ k, is_Some (ms_gauge s !! k) → ∃ gvk ns n,
      is_Some (tracked (ms_tracker s) gvk ns n) ∧ k = (gvkString gvk, namespaceLabel ns, n).

Section run_lemmas.
Context `{RangeOrder, RESTMapper} (start : GroupVersionKind → option error).

Lemma hasPairs_spec i nsnp ns n :
  hasPairs i nsnp = true → n ∈ default [] (nsnp !! ns) → is_Some (item i ns n).
Proof.
  unfold hasPairs. intros Hf Hn. destruct (nsnp !! ns) as [names|] eqn:E; [|set_solver]. simpl in Hn.
  rewrite forallb_forall in Hf. specialize (Hf (ns, names)). rewrite <- list_elem_of_In in Hf.
  rewrite elem_of_range in Hf. specialize (Hf E). simpl in Hf.
  rewrite forallb_forall in Hf. specialize (Hf n). rewrite <- list_elem_of_In in Hf.
  specialize (Hf Hn). rewrite items_has_item in Hf. by apply bool_decide_eq_true in Hf.
Qed.

Lemma gauge_ok_Set ot gauge gvk t ns n v :
  gauge_ok (mkMetrics ot gauge) → trackedGVK ot !! gvk = Some t → is_Some (item (gt_list t) ns n) →
  gauge_ok (mkMetrics ot (recorder_Set (gt_recorder t) ns n v gauge)).
Proof.
  intros [Hok Hg] Ht Hs. split; [done|]. simpl. intros k Hk.
  unfold recorder_Set in Hk. rewrite (Hok _ _ Ht) in Hk. cbn [objectRecorderFor rec_groupVersionKind] in Hk.
  destruct (decide (k = (gvkString gvk, namespaceLabel ns, n))) as [->|Hne].
  - exists gvk, ns, n. split; [|done]. unfold tracked. simpl in *. by rewrite Ht.
  - rewrite lookup_insert_ne in Hk by done. by apply Hg.
Qed.

Lemma gauge_ok_Reconciled objects dns ot gauge :
  gauge_ok (mkMetrics ot gauge) →
  gauge_ok (step start (mkMetrics ot gauge) (Reconciled objects dns)).
Proof.
  intros [Hok Hg]. simpl in *. pose proof (addIfNotPresent_spec start objects dns ot gauge) as Hspec.
  cbv zeta in Hspec. destruct (addIfNotPresent start objects dns ot gauge) as [[ot' gauge'] errs].
  cbn [fst snd] in Hspec. destruct Hspec as (_ & Aok & Ain & Aout & Ag).
  split; [by apply Aok|]. simpl. intros k Hk. destruct (Ag Hok k Hk) as [Hsame Hlive].
  rewrite Hsame in Hk. destruct (Hg k Hk) as (gvk & ns & n & [c Hc] & ->).
  exists gvk, ns, n. split; [|done].
  destruct (decide (Ok (gvk, ns, n) ∈ recordKey dns <$> objects)) as [Hin|Hin].
  - rewrite Ain by done. by eexists.
  - rewrite Aout, Hc by done. simpl. case_decide as Hd; [|by eexists].
    assert (expired (metricsDuration ot) (incCounter c) = false) as ->; [|by eexists].
    apply (Hlive Hd gvk ns n); [done|done|by rewrite Hc].
Qed.

Lemma step_gauge_ok s a : gauge_ok s → gauge_ok (step start s a).
Proof.
  destruct s as [ot gauge]. intros Hs.
  destruct a as [objects dns|gvk obj|gvk old new|gvk obj|d|d]; [by apply gauge_ok_Reconciled|..]; cbn [step].
  - destruct (trackedGVK ot !! gvk) as [t|] eqn:Et; [|done]. unfold trigger_Create.
    rewrite items_has_item. case_bool_decide; [by apply (gauge_ok_Set _ _ gvk)|done].
  - destruct (trackedGVK ot !! gvk) as [t|] eqn:Et; [|done]. unfold trigger_Update.
    set (ons := eventNamespace t (nn_Namespace old)). set (nns := eventNamespace t (nn_Namespace new)).
    destruct (hasPairs _ _) eqn:Hp; simpl; [|done].
    assert (is_Some (item (gt_list t) ons (nn_Name old))) as Ho.
    { eapply hasPairs_spec; [done|]. destruct (decide (nns = ons)) as [->|].
      - rewrite !lookup_insert_eq. simpl. set_solver.
      - rewrite lookup_insert_ne, lookup_insert_eq by done. simpl. set_solver. }
    assert (is_Some (item (gt_list t) nns (nn_Name new))) as Hn.
    { eapply hasPairs_spec; [done|]. rewrite lookup_insert_eq. simpl. set_solver. }
    case_decide; [by apply (gauge_ok_Set _ _ gvk)|].
    apply (gauge_ok_Set _ _ gvk); [|done..]. by apply (gauge_ok_Set _ _ gvk).
  - destruct (trackedGVK ot !! gvk) as [t|] eqn:Et; [|done]. unfold trigger_Delete.
    set (ns := eventNamespace t (nn_Namespace obj)).
    pose proof (item_mark (gt_list t) ns (nn_Name obj)) as Hmark.
    pose proof (mark_has (gt_list t) ns (nn_Name obj)) as Hhas.
    destruct (items_markDeletedIfItHas (gt_list t) ns (nn_Name obj)) as [has i]. simpl in Hmark, Hhas.
    assert (gauge_ok (mkMetrics (mkOT (metricsDuration ot) (<[gvk := with_list t i]> (trackedGVK ot))) gauge))
      as Hs'.
    { destruct Hs as [Hok Hg]. split; [by apply recorders_ok_insert; [|exact (Hok _ _ Et)]|].
      simpl in *. intros k (g & ns' & n & Hsome & ->)%Hg. exists g, ns', n. split; [|done].
      rewrite tracked_insert. case_decide as Hg'; [|done]. subst g. unfold tracked in Hsome. rewrite Et in Hsome.
      cbn [with_list gt_list]. rewrite Hmark. case_decide; [|done]. by apply fmap_is_Some. }
    destruct has; [|done]. apply (gauge_ok_Set _ _ gvk (with_list t i)); [done|simpl; by rewrite lookup_insert_eq|].
    cbn [with_list gt_list]. rewrite Hmark, decide_True by done. apply fmap_is_Some.
    symmetry in Hhas. by apply bool_decide_eq_true in Hhas.
  - done.
  - unfold setMetricsDurationInternal. case_decide; done.
Qed.

(** A deleted object not named by a reconciliation ages or goes. *)
Lemma aging_step s objects dns gvk ns n c :
  let d := metricsDuration (ms_tracker s) in
  let s' := step start s (Reconciled objects dns) in
  recorders_ok (ms_tracker s) → 0 < d → Ok (gvk, ns, n) ∉ recordKey dns <$> objects →
  tracked (ms_tracker s) gvk ns n = Some (mkCounter c true) →
  (c + 1 < d → tracked (ms_tracker s') gvk ns n = Some (mkCounter (c + 1) true))
  ∧ (d <= c + 1 → tracked (ms_tracker s') gvk ns n = None
       ∧ ms_gauge s' !! (gvkString gvk, namespaceLabel ns, n) = None).
Proof.
  destruct s as [ot gauge]. cbn [step ms_tracker]. cbv zeta. intros Hok Hd Hk Htr.
  pose proof (addIfNotPresent_spec start objects dns ot gauge) as Hspec. cbv zeta in Hspec.
  destruct (addIfNotPresent start objects dns ot gauge) as [[ot' gauge'] errs].
  cbn [fst snd ms_tracker ms_gauge] in *. destruct Hspec as (_ & _ & _ & Aout & Ag).
  rewrite (Aout gvk ns n Hk), (decide_True (P := metricsDuration ot > 0)), Htr by lia.
  unfold incCounter, expired. simpl. unfold expired. simpl. split; intros Hc.
  - by rewrite (proj2 (Z.leb_gt _ _)) by lia.
  - rewrite (proj2 (Z.leb_le _ _)) by lia. split; [done|].
    destruct (gauge' !! _) as [v|] eqn:Eg; [|done]. exfalso.
    destruct (Ag Hok (gvkString gvk, namespaceLabel ns, n)) as [_ Hl]; [by eexists|].
    assert (expired (metricsDuration ot) (mkCounter (c + 1) true) = false) as Hx.
    { apply (Hl ltac:(lia) gvk ns n); [done|done|]. by rewrite Htr. }
    unfold expired in Hx. simpl in Hx. lia.
Qed.

(** What is gone stays gone until it is named again. *)
Lemma gone_step s objects dns gvk ns n :
  let k := (gvkString gvk, namespaceLabel ns, n) in
  let s' := step start s (Reconciled objects dns) in
  recorders_ok (ms_tracker s) → Ok (gvk, ns, n) ∉ recordKey dns <$> objects →
  tracked (ms_tracker s) gvk ns n = None → ms_gauge s !! k = None →
  tracked (ms_tracker s') gvk ns n = None ∧ ms_gauge s' !! k = None.
Proof.
  destruct s as [ot gauge]. cbn [step ms_tracker ms_gauge]. cbv zeta. intros Hok Hk Htr Hg.
  pose proof (addIfNotPresent_spec start objects dns ot gauge) as Hspec. cbv zeta in Hspec.
  destruct (addIfNotPresent start objects dns ot gauge) as [[ot' gauge'] errs].
  cbn [fst snd ms_tracker ms_gauge] in *. destruct Hspec as (_ & _ & _ & Aout & Ag).
  rewrite (Aout gvk ns n Hk), Htr. simpl. split; [by case_decide|].
  destruct (gauge' !! _) as [v|] eqn:Eg; [|done]. exfalso.
  destruct (Ag Hok (gvkString gvk, namespaceLabel ns, n)) as [Hsame _]; [by eexists|]. congruence.
Qed.

Lemma reconciled_frame s objects dns :
  let s' := step start s (Reconciled objects dns) in
  metricsDuration (ms_tracker s') = metricsDuration (ms_tracker s)
  ∧ (recorders_ok (ms_tracker s) → recorders_ok (ms_tracker s')).
Proof.
  destruct s as [ot gauge]. cbn [step ms_tracker]. cbv zeta.
  pose proof (addIfNotPresent_spec start objects dns ot gauge) as Hspec. cbv zeta in Hspec.
  destruct (addIfNotPresent start objects dns ot gauge) as [[ot' gauge'] errs].
  cbn [fst snd ms_tracker] in *. tauto.
Qed.
End run_lemmas.

(* ------------------------------------------------------------------ *)
(** ** Properties *)

(** No gauge series is leaked: after any sequence of reconciliations, watch
    events and changes of the duration, every series of the managed-objects
    gauge belongs to an object the tracker still has. *)
Theorem gauge_series_tracked `{RangeOrder, RESTMapper} (start : GroupVersionKind → option error)
    (actions : list action) (k : labelValues) :
  is_Some (ms_gauge (run start actions) !! k) →
  ∃ gvk ns n, is_Some (tracked (ms_tracker (run start actions)) gvk ns n)
    ∧ k = (gvkString gvk, namespaceLabel ns, n).
Proof.
  revert k. assert (gauge_ok (run start actions)) as [_ Hg]; [|done].
  unfold run. induction actions as [|a actions IH] using rev_ind.
  - split; cbn; [by intros gvk t; cbn; intros ?%lookup_empty_Some|]. by intros k [v ?%lookup_empty_Some].
  - rewrite foldl_app. by apply step_gauge_ok.
Qed.

(** An object in the manifest is never dropped: after a reconciliation,
    every object of it whose kind has a mapping is tracked and not marked
    deleted, whatever was recorded before and however short the duration. *)
Theorem reconciled_is_live `{RangeOrder, RESTMapper} (start : GroupVersionKind → option error)
    (s : metricsState) (objects : list Object) (dns : string) (object : Object) gvk ns n :
  object ∈ objects → recordKey dns object = Ok (gvk, ns, n) →
  ∃ c, tracked (ms_tracker (step start s (Reconciled objects dns))) gvk ns n = Some c
    ∧ deleted c = false.
Proof.
  intros Hin Hk. destruct s as [ot gauge]. cbn [step].
  pose proof (addIfNotPresent_spec start objects dns ot gauge) as Hspec. cbv zeta in Hspec.
  destruct (addIfNotPresent start objects dns ot gauge) as [[ot' gauge'] errs].
  cbn [fst snd ms_tracker] in *. destruct Hspec as (_ & _ & Ain & _ & _).
  rewrite Ain by (apply list_elem_of_fmap; by exists object). eexists. split; [done|].
  destruct (tracked ot gvk ns n) as [c|]; [|done]. simpl. unfold resetCounter. by destruct (deleted c) eqn:E.
Qed.

(** C35. A deleted object is kept for exactly the configured number of
    reconciliations. Starting with an object marked deleted with count [c] and
    a duration [d > 0], after reconciliations that do not name it: it is kept,
    aged by their number, while [c] plus that number is below [d], and from
    then on it is gone, with its gauge series. *)
Theorem deleted_retention `{RangeOrder, RESTMapper} (start : GroupVersionKind → option error)
    (s : metricsState) (calls : list (list Object * string)) gvk ns n (c : Z) :
  recorders_ok (ms_tracker s) →
  0 < metricsDuration (ms_tracker s) →
  tracked (ms_tracker s) gvk ns n = Some (mkCounter c true) →
  Forall (λ call, Ok (gvk, ns, n) ∉ recordKey call.2 <$> call.1) calls → calls ≠ [] →
  let s' := foldl (λ s call, step start s (Reconciled call.1 call.2)) s calls in
  let age := c + Z.of_nat (length calls) in
  (age < metricsDuration (ms_tracker s) →
     tracked (ms_tracker s') gvk ns n = Some (mkCounter age true))
  ∧ (metricsDuration (ms_tracker s) <= age →
     tracked (ms_tracker s') gvk ns n = None
     ∧ ms_gauge s' !! (gvkString gvk, namespaceLabel ns, n) = None).
Proof.
  revert s c. induction calls as [|[objects dns] calls IH]; [done|].
  intros s c Hok Hd Htr [Hcall Hcalls]%Forall_cons_1 _. cbn [fst snd] in Hcall.
  cbv zeta. cbn [foldl fst snd length].
  destruct (reconciled_frame start s objects dns) as [Hd' Hok'].
  destruct (aging_step start s objects dns gvk ns n c Hok Hd Hcall Htr) as [Hkeep Hgone].
  set (s1 := step start s (Reconciled objects dns)) in *. cbv zeta in *.
  set (d := metricsDuration (ms_tracker s)) in *.
  destruct (decide (c + 1 < d)) as [Hlt|Hge].
  - destruct calls as [|call calls]; [simpl; split; [by auto|lia]|].
    destruct (IH s1 (c + 1)) as [K G]; [auto|lia|auto|done|done|]. rewrite Hd' in *.
    replace (c + Z.of_nat (S (length (call :: calls)))) with (c + 1 + Z.of_nat (length (call :: calls)))
      by lia. done.
  - split; [lia|]. intros _. destruct (Hgone ltac:(lia)) as [Ht Hg]. specialize (Hok' Hok).
    clear -Hok' Ht Hg Hcalls. revert Hok' Ht Hg. generalize s1. clear s1.
    induction Hcalls as [|[objects' dns'] calls Hcall _ IH]; intros s1 Hok Ht Hg; [done|].
    cbn [foldl fst snd] in *. destruct (gone_step start s1 objects' dns' gvk ns n Hok Hcall Ht Hg).
    apply IH; [by apply reconciled_frame|done|done].
Qed.

(** An object that names its own namespace is recorded under the other
    one. When the default namespace is set, a namespaced object of a different
    namespace is recorded under the default; a first reconciliation followed by
    the creation of the object leaves no gauge series for it. *)
Theorem explicit_namespace_not_recorded `{RangeOrder, RESTMapper}
    (start : GroupVersionKind → option error) (object : Object) (dns : string) :
  namespaced (o_gvk object) = Ok true → dns ≠ "" → o_namespace object ≠ "" →
  dns ≠ o_namespace object →
  let s := run start [Reconciled [object] dns;
                      Created (o_gvk object) (mkNN (o_namespace object) (o_name object))] in
  ms_gauge s = ∅ ∧ is_Some (tracked (ms_tracker s) (o_gvk object) dns (o_name object)).
Proof.
  intros Hns Hdns Hobj Hne. cbv zeta. unfold run. cbn [foldl].
  set (s0 := mkMetrics NewObjectTracker ∅).
  destruct (reconciled_frame start s0 [object] dns) as [_ Hok].
  assert (recordKey dns object = Ok (o_gvk object, dns, o_name object)) as Hkey.
  { unfold recordKey. rewrite Hns. cbn [mbind res_bind].
    rewrite (decide_True (P := dns ≠ "")) by done. cbn [recordedNamespace].
    by rewrite (decide_False (P := dns = "")) by done. }
  pose proof (addIfNotPresent_spec start [object] dns NewObjectTracker ∅) as Hspec. cbv zeta in Hspec.
  unfold s0. cbn [step].
  assert (∃ t, trackedGVK (addIfNotPresent start [object] dns NewObjectTracker ∅).1.1 !! o_gvk object
    = Some t ∧ gt_namespaced t = true) as (t & Ht & Htn).
  { unfold addIfNotPresent. cbn [foldl addObject]. rewrite Hns. cbn [recordedNamespace].
    rewrite (decide_True (P := dns ≠ "")), (decide_False (P := dns = "")) by done.
    cbn [trackedGVK NewObjectTracker]. rewrite lookup_empty.
    unfold ot_deleteMetricsIfNeeded, ot_inc. cbn [metricsDuration trackedGVK fst snd].
    rewrite (decide_False (P := 0 > 0)) by lia. cbn [fst trackedGVK]. rewrite lookup_fmap, lookup_insert_eq.
    by eexists. }
  destruct (addIfNotPresent start [object] dns NewObjectTracker ∅) as [[ot gauge] errs].
  cbn [fst snd] in *. destruct Hspec as (_ & Aok & Ain & Aout & Ag).
  assert (gauge = ∅) as ->.
  { apply map_empty. intros k. destruct (gauge !! k) eqn:E; [|done].
    destruct (Ag ltac:(by intros gvk t'; cbn; intros ?%lookup_empty_Some) k) as [Hs _]; [by eexists|].
    by rewrite lookup_empty, E in Hs. }
  cbn [step]. rewrite Ht. cbn [ms_tracker ms_gauge]. split.
  - unfold trigger_Create, eventNamespace. cbn [nn_Namespace nn_Name]. rewrite Htn, decide_False by done.
    rewrite items_has_item, bool_decide_eq_false_2; [done|]. apply eq_None_not_Some.
    transitivity (tracked ot (o_gvk object) (o_namespace object) (o_name object));
      [unfold tracked; by rewrite Ht|].
    rewrite Aout; [unfold tracked; cbn; rewrite lookup_empty; by case_decide|]. cbn. rewrite Hkey. set_solver.
  - rewrite Ain; [by eexists|]. cbn. rewrite Hkey. set_solver.
Qed.

(* ------------------------------------------------------------------ *)
(** ** A concrete tracker *)

Definition example_object : Object :=
  mkObject (mkGVK "apps" "v1" "Deployment") "prod" "web" "" ∅ ∅ "".
Definition example_start : GroupVersionKind → option error := λ _, None.

(** Recorded, created and then deleted, with a duration of two. *)
Definition example_deleted : metricsState :=
  @run canonical_range example_mapper example_start
    [DurationSet 2; Reconciled [example_object] "";
     Created (o_gvk example_object) (mkNN "prod" "web");
     Deleted (o_gvk example_object) (mkNN "prod" "web")].

Lemma gauge_series_tracked_witness :
  ∃ gvk ns n, is_Some (tracked (ms_tracker example_deleted) gvk ns n)
    ∧ ("apps/v1/Deployment", "prod", "web") = (gvkString gvk, namespaceLabel ns, n).
Proof.
  apply (@gauge_series_tracked canonical_range example_mapper example_start).
  apply (bool_decide_unpack _). vm_compute. exact I.
Defined.

Lemma reconciled_is_live_witness :
  ∃ c, tracked (ms_tracker (@step canonical_range example_mapper example_start example_deleted
         (Reconciled [example_object] ""))) (o_gvk example_object) "prod" "web" = Some c
    ∧ deleted c = false.
Proof.
  apply (@reconciled_is_live canonical_range example_mapper example_start example_deleted
    [example_object] "" example_object); [by constructor|reflexivity].
Defined.

Lemma deleted_retention_witness :
  let once := @step canonical_range example_mapper example_start example_deleted (Reconciled [] "") in
  let twice := @step canonical_range example_mapper example_start once (Reconciled [] "") in
  tracked (ms_tracker once) (o_gvk example_object) "prod" "web" = Some (mkCounter 1 true)
  ∧ tracked (ms_tracker twice) (o_gvk example_object) "prod" "web" = None.
Proof.
  assert (recorders_ok (ms_tracker example_deleted)) as Hok.
  { intros gvk t Ht. assert (gvk = o_gvk example_object) as ->.
    { apply elem_of_dom_2 in Ht. revert Ht.
      assert (dom (trackedGVK (ms_tracker example_deleted)) = {[o_gvk example_object]}) as ->
        by (vm_compute; reflexivity). by intros ?%elem_of_singleton. }
    revert Ht. vm_compute. by intros [= <-]. }
  split.
  - apply (@deleted_retention canonical_range example_mapper example_start example_deleted
      [([], "")] (o_gvk example_object) "prod" "web" 0); [done|vm_compute; reflexivity
      |vm_compute; reflexivity|repeat constructor; by apply not_elem_of_nil|done|].
    vm_compute. reflexivity.
  - apply (@deleted_retention canonical_range example_mapper example_start example_deleted
      [([], ""); ([], "")] (o_gvk example_object) "prod" "web" 0); [done|vm_compute; reflexivity
      |vm_compute; reflexivity|repeat constructor; by apply not_elem_of_nil|done|].
    vm_compute. discriminate.
Defined.

Lemma explicit_namespace_not_recorded_witness :
  ms_gauge (@run canonical_range example_mapper example_start
    [Reconciled [example_object] "default"; Created (o_gvk example_object) (mkNN "prod" "web")]) = ∅.
Proof.
  apply (@explicit_namespace_not_recorded canonical_range example_mapper example_start
    example_object "default"); [reflexivity|done..].
Defined.

End metrics.
