(* ===== verification/Manifest.v ===== *)
(** * Manifest objects (pkg/patterns/declarative/pkg/manifest)

    [objects.go] and [patch.go]: an [Object] wraps an unstructured object and
    caches its group, kind, name, namespace and JSON text; [Objects] is a
    collection of them, which can be parsed from documents, sorted and patched.
    The [unstructured] package is a parameter with the laws it documents; the
    functions of this package that walk nested maps themselves are definitions
    on JSON values. *)

From S2P Require Import Prelude Kube.
From Stdlib Require Import Qcanon.
From stdpp Require Import options.

Module manifest.

(** A value of type [interface{}] as decoded from JSON: an integer is an int64
    or, from encoding/json, a float64 like every other number. *)
#[warnings="-register-all"]
Inductive json :=
  | JNull
  | JBool (b : bool)
  | JNum (n : Z)
  | JFloat (fl : Qc)
  | JStr (s : string)
  | JArr (l : list json)
  | JObj (m : gmap string json).

Abbreviation jmap := (gmap string json).

(** ** Nested fields *)

(** nestedFieldNoCopy: [None] for a field that is not there, an error for a
    step through something that is not a map. *)
Fixpoint nestedField (val : json) (fields : list string) : res (option json) :=
  match fields with
  | [] => Ok (Some val)
  | field :: fields =>
      match val with
      | JObj m =>
          match m !! field with
          | None => Ok None
          | Some val => nestedField val fields
          end
      | _ => Err (Errorf "accessor error: expected map[string]interface{}")
      end
  end.

Definition nestedFieldNoCopy (obj : jmap) (fields : list string) : res (option json) :=
  nestedField (JObj obj) fields.

(** SetNestedFieldNoCopy on the map: intermediate maps are created; a step
    through something else is an error, and leaves the maps created so far. *)
Fixpoint setNestedField (m : jmap) (value : json) (fields : list string) : jmap * option error :=
  match fields with
  | [] => (m, Some (Errorf "index out of range"))
  | [field] => (<[field := value]> m, None)
  | field :: fields =>
      match m !! field with
      | Some (JObj m') =>
          let '(m', err) := setNestedField m' value fields in (<[field := JObj m']> m, err)
      | Some _ => (m, Some (Errorf "value cannot be set because it is not a map"))
      | None =>
          let '(m', err) := setNestedField ∅ value fields in (<[field := JObj m']> m, err)
      end
  end.

(** Replacing the value at a path that exists: what mutating a map or the
    elements of a slice reached by [nestedFieldNoCopy] does to the object. *)
Fixpoint replaceField (m : jmap) (value : json) (fields : list string) : jmap :=
  match fields with
  | [] => m
  | [field] => <[field := value]> m
  | field :: fields =>
      match m !! field with
      | Some (JObj m') => <[field := JObj (replaceField m' value fields)]> m
      | _ => m
      end
  end.

(** ** The unstructured package *)

Class Unstructured := {
  u_GVK : jmap → GroupVersionKind;
  u_GetKind : jmap → string;
  u_GetName : jmap → string;
  u_GetNamespace : jmap → string;
  u_GetLabels : jmap → gmap string string;
  u_SetLabels : jmap → gmap string string → jmap;
  u_GetAnnotations : jmap → gmap string string;
  u_SetAnnotations : jmap → gmap string string → jmap;
  u_SetNestedField : jmap → json → list string → jmap * option error;
  u_SetNestedStringMap : jmap → gmap string string → list string → jmap * option error;
  u_NestedStringMap : jmap → list string → res (option (gmap string string));
  u_NestedString : jmap → list string → res (option string);
  u_NestedMap : jmap → list string → res (option jmap);
  u_NestedSlice : jmap → list string → res (option (list json));
  u_MarshalJSON : jmap → res string;
  u_Decode : string → res jmap
}.

(** Two paths part ways at some field. *)
Fixpoint diverge (fs gs : list string) : Prop :=
  match fs, gs with
  | f :: fs, g :: gs => f ≠ g ∨ diverge fs gs
  | _, _ => False
  end.

(** The labels and annotations can be written: the metadata is a map, or there
    is none yet. The setters of the package ignore the error they get on any
    other metadata, and leave the object as it was. *)
Definition metadata_writable (m : jmap) : Prop :=
  nestedFieldNoCopy m ["metadata"] = Ok None
  ∨ ∃ x, nestedFieldNoCopy m ["metadata"] = Ok (Some (JObj x)).

(** What the package documents: a field that was set reads back and leaves the
    fields beside it and the identity of the object alone, a set through a map
    or a missing field succeeds, labels and annotations read back where the
    metadata can hold them, and a nested string is the string found. *)
Record unstructured_ok (U : Unstructured) : Prop := {
  u_ok_name m v m' : u_SetNestedField m (JStr v) ["metadata"; "name"] = (m', None) →
    u_GetName m' = v ∧ u_GetNamespace m' = u_GetNamespace m ∧ u_GVK m' = u_GVK m;
  u_ok_namespace m v m' : u_SetNestedField m (JStr v) ["metadata"; "namespace"] = (m', None) →
    u_GetNamespace m' = v ∧ u_GetName m' = u_GetName m ∧ u_GVK m' = u_GVK m;
  u_ok_labels m l : (metadata_writable m → u_GetLabels (u_SetLabels m l) = l)
    ∧ u_GetName (u_SetLabels m l) = u_GetName m
    ∧ u_GetNamespace (u_SetLabels m l) = u_GetNamespace m
    ∧ u_GVK (u_SetLabels m l) = u_GVK m
    ∧ u_GetAnnotations (u_SetLabels m l) = u_GetAnnotations m;
  u_ok_annotations m l : (metadata_writable m → u_GetAnnotations (u_SetAnnotations m l) = l)
    ∧ u_GetName (u_SetAnnotations m l) = u_GetName m
    ∧ u_GetNamespace (u_SetAnnotations m l) = u_GetNamespace m
    ∧ u_GVK (u_SetAnnotations m l) = u_GVK m
    ∧ u_GetLabels (u_SetAnnotations m l) = u_GetLabels m;
  u_ok_field m v fs m' : u_SetNestedField m v fs = (m', None) →
    nestedFieldNoCopy m' fs = Ok (Some v)
    ∧ ∀ gs, diverge fs gs → nestedFieldNoCopy m' gs = nestedFieldNoCopy m gs;
  u_ok_string m fs : u_NestedString m fs =
    match nestedFieldNoCopy m fs with
    | Ok (Some (JStr s)) => Ok (Some s)
    | Ok None => Ok None
    | Ok (Some _) => Err (Errorf "accessor error: expected string")
    | Err e => Err e
    end;
  u_ok_map m fs : u_NestedMap m fs =
    match nestedFieldNoCopy m fs with
    | Ok (Some (JObj x)) => Ok (Some x)
    | Ok None => Ok None
    | Ok (Some _) => Err (Errorf "accessor error: expected map")
    | Err e => Err e
    end;
  u_ok_set m v f g : nestedFieldNoCopy m [f] = Ok None ∨
      (∃ x, nestedFieldNoCopy m [f] = Ok (Some (JObj x))) →
    ∃ m', u_SetNestedField m v [f; g] = (m', None);
  u_ok_gvk m m' : nestedFieldNoCopy m ["apiVersion"] = nestedFieldNoCopy m' ["apiVersion"] →
    nestedFieldNoCopy m ["kind"] = nestedFieldNoCopy m' ["kind"] → u_GVK m = u_GVK m';
  u_ok_kind m : u_GetKind m =
    match nestedFieldNoCopy m ["kind"] with Ok (Some (JStr s)) => s | _ => "" end
}.

(** The scheme's answer and the patch packages, on JSON texts. *)
Inductive schemeAnswer :=
  | NotRegistered
  | SchemeErr (e : error)
  | Versioned (schema : string).

Record patchLibs := {
  Scheme_New : Kube.GroupVersionKind → schemeAnswer;
  JSONMergePatch : string → string → res string;
  StrategicMergePatch : string → string → string → res string
}.

(** ** Object *)

Record Object := mkObj {
  obj_object : jmap;
  obj_Group : string;
  obj_Version : string;
  obj_Kind : string;
  obj_name : string;
  obj_namespace : string;
  obj_json : option string
}.

Record Objects := mkObjects {
  Items : list Object;
  Blobs : list string;
  Path : string
}.

(** GetItems of a possibly nil pointer. *)
Definition GetItems (o : option Objects) : list Object :=
  match o with None => [] | Some o => Items o end.

(** The object's content replaced and the cached JSON dropped. *)
Definition with_object (o : Object) (m : jmap) : Object :=
  mkObj m (obj_Group o) (obj_Version o) (obj_Kind o) (obj_name o) (obj_namespace o) None.

Section object.
Context `{Unstructured}.

(** newObject leaves the Version field empty. *)
Definition newObject (u : jmap) (j : option string) : Object :=
  let gvk := u_GVK u in
  mkObj u (gvk_Group gvk) "" (gvk_Kind gvk) (u_GetName u) (u_GetNamespace u) j.

Definition NewObject (u : jmap) : Object := newObject u None.

Definition ParseJSONToObject (text : string) : res Object :=
  u ← wrapV "error parsing json into unstructured object" (u_Decode text);
  let gvk := u_GVK u in
  Ok (mkObj u (gvk_Group gvk) (gvk_Version gvk) (gvk_Kind gvk) (u_GetName u) (u_GetNamespace u)
        (Some text)).

Definition AddLabels (labels : gmap string string) (o : Object) : Object :=
  let merged := merge_into (u_GetLabels (obj_object o)) ∅ in
  let merged := merge_into labels merged in
  with_object o (u_SetLabels (obj_object o) merged).

Definition AddAnnotations (annotations : gmap string string) (o : Object) : Object :=
  let merged := merge_into (u_GetAnnotations (obj_object o)) ∅ in
  let merged := merge_into annotations merged in
  with_object o (u_SetAnnotations (obj_object o) merged).

Definition GetNamespace (o : Object) : string := obj_namespace o.
Definition GetName (o : Object) : string := obj_name o.

Definition SetNestedField (value : json) (fields : list string) (o : Object) :
    Object * option error :=
  let '(m, err) := u_SetNestedField (obj_object o) value fields in (with_object o m, err).

Definition SetNestedSlice (value : list json) (fields : list string) (o : Object) :
    Object * option error :=
  let '(m, err) := u_SetNestedField (obj_object o) (JArr value) fields in (with_object o m, err).

Definition SetNestedStringMap (value : gmap string string) (fields : list string) (o : Object) :
    Object * option error :=
  let '(m, err) := u_SetNestedStringMap (obj_object o) value fields in (with_object o m, err).

Definition NestedStringMap (fields : list string) (o : Object) :
    res (option (gmap string string)) :=
  u_NestedStringMap (obj_object o) fields.

(** The early return on an error keeps the cached JSON. *)
Definition SetNestedFieldNoCopy (value : json) (fields : list string) (o : Object) :
    Object * option error :=
  let '(m, err) := setNestedField (obj_object o) value fields in
  match err with
  | Some e => (mkObj m (obj_Group o) (obj_Version o) (obj_Kind o) (obj_name o) (obj_namespace o)
                 (obj_json o), Some e)
  | None => (with_object o m, None)
  end.

Definition SetNamespace (ns : string) (o : Object) : Object * option error :=
  let '(o, err) := SetNestedField (JStr ns) ["metadata"; "namespace"] o in
  match err with
  | Some e => (o, Some (WrapW "failed to set namespace" e))
  | None => (mkObj (obj_object o) (obj_Group o) (obj_Version o) (obj_Kind o) (obj_name o) ns
               (obj_json o), None)
  end.

Definition SetName (name : string) (o : Object) : Object * option error :=
  let '(o, err) := SetNestedField (JStr name) ["metadata"; "name"] o in
  match err with
  | Some e => (o, Some (WrapW "failed to set name" e))
  | None => (mkObj (obj_object o) (obj_Group o) (obj_Version o) (obj_Kind o) name (obj_namespace o)
               (obj_json o), None)
  end.

Definition podSpecPath (o : Object) : list string :=
  if decide (u_GetKind (obj_object o) = "CronJob")
  then ["spec"; "jobTemplate"; "spec"; "template"; "spec"]
  else ["spec"; "template"; "spec"].

(** The loop of MutateContainers: the containers are maps, changed in place;
    the elements after a failure are as they were. *)
Fixpoint mutateList (fn : jmap → res jmap) (l : list json) : list json * option error :=
  match l with
  | [] => ([], None)
  | JObj container :: l =>
      match fn container with
      | Err e => (JObj container :: l, Some e)
      | Ok container =>
          let '(l, err) := mutateList fn l in (JObj container :: l, err)
      end
  | co :: l => (co :: l, Some (Errorf "container was not an object"))
  end.

(** MutateContainers runs [fn] on the containers, then on the init containers.
    An error returns before the cached JSON is dropped. *)
Definition MutateContainers (fn : jmap → res jmap) (o : Object) : Object * option error :=
  let stale m := mkObj m (obj_Group o) (obj_Version o) (obj_Kind o) (obj_name o)
                   (obj_namespace o) (obj_json o) in
  let path := podSpecPath o in
  let containersPath := path ++ ["containers"] in
  let initContainersPath := path ++ ["initContainers"] in
  match nestedFieldNoCopy (obj_object o) containersPath with
  | Err e => (o, Some (WrapV "error reading containers" e))
  | Ok None => (o, Some (Errorf "containers not found"))
  | Ok (Some (JArr containerList)) =>
      match nestedFieldNoCopy (obj_object o) initContainersPath with
      | Err e => (o, Some (WrapV "error reading init containers" e))
      | Ok None =>
          let '(l, err) := mutateList fn containerList in
          let m := replaceField (obj_object o) (JArr l) containersPath in
          match err with Some e => (stale m, Some e) | None => (with_object o m, None) end
      | Ok (Some (JArr initContainerList)) =>
          let '(l, err) := mutateList fn (containerList ++ initContainerList) in
          let m := replaceField (obj_object o) (JArr (take (length containerList) l)) containersPath in
          let m := replaceField m (JArr (drop (length containerList) l)) initContainersPath in
          match err with Some e => (stale m, Some e) | None => (with_object o m, None) end
      | Ok (Some _) => (o, Some (Errorf "init containers was not a list"))
      end
  | Ok (Some _) => (o, Some (Errorf "containers was not a list"))
  end.

Definition MutatePodSpec (fn : jmap → res jmap) (o : Object) : Object * option error :=
  match nestedFieldNoCopy (obj_object o) (podSpecPath o) with
  | Err e => (o, Some (WrapV "error reading containers" e))
  | Ok None => (o, Some (Errorf "pod spec not found"))
  | Ok (Some (JObj podSpec)) =>
      match fn podSpec with
      | Err e => (o, Some e)
      | Ok podSpec =>
          (with_object o (replaceField (obj_object o) (JObj podSpec) (podSpecPath o)), None)
      end
  | Ok (Some _) => (o, Some (Errorf "pod spec was not an object"))
  end.

(** JSON remembers the text it computes. *)
Definition JSON (o : Object) : Object * res string :=
  match obj_json o with
  | Some b => (o, Ok b)
  | None =>
      match u_MarshalJSON (obj_object o) with
      | Err e => (o, Err e)
      | Ok b => (mkObj (obj_object o) (obj_Group o) (obj_Version o) (obj_Kind o) (obj_name o)
                   (obj_namespace o) (Some b), Ok b)
      end
  end.

Definition GroupVersionKind (o : Object) : Kube.GroupVersionKind := u_GVK (obj_object o).
Definition GroupKind (o : Object) : Kube.GroupKind := GVK_GroupKind (u_GVK (obj_object o)).
Definition NamespacedName (o : Object) : Kube.NamespacedName := mkNN (GetNamespace o) (GetName o).

(** ** Objects *)

(** JSONManifest: the texts, two newlines between them. *)
Definition newline : string := String (ascii_of_nat 10) "".

Definition JSONManifest (o : Objects) : res string :=
  texts ← wrapV "error building json" (res_mapM (λ item, snd (JSON item)) (Items o));
  Ok (strings.Join texts (newline +:+ newline)).

(** The comparison Sort hands to [sort.Slice]: by score, group, kind, name. *)
Definition less (score : Object → Z) (x y : Object) : bool :=
  (score x <? score y)%Z
  || ((score x =? score y)%Z && string_lt (obj_Group x) (obj_Group y))
  || ((score x =? score y)%Z && bool_decide (obj_Group x = obj_Group y)
      && string_lt (obj_Kind x) (obj_Kind y))
  || ((score x =? score y)%Z && bool_decide (obj_Group x = obj_Group y)
      && bool_decide (obj_Kind x = obj_Kind y) && string_lt (obj_name x) (obj_name y)).

(** [sort.Slice] is not stable: any rearrangement in which no item comes after
    one that it is less than may be its result. *)
Definition Sort (score : Object → Z) (o o' : Objects) : Prop :=
  Items o ≡ₚ Items o' ∧ StronglySorted (λ x y, less score y x = false) (Items o')
  ∧ Blobs o' = Blobs o ∧ Path o' = Path o.

(** ParseObjects, on the documents the YAML reader cuts the text into; a
    reader error ends the parse. [trimmed] documents have had
    [bytes.TrimSpace] applied; an undecodable document is kept as a blob. *)
Inductive rawDocument :=
  | RawDoc (trimmed : string)
  | ReadError (e : error).

Definition blobOf (raw : string) : string :=
  strings.TrimPrefix raw ("---" +:+ newline) +:+ newline.

Fixpoint ParseObjects (Unmarshal : string → res jmap) (docs : list rawDocument)
    (objects : Objects) : res Objects :=
  match docs with
  | [] => Ok objects
  | ReadError e :: _ => Err (WrapW "invalid YAML doc" e)
  | RawDoc raw :: docs =>
      let '(out, objects) :=
        match Unmarshal raw with
        | Ok out => (out, objects)
        | Err _ => (∅, mkObjects (Items objects) (Blobs objects ++ [blobOf raw]) (Path objects))
        end in
      if decide (raw = "" ∨ raw = "null" ∨ size out = 0%nat)
      then ParseObjects Unmarshal docs objects
      else ParseObjects Unmarshal docs
             (mkObjects (Items objects ++ [NewObject out]) (Blobs objects) (Path objects))
  end.

(** ** patch.go *)

(** A patch is for the object with its group, version, kind, name and
    namespace. *)
Definition patch_applies (base p : jmap) : bool :=
  bool_decide (u_GVK p = u_GVK base)
  && bool_decide (u_GetName p = u_GetName base)
  && bool_decide (u_GetNamespace p = u_GetNamespace base).

(** One merge: a JSON merge patch for a kind the scheme does not know, a
    strategic merge patch for one it knows, on the encoded objects. *)
Definition mergePatch (L : patchLibs) (base merged p : jmap) : res jmap :=
  match Scheme_New L (u_GVK base) with
  | NotRegistered =>
      baseBytes ← u_MarshalJSON merged;
      patchBytes ← u_MarshalJSON p;
      mergedBytes ← JSONMergePatch L baseBytes patchBytes;
      u_Decode mergedBytes
  | SchemeErr e => Err e
  | Versioned schema =>
      baseBytes ← u_MarshalJSON merged;
      patchBytes ← u_MarshalJSON p;
      mergedBytes ← StrategicMergePatch L baseBytes patchBytes schema;
      u_Decode mergedBytes
  end.

Context (L : patchLibs).

Fixpoint applyPatches (base merged : jmap) (patches : list jmap) : res jmap :=
  match patches with
  | [] => Ok merged
  | p :: patches =>
      if patch_applies base p
      then merged ← mergePatch L base merged p; applyPatches base merged patches
      else applyPatches base merged patches
  end.

Definition apply (base : jmap) (patches : list jmap) : res jmap := applyPatches base base patches.

(** Patch replaces the items one by one; an error leaves the items before it
    replaced. *)
Fixpoint patchItems (patches : list jmap) (items : list Object) : list Object * option error :=
  match items with
  | [] => ([], None)
  | o :: items =>
      match apply (obj_object o) patches with
      | Err e => (o :: items, Some (WrapV "applying patch to object" e))
      | Ok patched =>
          let '(items, err) := patchItems patches items in (NewObject patched :: items, err)
      end
  end.

Definition Patch (patches : list jmap) (objects : Objects) : Objects * option error :=
  match patches with
  | [] => (objects, None)
  | _ => let '(items, err) := patchItems patches (Items objects) in
         (mkObjects items (Blobs objects) (Path objects), err)
  end.
End object.

(* ------------------------------------------------------------------ *)
(** ** Nested fields *)

Lemma nestedField_empty gs : gs ≠ [] → nestedField (JObj ∅) gs = Ok None.
Proof. destruct gs as [|g gs]; [done|]. intros _. simpl. by rewrite lookup_empty. Qed.

(** One step of each walk, for a path of at least two fields. *)
Lemma setNested_cons m v f f' fs :
  setNestedField m v (f :: f' :: fs) =
    match m !! f with
    | Some (JObj m') =>
        let '(m', err) := setNestedField m' v (f' :: fs) in (<[f := JObj m']> m, err)
    | Some _ => (m, Some (Errorf "value cannot be set because it is not a map"))
    | None => let '(m', err) := setNestedField ∅ v (f' :: fs) in (<[f := JObj m']> m, err)
    end.
Proof. done. Qed.
Lemma replace_cons m v f f' fs :
  replaceField m v (f :: f' :: fs) =
    match m !! f with
    | Some (JObj m') => <[f := JObj (replaceField m' v (f' :: fs))]> m
    | _ => m
    end.
Proof. done. Qed.
Lemma nested_cons m f fs :
  nestedField (JObj m) (f :: fs) =
    match m !! f with None => Ok None | Some val => nestedField val fs end.
Proof. done. Qed.

Lemma setNested_get m v fs m' :
  setNestedField m v fs = (m', None) → nestedFieldNoCopy m' fs = Ok (Some v).
Proof.
  unfold nestedFieldNoCopy. revert m m'; induction fs as [|f fs IH]; intros m m'; [done|].
  destruct fs as [|f' fs].
  { simpl. intros [= <-]. by rewrite lookup_insert_eq. }
  rewrite setNested_cons. destruct (m !! f) as [[| | | | | |m1]|]; try done.
  - destruct (setNestedField m1 v (f' :: fs)) as [m2 err] eqn:E. intros [= <- ->].
    rewrite nested_cons. rewrite lookup_insert_eq. by eapply IH.
  - destruct (setNestedField ∅ v (f' :: fs)) as [m2 err] eqn:E. intros [= <- ->].
    rewrite nested_cons. rewrite lookup_insert_eq. by eapply IH.
Qed.

Lemma setNested_frame m v fs m' gs :
  setNestedField m v fs = (m', None) → diverge fs gs →
  nestedFieldNoCopy m' gs = nestedFieldNoCopy m gs.
Proof.
  unfold nestedFieldNoCopy. revert m m' gs; induction fs as [|f fs IH]; intros m m' gs; [done|].
  destruct gs as [|g gs]; [done|]. destruct fs as [|f' fs].
  { simpl. intros [= <-] [Hne|[]]. by rewrite lookup_insert_ne. }
  rewrite setNested_cons. intros E [Hne|Hdiv].
  - destruct (m !! f) as [[| | | | | |m1]|]; try done;
      destruct (setNestedField _ v (f' :: fs)) as [m2 err]; simplify_eq;
      simpl; by rewrite lookup_insert_ne.
  - destruct (decide (f = g)) as [<-|Hne].
    2:{ destruct (m !! f) as [[| | | | | |m1]|]; try done;
          destruct (setNestedField _ v (f' :: fs)) as [m2 err]; simplify_eq;
          simpl; by rewrite lookup_insert_ne. }
    rewrite !nested_cons. destruct (m !! f) as [[| | | | | |m1]|] eqn:Em; try done.
    + destruct (setNestedField m1 v (f' :: fs)) as [m2 err] eqn:Es. injection E as <- ->.
      rewrite lookup_insert_eq. by eapply IH.
    + destruct (setNestedField ∅ v (f' :: fs)) as [m2 err] eqn:Es. injection E as <- ->.
      rewrite lookup_insert_eq. rewrite (IH _ _ _ Es Hdiv). apply nestedField_empty. by destruct gs.
Qed.

(** A failing set changes nothing. *)
Lemma setNested_error m v fs m' e : setNestedField m v fs = (m', Some e) → m' = m.
Proof.
  revert m m'; induction fs as [|f fs IH]; intros m m'; [by intros [= <- _]|].
  destruct fs as [|f' fs]; [done|]. rewrite setNested_cons.
  destruct (m !! f) as [[| | | | | |m1]|] eqn:Em; try (by intros [= <- _]).
  - destruct (setNestedField m1 v (f' :: fs)) as [m2 err] eqn:Es. intros [= <- ->].
    apply IH in Es as ->. by rewrite insert_id.
  - destruct (setNestedField ∅ v (f' :: fs)) as [m2 err] eqn:Es. intros [= <- ->]. exfalso.
    clear -Es. revert m2 Es. generalize f'. induction fs as [|f fs IH]; intros f0 m2; [done|].
    rewrite setNested_cons. rewrite lookup_empty.
    destruct (setNestedField ∅ v (f :: fs)) as [m3 err] eqn:E. intros [= _ ->]. by eapply IH.
Qed.

Lemma replaceField_get m v fs x :
  fs ≠ [] → nestedFieldNoCopy m fs = Ok (Some x) →
  nestedFieldNoCopy (replaceField m v fs) fs = Ok (Some v).
Proof.
  unfold nestedFieldNoCopy. revert m; induction fs as [|f fs IH]; intros m; [done|]. intros _.
  destruct fs as [|f' fs]; [simpl; by rewrite lookup_insert_eq|].
  rewrite replace_cons, (nested_cons m). intros Hx. destruct (m !! f) as [[| | | | | |m1]|]; try done.
  rewrite (nested_cons (<[f:=_]> m)), lookup_insert_eq. by apply IH.
Qed.

Lemma replaceField_frame m v fs gs :
  diverge fs gs → nestedFieldNoCopy (replaceField m v fs) gs = nestedFieldNoCopy m gs.
Proof.
  unfold nestedFieldNoCopy. revert m gs; induction fs as [|f fs IH]; intros m gs; [done|].
  destruct gs as [|g gs]; [done|]. destruct fs as [|f' fs].
  { simpl. intros [Hne|[]]. by rewrite lookup_insert_ne. }
  rewrite replace_cons. intros Hdiv. destruct (m !! f) as [[| | | | | |m1]|] eqn:Em; try done.
  rewrite !nested_cons. destruct (decide (f = g)) as [<-|Hne]; [|by rewrite lookup_insert_ne].
  rewrite lookup_insert_eq, Em. apply IH. by destruct Hdiv.
Qed.

Lemma diverge_last path f g : f ≠ g → diverge (path ++ [f]) (path ++ [g]).
Proof. intros Hne. induction path as [|x path IH]; simpl; auto. Qed.

Lemma diverge_sym fs gs : diverge fs gs → diverge gs fs.
Proof. revert gs; induction fs as [|f fs IH]; intros [|g gs]; simpl; naive_solver. Qed.

(* ------------------------------------------------------------------ *)
(** ** What is cached *)

(** The text belongs to the content: it is the text the content marshals to, or
    the text the content was decoded from. *)
Definition text_of `{Unstructured} (m : jmap) (b : string) : Prop :=
  u_MarshalJSON m = Ok b ∨ u_Decode b = Ok m.

(** The cached text belongs to the object's content. *)
Definition json_fresh `{Unstructured} (o : Object) : Prop :=
  ∀ b, obj_json o = Some b → text_of (obj_object o) b.

(** The cached identity is the object's. *)
Definition identity_fresh `{Unstructured} (o : Object) : Prop :=
  obj_name o = u_GetName (obj_object o) ∧ obj_namespace o = u_GetNamespace (obj_object o)
  ∧ mkGK (obj_Group o) (obj_Kind o) = GVK_GroupKind (u_GVK (obj_object o)).

(** The objects a program gets by building one and calling its methods. The
    nested setters are here with any field; a failing MutateContainers is not. *)
Inductive built `{Unstructured} : Object → Prop :=
  | built_new u : built (NewObject u)
  | built_parse text o : ParseJSONToObject text = Ok o → built o
  | built_labels l o : built o → built (AddLabels l o)
  | built_annotations l o : built o → built (AddAnnotations l o)
  | built_name n o : built o → built (SetName n o).1
  | built_namespace n o : built o → built (SetNamespace n o).1
  | built_field v fs o : built o → built (SetNestedField v fs o).1
  | built_slice v fs o : built o → built (SetNestedSlice v fs o).1
  | built_stringmap v fs o : built o → built (SetNestedStringMap v fs o).1
  | built_nocopy v fs o : built o → built (SetNestedFieldNoCopy v fs o).1
  | built_containers fn o o' : built o → MutateContainers fn o = (o', None) → built o'
  | built_podspec fn o : built o → built (MutatePodSpec fn o).1
  | built_json o : built o → built (JSON o).1.

Section cache_lemmas.
Context `{U : Unstructured}.

Lemma json_fresh_None o : obj_json o = None → json_fresh o.
Proof. intros E b Hb. congruence. Qed.

Lemma SetNestedField_None v fs o : obj_json (SetNestedField v fs o).1 = None.
Proof. unfold SetNestedField. by destruct (u_SetNestedField _ _ _). Qed.

Lemma MutateContainers_None fn o o' : MutateContainers fn o = (o', None) → obj_json o' = None.
Proof.
  unfold MutateContainers. destruct (nestedFieldNoCopy _ _) as [[[]|]|]; try done.
  destruct (nestedFieldNoCopy _ _) as [[[]|]|]; try done.
  - destruct (mutateList _ _) as [l' [e|]]; [done|]. by intros [= <-].
  - destruct (mutateList _ _) as [l' [e|]]; [done|]. by intros [= <-].
Qed.

Lemma built_json_fresh o : built o → json_fresh o.
Proof.
  induction 1 as [u|text o Hp|l o _ IH|l o _ IH|n o _ IH|n o _ IH|v fs o _ IH|v fs o _ IH
    |v fs o _ IH|v fs o _ IH|fn o o' _ IH Hm|fn o _ IH|o _ IH]; try (by apply json_fresh_None).
  - unfold ParseJSONToObject in Hp. apply bind_Ok in Hp as (u & Hu%wrapV_Ok & [= <-]).
    intros b. simpl. intros [= <-]. by right.
  - unfold SetName. pose proof (SetNestedField_None (JStr n) ["metadata"; "name"] o) as Hn.
    destruct (SetNestedField _ _ _) as [o' [e|]]; by apply json_fresh_None.
  - unfold SetNamespace. pose proof (SetNestedField_None (JStr n) ["metadata"; "namespace"] o) as Hn.
    destruct (SetNestedField _ _ _) as [o' [e|]]; by apply json_fresh_None.
  - by apply json_fresh_None, SetNestedField_None.
  - unfold SetNestedSlice. destruct (u_SetNestedField _ _ _). by apply json_fresh_None.
  - unfold SetNestedStringMap. destruct (u_SetNestedStringMap _ _ _). by apply json_fresh_None.
  - unfold SetNestedFieldNoCopy. destruct (setNestedField _ _ _) as [m [e|]] eqn:E;
      [|by apply json_fresh_None]. apply setNested_error in E as ->. intros b Hb. by apply IH.
  - by eapply json_fresh_None, MutateContainers_None.
  - unfold MutatePodSpec. destruct (nestedFieldNoCopy _ _) as [[[]|]|]; try done.
    destruct (fn _); [by apply json_fresh_None|done].
  - unfold JSON. destruct (obj_json o) eqn:E; [done|].
    destruct (u_MarshalJSON (obj_object o)) as [b|e] eqn:Em; [|done].
    intros b'. simpl. intros [= <-]. by left.
Qed.
End cache_lemmas.

(* ------------------------------------------------------------------ *)
(** ** Containers *)

Lemma mutateList_ok fn l l' :
  mutateList fn l = (l', None) →
  Forall2 (λ x y, ∃ c c', x = JObj c ∧ fn c = Ok c' ∧ y = JObj c') l l'.
Proof.
  revert l'; induction l as [|x l IH]; intros l'; cbn [mutateList]; [intros [= <-]; constructor|].
  destruct x as [| | | | | |c]; try done. destruct (fn c) as [c'|e] eqn:Ef; [|done].
  destruct (mutateList fn l) as [l0 err]. intros [= <- ->]. constructor; [by exists c, c'|by apply IH].
Qed.

(** What a successful MutateContainers reads and leaves at the two paths. *)
Lemma MutateContainers_lists `{Unstructured} (fn : jmap → res jmap) (o o' : Object) :
  MutateContainers fn o = (o', None) →
  ∃ cs cs', nestedFieldNoCopy (obj_object o) (podSpecPath o ++ ["containers"]) = Ok (Some (JArr cs))
    ∧ nestedFieldNoCopy (obj_object o') (podSpecPath o ++ ["containers"]) = Ok (Some (JArr cs'))
    ∧ Forall2 (λ x y, ∃ c c', x = JObj c ∧ fn c = Ok c' ∧ y = JObj c') cs cs'
    ∧ match nestedFieldNoCopy (obj_object o) (podSpecPath o ++ ["initContainers"]) with
      | Ok (Some (JArr ics)) => ∃ ics2,
          nestedFieldNoCopy (obj_object o') (podSpecPath o ++ ["initContainers"]) = Ok (Some (JArr ics2))
          ∧ Forall2 (λ x y, ∃ c c', x = JObj c ∧ fn c = Ok c' ∧ y = JObj c') ics ics2
      | Ok None => nestedFieldNoCopy (obj_object o') (podSpecPath o ++ ["initContainers"]) = Ok None
      | _ => False
      end.
Proof.
  set (cp := podSpecPath o ++ ["containers"]). set (ip := podSpecPath o ++ ["initContainers"]).
  assert (diverge cp ip) as Hdiv by (by apply diverge_last).
  assert (cp ≠ [] ∧ ip ≠ []) as [Hcp Hip]
    by (unfold cp, ip; split; intros [_ ?]%app_nil; done).
  unfold MutateContainers. fold cp ip.
  destruct (nestedFieldNoCopy (obj_object o) cp) as [[[| | | | |cs|]|]|] eqn:Ec; try done.
  destruct (nestedFieldNoCopy (obj_object o) ip) as [[[| | | | |ics|]|]|] eqn:Ei; try done.
  - destruct (mutateList fn (cs ++ ics)) as [l [e|]] eqn:Em; [done|]. intros [= <-].
    apply mutateList_ok in Em. apply Forall2_app_inv_l in Em as (cs' & ics2 & Hcs & His & ->).
    rewrite take_app_length', drop_app_length' by (by apply Forall2_length in Hcs).
    exists cs, cs'. cbn [with_object obj_object]. split; [done|]. split; [|split; [done|]].
    + rewrite replaceField_frame by (by apply diverge_sym). by eapply replaceField_get.
    + exists ics2. split; [|done]. eapply replaceField_get; [done|]. rewrite replaceField_frame; done.
  - destruct (mutateList fn cs) as [l [e|]] eqn:Em; [done|]. intros [= <-].
    apply mutateList_ok in Em. exists cs, l. cbn [with_object obj_object].
    split; [done|]. split; [by eapply replaceField_get|]. split; [done|]. by rewrite replaceField_frame.
Qed.

(** Whatever happens, MutateContainers changes nothing beside the two lists. *)
Lemma MutateContainers_frame `{Unstructured} (fn : jmap → res jmap) (o : Object) gs :
  diverge (podSpecPath o ++ ["containers"]) gs → diverge (podSpecPath o ++ ["initContainers"]) gs →
  nestedFieldNoCopy (obj_object (MutateContainers fn o).1) gs = nestedFieldNoCopy (obj_object o) gs.
Proof.
  intros Hc Hi. unfold MutateContainers.
  destruct (nestedFieldNoCopy (obj_object o) (podSpecPath o ++ ["containers"])) as [[[]|]|]; try done.
  destruct (nestedFieldNoCopy (obj_object o) (podSpecPath o ++ ["initContainers"])) as [[[]|]|]; try done;
    destruct (mutateList fn _) as [l' [e|]]; simpl; by rewrite ?replaceField_frame.
Qed.

(* ------------------------------------------------------------------ *)
(** ** Sorting *)

Definition sort_key (score : Object → Z) (o : Object) : Z * string * string * string :=
  (score o, obj_Group o, obj_Kind o, obj_name o).

(** Of two different texts one is less. *)
Lemma string_lt_total x y : string_lt x y = false → string_lt y x = false → x = y.
Proof.
  unfold string_lt, String.ltb. rewrite (String.compare_antisym y x).
  destruct (String.compare x y) eqn:E; simpl; intros; try done.
  by apply String.compare_eq_iff.
Qed.

Lemma less_irrefl score x : less score x x = false.
Proof.
  assert (∀ t, string_lt t t = false) as Hirr.
  { intros t. unfold string_lt, String.ltb. pose proof (String.compare_antisym t t) as E.
    destruct (String.compare t t); done. }
  unfold less. rewrite Z.ltb_irrefl, !Hirr, !andb_false_r. done.
Qed.

(** Two items neither of which is less have the same key. *)
Lemma less_total score x y :
  less score x y = false → less score y x = false → sort_key score x = sort_key score y.
Proof.
  unfold less, sort_key. intros Hxy Hyx.
  rewrite !orb_false_iff in Hxy, Hyx.
  destruct Hxy as [[[Hs1 Hg1] Hk1] Hn1], Hyx as [[[Hs2 Hg2] Hk2] Hn2].
  assert (score x = score y) as Es by lia. rewrite Es, Z.eqb_refl in *. simpl in *.
  assert (obj_Group x = obj_Group y) as Eg by (by apply string_lt_total). rewrite Eg in *.
  rewrite bool_decide_eq_true_2 in * by done. simpl in *.
  assert (obj_Kind x = obj_Kind y) as Ek by (by apply string_lt_total). rewrite Ek in *.
  rewrite bool_decide_eq_true_2 in * by done. simpl in *.
  by rewrite (string_lt_total (obj_name x) (obj_name y)).
Qed.

(** Two sorted rearrangements of items with distinct keys are equal. *)
Lemma sorted_unique score (l k : list Object) :
  NoDup (sort_key score <$> l) → l ≡ₚ k →
  StronglySorted (λ x y, less score y x = false) l →
  StronglySorted (λ x y, less score y x = false) k → l = k.
Proof.
  revert k; induction l as [|x l IH]; intros k Hnd Hp Hl Hk; [by apply Permutation_nil in Hp|].
  apply list.NoDup_cons in Hnd as [Hx Hnd].
  apply StronglySorted_inv in Hl as [Hl Hxl].
  destruct k as [|y k]; [by apply Permutation_sym, Permutation_nil in Hp|].
  apply StronglySorted_inv in Hk as [Hk Hyk].
  assert (x = y) as <-.
  { destruct (decide (sort_key score x = sort_key score y)) as [E|E].
    - assert (y ∈ x :: l) as [->|Hy]%elem_of_cons by (rewrite Hp; set_solver); [done|].
      exfalso. apply Hx. rewrite E. by apply list_elem_of_fmap_2.
    - assert (y ∈ x :: l) as [->|Hy]%elem_of_cons by (rewrite Hp; set_solver); [done|].
      assert (x ∈ y :: k) as [->|Hx']%elem_of_cons by (rewrite <- Hp; set_solver); [done|].
      rewrite list.Forall_forall in Hxl, Hyk. destruct E. apply less_total; auto. }
  f_equal. apply IH; [done|by apply Permutation_cons_inv in Hp|done|done].
Qed.

(* ------------------------------------------------------------------ *)
(** ** Parsing and patching *)

(** What one document contributes. *)
Definition parsedItem (Unmarshal : string → res jmap) (raw : string) : option jmap :=
  match Unmarshal raw with
  | Ok out => if decide (raw = "" ∨ raw = "null" ∨ size out = 0%nat) then None else Some out
  | Err _ => None
  end.
Definition parsedBlob (Unmarshal : string → res jmap) (raw : string) : option string :=
  match Unmarshal raw with Ok _ => None | Err _ => Some (blobOf raw) end.

(** Merging a list of patches, one after the other. *)
Fixpoint mergeAll (merge : jmap → jmap → res jmap) (m : jmap) (patches : list jmap) : res jmap :=
  match patches with
  | [] => Ok m
  | p :: patches => m' ← merge m p; mergeAll merge m' patches
  end.

Lemma applyPatches_filter `{Unstructured} L base m patches :
  applyPatches L base m patches = mergeAll (mergePatch L base) m (filter (patch_applies base) patches).
Proof.
  revert m; induction patches as [|p patches IH]; intros m; [done|]. cbn [applyPatches].
  rewrite filter_cons. destruct (patch_applies base p) eqn:E.
  - rewrite decide_True by done. cbn [mergeAll]. destruct (mergePatch L base m p); [apply IH|done].
  - rewrite decide_False by auto. apply IH.
Qed.

Lemma patchItems_ok `{Unstructured} L patches items items' :
  patchItems L patches items = (items', None) →
  Forall2 (λ o o', ∃ m, mergeAll (mergePatch L (obj_object o)) (obj_object o)
      (filter (patch_applies (obj_object o)) patches) = Ok m ∧ o' = NewObject m) items items'.
Proof.
  revert items'; induction items as [|o items IH]; intros items'; cbn [patchItems];
    [intros [= <-]; constructor|].
  destruct (apply L (obj_object o) patches) as [m|] eqn:E; [|done].
  destruct (patchItems L patches items) as [l err]. intros [= <- ->].
  unfold apply in E. rewrite applyPatches_filter in E. constructor; [by exists m|by apply IH].
Qed.

(* ------------------------------------------------------------------ *)
(** ** Properties *)

(** Setting a nested field without copying: the value reads back at its
    path, every path that parts from it reads as before, and a set that fails,
    because a step of the path is not a map, changes nothing. *)
Theorem SetNestedFieldNoCopy_spec (o : Object) (v : json) (fs : list string) :
  match SetNestedFieldNoCopy v fs o with
  | (o', None) =>
      nestedFieldNoCopy (obj_object o') fs = Ok (Some v)
      ∧ ∀ gs, diverge fs gs →
          nestedFieldNoCopy (obj_object o') gs = nestedFieldNoCopy (obj_object o) gs
  | (o', Some _) => obj_object o' = obj_object o
  end.
Proof.
  unfold SetNestedFieldNoCopy. destruct (setNestedField (obj_object o) v fs) as [m [e|]] eqn:E; simpl.
  - by apply setNested_error in E.
  - split; [by eapply setNested_get|]. intros gs. by eapply setNested_frame.
Qed.


(** The cached name, namespace, group and kind are those of the object:
    labelling, annotating, renaming and moving it keep them so; labels and
    annotations are added to what is there when the metadata can hold them. *)
Theorem identity_cache `{U : Unstructured} (o : Object) :
  unstructured_ok U → identity_fresh o →
  (∀ l, identity_fresh (AddLabels l o)
        ∧ (metadata_writable (obj_object o) →
           u_GetLabels (obj_object (AddLabels l o)) = l ∪ u_GetLabels (obj_object o)))
  ∧ (∀ l, identity_fresh (AddAnnotations l o)
        ∧ (metadata_writable (obj_object o) →
           u_GetAnnotations (obj_object (AddAnnotations l o)) = l ∪ u_GetAnnotations (obj_object o)))
  ∧ (∀ n o', SetName n o = (o', None) → identity_fresh o' ∧ GetName o' = n
        ∧ GetNamespace o' = GetNamespace o)
  ∧ (∀ n o', SetNamespace n o = (o', None) → identity_fresh o' ∧ GetNamespace o' = n
        ∧ GetName o' = GetName o).
Proof.
  intros HU (Hn & Hns & Hgk). split; [|split; [|split]].
  - intros l. unfold AddLabels, merge_into. rewrite (right_id_L ∅ (∪)).
    destruct (u_ok_labels U HU (obj_object o) (l ∪ u_GetLabels (obj_object o))) as (E1 & E2 & E3 & E4 & _).
    split; [|exact E1]. unfold identity_fresh. simpl. by rewrite E2, E3, E4.
  - intros l. unfold AddAnnotations, merge_into. rewrite (right_id_L ∅ (∪)).
    destruct (u_ok_annotations U HU (obj_object o) (l ∪ u_GetAnnotations (obj_object o))) as (E1 & E2 & E3 & E4 & _).
    split; [|exact E1]. unfold identity_fresh. simpl. by rewrite E2, E3, E4.
  - intros n o'. unfold SetName, SetNestedField.
    destruct (u_SetNestedField _ _ _) as [m [e|]] eqn:E; [done|]. intros [= <-].
    apply (u_ok_name U HU) in E as (E1 & E2 & E3). unfold identity_fresh. simpl. by rewrite E1, E2, E3.
  - intros n o'. unfold SetNamespace, SetNestedField.
    destruct (u_SetNestedField _ _ _) as [m [e|]] eqn:E; [done|]. intros [= <-].
    apply (u_ok_namespace U HU) in E as (E1 & E2 & E3). unfold identity_fresh. simpl. by rewrite E1, E2, E3.
Qed.

(** A successful MutateContainers changes every container and every init
    container by the function, in place, and no field that parts from them. *)
Theorem MutateContainers_spec `{Unstructured} (fn : jmap → res jmap) (o o' : Object) :
  MutateContainers fn o = (o', None) →
  ∃ cs cs', nestedFieldNoCopy (obj_object o) (podSpecPath o ++ ["containers"]) = Ok (Some (JArr cs))
    ∧ nestedFieldNoCopy (obj_object o') (podSpecPath o ++ ["containers"]) = Ok (Some (JArr cs'))
    ∧ Forall2 (λ x y, ∃ c c', x = JObj c ∧ fn c = Ok c' ∧ y = JObj c') cs cs'
    ∧ match nestedFieldNoCopy (obj_object o) (podSpecPath o ++ ["initContainers"]) with
      | Ok (Some (JArr ics)) => ∃ ics2,
          nestedFieldNoCopy (obj_object o') (podSpecPath o ++ ["initContainers"]) = Ok (Some (JArr ics2))
          ∧ Forall2 (λ x y, ∃ c c', x = JObj c ∧ fn c = Ok c' ∧ y = JObj c') ics ics2
      | Ok None => nestedFieldNoCopy (obj_object o') (podSpecPath o ++ ["initContainers"]) = Ok None
      | _ => False
      end
    ∧ ∀ gs, diverge (podSpecPath o ++ ["containers"]) gs →
        diverge (podSpecPath o ++ ["initContainers"]) gs →
        nestedFieldNoCopy (obj_object o') gs = nestedFieldNoCopy (obj_object o) gs.
Proof.
  intros E. destruct (MutateContainers_lists _ _ _ E) as (cs & cs' & Hc & Hc' & Hall & Hinit).
  exists cs, cs'. split_and!; [done..|]. intros gs Hgc Hgi.
  pose proof (MutateContainers_frame fn o gs Hgc Hgi) as Hf. by rewrite E in Hf.
Qed.

(** Sorting is deterministic when no two items agree in score, group, kind
    and name: whatever order the items come in and however the sort proceeds,
    the result is the same, and in it no item comes after one it is less than. *)
Theorem Sort_deterministic (score : Object → Z) (o1 o2 r1 r2 : Objects) :
  Items o1 ≡ₚ Items o2 → NoDup (sort_key score <$> Items o1) →
  Sort score o1 r1 → Sort score o2 r2 → Items r1 = Items r2.
Proof.
  intros Hp Hnd (P1 & S1 & _) (P2 & S2 & _). eapply sorted_unique; [|by rewrite <- P1, Hp, P2|done..].
  by rewrite <- P1.
Qed.

(** Sorting is not deterministic in general: two objects that differ in
    their namespace only may come out in either order. *)
Theorem Sort_ignores_namespace (score : Object → Z) (x y : Object) :
  sort_key score x = sort_key score y →
  let o := mkObjects [x; y] [] "" in
  Sort score o (mkObjects [x; y] [] "") ∧ Sort score o (mkObjects [y; x] [] "").
Proof.
  intros E. unfold sort_key in E. injection E as Es Eg Ek En.
  assert (less score y x = false ∧ less score x y = false) as [H1 H2].
  { assert (∀ z, less score z x = less score z y ∧ less score x z = less score y z) as Hz.
    { intros z. unfold less. by rewrite Es, Eg, Ek, En. }
    split; [rewrite (proj1 (Hz y))|rewrite (proj2 (Hz y))]; apply less_irrefl. }
  unfold Sort. simpl. split; (split; [|split; [repeat constructor; done|done]]).
  - done.
  - apply Permutation_swap.
Qed.
(** Parsing is total on readable documents and keeps their order: each
    document becomes an object, or a blob if it does not decode, or nothing if
    it is empty; a reader error fails the parse, whatever came before. *)
Theorem ParseObjects_spec `{Unstructured} (Unmarshal : string → res jmap) (raws : list string)
    (o : Objects) :
  ParseObjects Unmarshal (RawDoc <$> raws) o
  = Ok (mkObjects (Items o ++ (NewObject <$> omap (parsedItem Unmarshal) raws))
          (Blobs o ++ omap (parsedBlob Unmarshal) raws) (Path o))
  ∧ ∀ e docs, ∃ e', ParseObjects Unmarshal ((RawDoc <$> raws) ++ ReadError e :: docs) o = Err e'.
Proof.
  revert o; induction raws as [|raw raws IH]; intros o.
  { simpl. rewrite !app_nil_r. split; [by destruct o|by eexists]. }
  cbn [fmap list_fmap ParseObjects app]. cbn [omap list_omap].
  unfold parsedItem at 1, parsedBlob at 1.
  destruct (Unmarshal raw) as [out|err].
  - case_decide; [apply IH|]. destruct (IH (mkObjects (Items o ++ [NewObject out]) (Blobs o) (Path o)))
      as [-> Herr]. split; [|done]. cbn [Items Blobs Path]. by rewrite <- (assoc (++)).
  - rewrite decide_True by (right; right; by rewrite map_size_empty).
    destruct (IH (mkObjects (Items o) (Blobs o ++ [blobOf raw]) (Path o))) as [-> Herr].
    split; [cbn [Items Blobs Path]; by rewrite <- (assoc (++))|]. intros e docs.
    rewrite decide_True by (right; right; by rewrite map_size_empty). apply Herr.
Qed.

(** Patching merges into each object, in the order given, exactly the
    patches with its group, version, kind, name and namespace, and keeps the
    number and order of the objects, the blobs and the path. *)
Theorem Patch_targets `{Unstructured} (L : patchLibs) (patches : list jmap)
    (objects objects' : Objects) :
  patches ≠ [] → Patch L patches objects = (objects', None) →
  Forall2 (λ o o', ∃ m, mergeAll (mergePatch L (obj_object o)) (obj_object o)
      (filter (patch_applies (obj_object o)) patches) = Ok m ∧ o' = NewObject m)
    (Items objects) (Items objects')
  ∧ Blobs objects' = Blobs objects ∧ Path objects' = Path objects.
Proof.
  unfold Patch. destruct patches as [|p patches]; [done|]. intros _.
  destruct (patchItems L (p :: patches) (Items objects)) as [items err] eqn:E.
  intros [= <- ->]. split; [by apply patchItems_ok|done].
Qed.

(** A failing MutateContainers leaves a stale text behind. When the first
    container was changed and the next one is not a map, the method fails with
    the change made and the cached text kept: JSON goes on returning the text
    from before the change. *)
Theorem MutateContainers_stale `{Unstructured} (fn : jmap → res jmap) (o : Object) (b : string)
    (c c' : jmap) (x : json) (rest : list json) :
  obj_json o = Some b →
  nestedFieldNoCopy (obj_object o) (podSpecPath o ++ ["containers"]) = Ok (Some (JArr (JObj c :: x :: rest))) →
  nestedFieldNoCopy (obj_object o) (podSpecPath o ++ ["initContainers"]) = Ok None →
  (∀ m, x ≠ JObj m) → fn c = Ok c' →
  ∃ o' e, MutateContainers fn o = (o', Some e)
    ∧ nestedFieldNoCopy (obj_object o') (podSpecPath o ++ ["containers"])
      = Ok (Some (JArr (JObj c' :: x :: rest)))
    ∧ (JSON o').2 = Ok b.
Proof.
  intros Hb Hc Hi Hx Hfn. unfold MutateContainers. rewrite Hc, Hi.
  assert (mutateList fn (JObj c :: x :: rest)
    = (JObj c' :: x :: rest, Some (Errorf "container was not an object"))) as ->.
  { cbn [mutateList]. rewrite Hfn. destruct x; try done. by destruct (Hx m). }
  eexists _, _. split; [done|]. cbn [obj_object]. split.
  - eapply replaceField_get; [|done]. by intros [_ ?]%app_nil.
  - unfold JSON. cbn [obj_json]. by rewrite Hb.
Qed.

(* ------------------------------------------------------------------ *)
(** ** A concrete unstructured package *)

Definition str_at (m : jmap) (fs : list string) : string :=
  match nestedFieldNoCopy m fs with Ok (Some (JStr s)) => s | _ => "" end.
Definition jstr (j : json) : option string := match j with JStr s => Some s | _ => None end.
Definition strings_at (m : jmap) (fs : list string) : gmap string string :=
  match nestedFieldNoCopy m fs with Ok (Some (JObj x)) => omap jstr x | _ => ∅ end.

(** A map of texts set in the metadata: nothing happens where it cannot be. *)
Definition set_strings (field : string) (m : jmap) (l : gmap string string) : jmap :=
  (setNestedField m (JObj (JStr <$> l)) ["metadata"; field]).1.

Definition example_unstructured : Unstructured := {|
  u_GVK m := let '(a, b, found) := strings.Cut "/" (str_at m ["apiVersion"]) in
             if found then mkGVK a b (str_at m ["kind"]) else mkGVK "" a (str_at m ["kind"]);
  u_GetKind m := str_at m ["kind"];
  u_GetName m := str_at m ["metadata"; "name"];
  u_GetNamespace m := str_at m ["metadata"; "namespace"];
  u_GetLabels m := strings_at m ["metadata"; "labels"];
  u_SetLabels := set_strings "labels";
  u_GetAnnotations m := strings_at m ["metadata"; "annotations"];
  u_SetAnnotations := set_strings "annotations";
  u_SetNestedField := setNestedField;
  u_SetNestedStringMap m l fs := setNestedField m (JObj (JStr <$> l)) fs;
  u_NestedStringMap m fs := Ok (Some (strings_at m fs));
  u_NestedString m fs :=
    match nestedFieldNoCopy m fs with
    | Ok (Some (JStr s)) => Ok (Some s)
    | Ok None => Ok None
    | Ok (Some _) => Err (Errorf "accessor error: expected string")
    | Err e => Err e
    end;
  u_NestedMap m fs :=
    match nestedFieldNoCopy m fs with
    | Ok (Some (JObj x)) => Ok (Some x)
    | Ok None => Ok None
    | Ok (Some _) => Err (Errorf "accessor error: expected map")
    | Err e => Err e
    end;
  u_NestedSlice m fs :=
    match nestedFieldNoCopy m fs with
    | Ok (Some (JArr l)) => Ok (Some l)
    | Ok None => Ok None
    | Ok (Some _) => Err (Errorf "accessor error: expected slice")
    | Err e => Err e
    end;
  u_MarshalJSON m := if decide (size m = 0%nat) then Ok "{}" else Err (Errorf "not supported");
  u_Decode b := if decide (b = "{}") then Ok ∅ else Err (Errorf "unexpected text")
|}.

Lemma set_strings_cases field m l :
  setNestedField m (JObj (JStr <$> l)) ["metadata"; field] = (set_strings field m l, None)
  ∨ set_strings field m l = m.
Proof.
  unfold set_strings. destruct (setNestedField _ _ _) as [m' [e|]] eqn:E; [right|by left].
  by apply setNested_error in E.
Qed.

Lemma set_strings_frame field m l gs :
  diverge ["metadata"; field] gs →
  nestedFieldNoCopy (set_strings field m l) gs = nestedFieldNoCopy m gs.
Proof.
  destruct (set_strings_cases field m l) as [E| ->]; [|done]. by apply (setNested_frame _ _ _ _ _ E).
Qed.

Lemma set_strings_str_at field m l gs :
  diverge ["metadata"; field] gs → str_at (set_strings field m l) gs = str_at m gs.
Proof. intros Hd. unfold str_at. by rewrite set_strings_frame. Qed.

Lemma set_strings_strings_at field m l f :
  field ≠ f → strings_at (set_strings field m l) ["metadata"; f] = strings_at m ["metadata"; f].
Proof. intros Hne. unfold strings_at. rewrite set_strings_frame; [done|]. simpl. auto. Qed.

Lemma set_strings_get field m l :
  metadata_writable m → strings_at (set_strings field m l) ["metadata"; field] = l.
Proof.
  intros Hw. assert (setNestedField m (JObj (JStr <$> l)) ["metadata"; field]
    = (set_strings field m l, None)) as E.
  { unfold set_strings. revert Hw. unfold metadata_writable, nestedFieldNoCopy.
    rewrite !nested_cons, setNested_cons.
    destruct (m !! "metadata") as [[]|]; cbn [nestedField]; intros [[=]|[y [=]]]; done. }
  unfold strings_at. rewrite (setNested_get _ _ _ _ E). apply map_eq. intros k.
  rewrite lookup_omap, lookup_fmap. by destruct (l !! k).
Qed.

Lemma example_unstructured_ok : unstructured_ok example_unstructured.
Proof.
  split; cbn -[setNestedField nestedFieldNoCopy set_strings strings_at str_at strings.Cut].
  - intros m v m' E. pose proof (setNested_get _ _ _ _ E) as Hg.
    pose proof (λ gs, setNested_frame _ _ _ _ gs E) as Hf. unfold str_at. rewrite Hg.
    rewrite !Hf by (simpl; naive_solver). done.
  - intros m v m' E. pose proof (setNested_get _ _ _ _ E) as Hg.
    pose proof (λ gs, setNested_frame _ _ _ _ gs E) as Hf. unfold str_at. rewrite Hg.
    rewrite !Hf by (simpl; naive_solver). done.
  - intros m l. split; [apply set_strings_get|].
    rewrite !set_strings_str_at, set_strings_strings_at by (simpl; naive_solver). done.
  - intros m l. split; [apply set_strings_get|].
    rewrite !set_strings_str_at, set_strings_strings_at by (simpl; naive_solver). done.
  - intros m v fs m' E. split; [by eapply setNested_get|]. intros gs. by eapply setNested_frame.
  - done.
  - done.
  - intros m v f g. unfold nestedFieldNoCopy. rewrite nested_cons, setNested_cons.
    destruct (m !! f) as [[]|]; cbn [nestedField]; intros [[=]|[y [=]]]; by eexists.
  - intros m m' Ha Hk. unfold str_at. by rewrite Ha, Hk.
  - done.
Qed.

(** A Deployment with two containers, one of which is not a map. *)
Definition example_content (containers : list json) : jmap :=
  <["apiVersion" := JStr "apps/v1"]> (<["kind" := JStr "Deployment"]>
  (<["spec" := JObj {["template" := JObj {["spec" := JObj {["containers" := JArr containers]}]}]}]> ∅)).
Definition example_image (image : string) : jmap := {["image" := JStr image]}.
Definition example_stale : Object :=
  mkObj (example_content [JObj (example_image "a"); JNull]) "apps" "v1" "Deployment" "web" "prod"
    (Some "text").

(** A package that marshals: the names and texts of the top-level fields. *)
Definition example_printer (m : jmap) : string :=
  strings.Join ((λ kv, kv.1 +:+ "=" +:+ default "?" (jstr kv.2)) <$> map_to_list m) ";".
Definition printing_unstructured : Unstructured := {|
  u_GVK := @u_GVK example_unstructured; u_GetKind := @u_GetKind example_unstructured;
  u_GetName := @u_GetName example_unstructured; u_GetNamespace := @u_GetNamespace example_unstructured;
  u_GetLabels := @u_GetLabels example_unstructured; u_SetLabels := @u_SetLabels example_unstructured;
  u_GetAnnotations := @u_GetAnnotations example_unstructured;
  u_SetAnnotations := @u_SetAnnotations example_unstructured;
  u_SetNestedField := @u_SetNestedField example_unstructured;
  u_SetNestedStringMap := @u_SetNestedStringMap example_unstructured;
  u_NestedStringMap := @u_NestedStringMap example_unstructured;
  u_NestedString := @u_NestedString example_unstructured;
  u_NestedMap := @u_NestedMap example_unstructured; u_NestedSlice := @u_NestedSlice example_unstructured;
  u_MarshalJSON m := Ok (example_printer m);
  u_Decode b := if decide (b = "settings") then Ok {["kind" := JStr "ConfigMap"]}
                else Err (Errorf "unexpected text")
|}.


Lemma identity_cache_witness :
  @identity_fresh example_unstructured
    (@AddLabels example_unstructured {["app" := "web"]}
       (@NewObject example_unstructured (example_content []))).
Proof.
  destruct (@identity_cache example_unstructured (@NewObject example_unstructured (example_content []))
    example_unstructured_ok) as [Hl _]; [split; [reflexivity|]; split; reflexivity|].
  exact (proj1 (Hl {["app" := "web"]})).
Defined.

Lemma MutateContainers_spec_witness :
  ∃ cs cs', @nestedFieldNoCopy (example_content [JObj (example_image "a")])
      ["spec"; "template"; "spec"; "containers"] = Ok (Some (JArr cs))
    ∧ cs ≠ [] ∧ Forall2 (λ x y, ∃ c c', x = JObj c ∧ Ok (<["image" := JStr "b"]> c) = Ok c' ∧ y = JObj c') cs cs'.
Proof.
  destruct (@MutateContainers_spec example_unstructured (λ c, Ok (<["image" := JStr "b"]> c))
    (@NewObject example_unstructured (example_content [JObj (example_image "a")]))
    (@MutateContainers example_unstructured (λ c, Ok (<["image" := JStr "b"]> c))
      (@NewObject example_unstructured (example_content [JObj (example_image "a")]))).1)
    as (cs & cs' & Hc & _ & Hall & _); [reflexivity|].
  exists cs, cs'. split; [exact Hc|]. split; [|done]. intros ->. discriminate.
Defined.

Lemma MutateContainers_stale_witness :
  ∃ o' e, @MutateContainers example_unstructured (λ _, Ok (example_image "b")) example_stale = (o', Some e)
    ∧ nestedFieldNoCopy (obj_object o') ["spec"; "template"; "spec"; "containers"]
      = Ok (Some (JArr [JObj (example_image "b"); JNull]))
    ∧ (@JSON example_unstructured o').2 = Ok "text".
Proof.
  apply (@MutateContainers_stale example_unstructured (λ _, Ok (example_image "b")) example_stale
    "text" (example_image "a") (example_image "b") JNull []); [reflexivity|reflexivity|reflexivity
    |discriminate|reflexivity].
Defined.

Definition example_named (ns : string) : Object := mkObj ∅ "" "v1" "ConfigMap" "settings" ns None.

Lemma Sort_deterministic_witness :
  Items (mkObjects [example_stale; example_named "a"] [] "")
  = Items (mkObjects [example_stale; example_named "a"] [] "x").
Proof.
  assert (StronglySorted (λ x y, less (λ o, Z.of_nat (String.length (obj_Group o)) * -1)%Z y x = false)
    [example_stale; example_named "a"]) as Hs by (repeat constructor).
  apply (Sort_deterministic (λ o, Z.of_nat (String.length (obj_Group o)) * -1)%Z
    (mkObjects [example_named "a"; example_stale] [] "") (mkObjects [example_stale; example_named "a"] [] "x")).
  - apply Permutation_swap.
  - apply (bool_decide_unpack _). vm_compute. exact I.
  - split; [apply Permutation_swap|done].
  - split; [done|done].
Defined.

Lemma Sort_ignores_namespace_witness :
  Sort (λ _, 100%Z) (mkObjects [example_named "a"; example_named "b"] [] "")
    (mkObjects [example_named "b"; example_named "a"] [] "").
Proof.
  apply (Sort_ignores_namespace (λ _, 100%Z) (example_named "a") (example_named "b")). reflexivity.
Defined.

Definition example_patchLibs : patchLibs := {|
  Scheme_New := λ _, NotRegistered;
  JSONMergePatch := λ base _, Ok base;
  StrategicMergePatch := λ base _ _, Ok base
|}.

Lemma Patch_targets_witness :
  ∃ r, @Patch example_unstructured example_patchLibs [∅]
      (mkObjects [example_named "a"] ["blob"] "") = (r, None) ∧ Blobs r = ["blob"].
Proof.
  exists (@Patch example_unstructured example_patchLibs [∅]
    (mkObjects [example_named "a"] ["blob"] "")).1. split; [reflexivity|].
  apply (@Patch_targets example_unstructured example_patchLibs [∅]
    (mkObjects [example_named "a"] ["blob"] "")
    (@Patch example_unstructured example_patchLibs [∅]
      (mkObjects [example_named "a"] ["blob"] "")).1); [done|reflexivity].
Defined.

End manifest.
