(* ===== verification/Transforms.v ===== *)
(** * Object transforms (pkg/patterns/declarative)

    The transforms the declarative library applies to a manifest before it is
    applied to the cluster: labels ([labels.go]), annotations
    ([annotations.go]), private image registries ([image.go]), the managed
    Application ([application.go]) and the order of application ([sort.go]).
    The object being reconciled is any type with the methods of
    [DeclarativeObject]. *)

From S2P Require Import Prelude Kube Manifest.
From stdpp Require Import options.
Import manifest.

Module transforms.

(** The methods of [DeclarativeObject] in use; [d_GVKForObject] is
    [apiutil.GVKForObject] with the manager's scheme. *)
Class DeclarativeObject (D : Type) := {
  d_GetName : D → string;
  d_GetNamespace : D → string;
  d_GetUID : D → string;
  d_GetGeneration : D → Z;
  d_GVKForObject : D → res Kube.GroupVersionKind
}.

Definition LabelMaker (D : Type) : Type := D → gmap string string.
Definition ObjectTransform (D : Type) : Type := D → Objects → Objects * option error.

(** The items replaced, the rest kept. *)
Definition with_items (objects : Objects) (items : list Object) : Objects :=
  mkObjects items (Blobs objects) (Path objects).

(** ** sort.go *)

Definition gkString (o : Object) : string := obj_Group o +:+ "/" +:+ obj_Kind o.

Definition DefaultObjectOrder (o : Object) : Z :=
  let gk := gkString o in
  if decide (gk = "apiextensions.k8s.io/CustomResourceDefinition") then -1000
  else if decide (gk = "/Namespace") then 0
  else if decide (gk = "/ServiceAccount" ∨ gk = "rbac.authorization.k8s.io/ClusterRole") then 1
  else if decide (gk = "rbac.authorization.k8s.io/ClusterRoleBinding") then 2
  else if decide (gk = "/ConfigMap" ∨ gk = "/Secret") then 100
  else if decide (gk = "extensions/Deployment" ∨ gk = "apps/Deployment") then 1000
  else if decide (gk = "autoscaling/HorizontalPodAutoscaler") then 1001
  else if decide (gk = "/Service") then 10000
  else 1000.

(** ** image.go *)

(** [strings.SplitN(s, "/", n)] for a positive [n]. *)
Fixpoint SplitN (s : string) (n : nat) : list string :=
  match n with
  | 0 => []
  | 1 => [s]
  | S n => let '(a, b, found) := strings.Cut "/" s in if found then a :: SplitN b n else [s]
  end.

Definition applyPrivateRegistryToImage (registry image : string) : string :=
  let imageName := default "" (list.last (SplitN image 3)) in
  registry +:+ "/" +:+ imageName.

Section operations.
Context `{Unstructured}.

(** [imageFunc] is [None] for nil. *)
Definition applyPrivateRegistryToContainer (registry : string)
    (imageFunc : option (string → string → string)) (container : jmap) : res jmap :=
  match u_NestedString container ["image"] with
  | Err e => Err (WrapV "error reading container image" e)
  | Ok image =>
      let imageFunc := default applyPrivateRegistryToImage imageFunc in
      Ok (<["image" := JStr (imageFunc registry (default "" image))]> container)
  end.

Definition applyImagePullSecret (secret : string) (podSpec : jmap) : res jmap :=
  match u_SetNestedField podSpec (JArr [JObj {["name" := JStr secret]}]) ["imagePullSecrets"] with
  | (_, Some e) => Err (WrapV "error applying pull image secret" e)
  | (podSpec, None) => Ok podSpec
  end.

(** The kinds whose pod template is rewritten. *)
Definition isWorkload (o : Object) : bool :=
  bool_decide (obj_Kind o ∈ ["Deployment"; "DaemonSet"; "StatefulSet"; "Job"; "CronJob"]).

(** One item of applyImageRegistry. *)
Definition applyToItem (registry secret : string) (imageFunc : option (string → string → string))
    (item : Object) : Object * option error :=
  if isWorkload item then
    let '(item, err) :=
      if decide (registry ≠ "")
      then MutateContainers (applyPrivateRegistryToContainer registry imageFunc) item
      else (item, None) in
    match err with
    | Some e => (item, Some (WrapV "error applying private registry" e))
    | None =>
        if decide (secret ≠ "") then
          let '(item, err) := MutatePodSpec (applyImagePullSecret secret) item in
          match err with
          | Some e => (item, Some (WrapV "error applying image pull secret" e))
          | None => (item, None)
          end
        else (item, None)
    end
  else (item, None).

(** A loop over the items that stops at the first error: the items before it
    are changed, the one that failed may be, the others are as they were. *)
Fixpoint forItems (f : Object → Object * option error) (items : list Object) :
    list Object * option error :=
  match items with
  | [] => ([], None)
  | item :: items =>
      let '(item, err) := f item in
      match err with
      | Some e => (item :: items, Some e)
      | None => let '(items, err) := forItems f items in (item :: items, err)
      end
  end.

Definition applyImageRegistry (registry secret : string)
    (imageFunc : option (string → string → string)) (objects : Objects) : Objects * option error :=
  if decide (registry = "" ∧ secret = "") then (objects, None)
  else let '(items, err) := forItems (applyToItem registry secret imageFunc) (Items objects) in
       (with_items objects items, err).

Context {D : Type} `{DeclarativeObject D}.

Definition ImageRegistryTransform (registry imagePullSecret : string) : ObjectTransform D :=
  λ _ m, applyImageRegistry registry imagePullSecret (Some applyPrivateRegistryToImage) m.

Definition PrivateRegistryTransform (registry imagePullSecret : string)
    (imageFunc : option (string → string → string)) : ObjectTransform D :=
  λ _ m, applyImageRegistry registry imagePullSecret imageFunc m.

(** ** labels.go and annotations.go *)

Definition AddLabels (labels : gmap string string) : ObjectTransform D :=
  λ _ m, (with_items m (manifest.AddLabels labels <$> Items m), None).

Definition AddAnnotations (annotations : gmap string string) : ObjectTransform D :=
  λ _ m, (with_items m (manifest.AddAnnotations annotations <$> Items m), None).

Definition SourceLabel : LabelMaker D := λ o,
  match d_GVKForObject o with
  | Err _ => ∅
  | Ok gvk =>
      if decide (gvk_Group gvk = "" ∨ gvk_Kind gvk = "") then ∅
      else {[gvk_Group gvk +:+ "/" +:+ strings.ToLower (gvk_Kind gvk) := d_GetName o]}
  end.

(** ** application.go *)

Definition isApplication (o : Object) : bool :=
  bool_decide (obj_Group o = "app.k8s.io") && bool_decide (obj_Kind o = "Application").

(** ExtractApplication answers a pointer to the item: its position. *)
Fixpoint extractApplication (app : option nat) (i : nat) (items : list Object) :
    res (option nat) :=
  match items with
  | [] => Ok app
  | o :: items =>
      if isApplication o then
        match app with
        | Some _ => Err (Errorf "multiple app.k8s.io/Application found in manifest")
        | None => extractApplication (Some i) (S i) items
        end
      else extractApplication app (S i) items
  end.

Definition ExtractApplication (objects : Objects) : res (option nat) :=
  extractApplication None 0 (Items objects).

(** The order in which [uniqueGroupKind] sorts. *)
Definition gk_le `{SchemaText} (x y : Kube.GroupKind) : Prop := String.le (GK_String x) (GK_String y).
#[local] Instance gk_le_dec `{SchemaText} : RelDecision gk_le.
Proof. intros x y. unfold gk_le. apply _. Defined.

(** uniqueGroupKind collects the kinds in a map and sorts what ranging over it
    gives. *)
Definition uniqueGroupKind `{RangeOrder, SchemaText} (objects : Objects) : list Kube.GroupKind :=
  let kinds := foldl (λ kinds o, {[GroupKind o]} ∪ kinds) (∅ : gset Kube.GroupKind) (Items objects) in
  merge_sort gk_le (range_set kinds).

Definition groupKindEntry (gk : Kube.GroupKind) : json :=
  JObj (<["group" := JStr (gk_Group gk)]> {["kind" := JStr (gk_Kind gk)]}).

(** The results of the two set operations are ignored. *)
Definition transformApplication `{RangeOrder, SchemaText} (labelMaker : LabelMaker D) :
    ObjectTransform D := λ instance objects,
  match ExtractApplication objects with
  | Err e => (objects, Some e)
  | Ok None =>
      (objects, Some (Errorf "cannot transformApplication without an app.k8s.io/Application in the manifest"))
  | Ok (Some i) =>
      let convertedLabels := JStr <$> labelMaker instance in
      let labelSelector := JObj {["matchLabels" := JObj convertedLabels]} in
      let select app := (SetNestedField labelSelector ["spec"; "selector"] app).1 in
      let objects := with_items objects (alter select i (Items objects)) in
      let componentGroupKinds := groupKindEntry <$> uniqueGroupKind objects in
      let kinds app := (SetNestedSlice componentGroupKinds ["spec"; "componentGroupKinds"] app).1 in
      (with_items objects (alter kinds i (Items objects)), None)
  end.
End operations.

(* ------------------------------------------------------------------ *)
(** ** Lemmas *)

Lemma sorted_positions {A} (R : A → A → Prop) (l : list A) :
  StronglySorted R l → ∀ i j x y, i < j → l !! i = Some x → l !! j = Some y → R x y.
Proof.
  induction 1 as [|z l _ IH Hz]; intros i j x y Hij Hi Hj; [done|].
  destruct j as [|j]; [lia|]. destruct i as [|i]; simpl in *.
  - simplify_eq. rewrite list.Forall_forall in Hz. apply Hz. by apply list_elem_of_lookup_2 in Hj.
  - apply (IH i j); [lia|done..].
Qed.

(** What sorting says about two positions. *)
Lemma Sort_before (score : Object → Z) o o' i j x y :
  Sort score o o' → Items o' !! i = Some x → Items o' !! j = Some y → less score x y = true → i < j.
Proof.
  intros (_ & Hs & _) Hi Hj Hless. destruct (decide (i = j)) as [->|Hne].
  { simplify_eq. by rewrite less_irrefl in Hless. }
  destruct (decide (i < j)) as [|Hge]; [done|]. exfalso.
  assert (less score x y = false) as E; [|by rewrite E in Hless].
  apply (sorted_positions _ _ Hs j i); [lia|done|done].
Qed.

Lemma less_score (score : Object → Z) x y : (score x < score y)%Z → less score x y = true.
Proof. intros Hlt. unfold less. by apply Z.ltb_lt in Hlt as ->. Qed.

(** A registry is a host, a host and one project, or deeper. *)
Inductive registry_depth : string → Prop :=
  | depth_host h : strings.free_of "/" h → registry_depth h
  | depth_project h p : strings.free_of "/" h → strings.free_of "/" p →
      registry_depth (h +:+ "/" +:+ p)
  | depth_deeper h p q : strings.free_of "/" h → strings.free_of "/" p →
      registry_depth (h +:+ "/" +:+ p +:+ "/" +:+ q).

Lemma registry_depth_total r : registry_depth r.
Proof.
  destruct (strings.Cut "/" r) as [[h b] []] eqn:E; apply Cut_spec in E as [Hh E].
  - subst. destruct (strings.Cut "/" b) as [[p q] []] eqn:E; apply Cut_spec in E as [Hp E]; subst.
    + by apply (depth_deeper h p q).
    + destruct E as [-> ->]. by apply (depth_project h p).
  - destruct E as [-> ->]. by apply depth_host.
Qed.

(** The name kept of an image with at least three parts. *)
Lemma image_three r h p n :
  strings.free_of "/" h → strings.free_of "/" p →
  applyPrivateRegistryToImage r (h +:+ "/" +:+ p +:+ "/" +:+ n) = r +:+ "/" +:+ n.
Proof.
  intros Hh Hp. unfold applyPrivateRegistryToImage. cbn [SplitN].
  change (h +:+ "/" +:+ p +:+ "/" +:+ n) with (h +:+ String "/" (p +:+ String "/" n)).
  by rewrite !Cut_app.
Qed.

Lemma image_empty r : applyPrivateRegistryToImage r "" = r +:+ "/" +:+ "".
Proof. done. Qed.

(** Replacing a text by a longer one is noticed. *)
Lemma string_neq_length (s t : string) : String.length s ≠ String.length t → s ≠ t.
Proof. congruence. Qed.

(** *** Loops over the items *)

Lemma list_alter_middle {A} (f : A → A) pre x post :
  alter f (length pre) (pre ++ x :: post) = pre ++ f x :: post.
Proof. induction pre as [|y pre IH]; [done|]. simpl. by f_equal. Qed.

Lemma forItems_ok f items items' :
  forItems f items = (items', None) → Forall2 (λ o o', f o = (o', None)) items items'.
Proof.
  revert items'; induction items as [|o items IH]; intros items'; cbn [forItems];
    [intros [= <-]; constructor|].
  destruct (f o) as [o1 [e|]] eqn:E; [done|]. destruct (forItems f items) as [l err].
  intros [= <- ->]. constructor; [done|by apply IH].
Qed.

(** *** Pod templates *)

Lemma nestedField_app v p q :
  nestedField v (p ++ q) =
    match nestedField v p with Ok (Some v') => nestedField v' q | r => r end.
Proof.
  revert v; induction p as [|f p IH]; intros v; [done|]. simpl.
  destruct v as [| | | | | |m]; try done. destruct (m !! f); [apply IH|done].
Qed.

Section workloads.
Context `{U : Unstructured} (HU : unstructured_ok U).

(** The path to the pod spec depends on the kind only. *)
Lemma podSpecPath_kind o o' :
  nestedFieldNoCopy (obj_object o') ["kind"] = nestedFieldNoCopy (obj_object o) ["kind"] →
  podSpecPath o' = podSpecPath o.
Proof using HU. intros E. unfold podSpecPath. by rewrite !(u_ok_kind U HU), E. Qed.

Lemma diverge_spec_kind o f : diverge (podSpecPath o ++ [f]) ["kind"].
Proof. unfold podSpecPath. case_decide; by left. Qed.

Lemma podSpecPath_nonempty o : podSpecPath o ≠ [].
Proof. unfold podSpecPath. by case_decide. Qed.

(** MutateContainers keeps the identity and the path of an object. *)
Lemma MutateContainers_identity fn o o' :
  MutateContainers fn o = (o', None) →
  podSpecPath o' = podSpecPath o ∧ obj_json o' = None
  ∧ obj_Group o' = obj_Group o ∧ obj_Kind o' = obj_Kind o
  ∧ obj_name o' = obj_name o ∧ obj_namespace o' = obj_namespace o.
Proof using HU.
  intros E. split.
  - apply podSpecPath_kind. pose proof (MutateContainers_frame fn o ["kind"]
      (diverge_spec_kind o _) (diverge_spec_kind o _)) as Hf. by rewrite E in Hf.
  - split; [by eapply MutateContainers_None|]. unfold MutateContainers in E. repeat case_match; by simplify_eq/=.
Qed.

(** What the pull secret's MutatePodSpec does to the fields of the pod spec. *)
Lemma pullSecret_fields secret o o' :
  MutatePodSpec (applyImagePullSecret secret) o = (o', None) →
  nestedFieldNoCopy (obj_object o') (podSpecPath o ++ ["imagePullSecrets"])
    = Ok (Some (JArr [JObj {["name" := JStr secret]}]))
  ∧ (∀ f, f ≠ "imagePullSecrets" →
      nestedFieldNoCopy (obj_object o') (podSpecPath o ++ [f])
      = nestedFieldNoCopy (obj_object o) (podSpecPath o ++ [f]))
  ∧ obj_json o' = None ∧ obj_Group o' = obj_Group o ∧ obj_Kind o' = obj_Kind o
  ∧ obj_name o' = obj_name o ∧ obj_namespace o' = obj_namespace o.
Proof using HU.
  unfold MutatePodSpec. destruct (nestedFieldNoCopy (obj_object o) (podSpecPath o)) as [[[| | | | | |ps]|]|] eqn:E;
    try done. unfold applyImagePullSecret. destruct (u_SetNestedField ps _ _) as [ps' [e|]] eqn:Es; [done|].
  intros [= <-]. destruct (u_ok_field U HU _ _ _ _ Es) as [Hget Hframe].
  assert (∀ q, nestedFieldNoCopy (replaceField (obj_object o) (JObj ps') (podSpecPath o)) (podSpecPath o ++ q)
    = nestedFieldNoCopy ps' q) as Hq.
  { intros q. unfold nestedFieldNoCopy at 1. rewrite nestedField_app.
    pose proof (replaceField_get (obj_object o) (JObj ps') (podSpecPath o) (JObj ps)
      (podSpecPath_nonempty o) E) as Hr. unfold nestedFieldNoCopy in Hr. by rewrite Hr. }
  cbn [with_object obj_object obj_json obj_Group obj_Kind obj_name obj_namespace]. split_and!; try done.
  - by rewrite Hq.
  - intros f Hf. rewrite Hq, Hframe by (left; congruence). unfold nestedFieldNoCopy.
    rewrite nestedField_app. unfold nestedFieldNoCopy in E. by rewrite E.
Qed.

(** The image a container names, if any. *)
Definition image_of (c : jmap) : string :=
  match c !! "image" with Some (JStr s) => s | _ => "" end.

(** The container [y] is [x] with its image moved to the registry. *)
Definition moved (registry : string) (x y : json) : Prop :=
  ∃ c, x = JObj c ∧ y = JObj (<["image" := JStr (applyPrivateRegistryToImage registry (image_of c))]> c).

Lemma applyToContainer_moved registry l l' :
  Forall2 (λ x y, ∃ c c', x = JObj c ∧ applyPrivateRegistryToContainer registry None c = Ok c' ∧ y = JObj c') l l' →
  Forall2 (moved registry) l l'.
Proof using HU.
  intros Hl. eapply list.Forall2_impl; [exact Hl|]. intros x y (c & c' & -> & Hc & ->). exists c. split; [done|].
  unfold applyPrivateRegistryToContainer in Hc. rewrite (u_ok_string U HU) in Hc. unfold image_of.
  unfold nestedFieldNoCopy in Hc. rewrite nested_cons in Hc. cbn [nestedField] in Hc.
  destruct (c !! "image") as [[]|]; by simplify_eq/=.
Qed.

(** The containers of one item after applyImageRegistry. *)
Lemma applyToItem_containers registry secret o o' f cs :
  registry ≠ "" → isWorkload o → applyToItem registry secret None o = (o', None) →
  f ∈ ["containers"; "initContainers"] →
  nestedFieldNoCopy (obj_object o) (podSpecPath o ++ [f]) = Ok (Some (JArr cs)) →
  ∃ cs', nestedFieldNoCopy (obj_object o') (podSpecPath o ++ [f]) = Ok (Some (JArr cs'))
    ∧ Forall2 (moved registry) cs cs'.
Proof using HU.
  intros Hr Hw E Hf Hcs. unfold applyToItem in E. apply Is_true_true in Hw. rewrite Hw in E.
  rewrite decide_True in E by done.
  destruct (MutateContainers _ o) as [o1 [e|]] eqn:Em; [done|].
  destruct (MutateContainers_lists _ _ _ Em) as (l & l' & Hl & Hl' & Hall & Hinit).
  assert (∃ cs', nestedFieldNoCopy (obj_object o1) (podSpecPath o ++ [f]) = Ok (Some (JArr cs'))
    ∧ Forall2 (moved registry) cs cs') as (cs' & Hcs' & Hmoved).
  { rewrite !elem_of_cons, elem_of_nil in Hf. destruct Hf as [->|[->|[]]].
    - exists l'. split; [done|]. rewrite Hcs in Hl. simplify_eq. by apply applyToContainer_moved.
    - rewrite Hcs in Hinit. destruct Hinit as (ics & Hi & Hall2). exists ics.
      split; [done|by apply applyToContainer_moved]. }
  exists cs'. split; [|done]. destruct (MutateContainers_identity _ _ _ Em) as [Hp _].
  case_decide; [|by simplify_eq].
  destruct (MutatePodSpec _ o1) as [o2 [e|]] eqn:Ep; [done|]. simplify_eq.
  destruct (pullSecret_fields _ _ _ Ep) as (_ & Hframe & _). rewrite Hp in Hframe.
  rewrite Hframe; [done|]. rewrite !elem_of_cons, elem_of_nil in Hf. naive_solver.
Qed.
End workloads.

(** *** The Application *)

Lemma extract_none app i items :
  filter isApplication items = [] → extractApplication app i items = Ok app.
Proof.
  revert i; induction items as [|o items IH]; intros i; [done|]. rewrite filter_cons.
  cbn [extractApplication]. destruct (isApplication o); [by rewrite decide_True|].
  rewrite decide_False by auto. apply IH.
Qed.

Lemma extract_second k i items :
  filter isApplication items ≠ [] → is_Ok (extractApplication (Some k) i items) = false.
Proof.
  revert i; induction items as [|o items IH]; intros i; [done|]. rewrite filter_cons.
  cbn [extractApplication]. destruct (isApplication o); [done|]. rewrite decide_False by auto. apply IH.
Qed.

Lemma extract_unique pre x post i :
  filter isApplication pre = [] → isApplication x → filter isApplication post = [] →
  extractApplication None i (pre ++ x :: post) = Ok (Some (i + length pre)).
Proof.
  intros Hpre Happ Hpost. revert i Hpre; induction pre as [|o pre IH]; intros i Hpre.
  - cbn [app extractApplication]. apply Is_true_true in Happ. rewrite Happ, extract_none by done.
    by rewrite Nat.add_0_r.
  - rewrite filter_cons in Hpre. destruct (decide (isApplication o)) as [|Ho]; [done|].
    cbn [app extractApplication length]. apply Is_true_false in Ho. rewrite Ho, IH by done.
    do 2 f_equal. lia.
Qed.

Lemma extract_many pre x post i :
  isApplication x → filter isApplication pre = [] → filter isApplication post ≠ [] →
  is_Ok (extractApplication None i (pre ++ x :: post)) = false.
Proof.
  intros Happ Hpre Hpost. revert i Hpre; induction pre as [|o pre IH]; intros i Hpre.
  - cbn [app extractApplication]. apply Is_true_true in Happ. rewrite Happ. by apply extract_second.
  - rewrite filter_cons in Hpre. destruct (decide (isApplication o)) as [|Ho]; [done|].
    cbn [app extractApplication]. apply Is_true_false in Ho. rewrite Ho. by apply IH.
Qed.

(** The first element a filter keeps. *)
Lemma filter_first {A} (P : A → Prop) `{∀ x, Decision (P x)} (l : list A) x k :
  filter P l = x :: k →
  ∃ pre post, l = pre ++ x :: post ∧ filter P pre = [] ∧ P x ∧ filter P post = k.
Proof.
  induction l as [|y l IH]; [done|]. rewrite filter_cons. case_decide as Hy.
  - intros [= -> <-]. by exists [], l.
  - intros (pre & post & -> & Hpre & Hx & Hpost)%IH. exists (y :: pre), post.
    by rewrite filter_cons, decide_False.
Qed.

(** Two fields under the same map, set one after the other. *)
Lemma set_two `{U : Unstructured} m f g1 g2 v1 v2 :
  unstructured_ok U → g1 ≠ g2 →
  nestedFieldNoCopy m [f] = Ok None ∨ (∃ x, nestedFieldNoCopy m [f] = Ok (Some (JObj x))) →
  ∃ m1 m2, u_SetNestedField m v1 [f; g1] = (m1, None) ∧ u_SetNestedField m1 v2 [f; g2] = (m2, None)
    ∧ nestedFieldNoCopy m2 [f; g1] = Ok (Some v1) ∧ nestedFieldNoCopy m2 [f; g2] = Ok (Some v2).
Proof.
  intros HU Hne Hf. destruct (u_ok_set U HU m v1 f g1 Hf) as [m1 E1].
  destruct (u_ok_field U HU _ _ _ _ E1) as [Hget _].
  assert (∃ x, nestedFieldNoCopy m1 [f] = Ok (Some (JObj x))) as Hx.
  { revert Hget. unfold nestedFieldNoCopy. rewrite !nested_cons.
    destruct (m1 !! f) as [[]|]; simpl; try done. by eexists. }
  destruct (u_ok_set U HU m1 v2 f g2) as [m2 E2]; [by right|].
  destruct (u_ok_field U HU _ _ _ _ E2) as [Hget2 Hframe].
  exists m1, m2. split_and!; [done..| |done]. rewrite Hframe; [done|]. right. left. congruence.
Qed.

(** *** Kinds *)

Lemma foldl_kinds `{Unstructured} (items : list Object) (s : gset Kube.GroupKind) gk :
  gk ∈ foldl (λ kinds o, {[GroupKind o]} ∪ kinds) s items ↔ gk ∈ s ∨ gk ∈ GroupKind <$> items.
Proof. revert s; induction items as [|o items IH]; intros s; simpl; [set_solver|]. rewrite IH. set_solver. Qed.

#[local] Instance gk_le_total `{SchemaText} : Total gk_le.
Proof. intros x y. apply (total String.le). Qed.
#[local] Instance gk_le_trans `{SchemaText} : Transitive gk_le.
Proof. intros x y z. apply (transitivity (R := String.le)). Qed.

(** Sorted lists of kinds that read back from their text are determined by
    their elements. *)
Lemma kinds_sorted_unique `{SchemaText} (l k : list Kube.GroupKind) :
  l ≡ₚ k → Forall gk_text_ok l → StronglySorted gk_le l → StronglySorted gk_le k → l = k.
Proof.
  intros Hp Hok Hl Hk. apply (StronglySorted_unique_strong gk_le); [|done..].
  intros x y Hx Hy Hxy Hyx. rewrite <- Hp in Hy. rewrite list.Forall_forall in Hok.
  rewrite <- (gk_text_parse x (Hok x Hx)), <- (gk_text_parse y (Hok y Hy)). f_equal.
  by apply (anti_symm String.le).
Qed.

Lemma uniqueGroupKind_perm `{RangeOrder, SchemaText, Unstructured} objects :
  NoDup (uniqueGroupKind objects) ∧ StronglySorted gk_le (uniqueGroupKind objects)
  ∧ ∀ gk, gk ∈ uniqueGroupKind objects ↔ gk ∈ GroupKind <$> Items objects.
Proof.
  unfold uniqueGroupKind. split_and!.
  - rewrite merge_sort_Permutation. apply NoDup_range_set.
  - apply StronglySorted_merge_sort; apply _.
  - intros gk. rewrite merge_sort_Permutation, elem_of_range_set, foldl_kinds. set_solver.
Qed.

(** The iteration order of the map does not show in the kinds. *)
Lemma uniqueGroupKind_order (R1 R2 : RangeOrder) `{SchemaText, Unstructured} objects :
  Forall gk_text_ok (GroupKind <$> Items objects) →
  @uniqueGroupKind _ R1 _ objects = @uniqueGroupKind _ R2 _ objects.
Proof.
  intros Hok. destruct (@uniqueGroupKind_perm R1 _ _ objects) as (N1 & S1 & E1).
  destruct (@uniqueGroupKind_perm R2 _ _ objects) as (N2 & S2 & E2).
  apply kinds_sorted_unique; [|apply list.Forall_forall|done|done].
  - apply NoDup_Permutation; [done..|]. intros gk. by rewrite E1, E2.
  - intros gk Hgk. rewrite list.Forall_forall in Hok. apply Hok. by apply E1.
Qed.

(* ------------------------------------------------------------------ *)
(** ** Properties *)

(** The bounds of the scores. *)
Lemma score_bounds o :
  let crd := "apiextensions.k8s.io/CustomResourceDefinition" in
  (gkString o ≠ crd → (0 <= DefaultObjectOrder o)%Z)
  ∧ (gkString o ≠ crd → gkString o ≠ "/Namespace" → (1 <= DefaultObjectOrder o)%Z)
  ∧ (gkString o ≠ "/Service" → (DefaultObjectOrder o <= 1001)%Z).
Proof. cbv zeta. unfold DefaultObjectOrder. repeat case_decide; (split_and!; intros; [done || lia..]). Qed.

(** The score of an object of a known kind. *)
Ltac known_score o E :=
  let s := fresh "s" in let Es := fresh "Es" in
  remember (DefaultObjectOrder o) as s eqn:Es; unfold DefaultObjectOrder in Es; rewrite E in Es;
  vm_compute in Es; subst s; clear E.

(** The order in which a sorted manifest is applied: CRDs before everything
    else, Namespaces before everything but CRDs, the subjects and roles of
    cluster-wide and namespaced bindings before the bindings, ConfigMaps and
    Secrets before Deployments, Deployments before their autoscalers, and
    Services after everything else. RoleBindings, whose score is the default
    one, come after the Deployments of the apps group. *)
Theorem apply_order (o o' : Objects) (i j : nat) (x y : Object) :
  Sort DefaultObjectOrder o o' → Items o' !! i = Some x → Items o' !! j = Some y →
  let crd := "apiextensions.k8s.io/CustomResourceDefinition" in
  (gkString x = crd → gkString y ≠ crd → i < j)
  ∧ (gkString x = "/Namespace" → gkString y ≠ crd → gkString y ≠ "/Namespace" → i < j)
  ∧ (gkString x ∈ ["/ServiceAccount"; "rbac.authorization.k8s.io/ClusterRole"] →
     gkString y = "rbac.authorization.k8s.io/ClusterRoleBinding" → i < j)
  ∧ (obj_Group x = "rbac.authorization.k8s.io" → obj_Kind x = "Role" →
     obj_Group y = "rbac.authorization.k8s.io" → obj_Kind y = "RoleBinding" → i < j)
  ∧ (gkString x ∈ ["/ConfigMap"; "/Secret"] →
     gkString y ∈ ["extensions/Deployment"; "apps/Deployment"] → i < j)
  ∧ (gkString x ∈ ["extensions/Deployment"; "apps/Deployment"] →
     gkString y = "autoscaling/HorizontalPodAutoscaler" → i < j)
  ∧ (gkString x ≠ "/Service" → gkString y = "/Service" → i < j)
  ∧ (obj_Group x = "apps" → obj_Kind x = "Deployment" →
     obj_Group y = "rbac.authorization.k8s.io" → obj_Kind y = "RoleBinding" → i < j).
Proof.
  intros Hsort Hi Hj crd. subst crd.
  assert (∀ s t, gkString x = s → gkString y = t → less DefaultObjectOrder x y = true → i < j) as Hlt
    by (intros s t _ _; by apply (Sort_before DefaultObjectOrder o o')).
  split_and!.
  all: intros; eapply Hlt; [done|done|].
  4, 8: unfold less, DefaultObjectOrder, gkString; repeat match goal with
    | E : obj_Group _ = _ |- _ => rewrite E; clear E | E : obj_Kind _ = _ |- _ => rewrite E; clear E end;
    vm_compute; done.
  all: apply less_score; destruct (score_bounds x) as (? & ? & ?), (score_bounds y) as (? & ? & ?).
  all: repeat match goal with
    | E : gkString _ ∈ _ |- _ => rewrite !elem_of_cons, elem_of_nil in E; destruct E as [E|[E|[]]]
    | E : gkString ?o = _ |- _ => known_score o E
    | B : ?P → _, E : ?P |- _ => specialize (B E)
    end; lia.
Qed.

(** Rewriting an image to a private registry is idempotent for every image
    exactly when the registry has one slash, a host and a project. A registry
    that is a bare host loses a component of deeper image names each time, one
    with more slashes repeats its own tail. *)
Theorem registry_idempotent (registry : string) :
  (∀ image, applyPrivateRegistryToImage registry (applyPrivateRegistryToImage registry image)
     = applyPrivateRegistryToImage registry image)
  ↔ ∃ host project, registry = host +:+ "/" +:+ project
      ∧ strings.free_of "/" host ∧ strings.free_of "/" project.
Proof.
  split.
  - intros Hid. destruct (registry_depth_total registry) as [h Hh|h p Hh Hp|h p q Hh Hp].
    + specialize (Hid "a/b/c/d"). change (applyPrivateRegistryToImage h "a/b/c/d")
        with (h +:+ "/" +:+ "c" +:+ "/" +:+ "d") in Hid.
      rewrite image_three in Hid by done. exfalso. revert Hid. apply string_neq_length.
      rewrite !string_length_app. simpl. lia.
    + by exists h, p.
    + exfalso. specialize (Hid ""). revert Hid. rewrite image_empty, !string_app_assoc.
      rewrite image_three by done. apply string_neq_length. rewrite !string_length_app. simpl. lia.
  - intros (h & p & -> & Hh & Hp) image. unfold applyPrivateRegistryToImage at 2 3.
    generalize (default "" (list.last (SplitN image 3))). intros n.
    rewrite !string_app_assoc. by rewrite image_three, !string_app_assoc.
Qed.

(** C34. A private registry reaches every container of the workloads: after a
    successful run there are as many objects as before, in the same order, and
    for each Deployment, DaemonSet, StatefulSet, Job and CronJob among them each
    container and init container has its image moved to the registry, the pod
    spec names the pull secret, the identity is unchanged and no stale text is
    kept. Of objects of other kinds the theorem says nothing. *)
Theorem registry_applied `{U : Unstructured} (registry secret : string) (objects objects' : Objects) :
  unstructured_ok U → registry ≠ "" → secret ≠ "" →
  applyImageRegistry registry secret None objects = (objects', None) →
  Forall2 (λ o o', isWorkload o = true →
      (∀ f cs, f ∈ ["containers"; "initContainers"] →
         nestedFieldNoCopy (obj_object o) (podSpecPath o ++ [f]) = Ok (Some (JArr cs)) →
         ∃ cs', nestedFieldNoCopy (obj_object o') (podSpecPath o ++ [f]) = Ok (Some (JArr cs'))
           ∧ Forall2 (moved registry) cs cs')
      ∧ nestedFieldNoCopy (obj_object o') (podSpecPath o ++ ["imagePullSecrets"])
        = Ok (Some (JArr [JObj {["name" := JStr secret]}]))
      ∧ obj_json o' = None ∧ obj_Group o' = obj_Group o ∧ obj_Kind o' = obj_Kind o
      ∧ obj_name o' = obj_name o ∧ obj_namespace o' = obj_namespace o) (Items objects) (Items objects')
  ∧ Blobs objects' = Blobs objects ∧ Path objects' = Path objects.
Proof.
  intros HU Hr Hs. unfold applyImageRegistry. rewrite decide_False by naive_solver.
  destruct (forItems _ _) as [items err] eqn:E. intros [= <- ->]. split; [|done].
  apply forItems_ok in E. eapply list.Forall2_impl; [exact E|]. clear E. intros o o' E. cbv beta.
  intros Hw.
  split; [intros f cs Hf Hcs; eapply (applyToItem_containers HU registry secret o); eauto; by rewrite Hw|].
  unfold applyToItem in E. rewrite Hw in E. rewrite (decide_True _ _ Hr) in E.
  destruct (MutateContainers _ o) as [o1 [e|]] eqn:Em; [done|]. rewrite (decide_True _ _ Hs) in E.
  destruct (MutatePodSpec _ o1) as [o2 [e|]] eqn:Ep; [done|]. simplify_eq.
  destruct (MutateContainers_identity HU _ _ _ Em) as (Hp & _ & Hg & Hk & Hn & Hns).
  destruct (pullSecret_fields HU _ _ _ Ep) as (Hps & _ & Hj & Hg' & Hk' & Hn' & Hns').
  rewrite Hp in Hps. rewrite Hg', Hk', Hn', Hns'. done.
Qed.

(** What the comments of the two transforms call all Pods is the pods of those
    five kinds: an object of kind Pod keeps its images and gets no secret. *)
Lemma registry_skips_pods `{U : Unstructured} (registry secret : string) (objects objects' : Objects) :
  applyImageRegistry registry secret None objects = (objects', None) →
  Forall2 (λ o o', obj_Kind o = "Pod" → o' = o) (Items objects) (Items objects').
Proof.
  unfold applyImageRegistry. case_decide; [intros [= <-]; by apply list.Forall_Forall2_diag, list.Forall_true|].
  destruct (forItems _ _) as [items err] eqn:E. intros [= <- ->].
  apply forItems_ok in E. eapply list.Forall2_impl; [exact E|]. clear E. intros o o' E Hk.
  assert (isWorkload o = false) as Hw by (unfold isWorkload; by rewrite Hk).
  unfold applyToItem in E. rewrite Hw in E. by simplify_eq.
Qed.

(** The managed Application. Without exactly one Application in the manifest
    the transform fails and changes nothing. With one, whose spec is missing or
    a map, only that object changes: its selector becomes the labels of the
    instance and its component kinds the kinds of the manifest, each once and
    sorted by their text. *)
Theorem application_transform `{RangeOrder, SchemaText, U : Unstructured} {D} (labelMaker : LabelMaker D)
    (instance : D) (objects : Objects) :
  unstructured_ok U →
  match filter isApplication (Items objects) with
  | [a] => nestedFieldNoCopy (obj_object a) ["spec"] = Ok None ∨
      (∃ x, nestedFieldNoCopy (obj_object a) ["spec"] = Ok (Some (JObj x))) →
      ∃ pre post a' kinds,
        Items objects = pre ++ a :: post
        ∧ transformApplication labelMaker instance objects
          = (mkObjects (pre ++ a' :: post) (Blobs objects) (Path objects), None)
        ∧ nestedFieldNoCopy (obj_object a') ["spec"; "selector"]
          = Ok (Some (JObj {["matchLabels" := JObj (JStr <$> labelMaker instance)]}))
        ∧ nestedFieldNoCopy (obj_object a') ["spec"; "componentGroupKinds"]
          = Ok (Some (JArr (groupKindEntry <$> kinds)))
        ∧ NoDup kinds ∧ StronglySorted gk_le kinds
        ∧ (∀ gk, gk ∈ kinds ↔ gk ∈ GroupKind <$> Items objects)
  | _ => ∃ e, transformApplication labelMaker instance objects = (objects, Some e)
  end.
Proof.
  intros HU. destruct (filter isApplication (Items objects)) as [|a rest] eqn:E.
  { unfold transformApplication, ExtractApplication. rewrite extract_none by done. by eexists. }
  destruct (filter_first _ _ _ _ E) as (pre & post & Hitems & Hpre & Ha & Hpost).
  destruct rest as [|b rest].
  - intros Hspec. unfold transformApplication, ExtractApplication. rewrite Hitems, extract_unique by done.
    cbn [plus]. rewrite list_alter_middle. cbn [with_items Items Blobs Path]. rewrite list_alter_middle.
    set (sel := JObj _). set (a1 := (SetNestedField sel ["spec"; "selector"] a).1).
    set (objects1 := mkObjects (pre ++ a1 :: post) (Blobs objects) (Path objects)).
    destruct (uniqueGroupKind_perm objects1) as (Hnd & Hs & Hk).
    set (kinds := uniqueGroupKind objects1) in *. set (cgk := groupKindEntry <$> kinds).
    destruct (set_two (obj_object a) "spec" "selector" "componentGroupKinds" sel (JArr cgk) HU)
      as (m1 & m2 & E1 & E2 & Hg1 & Hg2); [done|done|].
    assert (obj_object a1 = m1) as Ha1 by (unfold a1, SetNestedField; by rewrite E1).
    exists pre, post, (SetNestedSlice cgk ["spec"; "componentGroupKinds"] a1).1, kinds.
    split; [done|]. split; [reflexivity|].
    assert (obj_object (SetNestedSlice cgk ["spec"; "componentGroupKinds"] a1).1 = m2) as ->.
    { unfold SetNestedSlice. rewrite Ha1. by rewrite E2. }
    split_and!; [done..|]. intros gk. rewrite Hk. cbn [objects1 Items]. rewrite !fmap_app, !fmap_cons.
    assert (GroupKind a1 = GroupKind a) as ->; [|done]. unfold GroupKind. f_equal. rewrite Ha1.
    destruct (u_ok_field U HU _ _ _ _ E1) as [_ Hframe].
    apply (u_ok_gvk U HU); apply Hframe; by left.
  - unfold transformApplication, ExtractApplication. rewrite Hitems.
    assert (is_Ok (extractApplication None 0 (pre ++ a :: post)) = false) as Hno
      by (apply extract_many; [done..|by rewrite Hpost]).
    destruct (extractApplication None 0 _) as [|e]; [done|]. by exists e.
Qed.

(* ------------------------------------------------------------------ *)
(** ** Examples *)

Example registry_examples :
  applyPrivateRegistryToImage "gcr.io/mirror" "nginx:1.25" = "gcr.io/mirror/nginx:1.25"
  ∧ applyPrivateRegistryToImage "gcr.io/mirror" "docker.io/library/nginx" = "gcr.io/mirror/nginx"
  ∧ applyPrivateRegistryToImage "gcr.io/mirror" "quay.io/org/team/app" = "gcr.io/mirror/team/app".
Proof. done. Qed.

Definition example_item (g k : string) : Object := mkObj ∅ g "v1" k "x" "" None.

Lemma apply_order_witness :
  Sort DefaultObjectOrder
    (mkObjects [example_item "" "Service"; example_item "" "Namespace"] [] "")
    (mkObjects [example_item "" "Namespace"; example_item "" "Service"] [] "") ∧ 0 < 1.
Proof.
  assert (Sort DefaultObjectOrder
    (mkObjects [example_item "" "Service"; example_item "" "Namespace"] [] "")
    (mkObjects [example_item "" "Namespace"; example_item "" "Service"] [] "")) as Hs.
  { split; [apply Permutation_swap|]. split; [|done]. repeat constructor. }
  split; [exact Hs|].
  destruct (apply_order _ _ 0 1 (example_item "" "Namespace") (example_item "" "Service") Hs
    eq_refl eq_refl) as (_ & Hns & _). apply Hns; [reflexivity|discriminate|discriminate].
Defined.

Definition example_deployment : Object :=
  mkObj (example_content [JObj (example_image "docker.io/library/nginx")]) "apps" "v1" "Deployment"
    "web" "prod" None.

Definition example_registry : Objects * option error :=
  @applyImageRegistry example_unstructured "gcr.io/mirror" "key" None
    (mkObjects [example_deployment; example_item "" "Pod"] [] "").

Lemma registry_applied_witness :
  example_registry.2 = None ∧
  ∃ o' cs', Items example_registry.1 !! 0 = Some o'
    ∧ nestedFieldNoCopy (obj_object o') ["spec"; "template"; "spec"; "containers"] = Ok (Some (JArr cs'))
    ∧ Forall2 (moved "gcr.io/mirror") [JObj (example_image "docker.io/library/nginx")] cs'.
Proof.
  assert (example_registry.2 = None) as E by reflexivity. split; [exact E|].
  destruct (@registry_applied example_unstructured "gcr.io/mirror" "key"
    (mkObjects [example_deployment; example_item "" "Pod"] [] "") example_registry.1
    example_unstructured_ok) as [Hall _]; [discriminate|discriminate|reflexivity|].
  destruct (Forall2_lookup_l _ _ _ 0 example_deployment Hall eq_refl) as (o' & Ho' & Hw).
  exists o'. destruct (Hw eq_refl) as [Hcs _].
  destruct (Hcs "containers" [JObj (example_image "docker.io/library/nginx")]) as (cs' & Hcs' & Hm);
    [left|reflexivity|].
  exists cs'. split; [exact Ho'|]. split; [exact Hcs'|exact Hm].
Defined.

Definition example_application : Object :=
  mkObj {["kind" := JStr "Application"]} "app.k8s.io" "v1" "Application" "web" "prod" None.

Lemma application_transform_witness :
  ∃ a', (@transformApplication example_unstructured unit canonical_range example_text
      (λ _, {["app" := "web"]}) () (mkObjects [example_application; example_deployment] [] "")).1
    = mkObjects [a'; example_deployment] [] ""
    ∧ nestedFieldNoCopy (obj_object a') ["spec"; "selector"]
      = Ok (Some (JObj {["matchLabels" := JObj (JStr <$> {["app" := "web"]})]})).
Proof.
  destruct (@application_transform canonical_range example_text example_unstructured unit
    (λ _, {["app" := "web"]}) () (mkObjects [example_application; example_deployment] [] "")
    example_unstructured_ok) as (pre & post & a' & kinds & Hi & Ht & Hs & _); [left; reflexivity|].
  exists a'. rewrite Ht. split; [|exact Hs].
  destruct pre as [|x [|y pre]]; cbn in Hi; [injection Hi as <-; reflexivity|discriminate Hi|].
  exfalso. apply (f_equal length) in Hi. cbn in Hi. rewrite length_app in Hi. cbn in Hi. lia.
Defined.

End transforms.
