(* ===== verification/Addon.v ===== *)
(** * Addons (pkg/patterns/addon)

    The accessors of the common spec and status ([utils/helpers.go]), the two
    transforms of the addon package ([application.go], [patch.go]), and the
    implementations of the status interface: the kstatus aggregator
    ([status/kstatus.go], [conditions.go], [accessors.go]), the basic
    aggregator ([status/aggregate.go]) and the version check
    ([status/version.go]). The types of the addon objects, kstatus, semver and
    the converters are parameters. *)

From S2P Require Import Prelude Kube Manifest Transforms.
From stdpp Require Import options.
Import manifest transforms.

Module addon.

(** ** v1alpha1 *)

Record CommonSpec := mkSpec { Version : string; Channel : string }.

(** [Errors] is [None] for a nil slice, which [reflect.DeepEqual] tells from an
    empty one. *)
Record CommonStatus := mkStatus {
  Healthy : bool;
  Errors : option (list string);
  Phase : string;
  ObservedGeneration : Z
}.

#[export] Instance CommonStatus_eq_dec : EqDecision CommonStatus.
Proof. solve_decision. Defined.

(** A [metav1.Condition]; the time of the last transition is not kept. *)
Record Condition := mkCondition {
  c_Type : string;
  c_Status : string;
  c_Reason : string;
  c_Message : string
}.

(** What reflection finds in the field [Status.Conditions] of a struct. *)
Inductive conditionsField :=
  | NoStatusField
  | NoConditionsField
  | WrongConditionsType
  | ConditionsUnsettable (l : list Condition)
  | ConditionsField (l : list Condition).

(** The methods of [CommonObject], of [Patchable] where it is implemented, and
    what reflection does to the struct. *)
Class CommonObject (C : Type) := {
  co_ComponentName : C → string;
  co_CommonSpec : C → CommonSpec;
  co_GetCommonStatus : C → CommonStatus;
  co_SetCommonStatus : C → CommonStatus → C;
  co_PatchSpec : C → option (list string);
  co_conditions : C → conditionsField;
  co_setConditions : C → list Condition → C;
  co_meta : DeclarativeObject C
}.
#[export] Existing Instance co_meta.

(** What a [CommonObject] is expected to do: the status set is the status got,
    and conditions and common status are different fields. *)
Record common_ok (C : Type) `{CommonObject C} : Prop := {
  co_ok_status c s : co_GetCommonStatus (co_SetCommonStatus c s) = s;
  co_ok_conditions c l : co_GetCommonStatus (co_setConditions c l) = co_GetCommonStatus c;
  co_ok_generation c s : d_GetGeneration (co_SetCommonStatus c s) = d_GetGeneration c;
  co_ok_generation_conditions c l : d_GetGeneration (co_setConditions c l) = d_GetGeneration c;
  co_ok_get_conditions c l l' : co_conditions c = ConditionsField l →
    co_conditions (co_setConditions c l') = ConditionsField l';
  co_ok_keep_conditions c s : co_conditions (co_SetCommonStatus c s) = co_conditions c
}.

(** The dynamic type of an object, as the type switches of the package see
    it. *)
Inductive subject (C : Type) :=
  | Common (c : C)
  | Unstruct (m : jmap)
  | OtherObject (c : C).
Arguments Common {C} _.
Arguments Unstruct {C} _.
Arguments OtherObject {C} _.

(** [runtime.DefaultUnstructuredConverter], at the types in use, the YAML
    decoder, and the text of an error. *)
Class Converter := {
  conv_status_from : jmap → res CommonStatus;
  conv_status_to : CommonStatus → res jmap;
  conv_spec_from : jmap → res CommonSpec;
  (** the conditions of a Deployment: type and status *)
  conv_deployment_from : jmap → res (list (string * string));
  yaml_Decode : string → res jmap;
  error_text : error → string;
  GVK_String : Kube.GroupVersionKind → string;
  (** metadata of an unstructured subject *)
  u_GetGeneration : jmap → Z;
  u_GetUID : jmap → string
}.

Section addon.
Context {C : Type} `{CommonObject C, Unstructured, Converter}.

(** ** utils/helpers.go *)

Definition genError : error := Errorf "instance is not addonsv1alpha1.CommonObject or unstructured".

Definition GetCommonStatus (instance : subject C) : res CommonStatus :=
  match instance with
  | Common v => Ok (co_GetCommonStatus v)
  | Unstruct v =>
      match u_NestedMap v ["status"] with
      | Err e => Err (WrapV "unable to get status from unstuctured" e)
      | Ok unstructStatus => conv_status_from (default ∅ unstructStatus)
      end
  | OtherObject _ => Err genError
  end.

Definition SetCommonStatus (instance : subject C) (status : CommonStatus) :
    subject C * option error :=
  match instance with
  | Common v => (Common (co_SetCommonStatus v status), None)
  | Unstruct v =>
      match conv_status_to status with
      | Err e => (instance, Some (WrapV "unable to convert unstructured to addonStatus" e))
      | Ok unstructStatus =>
          match u_SetNestedField v (JObj unstructStatus) ["status"] with
          | (v, Some e) => (Unstruct v, Some (WrapV "unable to set status in unstructured" e))
          | (v, None) => (Unstruct v, None)
          end
      end
  | OtherObject _ => (instance, Some genError)
  end.

Definition GetCommonSpec (instance : subject C) : res CommonSpec :=
  match instance with
  | Common v => Ok (co_CommonSpec v)
  | Unstruct v =>
      match u_NestedMap v ["spec"] with
      | Err e => Err (WrapV "unable to get spec from unstuctured" e)
      | Ok unstructSpec => conv_spec_from (default ∅ unstructSpec)
      end
  | OtherObject _ => Err genError
  end.

Definition GetCommonName (instance : subject C) : res string :=
  match instance with
  | Common v => Ok (co_ComponentName v)
  | Unstruct v => Ok (strings.ToLower (u_GetKind v))
  | OtherObject _ => Err genError
  end.

(** [info.Subject.GetGeneration()]. *)
Definition GetGeneration (instance : subject C) : Z :=
  match instance with
  | Common v | OtherObject v => d_GetGeneration v
  | Unstruct v => u_GetGeneration v
  end.

(** ** application.go *)

Definition Pending : string := "Pending".
Definition Succeeded : string := "Succeeded".

Definition TransformApplicationFromStatus (instance : subject C) (objects : Objects) :
    Objects * option error :=
  match GetCommonStatus instance with
  | Err e => (objects, Some e)
  | Ok status =>
      match GetCommonSpec instance with
      | Err e => (objects, Some e)
      | Ok spec =>
          match ExtractApplication objects with
          | Err e => (objects, Some e)
          | Ok None => (objects, Some (Errorf
              "cannot TransformApplicationFromStatus without an app.k8s.io/Application in the manifest"))
          | Ok (Some i) =>
              let assemblyPhase := if Healthy status then Succeeded else Pending in
              let update app :=
                let app := (SetNestedField (JStr (Version spec)) ["spec"; "descriptor"; "version"] app).1 in
                (SetNestedField (JStr assemblyPhase) ["spec"; "assemblyPhase"] app).1 in
              (with_items objects (alter update i (Items objects)), None)
          end
      end
  end.

(** ** patch.go *)

(** The type assertion of the loop panics on an element that is not a map;
    the panic is an error of its own. *)
Fixpoint unstructuredPatches (patch : list json) : res (list jmap) :=
  match patch with
  | [] => Ok []
  | JObj m :: patch => l ← unstructuredPatches patch; Ok (m :: l)
  | _ :: _ => Err (Errorf "panic: interface conversion")
  end.

Definition ApplyPatches (L : patchLibs) (object : subject C) (objects : Objects) :
    Objects * option error :=
  let patches :=
    match object with
    | Unstruct m =>
        match u_NestedSlice m ["spec"; "patches"] with
        | Err e => Err (WrapV "unable to get patches from unstructured" e)
        | Ok patch => unstructuredPatches (default [] patch)
        end
    | Common c | OtherObject c =>
        match co_PatchSpec c with
        | Some raws => wrapV "error parsing patch json into unstructured object" (res_mapM yaml_Decode raws)
        | None => Err (Errorf "provided object does not implement Patchable type")
        end
    end in
  match patches with
  | Err e => (objects, Some e)
  | Ok patches => Patch L patches objects
  end.
End addon.

(** ** statusinfo.go *)

Definition KnownErrorApplyFailed : string := "FailedToApply".
Definition KnownErrorVersionCheckFailed : string := "VersionCheckFailed".

(** LiveObjectReader, over one computation of a status. *)
Definition LiveObjectReader : Type := Kube.GroupVersionKind → Kube.NamespacedName → res jmap.

Record StatusInfo (S : Type) := mkInfo {
  Subject : S;
  si_Manifest : option Objects;
  LiveObjects : option LiveObjectReader;
  KnownError : string;
  si_Err : option error
}.
Arguments mkInfo {S} _ _ _ _ _.
Arguments Subject {S} _.
Arguments si_Manifest {S} _.
Arguments LiveObjects {S} _.
Arguments KnownError {S} _.
Arguments si_Err {S} _.

(** ** kstatus *)

(** [status.Status] of cli-utils. *)
Inductive Status :=
  | InProgressStatus
  | FailedStatus
  | CurrentStatus
  | TerminatingStatus
  | NotFoundStatus
  | UnknownStatus.

#[export] Instance Status_eq_dec : EqDecision Status.
Proof. solve_decision. Defined.
#[export] Instance Status_countable : Countable Status.
Proof.
  refine (inj_countable'
    (λ s, match s with InProgressStatus => 0 | FailedStatus => 1 | CurrentStatus => 2
          | TerminatingStatus => 3 | NotFoundStatus => 4 | UnknownStatus => 5 end)
    (λ n, match n with 0 => InProgressStatus | 1 => FailedStatus | 2 => CurrentStatus
          | 3 => TerminatingStatus | 4 => NotFoundStatus | _ => UnknownStatus end) _).
  by intros [].
Defined.

Definition Status_string (s : Status) : string :=
  match s with
  | InProgressStatus => "InProgress"
  | FailedStatus => "Failed"
  | CurrentStatus => "Current"
  | TerminatingStatus => "Terminating"
  | NotFoundStatus => "NotFound"
  | UnknownStatus => "Unknown"
  end.

(** The functions of kstatus and of [meta] in use. [Compute] may answer no
    result; [Augment] changes the object it is given. *)
Class Kstatus := {
  Compute : jmap → res (option Status);
  Augment : jmap → res jmap;
  GetObjectWithConditions : jmap → res (list Condition);
  meta_SetStatusCondition : list Condition → Condition → list Condition
}.

(** What [meta.SetStatusCondition] documents: the first condition of the new
    one's type, which is added if there is none, becomes the new one; those of
    other types are as they were, and a list with one condition for each type
    stays so. (Of a list with several of one type it updates the first only.) *)
Definition setStatusCondition_ok (K : Kstatus) : Prop := ∀ l c,
  (∃ i, list_find (λ x, c_Type x = c_Type c) (meta_SetStatusCondition l c) = Some (i, c))
  ∧ (NoDup (c_Type <$> l) → NoDup (c_Type <$> meta_SetStatusCondition l c))
  ∧ ∀ x, c_Type x ≠ c_Type c → x ∈ meta_SetStatusCondition l c ↔ x ∈ l.

Section kstatus.
Context {C : Type} `{CommonObject C, Unstructured, Converter, Kstatus}.

(** *** accessors.go *)

(** The struct of an unstructured object has no field [Status]. *)
Definition conditionsOf (instance : subject C) : conditionsField :=
  match instance with
  | Common c | OtherObject c => co_conditions c
  | Unstruct _ => NoStatusField
  end.

Definition GetConditions (instance : subject C) : res (list Condition) :=
  match conditionsOf instance with
  | NoStatusField => Err (Errorf "status field not found")
  | NoConditionsField => Ok []
  | WrongConditionsType => Err (Errorf "unexpecetd type for status.conditions")
  | ConditionsUnsettable l | ConditionsField l => Ok l
  end.

Definition SetConditions (instance : subject C) (newConditions : list Condition) :
    subject C * option error :=
  match conditionsOf instance with
  | NoStatusField => (instance, Some (Errorf "status field not found"))
  | NoConditionsField => (instance, None)
  | ConditionsUnsettable _ => (instance, Some (Errorf "cannot set status.conditions field"))
  | WrongConditionsType => (instance, Some (Errorf "cannot set type to status.conditions type"))
  | ConditionsField _ =>
      (match instance with
       | Common c => Common (co_setConditions c newConditions)
       | OtherObject c => OtherObject (co_setConditions c newConditions)
       | Unstruct m => Unstruct m
       end, None)
  end.

(** *** conditions.go *)

Definition AbnormalReason : string := "ManifestsNotReady".
Definition NormalReason : string := "Normal".
Definition ReadyType : string := "Ready".

Definition buildReadyCondition (isReady : bool) (abnormalConditions : list Condition) : Condition :=
  let status := if isReady then "True" else "False" in
  match abnormalConditions with
  | [] => mkCondition ReadyType status NormalReason "all manifests are reconciled."
  | _ => let messages := filter (λ m, m ≠ "") (c_Message <$> abnormalConditions) in
         mkCondition ReadyType status AbnormalReason (strings.Join messages newline)
  end.

(** *** kstatus.go *)

Definition getGVKNN (obj : jmap) : string :=
  GVK_String (u_GVK obj) +:+ "/" +:+ u_GetNamespace obj +:+ "/" +:+ u_GetName obj.

Definition getAbnormalConditions (unstruct : jmap) : list Condition :=
  match Augment unstruct with
  | Err _ => []
  | Ok unstruct =>
      match GetObjectWithConditions unstruct with
      | Err _ => []
      | Ok conditions =>
          match list.last conditions with
          | None => []
          | Some cond =>
              if decide (c_Type cond = "Stalled" ∨ c_Type cond = "Reconciling")
              then [mkCondition (c_Type cond) (c_Status cond) (c_Reason cond)
                      (getGVKNN unstruct +:+ ":" +:+ c_Message cond)]
              else []
          end
      end
  end.

Definition aggregateStatus (m : gmap Status bool) : Status :=
  let inProgress := default false (m !! InProgressStatus) in
  let terminating := default false (m !! TerminatingStatus) in
  let failed := default false (m !! FailedStatus) in
  if inProgress || terminating then InProgressStatus
  else if failed then FailedStatus
  else CurrentStatus.

Record kstatusAggregator := mkKstatusAggregator {
  GVKComputeMethods : gmap string (jmap → res (option Status));
  GVKAbnormalConditionsMethods : gmap string (jmap → list Condition)
}.

Definition NewOpenKstatusAgregator := mkKstatusAggregator.
Definition NewKstatusAgregator : kstatusAggregator := mkKstatusAggregator ∅ ∅.

(** What one object adds to the map of statuses. *)
Definition objectStatus (k : kstatusAggregator) (live : LiveObjectReader) (object : Object) : Status :=
  let gvk := GroupVersionKind object in
  match live gvk (NamespacedName object) with
  | Err _ => UnknownStatus
  | Ok unstruct =>
      let compute := default Compute (GVKComputeMethods k !! GVK_String gvk) in
      match compute unstruct with
      | Ok (Some s) => s
      | _ => UnknownStatus
      end
  end.

(** The abnormal conditions of one object; none for an object that cannot be
    read. *)
Definition objectConditions (k : kstatusAggregator) (live : LiveObjectReader) (object : Object) :
    list Condition :=
  let gvk := GroupVersionKind object in
  match live gvk (NamespacedName object) with
  | Err _ => []
  | Ok unstruct =>
      default getAbnormalConditions (GVKAbnormalConditionsMethods k !! GVK_String gvk) unstruct
  end.

(** The loop over the manifest. *)
Fixpoint statusLoop (k : kstatusAggregator) (live : LiveObjectReader) (items : list Object)
    (statusMap : gmap Status bool) (abnormalConditions : list Condition) :
    gmap Status bool * list Condition :=
  match items with
  | [] => (statusMap, abnormalConditions)
  | object :: items =>
      statusLoop k live items (<[objectStatus k live object := true]> statusMap)
        (abnormalConditions ++ objectConditions k live object)
  end.

(** What an error of the reconciliation does to the phase, and whether the
    health is still computed from the objects. *)
Definition errorPhase (info : StatusInfo (subject C)) (phase : string) (compute : bool) :
    string * bool :=
  match si_Err info with
  | None => (phase, compute)
  | Some _ =>
      if decide (KnownError info = KnownErrorApplyFailed) then ("Applying", compute)
      else if decide (KnownError info = KnownErrorVersionCheckFailed) then ("VersionMismatch", false)
      else ("InternalError", false)
  end.

Definition with_phase (s : CommonStatus) (phase : string) : CommonStatus :=
  mkStatus (Healthy s) (Errors s) phase (ObservedGeneration s).

(** The end of BuildStatus: health from the phase, and the generation. *)
Definition finishStatus (instance : subject C) (currentStatus : CommonStatus) :
    subject C * option error :=
  SetCommonStatus instance
    (mkStatus (bool_decide (Phase currentStatus = Status_string CurrentStatus))
       (Errors currentStatus) (Phase currentStatus) (GetGeneration instance)).

Definition kstatus_BuildStatus (k : kstatusAggregator) (info : StatusInfo (subject C)) :
    subject C * option error :=
  let instance := Subject info in
  match GetCommonStatus instance with
  | Err e => (instance, Some e)
  | Ok currentStatus =>
      match GetConditions instance with
      | Err e => (instance, Some e)
      | Ok conditions =>
          let computable := match si_Manifest info, LiveObjects info with
                            | Some _, Some _ => true | _, _ => false end in
          let '(phase, compute) := errorPhase info (Phase currentStatus) computable in
          let currentStatus := with_phase currentStatus phase in
          match compute, si_Manifest info, LiveObjects info with
          | true, Some manifest, Some live =>
              let '(statusMap, abnormalConditions) := statusLoop k live (Items manifest) ∅ [] in
              let aggregatedPhase := aggregateStatus statusMap in
              let isReady := bool_decide (aggregatedPhase = CurrentStatus) in
              let readyCondition := buildReadyCondition isReady abnormalConditions in
              let conditions := meta_SetStatusCondition conditions readyCondition in
              let currentStatus := with_phase currentStatus (Status_string aggregatedPhase) in
              match SetConditions instance conditions with
              | (instance, Some e) => (instance, Some e)
              | (instance, None) => finishStatus instance currentStatus
              end
          | _, _, _ => finishStatus instance currentStatus
          end
      end
  end.
End kstatus.

(** ** aggregate.go *)

Section aggregate.
Context {C : Type} `{CommonObject C, Unstructured, Converter}.

Definition successfulDeployment : string := "Available".

Definition deploymentIsHealthy (liveObjects : LiveObjectReader) (gvk : Kube.GroupVersionKind)
    (nn : Kube.NamespacedName) : bool * option error :=
  match liveObjects gvk nn with
  | Err e => (false, Some (WrapW "error reading deployment" e))
  | Ok u =>
      match conv_deployment_from u with
      | Err e => (false, Some (WrapW "error converting deployment from unstructured" e))
      | Ok conditions =>
          if decide ((successfulDeployment, "True") ∈ conditions) then (true, None)
          else (false, Some (Errorf "deployment does not meet condition: Available"))
      end
  end.

Definition serviceIsHealthy (liveObjects : LiveObjectReader) (gvk : Kube.GroupVersionKind)
    (nn : Kube.NamespacedName) : bool * option error :=
  match liveObjects gvk nn with
  | Err e => (false, Some (WrapW "error reading service" e))
  | Ok _ => (true, None)
  end.

(** The switch on the group and kind of an object. *)
Definition objectIsHealthy (liveObjects : LiveObjectReader) (o : Object) : bool * option error :=
  let gvk := GroupVersionKind o in
  let nn := NamespacedName o in
  let gk := gvk_Group gvk +:+ "/" +:+ gvk_Kind gvk in
  if decide (gk = "/Service") then serviceIsHealthy liveObjects gvk nn
  else if decide (gk = "extensions/Deployment" ∨ gk = "apps/Deployment")
  then deploymentIsHealthy liveObjects gvk nn
  else (true, None).

Fixpoint healthLoop (liveObjects : LiveObjectReader) (items : list Object)
    (statusHealthy : bool) (statusErrors : list string) : bool * list string :=
  match items with
  | [] => (statusHealthy, statusErrors)
  | o :: items =>
      let '(healthy, err) := objectIsHealthy liveObjects o in
      healthLoop liveObjects items (statusHealthy && healthy)
        (match err with Some e => statusErrors ++ [error_text e] | None => statusErrors end)
  end.

Definition aggregator_BuildStatus (info : StatusInfo (subject C)) : subject C * option error :=
  let '(statusHealthy, statusErrors) :=
    match si_Err info, si_Manifest info, LiveObjects info with
    | Some _, _, _ => (false, [])
    | None, Some manifest, Some live => healthLoop live (Items manifest) true []
    | None, _, _ => (true, [])
    end in
  let instance := Subject info in
  match GetCommonStatus instance with
  | Err e => (instance, Some e)
  | Ok currentStatus =>
      let status := mkStatus statusHealthy (Some statusErrors) (Phase currentStatus)
                      (GetGeneration instance) in
      if decide (status ≠ currentStatus) then SetCommonStatus instance status
      else (instance, None)
  end.

(** ** version.go *)

(** blang/semver: versions with [GT] and [GTE]; the zero value of the struct
    is the version 0.0.0. *)
Class Semver (V : Type) := {
  sv_Parse : string → res V;
  sv_GT : V → V → bool;
  sv_GTE : V → V → bool;
  sv_zero : V;
  sv_String : V → string
}.

(** The order semver documents: total, and [GT] is [GTE] the other way. *)
Record semver_ok (V : Type) `{Semver V} : Prop := {
  sv_ok_total x y : sv_GTE x y = true ∨ sv_GTE y x = true;
  sv_ok_trans x y z : sv_GTE x y = true → sv_GTE y z = true → sv_GTE x z = true;
  sv_ok_gt x y : sv_GT x y = negb (sv_GTE y x)
}.

Context {V : Type} `{Semver V}.

Definition minOperatorAnnotation : string := "addons.k8s.io/min-operator-version".

(** The loop that looks for the largest version an object asks for. *)
Fixpoint minVersionLoop (items : list Object) (minOperatorVersion : V) : res V :=
  match items with
  | [] => Ok minOperatorVersion
  | obj :: items =>
      match u_GetAnnotations (obj_object obj) !! minOperatorAnnotation with
      | Some versionNeededStr =>
          versionNeeded ← sv_Parse versionNeededStr;
          minVersionLoop items
            (if sv_GT versionNeeded minOperatorVersion then versionNeeded else minOperatorVersion)
      | None => minVersionLoop items minOperatorVersion
      end
  end.

(** VersionCheck answers whether the operator qualifies; when it does not the
    status of the instance is written too. An error setting it is only
    logged. *)
Definition versionCheck (operatorVersion : V) (src : subject C) (objs : Objects) :
    subject C * (bool * option error) :=
  match minVersionLoop (Items objs) sv_zero with
  | Err e => (src, (false, Some e))
  | Ok minOperatorVersion =>
      if sv_GTE operatorVersion minOperatorVersion then (src, (true, None))
      else
        let errors := ["manifest needs operator version >= " +:+ sv_String minOperatorVersion
                       +:+ ", this operator is version " +:+ sv_String operatorVersion] in
        match GetCommonStatus src with
        | Err e => (src, (false, Some e))
        | Ok currentStatus =>
            let status := mkStatus false (Some errors) (Phase currentStatus)
                            (ObservedGeneration currentStatus) in
            let src := if decide (status ≠ currentStatus) then (SetCommonStatus src status).1 else src in
            (src, (false, Some (Errorf
              "operator not qualified, manifest needs operator version >= ")))
        end
  end.

Definition NewVersionCheck (operatorVersionString : string) : res V :=
  wrapV "unable to parse operator version" (sv_Parse operatorVersionString).
End aggregate.

(** ** status.go and basic.go *)

(** StatusBuilder: the pluggable implementation of [Status]. The methods get
    the subject and may change it; [None] stands for nil. *)
Record StatusBuilder (S : Type) := mkStatusBuilder {
  ReconciledImpl : option (S → option Objects → option error → S * option error);
  PreflightImpl : option (S → S * option error);
  VersionCheckImpl : option (S → Objects → S * (bool * option error));
  BuildStatusImpl : option (StatusInfo S → S * option error)
}.
Arguments mkStatusBuilder {S} _ _ _ _.
Arguments ReconciledImpl {S} _.
Arguments PreflightImpl {S} _.
Arguments VersionCheckImpl {S} _.
Arguments BuildStatusImpl {S} _.

Section builder.
Context {S : Type} (b : StatusBuilder S).

Definition sb_Reconciled (src : S) (objs : option Objects) (err : option error) : S * option error :=
  match ReconciledImpl b with Some f => f src objs err | None => (src, None) end.
Definition sb_Preflight (src : S) : S * option error :=
  match PreflightImpl b with Some f => f src | None => (src, None) end.
Definition sb_VersionCheck (src : S) (objs : Objects) : S * (bool * option error) :=
  match VersionCheckImpl b with Some f => f src objs | None => (src, (true, None)) end.
Definition sb_BuildStatus (info : StatusInfo S) : S * option error :=
  match BuildStatusImpl b with Some f => f info | None => (Subject info, None) end.
End builder.

Section basic.
Context {C : Type} `{CommonObject C, Unstructured, Converter, Kstatus} {V : Type} `{Semver V}.

Definition NewBasic : StatusBuilder (subject C) :=
  mkStatusBuilder None None None (Some aggregator_BuildStatus).

Definition NewBasicVersionChecks (version : string) : res (StatusBuilder (subject C)) :=
  v ← NewVersionCheck version;
  Ok (mkStatusBuilder None None (Some (versionCheck v)) (Some aggregator_BuildStatus)).

Definition NewKstatusCheck : StatusBuilder (subject C) :=
  mkStatusBuilder None None None (Some (kstatus_BuildStatus NewKstatusAgregator)).
End basic.

(* ------------------------------------------------------------------ *)
(** ** Lemmas *)

Section lemmas.
Context {C : Type} `{CommonObject C, Unstructured, Converter, Kstatus}.

Lemma statusLoop_conditions k live items m acc :
  (statusLoop k live items m acc).2 = acc ++ (items ≫= objectConditions k live).
Proof.
  revert m acc; induction items as [|o items IH]; intros m acc; cbn [statusLoop];
    [by rewrite app_nil_r|]. rewrite IH. by rewrite bind_cons, (assoc (++)).
Qed.

Lemma statusLoop_map k live items m acc s :
  default false ((statusLoop k live items m acc).1 !! s)
  = default false (m !! s) || bool_decide (s ∈ objectStatus k live <$> items).
Proof.
  revert m acc; induction items as [|o items IH]; intros m acc; cbn [statusLoop].
  { rewrite bool_decide_eq_false_2 by set_solver. by rewrite orb_false_r. }
  rewrite IH. destruct (decide (s = objectStatus k live o)) as [->|Hne].
  - rewrite lookup_insert_eq. rewrite (bool_decide_eq_true_2 (_ ∈ _ <$> o :: items)) by set_solver.
    by rewrite orb_true_r.
  - rewrite lookup_insert_ne by done. f_equal. apply bool_decide_ext. set_solver.
Qed.

(** The phase of a list of statuses. *)
Definition phaseOf (l : list Status) : Status :=
  if decide ((InProgressStatus ∈ l) ∨ (TerminatingStatus ∈ l)) then InProgressStatus
  else if decide (FailedStatus ∈ l) then FailedStatus
  else CurrentStatus.

Lemma aggregate_phaseOf k live items acc :
  aggregateStatus (statusLoop k live items ∅ acc).1 = phaseOf (objectStatus k live <$> items).
Proof.
  unfold aggregateStatus, phaseOf. rewrite !statusLoop_map, !lookup_empty. cbn [default orb from_option].
  repeat case_bool_decide; repeat case_decide; naive_solver.
Qed.

Lemma phaseOf_current l :
  phaseOf l = CurrentStatus ↔ (InProgressStatus ∉ l) ∧ (TerminatingStatus ∉ l) ∧ (FailedStatus ∉ l).
Proof. unfold phaseOf. repeat case_decide; naive_solver. Qed.

Lemma Status_string_current s : Status_string s = Status_string CurrentStatus ↔ s = CurrentStatus.
Proof. by destruct s. Qed.

Lemma healthLoop_spec live items b errs :
  healthLoop live items b errs
  = (b && forallb (λ o, (objectIsHealthy live o).1) items,
     errs ++ omap (λ o, error_text <$> (objectIsHealthy live o).2) items).
Proof.
  revert b errs; induction items as [|o items IH]; intros b errs; cbn [healthLoop forallb omap list_omap].
  { by rewrite andb_true_r, app_nil_r. }
  destruct (objectIsHealthy live o) as [h err]. rewrite IH. cbn [fst snd]. rewrite andb_assoc.
  destruct err; simpl; [by rewrite <- (assoc (++))|done].
Qed.

(** An object is healthy exactly when there is nothing to say about it. *)
Lemma objectIsHealthy_error live o :
  (objectIsHealthy live o).1 = true ↔ (objectIsHealthy live o).2 = None.
Proof.
  unfold objectIsHealthy, serviceIsHealthy, deploymentIsHealthy.
  repeat case_decide; repeat case_match; try done; by repeat case_decide.
Qed.

(** Setting a status when it differs, or keeping an equal one, leaves that
    status. *)
Lemma setStatus_changed (HC : common_ok C) (c : C) (status : CommonStatus) (Q : C → Prop) :
  (∀ c', co_GetCommonStatus c' = status → Q c') →
  ∃ c', (if decide (status ≠ co_GetCommonStatus c) then SetCommonStatus (Common c) status
         else (Common c, None)) = (Common c', None) ∧ Q c'.
Proof.
  intros HQ. case_decide as Hd.
  - eexists. split; [reflexivity|]. apply HQ, (co_ok_status C HC).
  - exists c. split; [reflexivity|]. by apply HQ.
Qed.

Context {V : Type} `{SV : Semver V} (HV : semver_ok V).

Lemma sv_GTE_refl (x : V) : sv_GTE x x = true.
Proof using HV. by destruct (sv_ok_total V HV x x). Qed.

Lemma sv_max (x y z : V) :
  sv_GTE z (if sv_GT x y then x else y) = true ↔ sv_GTE z x = true ∧ sv_GTE z y = true.
Proof using HV.
  rewrite (sv_ok_gt V HV). destruct (sv_GTE y x) eqn:E; simpl.
  - split; [|naive_solver]. intros Hz. split; [by eapply (sv_ok_trans V HV)|done].
  - destruct (sv_ok_total V HV x y) as [Exy|Eyx]; [|congruence].
    split; [|naive_solver]. intros Hz. split; [done|by eapply (sv_ok_trans V HV)].
Qed.

(** The version an object asks for. *)
Definition versionNeeded (o : Object) : option string :=
  u_GetAnnotations (obj_object o) !! minOperatorAnnotation.

Lemma minVersionLoop_Ok items m v :
  minVersionLoop items m = Ok v → ∀ z, sv_GTE z v = true ↔
    sv_GTE z m = true ∧ ∀ o t, o ∈ items → versionNeeded o = Some t →
      ∃ w, sv_Parse t = Ok w ∧ sv_GTE z w = true.
Proof using HV.
  revert m; induction items as [|o items IH]; intros m; cbn [minVersionLoop].
  { intros [= ->] z. split; [|by intros []]. intros ?. split; [done|]. intros o t Ho. by apply elem_of_nil in Ho. }
  destruct (u_GetAnnotations (obj_object o) !! minOperatorAnnotation) as [t|] eqn:E.
  - destruct (sv_Parse t) as [w|e] eqn:Ep; [|done]. cbn [mbind res_bind]. intros Hl z.
    rewrite (IH _ Hl z), sv_max. split.
    + intros [[Hw Hm] Hall]. split; [done|]. intros o' t' [->|Ho']%elem_of_cons Ht'; [|by eapply Hall].
      unfold versionNeeded in Ht'. rewrite E in Ht'. simplify_eq. by exists w.
    + intros [Hm Hall]. split_and!; [|done|].
      * destruct (Hall o t) as (w' & Hw' & ?); [left|done|]. rewrite Ep in Hw'. by simplify_eq.
      * intros o' t' Ho'. apply Hall. by right.
  - intros Hl z. rewrite (IH _ Hl z). split; intros [Hm Hall]; (split; [done|]).
    + intros o' t' [->|Ho']%elem_of_cons; [|by apply Hall]. unfold versionNeeded. by rewrite E.
    + intros o' t' Ho'. apply Hall. by right.
Qed.

Lemma minVersionLoop_Err items m e :
  minVersionLoop items m = Err e → ∃ o t e', o ∈ items ∧ versionNeeded o = Some t ∧ sv_Parse t = Err e'.
Proof using.
  revert m; induction items as [|o items IH]; intros m; cbn [minVersionLoop]; [done|].
  destruct (u_GetAnnotations (obj_object o) !! minOperatorAnnotation) as [t|] eqn:E.
  - destruct (sv_Parse t) as [w|e'] eqn:Ep; cbn [mbind res_bind].
    + intros (o' & t' & e' & ? & ?)%IH. exists o', t', e'. split; [by right|done].
    + intros _. exists o, t, e'. split; [left|done].
  - intros (o' & t' & e' & ? & ?)%IH. exists o', t', e'. split; [by right|done].
Qed.
End lemmas.

(* ------------------------------------------------------------------ *)
(** ** Properties *)

(** In a list with one condition for each type, those of one type are the same. *)
Lemma unique_type (l : list Condition) x y :
  NoDup (c_Type <$> l) → x ∈ l → y ∈ l → c_Type x = c_Type y → x = y.
Proof.
  intros Hnd [i Hi]%list_elem_of_lookup [j Hj]%list_elem_of_lookup E.
  assert (i = j) as <-; [|congruence].
  eapply (NoDup_lookup (c_Type <$> l)); [done|by rewrite list_lookup_fmap, Hi|by rewrite list_lookup_fmap, Hj, E].
Qed.

(** C33. The kstatus phase after a reconciliation without an error: InProgress if
    some object is in progress or terminating, else Failed if one failed, else
    Current; the addon is healthy exactly in the last case, its (first) Ready
    condition says so, with no other one unless there were several before, and
    the generation is recorded. Objects that could not be read or have no status
    do not count: when nothing can be read the addon is reported Current and
    healthy. *)
Theorem kstatus_phase {C} `{CommonObject C, Unstructured, Converter, K : Kstatus}
    (k : kstatusAggregator) (info : StatusInfo (subject C)) (c : C) (conds : list Condition)
    (m : Objects) (live : LiveObjectReader) :
  common_ok C → setStatusCondition_ok K →
  Subject info = Common c → co_conditions c = ConditionsField conds →
  si_Err info = None → si_Manifest info = Some m → LiveObjects info = Some live →
  ∃ c' l, kstatus_BuildStatus k info = (Common c', None)
    ∧ let sts := objectStatus k live <$> Items m in
      let status := co_GetCommonStatus c' in
      Phase status = Status_string (phaseOf sts)
      ∧ (Healthy status = true ↔
          (InProgressStatus ∉ sts) ∧ (TerminatingStatus ∉ sts) ∧ (FailedStatus ∉ sts))
      ∧ ObservedGeneration status = d_GetGeneration c
      ∧ Errors status = Errors (co_GetCommonStatus c)
      ∧ co_conditions c' = ConditionsField l
      ∧ (∃ i, list_find (λ x, c_Type x = ReadyType) l
          = Some (i, buildReadyCondition (Healthy status) (Items m ≫= objectConditions k live)))
      ∧ (NoDup (c_Type <$> conds) → ∀ x, x ∈ l → c_Type x = ReadyType →
          x = buildReadyCondition (Healthy status) (Items m ≫= objectConditions k live))
      ∧ ((∀ gvk nn, is_Ok (live gvk nn) = false) → Healthy status = true).
Proof.
  intros HC HK Hsub Hcf He Hm Hl. unfold kstatus_BuildStatus. rewrite Hsub. cbn [GetCommonStatus].
  unfold GetConditions at 1. cbn [conditionsOf]. rewrite Hcf. unfold errorPhase. rewrite He, Hm, Hl.
  pose proof (aggregate_phaseOf k live (Items m) []) as Hph.
  pose proof (statusLoop_conditions k live (Items m) ∅ []) as Hconds.
  destruct (statusLoop k live (Items m) ∅ []) as [sm ab]. cbn [fst snd] in Hph, Hconds. subst ab.
  unfold SetConditions. cbn [conditionsOf]. rewrite Hcf, Hph. cbn [app].
  unfold finishStatus. cbn [SetCommonStatus Phase with_phase GetGeneration Errors].
  set (ready := buildReadyCondition _ _). set (l := meta_SetStatusCondition conds ready).
  assert (bool_decide (Status_string (phaseOf (objectStatus k live <$> Items m)) = Status_string CurrentStatus)
    = bool_decide (phaseOf (objectStatus k live <$> Items m) = CurrentStatus)) as Hb
    by (apply bool_decide_ext, Status_string_current).
  assert (c_Type ready = ReadyType) as Hrt by (unfold ready, buildReadyCondition; by destruct (Items m ≫= _)).
  destruct (HK conds ready) as (Hfirst & Hu & _). fold l in Hfirst, Hu. rewrite Hrt in Hfirst.
  assert (ready ∈ l) as Hready by (destruct Hfirst as (i & (Hi & _)%list_find_Some); by eapply list_elem_of_lookup_2).
  eexists _, l. split; [reflexivity|]. cbv zeta. rewrite (co_ok_status C HC). cbn [Phase Healthy ObservedGeneration Errors].
  rewrite (co_ok_generation_conditions C HC), (co_ok_keep_conditions C HC). split_and!.
  - done.
  - rewrite bool_decide_eq_true. rewrite Status_string_current. apply phaseOf_current.
  - done.
  - done.
  - by eapply (co_ok_get_conditions C HC).
  - rewrite Hb. exact Hfirst.
  - intros Hnd x Hx Ht. rewrite Hb. eapply (unique_type l); [by apply Hu|done|exact Hready|rewrite Ht; symmetry; exact Hrt].
  - intros Hno. rewrite bool_decide_eq_true, Status_string_current. apply phaseOf_current.
    assert (∀ s, s ∈ objectStatus k live <$> Items m → s = UnknownStatus) as Hunk.
    { intros s (o & -> & _)%list_elem_of_fmap. unfold objectStatus. specialize (Hno (GroupVersionKind o) (NamespacedName o)).
      by destruct (live _ _). }
    split_and!; intros Hin%Hunk; done.
Qed.

(** The kstatus aggregator never works for an unstructured subject: reading
    the conditions by reflection always fails, so BuildStatus returns an error
    and writes nothing, although the status accessors support such subjects. *)
Theorem kstatus_unstructured {C} `{CommonObject C, Unstructured, Converter, Kstatus}
    (k : kstatusAggregator) (info : StatusInfo (subject C)) (m : jmap) :
  Subject info = Unstruct m → ∃ e, kstatus_BuildStatus k info = (Unstruct m, Some e).
Proof.
  intros Hs. unfold kstatus_BuildStatus. rewrite Hs. destruct (GetCommonStatus _); by eexists.
Qed.

(** The basic aggregator: after a reconciliation without an error the addon
    is healthy exactly when every Service can be read and every Deployment can
    be read and is Available; the errors, in manifest order, are one text per
    unhealthy object, so there are none exactly when the addon is healthy. After
    a reconciliation that failed the addon is unhealthy with no errors. *)
Theorem aggregator_health {C} `{CommonObject C, Unstructured, Converter}
    (info : StatusInfo (subject C)) (c : C) (m : Objects) (live : LiveObjectReader) :
  common_ok C → Subject info = Common c → si_Manifest info = Some m → LiveObjects info = Some live →
  ∃ c', aggregator_BuildStatus info = (Common c', None)
    ∧ let status := co_GetCommonStatus c' in
      let unhealthy := filter (λ o, (objectIsHealthy live o).1 = false) (Items m) in
      (Healthy status = true ↔ si_Err info = None ∧ unhealthy = [])
      ∧ (∃ errs, Errors status = Some errs ∧
          length errs = match si_Err info with Some _ => 0 | None => length unhealthy end)
      ∧ Phase status = Phase (co_GetCommonStatus c)
      ∧ ObservedGeneration status = d_GetGeneration c.
Proof.
  intros HC Hs Hm Hl. unfold aggregator_BuildStatus. rewrite Hs, Hm, Hl. cbn [GetCommonStatus].
  rewrite healthLoop_spec. cbn [andb app].
  set (good := forallb _ _). set (texts := omap _ _).
  set (unhealthy := filter _ _).
  assert ((good = true ↔ unhealthy = []) ∧ length texts = length unhealthy) as [Hgood Hlen].
  { unfold good, texts, unhealthy. clear. induction (Items m) as [|o items [IH1 IH2]]; [done|].
    cbn [forallb omap list_omap]. rewrite filter_cons. pose proof (objectIsHealthy_error live o) as Ho.
    destruct (objectIsHealthy live o) as [[] err]; cbn [fst snd] in *.
    - rewrite decide_False by done. rewrite (proj1 Ho eq_refl). done.
    - rewrite decide_True by done. destruct err as [e|]; [|discriminate (proj2 Ho eq_refl)].
      simpl. rewrite IH2. done. }
  destruct (si_Err info) as [e|]; cbn [GetGeneration];
    apply (setStatus_changed HC); intros c' ->; cbv zeta; cbn [Healthy Errors Phase ObservedGeneration].
  - split_and!; [by split; [|intros []]|by eexists|done|done].
  - split_and!; [by rewrite Hgood; naive_solver|by eexists|done|done].
Qed.

(** The version check accepts exactly when every version an object asks for
    parses and the operator's version is at least all of them and 0.0.0. It
    answers an error exactly when it does not accept. A refusal for a version
    too old marks the addon unhealthy with one error; a version that does not
    parse leaves the status alone. *)
Theorem versionCheck_spec {C} `{CommonObject C, Unstructured, Converter, V : Type, Semver V}
    (operatorVersion : V) (c : C) (objs : Objects) :
  common_ok C → semver_ok V →
  ∃ c' ok err, versionCheck operatorVersion (Common c) objs = (Common c', (ok, err))
    ∧ (ok = true ↔ sv_GTE operatorVersion sv_zero = true ∧
        ∀ o t, o ∈ Items objs → versionNeeded o = Some t →
          ∃ w, sv_Parse t = Ok w ∧ sv_GTE operatorVersion w = true)
    ∧ (ok = true ↔ err = None)
    ∧ (ok = true → c' = c)
    ∧ ((∀ o t, o ∈ Items objs → versionNeeded o = Some t → is_Ok (sv_Parse t) = true) → ok = false →
        Healthy (co_GetCommonStatus c') = false
        ∧ ∃ text, Errors (co_GetCommonStatus c') = Some [text])
    ∧ ((∃ o t, o ∈ Items objs ∧ versionNeeded o = Some t ∧ is_Ok (sv_Parse t) = false) → c' = c).
Proof.
  intros HC HV. unfold versionCheck. destruct (minVersionLoop (Items objs) sv_zero) as [v|e] eqn:E.
  - pose proof (minVersionLoop_Ok HV _ _ _ E operatorVersion) as Hok.
    assert (∀ o t, o ∈ Items objs → versionNeeded o = Some t → is_Ok (sv_Parse t) = true) as Hparse.
    { intros o t Ho Ht. destruct (proj1 (minVersionLoop_Ok HV _ _ _ E v) (sv_GTE_refl HV v)) as [_ Hall].
      destruct (Hall o t Ho Ht) as (w & -> & _). done. }
    assert (¬ ∃ o t, o ∈ Items objs ∧ versionNeeded o = Some t ∧ is_Ok (sv_Parse t) = false) as Hnone.
    { intros (o & t & Ho & Ht & Hno). by rewrite (Hparse o t Ho Ht) in Hno. }
    destruct (sv_GTE operatorVersion v) eqn:Ev.
    { exists c, true, None. split_and!; [done|done|done|done|done|]. intros Hex. by destruct Hnone. }
    cbn [GetCommonStatus].
    destruct (setStatus_changed HC c (mkStatus false (Some ["manifest needs operator version >= "
      +:+ sv_String v +:+ ", this operator is version " +:+ sv_String operatorVersion])
      (Phase (co_GetCommonStatus c)) (ObservedGeneration (co_GetCommonStatus c)))
      (λ c', Healthy (co_GetCommonStatus c') = false
        ∧ ∃ text, Errors (co_GetCommonStatus c') = Some [text])) as (c' & Ec & HQ).
    { intros c' ->. split; [done|]. by eexists. }
    eexists c', false, _. split.
    { f_equal. case_decide; by rewrite ?Ec; simplify_eq/=. }
    split_and!; done.
  - apply minVersionLoop_Err in E as (o & t & e' & Ho & Ht & Hp). exists c, false, (Some e).
    split_and!; try done.
    + split; [done|]. intros [_ Hall]. destruct (Hall o t Ho Ht) as (w & Hw & _). by rewrite Hp in Hw.
    + intros Hall. specialize (Hall o t Ho Ht). by rewrite Hp in Hall.
Qed.

(* ------------------------------------------------------------------ *)
(** ** Examples *)

(** An addon type with a status and conditions. *)
Record exampleAddon := mkAddon { ea_status : CommonStatus; ea_conditions : list Condition }.

Definition example_meta : DeclarativeObject exampleAddon := {|
  d_GetName _ := "guestbook";
  d_GetNamespace _ := "prod";
  d_GetUID _ := "uid";
  d_GetGeneration _ := 7%Z;
  d_GVKForObject _ := Ok (mkGVK "example.org" "v1" "Guestbook")
|}.

Definition example_common : CommonObject exampleAddon := {|
  co_ComponentName _ := "guestbook";
  co_CommonSpec _ := mkSpec "0.1.0" "";
  co_GetCommonStatus := ea_status;
  co_SetCommonStatus c s := mkAddon s (ea_conditions c);
  co_PatchSpec _ := None;
  co_conditions c := ConditionsField (ea_conditions c);
  co_setConditions c l := mkAddon (ea_status c) l;
  co_meta := example_meta
|}.

Lemma example_common_ok : @common_ok exampleAddon example_common.
Proof. by split. Qed.

Definition example_addon : exampleAddon := mkAddon (mkStatus false None "" 0) [].

Definition example_converter : Converter := {|
  conv_status_from _ := Ok (mkStatus false None "" 0);
  conv_status_to _ := Ok ∅;
  conv_spec_from _ := Ok (mkSpec "" "");
  conv_deployment_from _ := Ok [("Available", "True")];
  yaml_Decode _ := Err (Errorf "not supported");
  error_text _ := "error";
  GVK_String gvk := gvk_Group gvk +:+ "/" +:+ gvk_Version gvk +:+ ", Kind=" +:+ gvk_Kind gvk;
  u_GetGeneration _ := 0%Z;
  u_GetUID _ := ""
|}.

Fixpoint set_first (l : list Condition) (c : Condition) : list Condition :=
  match l with
  | [] => [c]
  | x :: l => if decide (c_Type x = c_Type c) then c :: l else x :: set_first l c
  end.

Lemma set_first_types l c t : t ∈ c_Type <$> set_first l c → t ∈ c_Type <$> l ∨ t = c_Type c.
Proof. induction l as [|x l IH]; cbn [set_first]; [set_solver|]. case_decide; set_solver. Qed.

(** A kstatus that finds every object in progress. *)
Definition example_kstatus : Kstatus := {|
  Compute _ := Ok (Some InProgressStatus);
  Augment m := Ok m;
  GetObjectWithConditions _ := Ok [];
  meta_SetStatusCondition := set_first
|}.

Lemma example_setStatusCondition : setStatusCondition_ok example_kstatus.
Proof.
  intros l c. cbn [meta_SetStatusCondition example_kstatus]. split_and!.
  - induction l as [|x l [i IH]]; cbn [set_first list_find]; [exists 0%nat; by rewrite decide_True|].
    destruct (decide (c_Type x = c_Type c)) as [E|E]; cbn [list_find].
    + exists 0%nat. by rewrite decide_True.
    + exists (Datatypes.S i). rewrite decide_False, IH by done. done.
  - intros Hnd. induction l as [|x l IH]; cbn [set_first]; [apply NoDup_singleton|].
    rewrite fmap_cons in Hnd. apply list.NoDup_cons in Hnd as [Hx Hnd]. case_decide as E.
    + rewrite fmap_cons, <- E. by constructor.
    + rewrite fmap_cons. constructor; [|by apply IH].
      intros Hx'. by destruct (set_first_types l c (c_Type x) Hx').
  - intros x Hx. induction l as [|y l IH]; cbn [set_first]; [set_solver|]. case_decide; set_solver.
Qed.

Definition example_live : LiveObjectReader := λ _ _, Ok ∅.
Definition example_info : StatusInfo (subject exampleAddon) :=
  mkInfo (Common example_addon) (Some (mkObjects [example_deployment] [] "")) (Some example_live) "" None.

Lemma kstatus_phase_witness :
  ∃ c' : exampleAddon, @kstatus_BuildStatus exampleAddon example_common example_unstructured
      example_converter example_kstatus NewKstatusAgregator example_info = (Common c', None)
    ∧ Phase (ea_status c') = "InProgress".
Proof.
  destruct (@kstatus_phase exampleAddon example_common example_unstructured example_converter
    example_kstatus NewKstatusAgregator example_info example_addon [] (mkObjects [example_deployment] [] "")
    example_live example_common_ok example_setStatusCondition eq_refl eq_refl eq_refl eq_refl eq_refl)
    as (c' & l & Hb & Hp & _).
  exists c'. split; [exact Hb|]. refine (eq_trans Hp _). vm_compute. reflexivity.
Defined.

Lemma kstatus_unstructured_witness :
  ∃ e, @kstatus_BuildStatus exampleAddon example_common example_unstructured example_converter
    example_kstatus NewKstatusAgregator (mkInfo (Unstruct ∅) None None "" None)
    = (Unstruct ∅, Some e).
Proof. apply kstatus_unstructured. reflexivity. Defined.

Lemma aggregator_health_witness :
  ∃ c' : exampleAddon, @aggregator_BuildStatus exampleAddon example_common example_unstructured
      example_converter example_info = (Common c', None)
    ∧ ObservedGeneration (ea_status c') = 7%Z.
Proof.
  destruct (@aggregator_health exampleAddon example_common example_unstructured example_converter
    example_info example_addon (mkObjects [example_deployment] [] "") example_live example_common_ok
    eq_refl eq_refl eq_refl) as (c' & Hb & _ & _ & _ & Hg).
  exists c'. split; [exact Hb|exact Hg].
Defined.

(** Versions that are numbers. *)
Definition example_semver : Semver Z := {|
  sv_Parse s := if decide (s = "2") then Ok 2%Z else Err (Errorf "invalid version");
  sv_GT x y := (y <? x)%Z;
  sv_GTE x y := (y <=? x)%Z;
  sv_zero := 0%Z;
  sv_String _ := "v"
|}.

Lemma example_semver_ok : @semver_ok Z example_semver.
Proof. split; intros; simpl in *; lia. Qed.

Definition example_annotated : Object :=
  mkObj {["metadata" := JObj {["annotations" := JObj {[minOperatorAnnotation := JStr "2"]}]}]}
    "" "" "" "" "" None.

Lemma versionCheck_spec_witness :
  ∃ c' ok err, @versionCheck exampleAddon example_common example_unstructured example_converter Z
      example_semver 1%Z (Common example_addon) (mkObjects [example_annotated] [] "")
      = (Common c', (ok, err)) ∧ ok = false.
Proof.
  destruct (@versionCheck_spec exampleAddon example_common example_unstructured example_converter Z
    example_semver 1%Z example_addon (mkObjects [example_annotated] [] "") example_common_ok
    example_semver_ok) as (c' & ok & err & Hv & Hok & _).
  exists c', ok, err. split; [exact Hv|]. destruct ok; [|reflexivity]. exfalso.
  destruct (proj1 Hok eq_refl) as [_ Hall].
  destruct (Hall example_annotated "2") as (w & Hw & Hge); [left|reflexivity|].
  injection Hw as <-. discriminate Hge.
Defined.

End addon.
