(* ===== verification/Reconciler.v ===== *)
(** * The declarative reconciler (pkg/patterns/declarative)

    [options.go] and [reconciler.go]: the options of a reconciler, how the
    manifest of an addon is built, and the Reconcile handler with its hooks,
    its status and its metrics. What the handler talks to (API server, applier,
    manifest controller, sink, hooks, event recorder, kustomize) is an
    arbitrary state machine on a world; every such call is written to a log, in
    order. Raw manifest operations, object transforms, label makers and owner
    selectors are functions that do not change the instance. *)

From S2P Require Import Prelude Kube Metrics Manifest Transforms Addon.
From stdpp Require Import options.
Import manifest transforms addon.

Module reconciler.

(** ** Errors and results *)

Record Result := mkResult { Requeue : bool; RequeueAfter : Z }.
Definition noResult : Result := mkResult false 0.

(** An [error] that may be an [*ErrorResult], which names the result to
    return. *)
Inductive goError :=
  | Plain (e : error)
  | ErrorResult (r : Result) (e : option error).

(** The error as a cause in a message. *)
Definition cause (g : goError) : error :=
  match g with
  | Plain e => e
  | ErrorResult _ (Some e) => e
  | ErrorResult _ None => Errorf ""
  end.

(** ** Data handed to collaborators *)

(** ApplierOptions: the fields the reconciler fills in; the clients and the
    REST mapper are those of the environment. *)
Record ApplierOptions := mkApplierOptions {
  ao_Objects : list Object;
  ao_Namespace : string;
  ao_ParentRef : RESTMapping;
  ao_Validate : bool;
  ao_ExtraArgs : list string;
  ao_Force : bool;
  ao_CascadingStrategy : string
}.

Record ApplyOperation (S : Type) := mkApplyOperation {
  op_Subject : S;
  op_Objects : Objects;
  op_ApplierOptions : ApplierOptions
}.
Arguments mkApplyOperation {S} _ _ _.
Arguments op_Subject {S} _.
Arguments op_Objects {S} _.
Arguments op_ApplierOptions {S} _.

Section types.
Context (S W : Type).

(** A hook implements some of the four interfaces. The hooks around an apply
    get pointers to the operation and may change it. *)
Record Hook := mkHook {
  BeforeApply : option (ApplyOperation S → W → W * (ApplyOperation S * option error));
  AfterApply : option (ApplyOperation S → W → W * (ApplyOperation S * option error));
  BeforeUpdateStatus : option (W → W * option error);
  AfterUpdateStatus : option (W → W * option error)
}.

(** The [Status] interface; [LiveObjects] in the info reads the world the
    method is called in. *)
Record Status := mkStatusImpl {
  st_Preflight : S → W → W * (S * option goError);
  st_VersionCheck : S → Objects → W → W * (S * (bool * option goError));
  st_BuildStatus : StatusInfo S → W → W * (S * option error);
  st_Reconciled : S → option Objects → option error → W → W * (S * option error)
}.

Record reconcilerParams := mkParams {
  rawManifestOperations : list (S → string → res string);
  objectTransformations : list (ObjectTransform S);
  manifestController : option (S → W → W * res (gmap string string));
  applier : ApplierOptions → S → W → W * (S * list Object * option error);
  cascadingStrategy : string;
  prune : bool;
  preserveNamespace : bool;
  kustomize : bool;
  validate : bool;
  metrics : bool;
  sink : option (S → Objects → W → W * option goError);
  ownerFn : option (S → Object → Objects → option S * option goError);
  labelMaker : option (LabelMaker S);
  status : option Status;
  hooks : list Hook
}.

Definition ReconcilerOption : Type := reconcilerParams → reconcilerParams.
End types.
Arguments BeforeApply {S W} _.
Arguments AfterApply {S W} _.
Arguments BeforeUpdateStatus {S W} _.
Arguments AfterUpdateStatus {S W} _.
Arguments st_Preflight {S W} _.
Arguments st_VersionCheck {S W} _.
Arguments st_BuildStatus {S W} _.
Arguments st_Reconciled {S W} _.
Arguments mkStatusImpl {S W} _ _ _ _.
Arguments mkParams {S W}.
Arguments rawManifestOperations {S W} _.
Arguments objectTransformations {S W} _.
Arguments manifestController {S W} _.
Arguments applier {S W} _.
Arguments cascadingStrategy {S W} _.
Arguments prune {S W} _.
Arguments preserveNamespace {S W} _.
Arguments kustomize {S W} _.
Arguments validate {S W} _.
Arguments metrics {S W} _.
Arguments sink {S W} _.
Arguments ownerFn {S W} _.
Arguments labelMaker {S W} _.
Arguments status {S W} _.
Arguments hooks {S W} _.

(** ** options.go *)

Section options.
Context {S W : Type}.
Implicit Types p : reconcilerParams S W.

Definition WithRawManifestOperation (operations : list (S → string → res string)) :
    ReconcilerOption S W := λ p,
  mkParams (rawManifestOperations p ++ operations) (objectTransformations p) (manifestController p)
    (applier p) (cascadingStrategy p) (prune p) (preserveNamespace p) (kustomize p) (validate p)
    (metrics p) (sink p) (ownerFn p) (labelMaker p) (status p) (hooks p).

Definition WithObjectTransform (operations : list (ObjectTransform S)) : ReconcilerOption S W := λ p,
  mkParams (rawManifestOperations p) (objectTransformations p ++ operations) (manifestController p)
    (applier p) (cascadingStrategy p) (prune p) (preserveNamespace p) (kustomize p) (validate p)
    (metrics p) (sink p) (ownerFn p) (labelMaker p) (status p) (hooks p).

Definition WithManifestController mc : ReconcilerOption S W := λ p,
  mkParams (rawManifestOperations p) (objectTransformations p) mc
    (applier p) (cascadingStrategy p) (prune p) (preserveNamespace p) (kustomize p) (validate p)
    (metrics p) (sink p) (ownerFn p) (labelMaker p) (status p) (hooks p).

Definition WithApplyPrune : ReconcilerOption S W := λ p,
  mkParams (rawManifestOperations p) (objectTransformations p) (manifestController p)
    (applier p) (cascadingStrategy p) true (preserveNamespace p) (kustomize p) (validate p)
    (metrics p) (sink p) (ownerFn p) (labelMaker p) (status p) (hooks p).

Definition WithOwner ownerFn : ReconcilerOption S W := λ p,
  mkParams (rawManifestOperations p) (objectTransformations p) (manifestController p)
    (applier p) (cascadingStrategy p) (prune p) (preserveNamespace p) (kustomize p) (validate p)
    (metrics p) (sink p) ownerFn (labelMaker p) (status p) (hooks p).

Definition WithLabels labelMaker : ReconcilerOption S W := λ p,
  mkParams (rawManifestOperations p) (objectTransformations p) (manifestController p)
    (applier p) (cascadingStrategy p) (prune p) (preserveNamespace p) (kustomize p) (validate p)
    (metrics p) (sink p) (ownerFn p) labelMaker (status p) (hooks p).

Definition WithStatus status : ReconcilerOption S W := λ p,
  mkParams (rawManifestOperations p) (objectTransformations p) (manifestController p)
    (applier p) (cascadingStrategy p) (prune p) (preserveNamespace p) (kustomize p) (validate p)
    (metrics p) (sink p) (ownerFn p) (labelMaker p) status (hooks p).

Definition WithPreserveNamespace : ReconcilerOption S W := λ p,
  mkParams (rawManifestOperations p) (objectTransformations p) (manifestController p)
    (applier p) (cascadingStrategy p) (prune p) true (kustomize p) (validate p)
    (metrics p) (sink p) (ownerFn p) (labelMaker p) (status p) (hooks p).

Definition WithApplyKustomize : ReconcilerOption S W := λ p,
  mkParams (rawManifestOperations p) (objectTransformations p) (manifestController p)
    (applier p) (cascadingStrategy p) (prune p) (preserveNamespace p) true (validate p)
    (metrics p) (sink p) (ownerFn p) (labelMaker p) (status p) (hooks p).

Definition WithManagedApplication `{Unstructured, RangeOrder, SchemaText} (labelMaker : LabelMaker S) :
    ReconcilerOption S W :=
  WithObjectTransform [transformApplication labelMaker].

Definition WithApplyValidation : ReconcilerOption S W := λ p,
  mkParams (rawManifestOperations p) (objectTransformations p) (manifestController p)
    (applier p) (cascadingStrategy p) (prune p) (preserveNamespace p) (kustomize p) true
    (metrics p) (sink p) (ownerFn p) (labelMaker p) (status p) (hooks p).

Definition WithApplier applier : ReconcilerOption S W := λ p,
  mkParams (rawManifestOperations p) (objectTransformations p) (manifestController p)
    applier (cascadingStrategy p) (prune p) (preserveNamespace p) (kustomize p) (validate p)
    (metrics p) (sink p) (ownerFn p) (labelMaker p) (status p) (hooks p).

Definition WithCascadingStrategy (cs : string) : ReconcilerOption S W := λ p,
  mkParams (rawManifestOperations p) (objectTransformations p) (manifestController p)
    (applier p) cs (prune p) (preserveNamespace p) (kustomize p) (validate p)
    (metrics p) (sink p) (ownerFn p) (labelMaker p) (status p) (hooks p).

(** The flag; the duration is set on the tracker by
    [metrics.setMetricsDurationInternal]. *)
Definition WithReconcileMetrics : ReconcilerOption S W := λ p,
  mkParams (rawManifestOperations p) (objectTransformations p) (manifestController p)
    (applier p) (cascadingStrategy p) (prune p) (preserveNamespace p) (kustomize p) (validate p)
    true (sink p) (ownerFn p) (labelMaker p) (status p) (hooks p).

Definition WithHook (hook : Hook S W) : ReconcilerOption S W := λ p,
  mkParams (rawManifestOperations p) (objectTransformations p) (manifestController p)
    (applier p) (cascadingStrategy p) (prune p) (preserveNamespace p) (kustomize p) (validate p)
    (metrics p) (sink p) (ownerFn p) (labelMaker p) (status p) (hooks p ++ [hook]).

(** AddHook, on a reconciler already initialised. *)
Definition AddHook := WithHook.

Definition SetSink sink : ReconcilerOption S W := λ p,
  mkParams (rawManifestOperations p) (objectTransformations p) (manifestController p)
    (applier p) (cascadingStrategy p) (prune p) (preserveNamespace p) (kustomize p) (validate p)
    (metrics p) sink (ownerFn p) (labelMaker p) (status p) (hooks p).

(** The zero value of the parameters, with the default applier. *)
Definition defaultParams defaultApplier : reconcilerParams S W :=
  mkParams [] [] None defaultApplier "" false false false false false None None None None [].

(** applyOptions: the global Begin options, the controller's, the global End
    options, in that order; then the defaults. *)
Definition applyOptions defaultApplier (begin_ opts end_ : list (ReconcilerOption S W))
    (defaultLoader : option (res (S → W → W * res (gmap string string)))) :
    res (reconcilerParams S W) :=
  let params := foldl (λ p opt, opt p) (defaultParams defaultApplier) (begin_ ++ opts ++ end_) in
  params ← match manifestController params, defaultLoader with
           | None, Some loader => loader ← loader; Ok (WithManifestController (Some loader) params)
           | _, _ => Ok params
           end;
  Ok (if decide (cascadingStrategy params = "")
      then WithCascadingStrategy "Foreground" params else params).

Definition validateOptions p : option error :=
  let errs :=
    (if prune p && match labelMaker p with None => true | Some _ => false end
     then ["WithApplyPrune must be used with the WithLabels option"] else [])
    ++ (match manifestController p with
        | None => ["ManifestController must be set either by configuring DefaultManifestLoader or specifying the WithManifestController option"]
        | Some _ => [] end) in
  match errs with
  | [] => None
  | _ => Some (Errorf (strings.Join errs ","))
  end.
End options.

(** ** What the reconciler talks to *)

Inductive getAnswer (S : Type) :=
  | Found (s : S)
  | NotFound
  | GetError (e : error).
Arguments Found {S} _.
Arguments NotFound {S}.
Arguments GetError {S} _.

Class Environment (S W : Type) := {
  (** [client.Get] into a copy of the prototype *)
  env_Get : Kube.NamespacedName → W → W * getAnswer S;
  (** a read through the dynamic client *)
  env_dynGet : Kube.GroupVersionResource → string → string → W → res jmap;
  (** [recorder.Event] *)
  env_Event : S → string → W → W;
  (** [client.Status().Update], which decodes the answer into the instance *)
  env_StatusUpdate : S → W → W * (S * option error);
  (** kustomize.Run on a directory of a file system, which may be nil *)
  env_kustomize : option (gmap string string) → string → res string;
  (** the YAML reader and decoder ParseObjects uses *)
  env_documents : string → list rawDocument;
  env_Unmarshal : string → res jmap;
  (** [EachListItem] *)
  env_listItems : jmap → res (list jmap);
  filepath_Dir : string → string;
  (** the traits an instance may implement *)
  env_Pruner : S → option bool;
  env_PruneWhiteList : S → option (list string);
  (** [sort.Slice] with the comparison of [Objects.Sort] *)
  sort_items : (Object → Z) → list Object → list Object
}.

(** What [sort.Slice] guarantees for that comparison. *)
Definition sorter_ok {S W} (E : Environment S W) : Prop := ∀ score o,
  Sort score o (with_items o (sort_items score (Items o))).

(** The calls made, oldest first. *)
Inductive Action (S : Type) :=
  | AGet (nn : Kube.NamespacedName)
  | APreflight (err : option goError)
  | AVersionCheck (valid : bool) (err : option goError)
  | AEvent (reason : string)
  | ABeforeApply (err : option error)
  | AApply (opts : ApplierOptions) (err : option error)
  | ASink (err : option goError)
  | AAfterApply (err : option error)
  | ABuildStatus (info : StatusInfo S) (err : option error)
  | ABeforeUpdateStatus (err : option error)
  | AStatusUpdate (s : S) (err : option error)
  | AAfterUpdateStatus (err : option error)
  | AReconciled (objects : option Objects) (err : option error).
Arguments AGet {S} _.
Arguments APreflight {S} _.
Arguments AVersionCheck {S} _ _.
Arguments AEvent {S} _.
Arguments ABeforeApply {S} _.
Arguments AApply {S} _ _.
Arguments ASink {S} _.
Arguments AAfterApply {S} _.
Arguments ABuildStatus {S} _ _.
Arguments ABeforeUpdateStatus {S} _.
Arguments AStatusUpdate {S} _ _.
Arguments AAfterUpdateStatus {S} _.
Arguments AReconciled {S} _ _.

(** The state of a run: the world, the metrics of the process, the calls. *)
Record RState (S W : Type) := mkRState {
  rs_world : W;
  rs_metrics : metrics.metricsState;
  rs_count : metrics.Vec;
  rs_failure : metrics.Vec;
  rs_log : list (Action S)
}.
Arguments mkRState {S W} _ _ _ _ _.
Arguments rs_world {S W} _.
Arguments rs_metrics {S W} _.
Arguments rs_count {S W} _.
Arguments rs_failure {S W} _.
Arguments rs_log {S W} _.

Definition R (S W A : Type) : Type := RState S W → A * RState S W.
#[export] Instance R_ret {S W} : MRet (R S W) := λ _ a st, (a, st).
#[export] Instance R_bind {S W} : MBind (R S W) := λ _ _ f m st, let '(a, st) := m st in f a st.

(** A call that may change the world, written to the log. *)
Definition call {S W A} (f : W → W * A) (act : A → Action S) : R S W A := λ st,
  let '(w, a) := f (rs_world st) in
  (a, mkRState w (rs_metrics st) (rs_count st) (rs_failure st) (rs_log st ++ [act a])).
(** A read, not logged. *)
Definition ask {S W A} (f : W → A) : R S W A := λ st, (f (rs_world st), st).
(** A call that is not logged. *)
Definition touch {S W A} (f : W → W * A) : R S W A := λ st,
  let '(w, a) := f (rs_world st) in
  (a, mkRState w (rs_metrics st) (rs_count st) (rs_failure st) (rs_log st)).

(** ** Building the manifest *)

Section build.
Context {S W : Type} `{Unstructured, RangeOrder, Environment S W}.
Context (p : reconcilerParams S W).

Definition IsKustomizeOptionUsed : bool := kustomize p.
Definition CollectMetrics : bool := metrics p.

Definition parseManifest (manifestStr : string) : res Objects :=
  ParseObjects env_Unmarshal (env_documents manifestStr) (mkObjects [] [] "").

(** A chain of transforms that stops at the first error. *)
Fixpoint runTransforms (transforms : list (ObjectTransform S)) (instance : S) (objects : Objects) :
    Objects * option error :=
  match transforms with
  | [] => (objects, None)
  | t :: transforms =>
      let '(objects, err) := t instance objects in
      match err with
      | Some e => (objects, Some e)
      | None => runTransforms transforms instance objects
      end
  end.

Definition transformManifest (instance : S) (objects : Objects) : Objects * option error :=
  let transforms := objectTransformations p ++
    match labelMaker p with Some f => [AddLabels (f instance)] | None => [] end in
  runTransforms transforms instance objects.

Fixpoint rawOperations (ops : list (S → string → res string)) (instance : S) (str : string) :
    res string :=
  match ops with
  | [] => Ok str
  | t :: ops => str ← t instance str; rawOperations ops instance str
  end.

(** The JSON texts of the items, each after a separator; the texts are cached
    in the items. *)
Fixpoint finalJson (items : list Object) (acc : string) : res (string * list Object) :=
  match items with
  | [] => Ok (acc, [])
  | item :: items =>
      let '(item, text) := JSON item in
      text ← text;
      '(acc, items) ← finalJson items (acc +:+ ("---" +:+ newline) +:+ text);
      Ok (acc, item :: items)
  end.

(** Step 5: the objects are written to the file of the manifest, then every
    blob, each [WriteFile] replacing the contents. *)
Definition writeObjects (fs : option (gmap string string)) (path : string) (objects : Objects) :
    res (option (gmap string string) * Objects) :=
  match fs with
  | None => Ok (None, objects)
  | Some fs =>
      '(text, items) ← finalJson (Items objects) "";
      let fs := <[path := text]> fs in
      let fs := foldl (λ fs blob, <[path := blob]> fs) fs (Blobs objects) in
      Ok (Some fs, with_items objects items)
  end.

(** One file of the manifest. *)
Definition buildFile (instance : S) (path str : string)
    (st : option (gmap string string) * Objects) : res (option (gmap string string) * Objects) :=
  let '(fs, manifestObjects) := st in
  str ← rawOperations (rawManifestOperations p) instance str;
  objects ← parseManifest str;
  objects ← (if IsKustomizeOptionUsed then Ok objects
             else match transformManifest instance objects with
                  | (objects, None) => Ok objects
                  | (_, Some e) => Err e
                  end);
  '(fs, objects) ← writeObjects fs path objects;
  Ok (fs, mkObjects (Items manifestObjects ++ Items objects)
            (Blobs manifestObjects ++ Blobs objects) (filepath_Dir path)).

Fixpoint buildFiles (instance : S) (files : list (string * string))
    (st : option (gmap string string) * Objects) : res (option (gmap string string) * Objects) :=
  match files with
  | [] => Ok st
  | (path, str) :: files => st ← buildFile instance path str st; buildFiles instance files st
  end.

(** BuildDeploymentObjectsWithFs, after the manifest was resolved. *)
Definition buildObjects (instance : S) (manifestFiles : gmap string string)
    (fs : option (gmap string string)) : res Objects :=
  '(fs, manifestObjects) ← buildFiles instance (range manifestFiles) (fs, mkObjects [] [] "");
  manifestObjects ←
    (if IsKustomizeOptionUsed then
       manifestYaml ← wrapV "error running kustomize" (env_kustomize fs (Path manifestObjects));
       objects ← parseManifest manifestYaml;
       match transformManifest instance objects with
       | (objects, None) => Ok (with_items manifestObjects (Items objects))
       | (_, Some e) => Err e
       end
     else Ok manifestObjects);
  Ok (with_items manifestObjects (sort_items DefaultObjectOrder (Items manifestObjects))).

Definition BuildDeploymentObjectsWithFs (instance : S) (fs : option (gmap string string)) :
    R S W (res Objects) :=
  match manifestController p with
  | None => mret (Err (Errorf "nil pointer dereference"))
  | Some resolve =>
      manifestFiles ← touch (resolve instance);
      mret (manifestFiles ← manifestFiles; buildObjects instance manifestFiles fs)
  end.

(** BuildDeploymentObjects: without a file system. *)
Definition BuildDeploymentObjects (instance : S) : R S W (res Objects) := BuildDeploymentObjectsWithFs instance None.

(** ** flattenListObjects *)

Fixpoint flattenItems (items : list Object) : res (list Object) :=
  match items with
  | [] => Ok []
  | item :: items =>
      here ← (if decide (obj_Group item = "v1" ∧ obj_Kind item = "List")
              then (λ l, NewObject <$> l) <$> env_listItems (obj_object item)
              else Ok [item]);
      rest ← flattenItems items;
      Ok (here ++ rest)
  end.

Definition flattenListObjects (infos : Objects) : res Objects :=
  items ← flattenItems (Items infos); Ok (with_items infos items).
End build.

(** ** Preparing the objects *)

Section prepare.
Context {S W : Type} `{Unstructured, Environment S W, DeclarativeObject S, RESTMapper}.
Context (p : reconcilerParams S W).

(** One object of setNamespaces; the error of SetNamespace is ignored. *)
Definition setNamespace (ns : string) (o : Object) : Object :=
  if decide (GetNamespace o ≠ "") then o
  else
    let gvk := GroupVersionKind o in
    match mapper_RESTMapping (GVK_GroupKind gvk) [gvk_Version gvk] with
    | Err _ => o
    | Ok mapping =>
        if decide (Scope_Name (rm_Scope mapping) = RESTScopeNameNamespace)
        then (SetNamespace ns o).1 else o
    end.

Definition setNamespaces (instance : S) (objects : Objects) : Objects :=
  if preserveNamespace p then objects
  else
    let ns := d_GetNamespace instance in
    if decide (ns = "") then objects
    else with_items objects (setNamespace ns <$> Items objects).

Definition ownerReferences (gvk : Kube.GroupVersionKind) (owner : S) : json :=
  JArr [JObj (<["apiVersion" := JStr (gvk_Group gvk +:+ "/" +:+ gvk_Version gvk)]>
    (<["blockOwnerDeletion" := JBool true]>
    (<["controller" := JBool true]>
    (<["kind" := JStr (gvk_Kind gvk)]>
    (<["name" := JStr (d_GetName owner)]>
    {["uid" := JStr (d_GetUID owner)]})))))].

(** The owner reference for one object, if one may be set. *)
Definition ownerRefFor (owner : S) (o : Object) : option json :=
  if decide (d_GetName owner = "") then None
  else if decide (d_GetUID owner = "") then None
  else match d_GVKForObject owner with
       | Err _ => None
       | Ok gvk =>
           if decide (gvk_Group gvk = "" ∨ gvk_Version gvk = "") then None
           else if decide (d_GetNamespace owner ≠ "" ∧ d_GetNamespace owner ≠ GetNamespace o)
           then None
           else Some (ownerReferences gvk owner)
       end.

(** The loop of injectOwnerRef: the selector sees the objects as changed so
    far. *)
Fixpoint injectOwners (select : S → Object → Objects → option S * option goError) (instance : S)
    (objects : Objects) (done todo : list Object) : list Object * option goError :=
  match todo with
  | [] => (done, None)
  | o :: todo =>
      match select instance o (with_items objects (done ++ o :: todo)) with
      | (_, Some e) => (done ++ o :: todo, Some e)
      | (None, None) => injectOwners select instance objects (done ++ [o]) todo
      | (Some owner, None) =>
          match ownerRefFor owner o with
          | None => injectOwners select instance objects (done ++ [o]) todo
          | Some refs =>
              match SetNestedField refs ["metadata"; "ownerReferences"] o with
              | (o, Some e) => (done ++ o :: todo, Some (Plain e))
              | (o, None) => injectOwners select instance objects (done ++ [o]) todo
              end
          end
      end
  end.

Definition injectOwnerRef (instance : S) (objects : Objects) : Objects * option goError :=
  match ownerFn p with
  | None => (objects, None)
  | Some select =>
      let '(items, err) := injectOwners select instance objects [] (Items objects) in
      (with_items objects items, err)
  end.

(** ownerref.go *)
Definition SourceAsOwner (src : S) (obj : Object) (objs : Objects) : option S * option goError :=
  (Some src, None).

Definition GetObjectFromCluster (obj : Object) (w : W) : res jmap :=
  let gvk := GroupVersionKind obj in
  mapping ← wrapW "unable to get mapping for resource"
              (mapper_RESTMapping (GroupKind obj) [gvk_Version gvk]);
  let ns := if decide (Scope_Name (rm_Scope mapping) = RESTScopeNameNamespace)
            then GetNamespace obj else "" in
  wrapW "unable to get object" (env_dynGet (rm_Resource mapping) ns (GetName obj) w).

Definition ignoreAnnotation : string := "addons.k8s.io/ignore".

(** An object that cannot be read is kept. *)
Definition ignored (w : W) (obj : Object) : bool :=
  match GetObjectFromCluster obj w with
  | Ok unstruct => bool_decide (is_Some (u_GetAnnotations unstruct !! ignoreAnnotation))
  | Err _ => false
  end.

(** The arguments for the applier. *)
Definition pruneArgs `{RangeOrder} (instance : S) : list string :=
  if prune p && match env_Pruner instance with Some b => b | None => true end then
    let labels := match labelMaker p with
                  | Some f => (λ kv, kv.1 +:+ "=" +:+ kv.2) <$> range (f instance)
                  | None => [] end in
    ["--prune"; "--selector"; strings.Join labels ","]
    ++ match env_PruneWhiteList instance with
       | Some l => l ≫= (λ gvk, ["--prune-whitelist"; gvk])
       | None => [] end
  else [].

(** The live reader handed to the status. *)
Definition liveObjects (w : W) : LiveObjectReader := λ gvk nn,
  mapping ← wrapW "unable to get mapping for resource"
              (mapper_RESTMapping (GVK_GroupKind gvk) [gvk_Version gvk]);
  match rm_Scope mapping with
  | RESTScopeNamespace =>
      wrapW "error getting object" (env_dynGet (rm_Resource mapping) (nn_Namespace nn) (nn_Name nn) w)
  | RESTScopeRoot =>
      wrapW "error getting object" (env_dynGet (rm_Resource mapping) "" (nn_Name nn) w)
  | RESTScopeOther _ => Err (Errorf "unknown scope")
  end.
End prepare.

(** The subject of an addon reconciler has the metadata of its type. *)
#[export] Instance subject_meta {C} `{CommonObject C, Unstructured, Converter} :
    DeclarativeObject (subject C) := {|
  d_GetName s := match s with Common c | OtherObject c => d_GetName c | Unstruct m => u_GetName m end;
  d_GetNamespace s :=
    match s with Common c | OtherObject c => d_GetNamespace c | Unstruct m => u_GetNamespace m end;
  d_GetUID s := match s with Common c | OtherObject c => d_GetUID c | Unstruct m => u_GetUID m end;
  d_GetGeneration := GetGeneration;
  d_GVKForObject s :=
    match s with Common c | OtherObject c => d_GVKForObject c | Unstruct m => Ok (u_GVK m) end
|}.

(** ** Reconciling *)

(** What reconcileExists answers: the status info, without its error, and the
    error. [oc_live] tells whether a live reader was set. *)
Record Outcome (S : Type) := mkOutcome {
  oc_instance : S;
  oc_manifest : option Objects;
  oc_live : bool;
  oc_known : string;
  oc_err : option goError
}.
Arguments mkOutcome {S} _ _ _ _ _.
Arguments oc_instance {S} _.
Arguments oc_manifest {S} _.
Arguments oc_live {S} _.
Arguments oc_known {S} _.
Arguments oc_err {S} _.

(** The variables of Reconcile when its body returns: the returned pair, and
    what the deferred functions read. *)
Record Body (S : Type) := mkBody {
  b_instance : S;
  b_result : Result;
  b_return : option error;
  b_manifest : option Objects;
  b_err : option error
}.
Arguments mkBody {S} _ _ _ _ _.
Arguments b_instance {S} _.
Arguments b_result {S} _.
Arguments b_return {S} _.
Arguments b_manifest {S} _.
Arguments b_err {S} _.

Section reconcile.
Context {C W : Type} `{CommonObject C, Unstructured, Converter, RangeOrder, RESTMapper,
  !Environment (subject C) W}.
Abbreviation S := (subject C).
Context (p : reconcilerParams S W).

(** The object as the tracker sees it. *)
Definition trackedObject (o : Object) : Kube.Object :=
  mkObject (GroupVersionKind o) (GetNamespace o) (GetName o) "" ∅ ∅ "".

(** [globalObjectTracker.addIfNotPresent]; its errors are only logged. *)
Definition trackObjects (items : list Object) (ns : string) : R S W () := λ st,
  if CollectMetrics p then
    let '(metrics.mkMetrics ot gauge) := rs_metrics st in
    let '(ot, gauge, _) := metrics.addIfNotPresent (λ _, None) (trackedObject <$> items) ns ot gauge in
    ((), mkRState (rs_world st) (metrics.mkMetrics ot gauge) (rs_count st) (rs_failure st) (rs_log st))
  else ((), st).

(** Calling the hooks that implement an interface, in order, until one
    fails. *)
Fixpoint applyHooks (sel : Hook S W → option (ApplyOperation S → W → W * (ApplyOperation S * option error)))
    (act : option error → Action S) (hs : list (Hook S W)) (op : ApplyOperation S) :
    R S W (ApplyOperation S * option error) :=
  match hs with
  | [] => mret (op, None)
  | h :: hs =>
      match sel h with
      | None => applyHooks sel act hs op
      | Some f =>
          r ← call (f op) (λ r, act r.2);
          match r with
          | (op, Some e) => mret (op, Some e)
          | (op, None) => applyHooks sel act hs op
          end
      end
  end.

Fixpoint statusHooks (sel : Hook S W → option (W → W * option error))
    (act : option error → Action S) (hs : list (Hook S W)) : R S W (option error) :=
  match hs with
  | [] => mret None
  | h :: hs =>
      match sel h with
      | None => statusHooks sel act hs
      | Some f =>
          r ← call f act;
          match r with
          | Some e => mret (Some e)
          | None => statusHooks sel act hs
          end
      end
  end.

(** The calls of optional collaborators. *)
Definition callPreflight (instance : S) : R S W (S * option goError) :=
  match status p with
  | Some st => call (st_Preflight st instance) (λ r, APreflight r.2)
  | None => mret (instance, None)
  end.

Definition callVersionCheck (instance : S) (objects : Objects) : R S W (S * (bool * option goError)) :=
  match status p with
  | Some st => call (st_VersionCheck st instance objects) (λ r, AVersionCheck r.2.1 r.2.2)
  | None => mret (instance, (true, None))
  end.

Definition callSink (instance : S) (objects : Objects) : R S W (option goError) :=
  match sink p with
  | Some notify => call (notify instance objects) ASink
  | None => mret None
  end.

Definition callEvent (instance : S) (reason : string) : R S W () :=
  call (λ w, (env_Event instance reason w, ())) (λ _, AEvent reason).

Definition callBuildStatus (o : Outcome S) (err : option error) : R S W (S * option error) :=
  match status p with
  | Some st =>
      live ← ask (λ w, if oc_live o then Some (liveObjects w) else None);
      let info := mkInfo (oc_instance o) (oc_manifest o) live (oc_known o) err in
      call (st_BuildStatus st info) (λ r, ABuildStatus info r.2)
  | None => mret (oc_instance o, None)
  end.

Definition callReconciled (b : Body S) : R S W (S * option error) :=
  match status p with
  | Some st => call (st_Reconciled st (b_instance b) (b_manifest b) (b_err b))
                 (λ _, AReconciled (b_manifest b) (b_err b))
  | None => mret (b_instance b, None)
  end.

(** reconcileExists from the call of the BeforeApply hooks on. *)
Definition applyOperation (op : ApplyOperation S) : R S W (Outcome S) :=
  let stop o live known err := mret (mkOutcome (op_Subject o) (Some (op_Objects o)) live known err) in
  r ← applyHooks BeforeApply ABeforeApply (hooks p) op;
  match r with
  | (op, Some e) => stop op false "" (Some (Plain (WrapV "error calling BeforeApply hook" e)))
  | (op, None) =>
      r ← call (applier p (op_ApplierOptions op) (op_Subject op)) (λ r, AApply (op_ApplierOptions op) r.2);
      let '(instance, items, err) := r in
      let op := mkApplyOperation instance (with_items (op_Objects op) items) (op_ApplierOptions op) in
      match err with
      | Some e => stop op false KnownErrorApplyFailed (Some (Plain (WrapV "error applying manifest" e)))
      | None =>
          notified ← callSink (op_Subject op) (op_Objects op);
          match notified with
          | Some e => stop op true "" (Some e)
          | None =>
              r ← applyHooks AfterApply AAfterApply (hooks p) op;
              match r with
              | (op, Some e) => stop op true "" (Some (Plain (WrapW "error calling AfterApply hook" e)))
              | (op, None) => stop op true "" None
              end
          end
      end
  end.

(** reconcileExists from setNamespaces on. *)
Definition applyObjects (name : Kube.NamespacedName) (instance : S) (objects : Objects) :
    R S W (Outcome S) :=
  let objects := setNamespaces p instance objects in
  let '(objects, err) := injectOwnerRef p instance objects in
  match err with
  | Some e => mret (mkOutcome instance (Some objects) false "" (Some e))
  | None =>
      newItems ← ask (λ w, filter (λ o, ignored w o = false) (Items objects));
      let objects := with_items objects newItems in
      let extraArgs := pruneArgs p instance in
      let ns := if preserveNamespace p then "" else nn_Namespace name in
      _ ← trackObjects (Items objects) ns;
      match d_GVKForObject instance with
      | Err e => mret (mkOutcome instance (Some objects) false "" (Some (Plain (WrapW "getting GVK" e))))
      | Ok gvk =>
          match mapper_RESTMapping (GVK_GroupKind gvk) [gvk_Version gvk] with
          | Err e => mret (mkOutcome instance (Some objects) false ""
                             (Some (Plain (WrapW "building applyset parent" e))))
          | Ok parentRef =>
              applyOperation (mkApplyOperation instance objects
                (mkApplierOptions (Items objects) ns parentRef (validate p) extraArgs true
                   (cascadingStrategy p)))
          end
      end
  end.

(** A version check that answers no error goes on, valid or not. *)
Definition reconcileExists (name : Kube.NamespacedName) (instance : S) : R S W (Outcome S) :=
  let fs := if IsKustomizeOptionUsed p then Some ∅ else None in
  objects ← BuildDeploymentObjectsWithFs p instance fs;
  match objects with
  | Err e => mret (mkOutcome instance None false ""
                     (Some (Plain (WrapV "error building deployment objects" e))))
  | Ok objects =>
      match flattenListObjects objects with
      | Err e => mret (mkOutcome instance None false ""
                         (Some (Plain (WrapW "error flattening list objects" e))))
      | Ok objects =>
          r ← callVersionCheck instance objects;
          match (r : S * (bool * option goError)) with
          | (instance, (valid, Some e)) =>
              if valid then mret (mkOutcome instance (Some objects) false "" (Some e))
              else
                _ ← callEvent instance "Failed version check";
                mret (mkOutcome instance (Some objects) false KnownErrorVersionCheckFailed None)
          | (instance, (_, None)) => applyObjects name instance objects
          end
      end
  end.

Definition updateStatus (original instance : S) : R S W (S * option error) :=
  match GetCommonStatus original with
  | Err e => mret (instance, Some e)
  | Ok oldStatus =>
      match GetCommonStatus instance with
      | Err e => mret (instance, Some e)
      | Ok newStatus =>
          err ← statusHooks BeforeUpdateStatus ABeforeUpdateStatus (hooks p);
          match err with
          | Some e => mret (instance, Some (WrapW "error calling BeforeUpdateStatus hook" e))
          | None =>
              r ← (if decide (oldStatus ≠ newStatus)
                   then call (env_StatusUpdate instance) (λ r, AStatusUpdate instance r.2)
                   else mret (instance, None));
              match r with
              | (instance, Some e) => mret (instance, Some e)
              | (instance, None) =>
                  err ← statusHooks AfterUpdateStatus AAfterUpdateStatus (hooks p);
                  mret (instance, WrapW "error calling AfterUpdateStatus hook" <$> err)
              end
          end
      end
  end.

(** The body of Reconcile from the preflight check to its return. *)
Definition afterPreflight (name : Kube.NamespacedName) (original instance : S) : R S W (Body S) :=
  o ← reconcileExists name instance;
  let instance := oc_instance o in
  let '(result, err) := match oc_err o with
                        | Some (ErrorResult r e) => (r, e)
                        | Some (Plain e) => (noResult, Some e)
                        | None => (noResult, None)
                        end in
  _ ← match err with
      | Some _ => callEvent instance "InternalError"
      | None => mret ()
      end;
  built ← callBuildStatus o err;
  match built with
  | (instance, Some e) =>
      let err := Some (default e err) in mret (mkBody instance result err (oc_manifest o) err)
  | (instance, None) =>
      r ← updateStatus original instance;
      let '(instance, uerr) := r in
      let err := match err with Some e => Some e | None => uerr end in
      mret (mkBody instance result err (oc_manifest o) err)
  end.

Definition reconcileFound (name : Kube.NamespacedName) (instance : S) : R S W (Body S) :=
  let original := instance in
  pre ← callPreflight instance;
  match pre with
  | (instance, Some (ErrorResult r e)) => mret (mkBody instance r e None None)
  | (instance, Some (Plain e)) => mret (mkBody instance noResult (Some e) None (Some e))
  | (instance, None) => afterPreflight name original instance
  end.

Definition collectMetrics (rm : metrics.reconcileMetrics) (request : Kube.NamespacedName)
    (err : option error) : R S W () := λ st,
  if CollectMetrics p then
    ((), mkRState (rs_world st) (rs_metrics st) (metrics.reconcileWith rm request (rs_count st))
           (metrics.reconcileFailedWith rm request err (rs_failure st)) (rs_log st))
  else ((), st).

(** Reconcile: the deferred calls run last, Reconciled before the metrics. *)
Definition Reconcile (rm : metrics.reconcileMetrics) (request : Kube.NamespacedName) :
    R S W (Result * option error) :=
  answer ← call (env_Get request) (λ _, AGet request);
  match answer with
  | NotFound => _ ← collectMetrics rm request None; mret (noResult, None)
  | GetError e => _ ← collectMetrics rm request (Some e); mret (noResult, Some e)
  | Found instance =>
      b ← reconcileFound request instance;
      _ ← callReconciled b;
      _ ← collectMetrics rm request (b_err b);
      mret (b_result b, b_return b)
  end.
End reconcile.

(** ** Initialisation *)

Section init.
Context {C W : Type} `{CommonObject C, Unstructured, Converter}.
Abbreviation S := (subject C).

(** The name Init gives the controller. *)
Definition controllerNameFor (prototype : S) : string :=
  match GetCommonName prototype with
  | Ok commonName => commonName +:+ "-controller"
  | Err _ => "addon-controller"
  end.

(** InitWithName: the options and the metrics of the reconciler. The clients it
    builds from the manager are parameters, which may fail. *)
Definition InitWithName (httpClient dynamicClient : res ()) (prototype : S) defaultApplier
    (begin_ opts end_ : list (ReconcilerOption S W)) defaultLoader :
    res (reconcilerParams S W * option metrics.reconcileMetrics) :=
  _ ← wrapW "getting HTTP client" httpClient;
  _ ← dynamicClient;
  params ← applyOptions defaultApplier begin_ opts end_ defaultLoader;
  match validateOptions params with
  | Some e => Err e
  | None =>
      if CollectMetrics params then
        gvk ← d_GVKForObject prototype;
        Ok (params, Some (metrics.reconcileMetricsFor gvk))
      else Ok (params, None)
  end.
End init.

(** A StatusBuilder as a Status: its methods do not touch the world. *)
Definition of_builder {S W} (b : StatusBuilder S) : Status S W := mkStatusImpl
  (λ s w, (w, let '(s, err) := sb_Preflight b s in (s, Plain <$> err)))
  (λ s objs w, (w, let '(s, (ok, err)) := sb_VersionCheck b s objs in (s, (ok, Plain <$> err))))
  (λ info w, (w, sb_BuildStatus b info))
  (λ s objs err w, (w, sb_Reconciled b s objs err)).

(* ------------------------------------------------------------------ *)
(** ** Reasoning about runs *)

(** [runs m Q]: from every state, [m] appends some calls to the log, leaves
    the reconcile counters alone, and [Q] relates its answer and the calls. *)
Definition runs {S W A} (m : R S W A) (Q : A → list (Action S) → Prop) : Prop := ∀ st,
  ∃ a st' new, m st = (a, st') ∧ rs_log st' = rs_log st ++ new
    ∧ rs_count st' = rs_count st ∧ rs_failure st' = rs_failure st ∧ Q a new.

Section runs_lemmas.
Context {S W : Type}.

Lemma runs_ret {A} (a : A) (Q : A → list (Action S) → Prop) : Q a [] → runs (mret a : R S W A) Q.
Proof. intros HQ st. exists a, st, []. by rewrite app_nil_r. Qed.

Lemma runs_mono {A} (m : R S W A) (P Q : A → list (Action S) → Prop) :
  runs m P → (∀ a new, P a new → Q a new) → runs m Q.
Proof. intros Hm HPQ st. destruct (Hm st) as (a & st' & new & E & ? & ? & ? & HP). exists a, st', new. split_and!; auto. Qed.

Lemma runs_bind {A B} (m : R S W A) (f : A → R S W B) (P : A → list (Action S) → Prop) Q :
  runs m P → (∀ a new, P a new → runs (f a) (λ b new', Q b (new ++ new'))) → runs (m ≫= f) Q.
Proof.
  intros Hm Hf st. destruct (Hm st) as (a & st1 & new & E & L1 & C1 & F1 & HP).
  destruct (Hf a new HP st1) as (b & st2 & new' & E' & L2 & C2 & F2 & HQ).
  exists b, st2, (new ++ new'). unfold mbind, R_bind. rewrite E, E'.
  split_and!; [done| |congruence|congruence|done]. by rewrite L2, L1, (assoc (++)).
Qed.

Lemma runs_call {A} (f : W → W * A) (act : A → Action S) (Q : A → list (Action S) → Prop) :
  (∀ a, Q a [act a]) → runs (call f act) Q.
Proof. intros HQ st. unfold call. destruct (f (rs_world st)) as [w a]. by eexists a, _, [act a]. Qed.

Lemma runs_ask {A} (f : W → A) (Q : A → list (Action S) → Prop) :
  (∀ a, Q a []) → runs (ask f) Q.
Proof. intros HQ st. eexists _, st, []. unfold ask. by rewrite app_nil_r. Qed.

Lemma runs_touch {A} (f : W → W * A) (Q : A → list (Action S) → Prop) :
  (∀ a, Q a []) → runs (touch f) Q.
Proof. intros HQ st. unfold touch. destruct (f (rs_world st)) as [w a]. eexists a, _, []. by rewrite app_nil_r. Qed.
End runs_lemmas.

(** ** The calls of a reconciliation *)

(** A call that must not be followed by an apply. *)
Definition refused {S} (a : Action S) : bool :=
  match a with
  | APreflight (Some _) | AVersionCheck _ (Some _) | ABeforeApply (Some _) => true
  | _ => false
  end.
Definition isApply {S} (a : Action S) : bool := match a with AApply _ _ => true | _ => false end.

(** Calls among which there is no apply, and none that refuses one. *)
Definition quiet {S} (l : list (Action S)) : Prop := Forall (λ a, isApply a = false) l.
Definition allowed {S} (l : list (Action S)) : Prop := quiet l ∧ Forall (λ a, refused a = false) l.

Lemma quiet_app {S} (l k : list (Action S)) : quiet (l ++ k) ↔ quiet l ∧ quiet k.
Proof. apply list.Forall_app. Qed.
Lemma allowed_app {S} (l k : list (Action S)) : allowed (l ++ k) ↔ allowed l ∧ allowed k.
Proof. unfold allowed. rewrite quiet_app, list.Forall_app. naive_solver. Qed.
Lemma quiet_nil {S} : quiet (S := S) [].
Proof. constructor. Qed.
Lemma allowed_nil {S} : allowed (S := S) [].
Proof. split; constructor. Qed.

(** Either no apply is called, or exactly one is, after nothing refused it. *)
Inductive applied_once {S} (err : option error) : list (Action S) → Prop :=
  | not_applied l : quiet l → applied_once err l
  | applied opts e pre post : allowed pre → quiet post →
      (∀ e', e = Some e' → err = Some (WrapV "error applying manifest" e')) →
      applied_once err (pre ++ AApply opts e :: post).

Lemma applied_once_app {S} err (pre l post : list (Action S)) :
  allowed pre → quiet post → applied_once err l → applied_once err (pre ++ l ++ post).
Proof.
  intros Hpre Hpost [l' Hl|opts e pre' post' Hpre' Hpost' He].
  - apply not_applied. rewrite !quiet_app. by destruct Hpre.
  - replace (pre ++ (pre' ++ AApply opts e :: post') ++ post)
      with ((pre ++ pre') ++ AApply opts e :: (post' ++ post)) by (by rewrite <- !(assoc (++))).
    apply applied; [by apply allowed_app|by apply quiet_app|done].
Qed.

(** The error a reconciliation ends with, unpacked. *)
Definition errorOf (g : option goError) : option error :=
  match g with
  | Some (Plain e) => Some e
  | Some (ErrorResult _ e) => e
  | None => None
  end.

Ltac calm := repeat constructor.

Section calls.
Context {C W : Type} `{CommonObject C, Unstructured, Converter, RangeOrder, RESTMapper,
  !Environment (subject C) W}.
Abbreviation S := (subject C).
Context (p : reconcilerParams S W).

Lemma applyHooks_before hs op :
  runs (applyHooks BeforeApply ABeforeApply hs op : R S W _)
    (λ r new, quiet new ∧ (r.2 = None → allowed new)).
Proof using.
  revert op; induction hs as [|h hs IH]; intros op; cbn [applyHooks].
  { apply runs_ret. split; [apply quiet_nil|intros; apply allowed_nil]. }
  destruct (BeforeApply h) as [f|]; [|apply IH].
  eapply runs_bind; [apply (runs_call _ _ (λ r new, new = [ABeforeApply r.2])); done|].
  intros [op' [e|]] new ->.
  - apply runs_ret. split; [calm|done].
  - eapply runs_mono; [apply IH|]. intros r new [Hq Ha]. rewrite quiet_app, allowed_app.
    split; [by split; [calm|]|]. intros Hr. split; [split; calm|by apply Ha].
Qed.

Lemma applyHooks_after hs op :
  runs (applyHooks AfterApply AAfterApply hs op : R S W _) (λ r new, quiet new).
Proof using.
  revert op; induction hs as [|h hs IH]; intros op; cbn [applyHooks]; [apply runs_ret, quiet_nil|].
  destruct (AfterApply h) as [f|]; [|apply IH].
  eapply runs_bind; [apply (runs_call _ _ (λ r new, new = [AAfterApply r.2])); done|].
  intros [op' [e|]] new ->; [apply runs_ret; calm|].
  eapply runs_mono; [apply IH|]. intros r new Hq. apply quiet_app. split; [calm|done].
Qed.

Lemma statusHooks_quiet sel act hs :
  (∀ e, isApply (act e) = false) →
  runs (statusHooks sel act hs : R S W _) (λ r new, quiet new).
Proof using.
  intros Hact. induction hs as [|h hs IH]; cbn [statusHooks]; [apply runs_ret, quiet_nil|].
  destruct (sel h) as [f|]; [|apply IH].
  eapply runs_bind; [apply (runs_call _ _ (λ r new, new = [act r])); done|].
  intros [e|] new ->.
  - apply runs_ret. apply quiet_app. split; [|apply quiet_nil]. constructor; [apply Hact|constructor].
  - eapply runs_mono; [apply IH|]. intros r new Hq. apply quiet_app. split; [|done].
    constructor; [apply Hact|constructor].
Qed.

Lemma callSink_quiet instance objects : runs (callSink p instance objects) (λ r new, quiet new).
Proof using.
  unfold callSink. destruct (sink p); [apply runs_call; calm|apply runs_ret, quiet_nil].
Qed.

Lemma applyOperation_once op :
  runs (applyOperation p op) (λ o new, applied_once (errorOf (oc_err o)) new).
Proof using.
  unfold applyOperation. eapply runs_bind; [apply applyHooks_before|]. intros [op' [e|]] new [Hq Ha].
  { apply runs_ret. rewrite app_nil_r. by apply not_applied. }
  specialize (Ha eq_refl).
  eapply runs_bind; [apply (runs_call _ _ (λ r new, new = [AApply (op_ApplierOptions op') r.2])); done|].
  intros [[instance items] err] new' ->. destruct err as [e|].
  { apply runs_ret. apply (applied _ _ _ new []); [done|calm|]. by intros e' [= ->]. }
  eapply runs_bind; [apply callSink_quiet|]. intros [e|] new'' Hq''.
  { apply runs_ret. rewrite app_nil_r. cbn [snd app]. by apply (applied _ _ None new new''). }
  eapply runs_bind; [apply applyHooks_after|]. intros [op'' [e|]] new3 Hq3.
  all: apply runs_ret; rewrite app_nil_r; cbn [snd app].
  all: apply (applied _ _ None new (new'' ++ new3)); [done|by apply quiet_app|done].
Qed.

Lemma trackObjects_runs items ns : runs (trackObjects p items ns) (λ _ new, new = []).
Proof using.
  intros st. unfold trackObjects. destruct (CollectMetrics p).
  - destruct (rs_metrics st) as [ot gauge]. destruct (metrics.addIfNotPresent _ _ _ _ _) as [[ot' gauge'] errs].
    eexists _, _, []. split; [done|]. by rewrite app_nil_r.
  - eexists _, st, []. by rewrite app_nil_r.
Qed.

Lemma applyObjects_once name instance objects :
  runs (applyObjects p name instance objects) (λ o new, applied_once (errorOf (oc_err o)) new).
Proof using.
  unfold applyObjects. destruct (injectOwnerRef p instance _) as [objs [e|]].
  { apply runs_ret, not_applied, quiet_nil. }
  eapply runs_bind; [apply (runs_ask _ (λ _ new, new = [])); done|]. intros items new ->.
  eapply runs_bind; [apply trackObjects_runs|]. intros _ new ->. cbn [app].
  destruct (d_GVKForObject instance) as [gvk|e]; [|apply runs_ret, not_applied, quiet_nil].
  destruct (mapper_RESTMapping _ _) as [m|e]; [|apply runs_ret, not_applied, quiet_nil].
  apply applyOperation_once.
Qed.

Lemma reconcileExists_once name instance :
  runs (reconcileExists p name instance) (λ o new, applied_once (errorOf (oc_err o)) new).
Proof using.
  unfold reconcileExists.
  eapply (runs_bind _ _ (λ _ new, new = [])).
  { unfold BuildDeploymentObjectsWithFs. destruct (manifestController p); [|by apply runs_ret].
    eapply runs_bind; [apply (runs_touch _ (λ _ new, new = [])); done|]. intros f new ->. by apply runs_ret. }
  intros objects new ->. cbn [app]. destruct objects as [objects|e]; [|apply runs_ret, not_applied, quiet_nil].
  destruct (flattenListObjects objects) as [objs|e]; [|apply runs_ret, not_applied, quiet_nil].
  eapply (runs_bind _ _ (λ r new, quiet new ∧ (r.2.2 = None → allowed new))).
  { unfold callVersionCheck. destruct (status p).
    - apply runs_call. intros [s0 [valid [e|]]]; (split; [calm|]); [done|]. intros _. split; calm.
    - apply runs_ret. split; [apply quiet_nil|intros _; apply allowed_nil]. }
  intros [s [valid [e|]]] new [Hq Ha].
  - destruct valid; [apply runs_ret; rewrite app_nil_r; by apply not_applied|].
    eapply (runs_bind _ _ (λ _ new, quiet new)); [apply runs_call; calm|]. intros _ new' Hq'.
    apply runs_ret. apply not_applied. rewrite !quiet_app. split_and!; [done..|apply quiet_nil].
  - eapply runs_mono; [apply applyObjects_once|]. intros o new' Ho.
    rewrite <- (app_nil_r new'). apply applied_once_app; [by apply Ha|apply quiet_nil|done].
Qed.

Lemma updateStatus_quiet original instance :
  runs (updateStatus p original instance) (λ r new, quiet new).
Proof using.
  unfold updateStatus. destruct (GetCommonStatus original) as [old|e]; [|apply runs_ret, quiet_nil].
  destruct (GetCommonStatus instance) as [new_|e]; [|apply runs_ret, quiet_nil].
  eapply runs_bind; [by apply statusHooks_quiet|]. intros [e|] new Hq.
  { apply runs_ret. by rewrite app_nil_r. }
  eapply (runs_bind _ _ (λ _ new, quiet new)).
  { case_decide; [apply runs_call; calm|apply runs_ret, quiet_nil]. }
  intros [s [e|]] new' Hq'.
  { apply runs_ret. rewrite app_nil_r. by apply quiet_app. }
  eapply runs_bind; [by apply statusHooks_quiet|]. intros err new'' Hq''.
  apply runs_ret. rewrite app_nil_r, !quiet_app. done.
Qed.

Lemma callEvent_quiet instance reason :
  runs (callEvent instance reason : R S W _) (λ _ new, quiet new).
Proof using. apply runs_call. calm. Qed.

Lemma callBuildStatus_quiet o err : runs (callBuildStatus p o err) (λ _ new, quiet new).
Proof using.
  unfold callBuildStatus. destruct (status p); [|apply runs_ret, quiet_nil].
  eapply (runs_bind _ _ (λ _ new, new = [])); [by apply runs_ask|]. intros live new ->.
  apply runs_call. calm.
Qed.

(** Only the preflight check itself is logged as such. *)
Lemma afterPreflight_once name original instance :
  runs (afterPreflight p name original instance)
    (λ b new, applied_once (b_return b) new ∧ b_err b = b_return b).
Proof using.
  unfold afterPreflight. eapply runs_bind; [apply reconcileExists_once|]. intros o new Ho.
  assert (∃ result, match oc_err o with
     | Some (ErrorResult r e) => (r, e) | Some (Plain e) => (noResult, Some e)
     | None => (noResult, None) end = (result, errorOf (oc_err o))) as [result ->].
  { destruct (oc_err o) as [[|]|]; by eexists. }
  cbv beta in Ho. set (err := errorOf (oc_err o)) in *. clearbody err.
  eapply (runs_bind _ _ (λ _ new, quiet new)).
  { destruct err; [apply callEvent_quiet|apply runs_ret, quiet_nil]. }
  intros _ new1 Hq1. eapply runs_bind; [apply callBuildStatus_quiet|]. intros [s [e|]] new2 Hq2.
  - apply runs_ret. split; [|done]. cbn [b_return]. rewrite app_nil_r.
    destruct Ho as [l Hl|opts e0 pre post Hpre Hpost He].
    + apply not_applied. by rewrite !quiet_app.
    + rewrite <- (assoc (++)). cbn [app]. apply applied; [done|by rewrite !quiet_app|].
      intros e' ->. by rewrite (He e' eq_refl).
  - eapply runs_bind; [apply updateStatus_quiet|]. intros [s' uerr] new3 Hq3.
    apply runs_ret. split; [|done]. cbn [b_return]. rewrite app_nil_r.
    destruct Ho as [l Hl|opts e0 pre post Hpre Hpost He].
    + apply not_applied. by rewrite !quiet_app.
    + rewrite <- (assoc (++)). cbn [app]. apply applied; [done|by rewrite !quiet_app|].
      intros e' ->. by rewrite (He e' eq_refl).
Qed.

Lemma reconcileFound_once name instance :
  runs (reconcileFound p name instance)
    (λ b new, applied_once (b_return b) new
       ∧ (b_err b = b_return b ∨ b_err b = None ∧ b_manifest b = None ∧ is_Some (status p)
            ∧ ∃ r, new = [APreflight (Some (ErrorResult r (b_return b)))])).
Proof using.
  unfold reconcileFound.
  eapply (runs_bind _ _ (λ r new, new = match status p with Some _ => [APreflight r.2] | None => [] end
    ∧ (status p = None → r.2 = None))).
  { unfold callPreflight. destruct (status p); [by apply runs_call|by apply runs_ret]. }
  intros [s [[e|r e]|]] new [-> Hnone]; destruct (status p) as [st|]; try (by specialize (Hnone eq_refl)).
  - apply runs_ret. split; [apply not_applied; calm|by left].
  - apply runs_ret. split; [apply not_applied; calm|]. right. split_and!; [done|done|by eexists|]. by exists r.
  - eapply runs_mono; [apply afterPreflight_once|]. intros b new [Hb He]. split; [|by left].
    rewrite <- (app_nil_r new). apply applied_once_app; [split; calm|apply quiet_nil|done].
  - eapply runs_mono; [apply afterPreflight_once|]. intros b new [Hb He]. split; [done|by left].
Qed.

Lemma callReconciled_quiet b : runs (callReconciled p b) (λ _ new,
  new = match status p with Some _ => [AReconciled (b_manifest b) (b_err b)] | None => [] end).
Proof using. unfold callReconciled. destruct (status p); [by apply runs_call|by apply runs_ret]. Qed.

(** A whole run: what it logs, and what it counts. The error counted is the
    one returned, except when the preflight check answered a result of its
    own. *)
Lemma Reconcile_run rm request (st : RState S W) :
  ∃ result err st' new counted, Reconcile p rm request st = ((result, err), st')
    ∧ rs_log st' = rs_log st ++ new ∧ applied_once err new
    ∧ (metrics p = true → rs_count st' = metrics.reconcileWith rm request (rs_count st)
        ∧ rs_failure st' = metrics.reconcileFailedWith rm request counted (rs_failure st))
    ∧ (counted = err ∨ counted = None ∧ ∃ r,
        new = [AGet request; APreflight (Some (ErrorResult r err)); AReconciled None None]).
Proof using.
  unfold Reconcile, mbind, R_bind, call, mret, R_ret, collectMetrics, CollectMetrics.
  destruct (env_Get request (rs_world st)) as [w [instance| |e]].
  - set (st0 := mkRState _ _ _ _ _).
    destruct (reconcileFound_once request instance st0) as (b & st1 & new & -> & L1 & C1 & F1 & Ho & Hb).
    destruct (callReconciled_quiet b st1) as (r & st2 & new2 & -> & L2 & C2 & F2 & Hn2).
    assert (rs_log st2 = rs_log st ++ [AGet request] ++ new ++ new2) as L.
    { rewrite L2, L1. cbn [st0 rs_log]. by rewrite <- !(assoc (++)). }
    assert (applied_once (b_return b) ([AGet request] ++ new ++ new2)) as Happ.
    { apply applied_once_app; [split; calm|rewrite Hn2; destruct (status p); calm|done]. }
    assert (b_err b = b_return b ∨ b_err b = None ∧ ∃ r0, [AGet request] ++ new ++ new2
      = [AGet request; APreflight (Some (ErrorResult r0 (b_return b))); AReconciled None None]) as Hc.
    { destruct Hb as [Hb|(He & Hm & [st3 Hst3] & r0 & ->)]; [by left|]. right. split; [done|]. exists r0.
      by rewrite Hn2, He, Hm, Hst3. }
    destruct (metrics p); eexists _, _, _, _, (b_err b); (split; [done|]);
      (split; [done|]); (split; [done|]); (split; [|done]); [|done].
    intros _. cbn [rs_count rs_failure]. by rewrite C2, C1, F2, F1.
  - destruct (metrics p); eexists _, _, _, _, None; (split; [done|]);
      (split; [done|]); (split; [apply not_applied; calm|]); (split; [done|by left]).
  - destruct (metrics p); eexists _, _, _, _, (Some e); (split; [done|]);
      (split; [done|]); (split; [apply not_applied; calm|]); (split; [done|by left]).
Qed.
End calls.

(* ------------------------------------------------------------------ *)
(** ** Building the manifest, whatever the order of its files *)

Lemma Forall2_perm {A B} (R : A → B → Prop) (l l' : list A) :
  l ≡ₚ l' → ∀ k, Forall2 R l k → ∃ k', Forall2 R l' k' ∧ k ≡ₚ k'.
Proof.
  induction 1 as [|x l l' Hp IH|x y l|l1 l2 l3 _ IH1 _ IH2]; intros k Hk.
  - inversion Hk; subst. by exists [].
  - inversion Hk as [|? z ? k0 Hz Hk0]; subst. destruct (IH k0 Hk0) as (k' & Hk' & Hp').
    exists (z :: k'). split; [by constructor|by constructor].
  - inversion Hk as [|? z ? k0 Hz Hk0]; subst. inversion Hk0 as [|? z' ? k1 Hz' Hk1]; subst.
    exists (z' :: z :: k1). split; [by repeat constructor|apply Permutation_swap].
  - destruct (IH1 k Hk) as (k1 & Hk1 & P1). destruct (IH2 k1 Hk1) as (k2 & Hk2 & P2).
    exists k2. split; [done|by rewrite P1].
Qed.

(** Writing a text to a file, and then each blob over it. *)
Lemma writeBlobs_default (fs : gmap string string) path text blobs :
  foldl (λ fs blob, <[path := blob]> fs) (<[path := text]> fs) blobs
  = <[path := default text (list.last blobs)]> fs.
Proof.
  revert text; induction blobs as [|b blobs IH]; intros text; [done|]. cbn [foldl].
  rewrite insert_insert_eq, IH, last_cons. by destruct (list.last blobs).
Qed.

Section build_lemmas.
Context {S W : Type} `{Unstructured} `{!Environment S W}.
Context (p : reconcilerParams S W).

(** What one file contributes: its objects, and the text written back when there
    is a file system. *)
Definition fileObjects (instance : S) (file : string * string) : res Objects :=
  str ← rawOperations (rawManifestOperations p) instance file.2;
  objects ← parseManifest str;
  if kustomize p then Ok objects
  else match transformManifest p instance objects with
       | (objects, None) => Ok objects
       | (_, Some e) => Err e
       end.

Definition fileOutput (write : bool) (instance : S) (file : string * string) : res (option string * Objects) :=
  objects ← fileObjects instance file;
  if write then
    '(text, items) ← finalJson (Items objects) "";
    Ok (Some (default text (list.last (Blobs objects))), with_items objects items)
  else Ok (None, objects).

Abbreviation built_file := (string * (option string * Objects))%type.

Definition written (fs : option (gmap string string)) (f : built_file) : option (gmap string string) :=
  match f.2.1 with Some text => <[f.1 := text]> <$> fs | None => fs end.

Lemma buildFile_output instance file fs o :
  buildFile p instance file.1 file.2 (fs, o) =
    c ← fileOutput (bool_decide (is_Some fs)) instance file;
    Ok (written fs (file.1, c),
        mkObjects (Items o ++ Items c.2) (Blobs o ++ Blobs c.2) (filepath_Dir file.1)).
Proof using.
  unfold buildFile, fileOutput, fileObjects, IsKustomizeOptionUsed.
  destruct (rawOperations _ _ _) as [str|]; [|done]. cbn [mbind res_bind].
  destruct (parseManifest str) as [objects|]; [|done]. cbn [mbind res_bind].
  assert (∀ objects, ('(fs, objects) ← writeObjects fs file.1 objects;
      Ok (fs, mkObjects (Items o ++ Items objects) (Blobs o ++ Blobs objects) (filepath_Dir file.1)))
    = c ← (if bool_decide (is_Some fs) then
            '(text, items) ← finalJson (Items objects) "";
            Ok (Some (default text (list.last (Blobs objects))), with_items objects items)
          else Ok (None, objects));
      Ok (written fs (file.1, c),
        mkObjects (Items o ++ Items c.2) (Blobs o ++ Blobs c.2) (filepath_Dir file.1))) as Hw.
  { intros objs. unfold writeObjects. destruct fs as [fs|]; [|done].
    rewrite bool_decide_eq_true_2 by by eexists.
    destruct (finalJson (Items objs) "") as [[text items]|]; [|done]. cbn [mbind res_bind].
    by rewrite writeBlobs_default. }
  destruct (kustomize p); [apply Hw|].
  destruct (transformManifest p instance objects) as [objects' [e|]]; [done|]. apply Hw.
Qed.

Lemma written_is_Some fs f : is_Some (written fs f) ↔ is_Some fs.
Proof using. unfold written. destruct (f.2.1), fs; cbn; split; intros [? [=]]; by eexists. Qed.

(** All files: the objects one file after the other, and what was written. *)
Lemma buildFiles_Ok instance files fs o fs' o' :
  buildFiles p instance files (fs, o) = Ok (fs', o') ↔
  ∃ cs, Forall2 (λ f c, c.1 = f.1 ∧ fileOutput (bool_decide (is_Some fs)) instance f = Ok c.2) files cs
    ∧ fs' = foldl written fs cs
    ∧ o' = mkObjects (Items o ++ (cs ≫= λ c, Items c.2.2)) (Blobs o ++ (cs ≫= λ c, Blobs c.2.2))
             (default (Path o) (filepath_Dir <$> list.last files.*1)).
Proof using.
  revert fs o; induction files as [|[path str] files IH]; intros fs o; cbn [buildFiles].
  { split.
    - intros [= <- <-]. exists []. split; [constructor|]. cbn. rewrite !app_nil_r. by destruct o.
    - intros (cs & Hcs & -> & ->). inversion Hcs. cbn. rewrite !app_nil_r. by destruct o. }
  rewrite (buildFile_output instance (path, str)).
  destruct (fileOutput _ instance (path, str)) as [c|] eqn:E; cbn [mbind res_bind].
  2:{ split; [done|]. intros (cs & Hcs & _). inversion Hcs as [|? ? ? ? [_ E']]. congruence. }
  rewrite IH, fmap_cons, last_cons.
  rewrite (bool_decide_ext _ _ (written_is_Some fs (path, c))). split.
  - intros (cs & Hcs & -> & ->). exists ((path, c) :: cs). split; [by constructor|]. split; [done|].
    rewrite !bind_cons, !(assoc (++)). cbn [Items Blobs Path fst snd]. by destruct (list.last files.*1).
  - intros (cs & Hcs & -> & ->). inversion Hcs as [|? [path' c'] ? cs' [Ep E'] Hcs' EE]. cbn in Ep, E'. subst.
    rewrite E in E'. injection E' as ->. exists cs'. split; [done|]. split; [done|].
    rewrite !bind_cons, !(assoc (++)). cbn [Items Blobs Path fst snd]. by destruct (list.last files.*1).
Qed.

(** Writing to different files in any order. *)
Lemma written_perm (cs cs' : list built_file) fs :
  cs ≡ₚ cs' → NoDup cs.*1 → foldl written fs cs = foldl written fs cs'.
Proof using.
  intros Hp. revert fs. induction Hp as [|x l l' Hp IH|x y l|l1 l2 l3 Hp1 IH1 Hp2 IH2]; intros fs Hnd; [done| | |].
  - rewrite fmap_cons in Hnd. apply list.NoDup_cons in Hnd as [_ Hnd]. cbn. by apply IH.
  - rewrite !fmap_cons in Hnd. apply list.NoDup_cons in Hnd as [Hxy _].
    apply not_elem_of_cons in Hxy as [Hxy _]. cbn. f_equal. unfold written.
    destruct (x.2.1), (y.2.1), fs; cbn; try done. f_equal. by apply insert_insert_ne.
  - rewrite IH1 by done. apply IH2. by rewrite <- Hp1.
Qed.

(** Another order of the files: the build of the files succeeds as well, with
    the same files written and the same objects in some order. *)
Lemma buildFiles_perm instance files files' fs fs' o' :
  files ≡ₚ files' → NoDup files.*1 →
  buildFiles p instance files (fs, mkObjects [] [] "") = Ok (fs', o') →
  ∃ o2, buildFiles p instance files' (fs, mkObjects [] [] "") = Ok (fs', o2)
    ∧ Items o' ≡ₚ Items o2 ∧ Blobs o' ≡ₚ Blobs o2
    ∧ Path o' = default "" (filepath_Dir <$> list.last files.*1)
    ∧ Path o2 = default "" (filepath_Dir <$> list.last files'.*1).
Proof using.
  intros Hp Hnd (cs & Hcs & -> & ->)%buildFiles_Ok.
  destruct (Forall2_perm _ _ _ Hp cs Hcs) as (cs' & Hcs' & Hpc).
  eexists. split; [apply buildFiles_Ok; exists cs'; split; [done|]; split; [|reflexivity]|].
  - apply written_perm; [done|].
    assert (cs.*1 = files.*1) as ->; [|done].
    clear -Hcs. induction Hcs as [|f c files cs [E _] _ IH]; [done|]. by rewrite !fmap_cons, E, IH.
  - cbn [Items Blobs Path app]. by rewrite Hpc.
Qed.
End build_lemmas.

(** The directory of the last of the files, when all are in one. *)
Lemma range_last_dir {S W} `{Environment S W, RangeOrder} (files : gmap string string) dir :
  (∀ path, path ∈ dom files → filepath_Dir path = dir) →
  default "" (filepath_Dir <$> list.last (range files).*1)
  = if decide (files = ∅) then "" else dir.
Proof.
  intros Hdir. destruct (list.last (range files).*1) as [path|] eqn:El.
  - assert (path ∈ dom files) as Hin.
    { apply last_Some_elem_of in El. rewrite range_perm in El.
      apply list_elem_of_fmap in El as ([k v] & -> & Hkv%elem_of_map_to_list). by apply elem_of_dom_2 in Hkv. }
    cbn. rewrite Hdir by done. rewrite decide_False; [done|]. intros ->. set_solver.
  - apply last_None, fmap_nil_inv in El. rewrite decide_True; [done|].
    apply map_to_list_empty_iff, Permutation_nil_r. by rewrite <- El, range_perm.
Qed.

(** Kustomize runs in the directory of the file that Go ranges over last. *)
Lemma kustomize_directory {S W} `{Unstructured, Environment S W, RangeOrder} (p : reconcilerParams S W) instance
    (files : gmap string string) fs fs' o :
  buildFiles p instance (range files) (fs, mkObjects [] [] "") = Ok (fs', o) →
  Path o = default "" (filepath_Dir <$> list.last (range files).*1).
Proof. by intros (cs & _ & _ & ->)%buildFiles_Ok. Qed.

(* ------------------------------------------------------------------ *)
(** ** Namespaces and owners *)

Section prepare_lemmas.
Context {S W : Type} `{U : Unstructured, DeclarativeObject S, RESTMapper}.
Context (HU : unstructured_ok U).

(** The metadata of the object is a map. *)
Definition has_metadata (o : Object) : Prop :=
  ∃ x, nestedFieldNoCopy (obj_object o) ["metadata"] = Ok (Some (JObj x)).

(** The namespace an object ends up in. *)
Definition finalNamespace (ns : string) (o : Object) : string :=
  if decide (GetNamespace o ≠ "") then GetNamespace o
  else match mapper_RESTMapping (GVK_GroupKind (GroupVersionKind o)) [gvk_Version (GroupVersionKind o)] with
       | Ok mapping => if decide (Scope_Name (rm_Scope mapping) = RESTScopeNameNamespace) then ns else ""
       | Err _ => ""
       end.

Lemma nested_two_map m f g x :
  nestedFieldNoCopy m [f; g] = Ok (Some x) → ∃ y, nestedFieldNoCopy m [f] = Ok (Some (JObj y)).
Proof using.
  unfold nestedFieldNoCopy. rewrite !nested_cons. destruct (m !! f) as [[]|]; cbn [nestedField]; try done.
  by eexists.
Qed.

Lemma setNamespace_spec ns o :
  has_metadata o →
  has_metadata (setNamespace ns o) ∧ GetNamespace (setNamespace ns o) = finalNamespace ns o
  ∧ nestedFieldNoCopy (obj_object (setNamespace ns o)) ["metadata"; "ownerReferences"]
    = nestedFieldNoCopy (obj_object o) ["metadata"; "ownerReferences"].
Proof using HU.
  intros Ho. unfold setNamespace, finalNamespace. case_decide as Hns; [done|]. cbv zeta.
  destruct (mapper_RESTMapping _ _) as [m|e]; [|done]. case_decide; [|done].
  unfold SetNamespace, SetNestedField.
  destruct (u_ok_set U HU (obj_object o) (JStr ns) "metadata" "namespace") as [m' E]; [by right|].
  rewrite E. destruct (u_ok_field U HU _ _ _ _ E) as [Hget Hframe].
  cbn [fst with_object obj_object obj_Group obj_Version obj_Kind obj_name obj_namespace obj_json].
  split_and!; [by eapply nested_two_map|done|]. apply Hframe. right. by left.
Qed.

(** What setNamespaces does to each object. *)
Lemma setNamespaces_spec `{!Environment S W} (p : reconcilerParams S W) instance objects :
  Forall has_metadata (Items objects) →
  ∃ items, setNamespaces p instance objects = with_items objects items
    ∧ Forall2 (λ o o1, has_metadata o1
        ∧ GetNamespace o1 = (if decide (preserveNamespace p = true ∨ d_GetNamespace instance = "")
                             then GetNamespace o else finalNamespace (d_GetNamespace instance) o)
        ∧ nestedFieldNoCopy (obj_object o1) ["metadata"; "ownerReferences"]
          = nestedFieldNoCopy (obj_object o) ["metadata"; "ownerReferences"]) (Items objects) items.
Proof using HU.
  intros Hmeta. unfold setNamespaces.
  destruct (decide (preserveNamespace p = true ∨ d_GetNamespace instance = "")) as [E|E].
  - exists (Items objects). split; [destruct objects, (preserveNamespace p); [done|]; rewrite decide_True by naive_solver; done|].
    apply list.Forall_Forall2_diag. eapply list.Forall_impl; [exact Hmeta|]. done.
  - exists (setNamespace (d_GetNamespace instance) <$> Items objects).
    split; [destruct (preserveNamespace p); [naive_solver|]; by rewrite decide_False by naive_solver|].
    apply Forall2_fmap_r, list.Forall_Forall2_diag. eapply list.Forall_impl; [exact Hmeta|].
    intros o Ho. apply setNamespace_spec, Ho.
Qed.

(** One object of injectOwnerRef with the source as its owner. *)
Definition ownObject (owner : S) (o : Object) : Object :=
  match ownerRefFor owner o with
  | Some refs => (SetNestedField refs ["metadata"; "ownerReferences"] o).1
  | None => o
  end.

Lemma injectOwners_source instance objects done todo :
  Forall has_metadata todo →
  injectOwners (SourceAsOwner (S := S)) instance objects done todo
  = (done ++ (ownObject instance <$> todo), None).
Proof using HU.
  revert done; induction todo as [|o todo IH]; intros done Htodo; cbn [injectOwners].
  { by rewrite app_nil_r. }
  apply list.Forall_cons in Htodo as [Ho Htodo]. cbn [SourceAsOwner]. rewrite fmap_cons.
  unfold ownObject at 1. destruct (ownerRefFor instance o) as [refs|].
  - unfold SetNestedField.
    destruct (u_ok_set U HU (obj_object o) refs "metadata" "ownerReferences") as [m' E]; [by right|].
    rewrite E. cbn [fst]. rewrite IH by done. by rewrite <- (assoc (++)).
  - rewrite IH by done. by rewrite <- (assoc (++)).
Qed.

Lemma ownObject_spec owner o :
  has_metadata o →
  GetNamespace (ownObject owner o) = GetNamespace o
  ∧ nestedFieldNoCopy (obj_object (ownObject owner o)) ["metadata"; "ownerReferences"]
    = match ownerRefFor owner o with
      | Some refs => Ok (Some refs)
      | None => nestedFieldNoCopy (obj_object o) ["metadata"; "ownerReferences"]
      end.
Proof using HU.
  intros Ho. unfold ownObject. destruct (ownerRefFor owner o) as [refs|]; [|done].
  unfold SetNestedField.
  destruct (u_ok_set U HU (obj_object o) refs "metadata" "ownerReferences") as [m' E]; [by right|].
  rewrite E. by destruct (u_ok_field U HU _ _ _ _ E) as [Hget _].
Qed.
End prepare_lemmas.

(** ** Writing files for kustomize *)

Lemma writeBlobs_last (fs : gmap string string) path blobs b :
  foldl (λ fs blob, <[path := blob]> fs) fs (blobs ++ [b]) !! path = Some b.
Proof. rewrite foldl_app. cbn [foldl]. apply lookup_insert_eq. Qed.

Lemma writeBlobs_other (fs : gmap string string) path blobs path' :
  path ≠ path' → foldl (λ fs blob, <[path := blob]> fs) fs blobs !! path' = fs !! path'.
Proof.
  intros Hne. revert fs; induction blobs as [|b blobs IH]; intros fs; [done|]. cbn [foldl].
  by rewrite IH, lookup_insert_ne.
Qed.

(** ** Concrete runs, step by step *)

Lemma R_step {S W A B} (m : R S W A) (f : A → R S W B) st a st' :
  m st = (a, st') → (m ≫= f) st = f a st'.
Proof. unfold mbind, R_bind. by intros ->. Qed.

(** The state after some calls that left the metrics alone. *)
Definition moved_to {S W} (st : RState S W) (w : W) (calls : list (Action S)) : RState S W :=
  mkRState w (rs_metrics st) (rs_count st) (rs_failure st) (rs_log st ++ calls).

Lemma call_step {S W A} (f : W → W * A) (act : A → Action S) st w a :
  f (rs_world st) = (w, a) → call f act st = (a, moved_to st w [act a]).
Proof. unfold call. by intros ->. Qed.

Lemma moved_to_app {S W} (st : RState S W) w w' l l' :
  moved_to (moved_to st w l) w' l' = moved_to st w' (l ++ l').
Proof. unfold moved_to. cbn. by rewrite (assoc (++)). Qed.

Section version_run.
Context {C W V : Type} `{CommonObject C, Unstructured, Converter, RangeOrder, RESTMapper,
  !Environment (subject C) W, Semver V}.
Context (p : reconcilerParams (subject C) W) (operatorVersion : V).
Context (Hst : status p = Some (of_builder (mkStatusBuilder None None
  (Some (versionCheck operatorVersion)) (Some aggregator_BuildStatus)))).

(** reconcileExists when the version check refuses. *)
Lemma reconcileExists_refused resolve name (c c1 : C) st w files objects objs e :
  manifestController p = Some resolve → resolve (Common c) (rs_world st) = (w, Ok files) →
  buildObjects p (Common c) files (if kustomize p then Some ∅ else None) = Ok objects →
  flattenListObjects objects = Ok objs →
  versionCheck operatorVersion (Common c) objs = (Common c1, (false, Some e)) →
  ∃ w', reconcileExists p name (Common c) st
    = (mkOutcome (Common c1) (Some objs) false KnownErrorVersionCheckFailed None,
       moved_to st w' [AVersionCheck false (Some (Plain e)); AEvent "Failed version check"]).
Proof using Hst.
  intros Hmc Hres Hbuild Hflat Hv. unfold reconcileExists.
  assert (BuildDeploymentObjectsWithFs p (Common c) (if IsKustomizeOptionUsed p then Some ∅ else None) st
    = (Ok objects, moved_to st w [])) as Hb.
  { unfold BuildDeploymentObjectsWithFs, IsKustomizeOptionUsed. rewrite Hmc. erewrite R_step.
    2:{ unfold touch. by rewrite Hres. }
    cbn [mret R_ret]. cbn [mbind res_bind]. rewrite Hbuild. unfold moved_to. by rewrite app_nil_r. }
  erewrite R_step by exact Hb. cbv beta iota. rewrite Hflat.
  assert (callVersionCheck p (Common c) objs (moved_to st w [])
    = ((Common c1, (false, Some (Plain e))), moved_to st w [AVersionCheck false (Some (Plain e))])) as Hc.
  { unfold callVersionCheck. rewrite Hst. erewrite call_step.
    2:{ cbn [of_builder st_VersionCheck sb_VersionCheck VersionCheckImpl]. by rewrite Hv. }
    by rewrite moved_to_app. }
  erewrite R_step by exact Hc. cbv beta iota. unfold callEvent. erewrite R_step by (by apply call_step).
  rewrite moved_to_app. by eexists.
Qed.

(** updateStatus without hooks. *)
Lemma updateStatus_nohooks (c c2 : C) st :
  hooks p = [] →
  ∃ s uerr w, updateStatus p (Common c) (Common c2) st
    = ((s, uerr), moved_to st w (if decide (co_GetCommonStatus c ≠ co_GetCommonStatus c2)
                                 then [AStatusUpdate (Common c2) uerr] else []))
    ∧ (co_GetCommonStatus c = co_GetCommonStatus c2 → uerr = None).
Proof using.
  intros Hh. unfold updateStatus. cbn [GetCommonStatus]. rewrite Hh. cbn [statusHooks].
  erewrite R_step by done. cbv beta iota. case_decide as Hd.
  - destruct (env_StatusUpdate (Common c2) (rs_world st)) as [w [s uerr]] eqn:E.
    erewrite R_step by (by apply call_step). cbn [snd]. exists s, uerr, w. destruct uerr; [done|].
    cbn [statusHooks]. erewrite R_step by done. done.
  - exists (Common c2), None, (rs_world st). erewrite R_step by done. cbv beta iota. cbn [statusHooks].
    erewrite R_step by done. split; [|done]. unfold moved_to. rewrite app_nil_r. by destruct st.
Qed.
End version_run.

(* ------------------------------------------------------------------ *)
(** ** Properties *)

(** C3. One Reconcile applies at most once, and only when nothing refused it:
    no preflight check, version check or BeforeApply hook failed before the
    apply. When the apply fails, Reconcile returns that failure, whatever the
    status, the hooks and the API server do afterwards. *)
Theorem Reconcile_gated {C W} `{CommonObject C, Unstructured, Converter, RangeOrder, RESTMapper,
    !Environment (subject C) W} (p : reconcilerParams (subject C) W)
    (rm : metrics.reconcileMetrics) (request : Kube.NamespacedName) (st : RState (subject C) W) :
  let '(result, err, st') := Reconcile p rm request st in
  ∃ new, rs_log st' = rs_log st ++ new ∧ applied_once err new.
Proof.
  destruct (Reconcile_run p rm request st) as (result & err & st' & new & c & -> & Hl & Ha & _).
  by exists new.
Qed.

(** What the metrics count: every Reconcile is counted once, and counted as
    failed exactly when it returns an error, except that an error a preflight
    check hands back with a result of its own is returned but not counted, and
    the status is told that nothing failed. *)
Theorem Reconcile_counted {C W} `{CommonObject C, Unstructured, Converter, RangeOrder, RESTMapper,
    !Environment (subject C) W} (p : reconcilerParams (subject C) W)
    (rm : metrics.reconcileMetrics) (request : Kube.NamespacedName) (st : RState (subject C) W) :
  metrics p = true →
  let '(result, err, st') := Reconcile p rm request st in
  let key := (metrics.rcm_groupVersionKind rm, nn_Namespace request, nn_Name request) in
  rs_count st' = <[key := (default 0 (rs_count st !! key) + 1)%Z]> (rs_count st)
  ∧ ∃ new, rs_log st' = rs_log st ++ new
    ∧ (rs_failure st' = match err with
         | Some _ => <[key := (default 0 (rs_failure st !! key) + 1)%Z]> (rs_failure st)
         | None => rs_failure st
         end
       ∨ rs_failure st' = rs_failure st
         ∧ ∃ r, new = [AGet request; APreflight (Some (ErrorResult r err)); AReconciled None None]).
Proof.
  intros Hm. destruct (Reconcile_run p rm request st) as (result & err & st' & new & c & -> & Hl & _ & Hc & Hn).
  destruct (Hc Hm) as [-> ->]. split; [done|]. exists new. split; [done|].
  destruct Hn as [->|[-> Hr]]; [left; by destruct err|by right].
Qed.

(** C11. Building the deployment objects does not depend on the order in which
    Go ranges over the files of the manifest, with or without a file system the
    objects are written back to. Without kustomize: if the build succeeds for one
    order it succeeds for every order, with the same objects, sorted, and in the
    same order provided that no two of them agree in score, group, kind and name
    (the sort is not stable, so it leaves the order of two that do open). With
    kustomize, the same provided that all the files are in one directory, and then
    the order of the objects is always the same (kustomize runs in the directory
    of the file that is ranged over last: [kustomize_directory]). *)
Theorem build_order_independent {S W} `{Unstructured} `{E : !Environment S W}
    (R1 R2 : RangeOrder) (p : reconcilerParams S W) (instance : S) (files : gmap string string)
    (fs : option (gmap string string)) (o1 : Objects) :
  sorter_ok E →
  (kustomize p = true → ∃ dir, ∀ path, path ∈ dom files → filepath_Dir path = dir) →
  @buildObjects _ _ _ R1 _ p instance files fs = Ok o1 →
  ∃ o2, @buildObjects _ _ _ R2 _ p instance files fs = Ok o2
    ∧ Items o1 ≡ₚ Items o2 ∧ Blobs o1 ≡ₚ Blobs o2
    ∧ StronglySorted (λ x y, less DefaultObjectOrder y x = false) (Items o2)
    ∧ (kustomize p = true ∨ NoDup (sort_key DefaultObjectOrder <$> Items o1) → Items o1 = Items o2).
Proof.
  intros HE Hk. unfold buildObjects, IsKustomizeOptionUsed.
  destruct (buildFiles p instance (@range R1 _ _ _ _ files) _) as [[fs1 m1]|e] eqn:E1; [|done].
  destruct (buildFiles_perm p instance (@range R1 _ _ _ _ files) (@range R2 _ _ _ _ files) fs fs1 m1)
    as (m2 & E2 & Hp & Hb & HP1 & HP2); [by rewrite (@range_perm R1), (@range_perm R2)| |done|].
  { rewrite (@range_perm R1). apply NoDup_fst_map_to_list. }
  rewrite E2. cbn [mbind res_bind].
  assert (∀ o, Sort DefaultObjectOrder o (with_items o (sort_items DefaultObjectOrder (Items o)))) as HS
    by (intros o; apply HE).
  destruct (kustomize p).
  - assert (Path m1 = Path m2) as HP.
    { destruct (Hk eq_refl) as [dir Hdir]. rewrite HP1, HP2.
      rewrite !(range_last_dir files dir) by done. done. }
    rewrite HP. destruct (wrapV _ (env_kustomize fs1 (Path m2))) as [yaml|]; [|done]. cbn [mbind res_bind].
    destruct (parseManifest yaml) as [objects|]; [|done]. cbn [mbind res_bind].
    destruct (transformManifest p instance objects) as [objects' [e|]]; [done|]. intros [= <-].
    eexists. split; [done|]. split; [done|]. split; [done|]. split; [|done].
    by destruct (HS (with_items m2 (Items objects'))) as (_ & Hs & _).
  - intros [= <-]. eexists. split; [done|].
    destruct (HS m1) as (P1 & S1 & _), (HS m2) as (P2 & S2 & _). cbn [with_items Items Blobs] in *.
    assert (sort_items DefaultObjectOrder (Items m1) ≡ₚ sort_items DefaultObjectOrder (Items m2)) as Hps
      by exact (transitivity (symmetry P1) (transitivity Hp P2)).
    split; [done|]. split; [done|]. split; [done|]. intros [|Hnd]; [done|]. by eapply sorted_unique.
Qed.


(** With kustomize, a manifest file that holds objects and a document that
    does not parse loses its objects: each blob replaces the file, so kustomize
    reads the last blob only. Other files are not touched. *)
Theorem kustomize_blob_overwrites `{Unstructured} (fs : gmap string string) (path : string)
    (items : list Object) (blobs : list string) (blob dir : string)
    (r : option (gmap string string) * Objects) :
  writeObjects (Some fs) path (mkObjects items (blobs ++ [blob]) dir) = Ok r →
  ∃ fs', r.1 = Some fs' ∧ fs' !! path = Some blob ∧ ∀ path', path ≠ path' → fs' !! path' = fs !! path'.
Proof.
  unfold writeObjects. cbn [Items Blobs]. destruct (finalJson items "") as [[text items']|]; [|done].
  cbn [mbind res_bind]. intros [= <-]. eexists. split; [reflexivity|]. split; [apply writeBlobs_last|].
  intros path' Hne. by rewrite writeBlobs_other, lookup_insert_ne.
Qed.

(** Lists of the core group are never flattened: the test compares the
    group, not the version, with v1, so a manifest none of whose objects has a
    group called v1 is returned as it is, Lists included. *)
Theorem flatten_keeps_core_lists {S W} `{Unstructured, !Environment S W} (infos : Objects) :
  (∀ o, o ∈ Items infos → obj_Group o ≠ "v1") → flattenListObjects infos = Ok infos.
Proof.
  intros Hg. unfold flattenListObjects. destruct infos as [items blobs path]. cbn [Items] in *.
  assert (flattenItems items = Ok items) as ->; [|done].
  induction items as [|o items IH]; [done|]. cbn [flattenItems].
  rewrite decide_False by (intros [Ho _]; by apply (Hg o); [left|]).
  cbn [mbind res_bind]. rewrite IH by (intros x Hx; apply Hg; by right). done.
Qed.

(** A failed version check is reported as health. With the basic status with
    version checks and an operator too old for the manifest, Reconcile applies
    nothing and returns no error of its own, and then the aggregator, which is
    told neither an error nor a live reader, overwrites the unhealthy status of
    the check: the status built and written is healthy, without errors. *)
Theorem version_check_reports_healthy {C W V} `{CommonObject C, Unstructured, Converter, RangeOrder,
    RESTMapper, !Environment (subject C) W, Semver V} (p : reconcilerParams (subject C) W)
    (operatorVersion : V) resolve (rm : metrics.reconcileMetrics) (request : Kube.NamespacedName)
    (st : RState (subject C) W) (c c1 : C) (w1 w2 : W) (files : gmap string string)
    (objects objs : Objects) (e : error) :
  common_ok C →
  status p = Some (of_builder (mkStatusBuilder None None (Some (versionCheck operatorVersion))
                                 (Some aggregator_BuildStatus))) →
  hooks p = [] → metrics p = false → manifestController p = Some resolve →
  env_Get request (rs_world st) = (w1, Found (Common c)) →
  resolve (Common c) w1 = (w2, Ok files) →
  buildObjects p (Common c) files (if kustomize p then Some ∅ else None) = Ok objects →
  flattenListObjects objects = Ok objs →
  versionCheck operatorVersion (Common c) objs = (Common c1, (false, Some e)) →
  ∃ c2 info result uerr st',
    Reconcile p rm request st = ((result, uerr), st')
    ∧ Healthy (co_GetCommonStatus c2) = true ∧ Errors (co_GetCommonStatus c2) = Some []
    ∧ KnownError info = KnownErrorVersionCheckFailed ∧ si_Err info = None
    ∧ rs_log st' = rs_log st
        ++ [AGet request; APreflight None; AVersionCheck false (Some (Plain e));
            AEvent "Failed version check"; ABuildStatus info None]
        ++ (if decide (co_GetCommonStatus c ≠ co_GetCommonStatus c2)
            then [AStatusUpdate (Common c2) uerr] else [])
        ++ [AReconciled (Some objs) uerr].
Proof.
  intros HC Hst Hh Hm Hmc Hget Hres Hbuild Hflat Hv.
  set (info := mkInfo (Common c1) (Some objs) None KnownErrorVersionCheckFailed None).
  assert (∃ c2, aggregator_BuildStatus info = (Common c2, None)
    ∧ Healthy (co_GetCommonStatus c2) = true ∧ Errors (co_GetCommonStatus c2) = Some []) as (c2 & Hb & Hc2 & He2).
  { unfold aggregator_BuildStatus. cbn [info si_Err si_Manifest LiveObjects Subject GetCommonStatus GetGeneration].
    apply (setStatus_changed HC). intros c2 ->. done. }
  unfold Reconcile. erewrite R_step by (by apply call_step). cbv beta iota.
  unfold reconcileFound. assert (callPreflight p (Common c) (moved_to st w1 [AGet request])
    = ((Common c, None), moved_to st w1 [AGet request; APreflight None])) as Hpre.
  { unfold callPreflight. rewrite Hst. erewrite call_step by done. by rewrite moved_to_app. }
  destruct (reconcileExists_refused p operatorVersion Hst resolve request c c1
    (moved_to st w1 [AGet request; APreflight None]) w2 files objects objs e) as [w3 Hex]; [done..|].
  rewrite moved_to_app in Hex. cbn [app] in Hex. set (calls := [AGet request; _; _; _]) in Hex.
  assert (callBuildStatus p (mkOutcome (Common c1) (Some objs) false KnownErrorVersionCheckFailed None) None
    (moved_to st w3 calls) = ((Common c2, None), moved_to st w3 (calls ++ [ABuildStatus info None]))) as Hbs.
  { unfold callBuildStatus. rewrite Hst. erewrite R_step by done. cbv beta. erewrite call_step.
    2:{ cbn [oc_live oc_instance oc_manifest oc_known of_builder st_BuildStatus sb_BuildStatus BuildStatusImpl].
        fold info. by rewrite Hb. }
    by rewrite moved_to_app. }
  destruct (updateStatus_nohooks p c c2 (moved_to st w3 (calls ++ [ABuildStatus info None])) Hh)
    as (s & uerr & w4 & Hup & _). rewrite moved_to_app in Hup.
  assert (afterPreflight p request (Common c) (Common c) (moved_to st w1 [AGet request; APreflight None])
    = (mkBody s noResult uerr (Some objs) uerr, moved_to st w4 ((calls ++ [ABuildStatus info None]) ++
        if decide (co_GetCommonStatus c ≠ co_GetCommonStatus c2)
        then [AStatusUpdate (Common c2) uerr] else []))) as Haft.
  { unfold afterPreflight. erewrite R_step by exact Hex. cbn [oc_err oc_instance].
    erewrite R_step by done. erewrite R_step by exact Hbs. cbv beta iota.
    by erewrite R_step by exact Hup. }
  erewrite R_step. 2:{ erewrite R_step by exact Hpre. cbv beta iota. exact Haft. }
  unfold callReconciled. rewrite Hst. erewrite R_step by (by apply call_step). rewrite moved_to_app.
  unfold collectMetrics, CollectMetrics. erewrite R_step by (by rewrite Hm).
  exists c2, info, noResult, uerr. eexists. split; [reflexivity|]. split_and!; [done..|].
  cbn [rs_log moved_to b_manifest b_err]. unfold calls. by rewrite <- !(assoc (++)).
Qed.


(** What a successful initialisation guarantees, whatever the options: a
    manifest controller is set, pruning is only on with a label maker, the
    deletion strategy is not empty, and the metrics exist when they are to be
    collected. *)
Theorem InitWithName_valid {C W} `{CommonObject C, Unstructured, Converter}
    (httpClient dynamicClient : res ()) (prototype : subject C) defaultApplier
    (begin_ opts end_ : list (ReconcilerOption (subject C) W)) defaultLoader params rm :
  InitWithName httpClient dynamicClient prototype defaultApplier begin_ opts end_ defaultLoader
    = Ok (params, rm) →
  is_Some (manifestController params) ∧ (prune params = true → is_Some (labelMaker params))
  ∧ cascadingStrategy params ≠ "" ∧ (metrics params = true → is_Some rm).
Proof.
  unfold InitWithName. destruct httpClient; [|done]. destruct dynamicClient; [|done].
  cbn [wrapW mbind res_bind]. destruct (applyOptions _ _ _ _ _) as [q|e] eqn:E; [|done].
  cbn [mbind res_bind]. destruct (validateOptions q) as [e|] eqn:Ev; [done|].
  assert (cascadingStrategy q ≠ "") as Hcs.
  { unfold applyOptions in E. destruct (match manifestController _ with Some _ => _ | None => _ end) as [q'|];
      [|done]. cbn [mbind res_bind] in E. injection E as <-. by case_decide. }
  assert (is_Some (manifestController q) ∧ (prune q = true → is_Some (labelMaker q))) as [Hmc Hlm].
  { unfold validateOptions in Ev. destruct (prune q), (labelMaker q), (manifestController q); simpl in Ev; try done. }
  unfold CollectMetrics. destruct (metrics q) eqn:Em.
  - destruct (d_GVKForObject prototype); [|done]. cbn [mbind res_bind]. intros [= <- <-]. done.
  - intros [= <- <-]. split_and!; [done..|]. by rewrite Em.
Qed.

(* ------------------------------------------------------------------ *)
(** ** A concrete environment *)

(** Strict order on the sort keys, and the order it is the negation of. *)
Lemma string_lt_trans x y z : string_lt x y = true → string_lt y z = true → string_lt x z = true.
Proof.
  assert (∀ a b, string_lt a b = true ↔ ¬ String.le b a) as Hlt.
  { intros a b. unfold string_lt, String.ltb. change (String.le b a) with (Is_true (String.leb b a)).
    unfold String.leb. rewrite (String.compare_antisym b a).
    destruct (String.compare a b); simpl; split; try done; intros Hx; try done. by intros []. }
  rewrite !Hlt. intros Hxy Hyz Hzx. destruct (total String.le y z) as [Hle|Hle]; [|done].
  apply Hxy. by transitivity z.
Qed.

Lemma less_trans score x y z : less score x y = true → less score y z = true → less score x z = true.
Proof.
  unfold less. rewrite !orb_true_iff, !andb_true_iff, !bool_decide_eq_true, !Z.ltb_lt, !Z.eqb_eq.
  intros Hxy Hyz.
  destruct Hxy as [[[?|[? ?]]|[[? ?] ?]]|[[[? ?] ?] ?]]; destruct Hyz as [[[?|[? ?]]|[[? ?] ?]]|[[[? ?] ?] ?]];
    first [left; left; left; lia
      |left; left; right; split; [lia|]; first [congruence|eapply string_lt_trans; eassumption]
      |left; right; split_and!; [lia|congruence|]; first [congruence|eapply string_lt_trans; eassumption]
      |right; split_and!; [lia|congruence|congruence|]; first [congruence|eapply string_lt_trans; eassumption]].
Qed.

Definition not_after (score : Object → Z) (x y : Object) : Prop := less score y x = false.
#[local] Instance not_after_dec score : RelDecision (not_after score).
Proof. intros x y. unfold not_after. apply _. Defined.
#[local] Instance not_after_total score : Total (not_after score).
Proof.
  intros x y. unfold not_after. destruct (less score y x) eqn:E; [right|by left].
  destruct (less score x y) eqn:E'; [|done].
  pose proof (less_trans score _ _ _ E E') as Hxx. by rewrite less_irrefl in Hxx.
Qed.
#[local] Instance not_after_trans score : Transitive (not_after score).
Proof.
  intros x y z. unfold not_after. intros Hyx Hzy. destruct (less score z x) eqn:E; [|done].
  destruct (less score x y) eqn:Exy; [by rewrite (less_trans score z x y E Exy) in Hzy|].
  pose proof (less_total score x y Exy Hyx) as [= Es Eg Ek En]. revert E Hzy.
  unfold less. rewrite Es, Eg, Ek, En. congruence.
Qed.

Definition example_sort (score : Object → Z) (l : list Object) : list Object :=
  merge_sort (not_after score) l.

(** A cluster with one addon, whose manifest is two files; the text of a file
    names the kind of its one object. *)
Definition example_named_kind (kind : string) : jmap :=
  <["kind" := JStr kind]> (<["apiVersion" := JStr "v1"]>
  {["metadata" := JObj {["annotations" := JObj {[minOperatorAnnotation := JStr "2"]}]}]}).

Definition example_environment : Environment (subject exampleAddon) () := {|
  env_Get _ w := (w, Found (Common example_addon));
  env_dynGet _ _ _ _ := Err (Errorf "not found");
  env_Event _ _ w := w;
  env_StatusUpdate s w := (w, (s, None));
  env_kustomize _ _ := Err (Errorf "not supported");
  env_documents text := [RawDoc text];
  env_Unmarshal text := Ok (example_named_kind text);
  env_listItems _ := Ok [];
  filepath_Dir path := path;
  env_Pruner _ := None;
  env_PruneWhiteList _ := None;
  sort_items := example_sort
|}.

Lemma example_sorter : sorter_ok example_environment.
Proof.
  intros score o. unfold Sort. cbn [with_items Items Blobs Path sort_items example_environment].
  split; [symmetry; apply merge_sort_Permutation|]. split; [|done].
  apply (StronglySorted_merge_sort (not_after score)).
Qed.

Definition example_files : gmap string string :=
  <["b.yaml" := "Service"]> {["a.yaml" := "ConfigMap"]}.

Definition example_status : StatusBuilder (subject exampleAddon) :=
  @mkStatusBuilder (subject exampleAddon) None None
    (Some (@versionCheck exampleAddon example_common example_unstructured example_converter Z
             example_semver 1%Z))
    (Some (@aggregator_BuildStatus exampleAddon example_common example_unstructured example_converter)).

Definition example_params (withMetrics : bool) : reconcilerParams (subject exampleAddon) () :=
  mkParams [] [] (Some (λ _ w, (w, Ok example_files))) (λ opts s w, (w, (s, ao_Objects opts, None)))
    "Foreground" false false false false withMetrics None (Some SourceAsOwner) None
    (Some (of_builder example_status)) [].

Definition example_state : RState (subject exampleAddon) () :=
  mkRState () (metrics.mkMetrics metrics.NewObjectTracker ∅) ∅ ∅ [].
Definition example_rm : metrics.reconcileMetrics := metrics.mkReconcileMetrics "Guestbook".
Definition example_request : Kube.NamespacedName := mkNN "prod" "guestbook".

Definition example_built : res Objects :=
  @buildObjects (subject exampleAddon) () example_unstructured canonical_range example_environment
    (example_params false) (Common example_addon) example_files None.
Definition example_objects : Objects :=
  match example_built with Ok o => o | Err _ => mkObjects [] [] "" end.

Lemma Reconcile_counted_witness :
  ∃ result err st', @Reconcile exampleAddon () example_common example_unstructured example_converter
      canonical_range example_mapper example_environment (example_params true) example_rm
      example_request example_state = ((result, err), st')
    ∧ rs_count st' = {[("Guestbook", "prod", "guestbook") := 1%Z]}.
Proof.
  pose proof (@Reconcile_counted exampleAddon () example_common example_unstructured example_converter
    canonical_range example_mapper example_environment (example_params true) example_rm
    example_request example_state eq_refl) as Hc.
  destruct (Reconcile _ _ _ _) as [[result err] st']. destruct Hc as [Hc _].
  exists result, err, st'. split; [reflexivity|exact Hc].
Defined.

Lemma build_order_independent_witness :
  ∃ o2, @buildObjects (subject exampleAddon) () example_unstructured reversed_range example_environment
      (example_params false) (Common example_addon) example_files None = Ok o2
    ∧ example_built = Ok example_objects ∧ Items example_objects = Items o2.
Proof.
  assert (example_built = Ok example_objects) as E by (vm_compute; reflexivity).
  destruct (@build_order_independent (subject exampleAddon) () example_unstructured example_environment
    canonical_range reversed_range (example_params false) (Common example_addon) example_files None
    example_objects example_sorter ltac:(discriminate) E) as (o2 & E2 & _ & _ & _ & Heq).
  exists o2. split; [exact E2|]. split; [exact E|]. apply Heq. right.
  apply (bool_decide_unpack _). vm_compute. exact I.
Defined.

Definition example_plain (ns : string) : Object :=
  mkObj {["metadata" := JObj ∅]} "" "v1" "ConfigMap" "settings" ns None.


Lemma kustomize_blob_overwrites_witness :
  ∃ fs' : gmap string string, fs' !! "a.yaml" = Some "blob".
Proof.
  destruct (@kustomize_blob_overwrites example_unstructured ∅ "a.yaml" [example_stale] [] "blob" ""
    (match @writeObjects example_unstructured (Some ∅) "a.yaml" (mkObjects [example_stale] ["blob"] "")
     with Ok r => r | Err _ => (None, mkObjects [] [] "") end)) as (fs' & _ & Hp & _);
    [vm_compute; reflexivity|]. exists fs'. exact Hp.
Defined.

Lemma flatten_keeps_core_lists_witness :
  @flattenListObjects (subject exampleAddon) () example_unstructured example_environment
    (mkObjects [mkObj ∅ "" "v1" "List" "" "" None] [] "")
  = Ok (mkObjects [mkObj ∅ "" "v1" "List" "" "" None] [] "").
Proof.
  apply flatten_keeps_core_lists. intros o [->|Ho]%elem_of_cons; [discriminate|].
  exfalso. by apply elem_of_nil in Ho.
Defined.

Lemma version_check_reports_healthy_witness :
  ∃ c2 : exampleAddon, Healthy (ea_status c2) = true.
Proof.
  destruct (@versionCheck exampleAddon example_common example_unstructured example_converter Z
    example_semver 1%Z (Common example_addon) example_objects) as [s [ok err]] eqn:E.
  assert (∃ c1 e, s = Common c1 ∧ ok = false ∧ err = Some e) as (c1 & e & -> & -> & ->).
  { vm_compute in E. injection E as <- <- <-. eexists _, _. split; [reflexivity|]. split; reflexivity. }
  destruct (@version_check_reports_healthy exampleAddon () Z example_common example_unstructured
    example_converter canonical_range example_mapper example_environment example_semver
    (example_params false) 1%Z (λ _ w, (w, Ok example_files)) example_rm example_request example_state
    example_addon c1 () () example_files example_objects example_objects e example_common_ok)
    as (c2 & _ & _ & _ & _ & _ & Hh & _); try reflexivity.
  - exact E.
  - exists c2. exact Hh.
Defined.

Lemma InitWithName_valid_witness :
  ∃ params rm, @InitWithName exampleAddon () example_common example_unstructured example_converter
      (Ok ()) (Ok ()) (Common example_addon) (λ opts s w, (w, (s, ao_Objects opts, None))) []
      [WithManifestController (Some (λ _ w, (w, Ok example_files))); WithApplyPrune;
       WithLabels (Some (λ _, ∅)); WithReconcileMetrics] [] None = Ok (params, rm)
    ∧ is_Some rm.
Proof.
  eexists _, _. split; [reflexivity|].
  refine (proj2 (proj2 (proj2 (@InitWithName_valid exampleAddon () example_common example_unstructured
    example_converter (Ok ()) (Ok ()) (Common example_addon) (λ opts s w, (w, (s, ao_Objects opts, None))) []
    [WithManifestController (Some (λ _ w, (w, Ok example_files))); WithApplyPrune;
     WithLabels (Some (λ _, ∅)); WithReconcileMetrics] [] None _ _ _))) _); reflexivity.
Defined.

End reconciler.
