(* ===== verification/Watch.v ===== *)
(** * Watching the applied objects (watch.go, pkg/watch/dynamic.go)

    A reconciler set up with [WatchChildren] opens, before each apply, a watch
    for every kind it is about to apply; a change of a watched object enqueues
    the addon. [dynamic.go]'s goroutines (the watch loop, its activity checker)
    are one state machine: a label per thing that can happen next, an
    executable step, runs as lists of labels. The API server decides which
    labels come. *)

From S2P Require Import Prelude Kube Manifest Transforms Reconciler.
From stdpp Require Import options.
Import manifest transforms reconciler.

Module watch.

(** ** dynamic.go: data *)

Record ListOptions := mkListOptions { lo_LabelSelector : string; lo_AllowWatchBookmarks : bool }.

(** The [metav1.ObjectMeta] of the object to enqueue: its name and namespace. *)
Definition ObjectMeta : Type := Kube.NamespacedName.

Inductive EventType := Added | Modified | Deleted | Bookmark | ErrorEvent | OtherType (t : string).

(** The object of an event: an [*unstructured.Unstructured], of which the
    namespace, the name and the resource version are read, or another type. *)
Inductive eventObject :=
  | UnstructuredObject (key : Kube.NamespacedName) (resourceVersion : string)
  | OtherRuntimeObject.

Record WatchEvent := mkWatchEvent { we_Type : EventType; we_Object : eventObject }.

#[export] Instance EventType_eq_dec : EqDecision EventType.
Proof. solve_decision. Defined.
#[export] Instance eventObject_eq_dec : EqDecision eventObject.
Proof. solve_decision. Defined.
#[export] Instance WatchEvent_eq_dec : EqDecision WatchEvent.
Proof. solve_decision. Defined.

(** The [event.GenericEvent] sent to the controller, a [clientObject]: the
    object that changed with the metadata of the object to reconcile. *)
Record clientObject := mkClientObject { co_Object : eventObject; co_ObjectMeta : ObjectMeta }.

(** [dynamic.Interface.Resource(gvr)], with [Namespace(ns)] or without. *)
Record ResourceInterface := mkResourceInterface {
  ri_Resource : GroupVersionResource;
  ri_Namespace : option string
}.

Record dynamicKindWatch := mkDynamicKindWatch {
  kw_GVK : Kube.GroupVersionKind;
  kw_FilterNamespace : string;
  kw_FilterOptions : ListOptions;
  kw_resource : ResourceInterface;
  lastRV : gmap Kube.NamespacedName string
}.

Definition with_lastRV (w : dynamicKindWatch) (m : gmap Kube.NamespacedName string) :
    dynamicKindWatch :=
  mkDynamicKindWatch (kw_GVK w) (kw_FilterNamespace w) (kw_FilterOptions w) (kw_resource w) m.

(** WatchActivityTimeout and WatchActivityFirstTimeout, in seconds; variables
    the author may set. *)
Record Timeouts := mkTimeouts { WatchActivityTimeout : Z; WatchActivityFirstTimeout : Z }.
Definition DefaultTimeouts : Timeouts := mkTimeouts 300 300.

Definition newDynamicClient `{RESTMapper} (gvk : Kube.GroupVersionKind) (options : ListOptions)
    (filterNamespace : string) : res dynamicKindWatch :=
  mapping ← mapper_RESTMapping (GVK_GroupKind gvk) [gvk_Version gvk];
  let resource :=
    if decide (filterNamespace = "") then mkResourceInterface (rm_Resource mapping) None
    else mkResourceInterface (rm_Resource mapping) (Some filterNamespace) in
  Ok (mkDynamicKindWatch gvk filterNamespace options resource ∅).

(** ** dynamic.go: the goroutine of one watch *)

(** Where the watch goroutine is: inside the call of [Watch], ranging over the
    result channel, blocked on [w.events <- e], in [time.Sleep(WatchDelay)]
    after watchUntilClosed has returned, or dead from a failed type
    assertion. *)
Inductive Phase :=
  | Calling
  | Ranging
  | Sending (e : clientObject)
  | Sleeping
  | Panicked.

(** [watchStarted] is the counter of the WaitGroup that Add waits on; [first]
    that this run of watchUntilClosed was handed the WaitGroup; [checking]
    that the goroutine on the ticker is alive; [cancelled] that the context of
    the Watch call is done. *)
Record watchState := mkWatchState {
  ws_watch : dynamicKindWatch;
  ws_target : ObjectMeta;
  ws_phase : Phase;
  watchStarted : Z;
  first : bool;
  activityTimeout : Z;
  sawActivity : bool;
  checking : bool;
  cancelled : bool;
  ws_sent : list clientObject
}.

(** The options of the Watch request. *)
Definition watchOptions (w : dynamicKindWatch) : ListOptions :=
  mkListOptions (lo_LabelSelector (kw_FilterOptions w)) true.

(** watchUntilClosed up to its call of Watch. *)
Definition beginWatch (t : Timeouts) (w : dynamicKindWatch) (target : ObjectMeta) (started : Z)
    (isFirst : bool) (sent : list clientObject) : watchState :=
  mkWatchState w target Calling started isFirst
    (if isFirst then WatchActivityFirstTimeout t else WatchActivityTimeout t)
    false true false sent.

(** watchUntilClosed returns: its deferred calls cancel the context and stop
    the ticker, [firstWatchStarted] becomes nil, and the loop of Add sleeps. A
    checker left behind can only cancel the context that is done. *)
Definition endWatch (s : watchState) : watchState :=
  mkWatchState (ws_watch s) (ws_target s) Sleeping (watchStarted s) false (activityTimeout s)
    (sawActivity s) false true (ws_sent s).

Definition with_phase (s : watchState) (p : Phase) : watchState :=
  mkWatchState (ws_watch s) (ws_target s) p (watchStarted s) (first s) (activityTimeout s)
    (sawActivity s) (checking s) (cancelled s) (ws_sent s).

(** One tick of the activity checker. *)
Definition checkActivity (s : watchState) : watchState :=
  if negb (sawActivity s) then
    mkWatchState (ws_watch s) (ws_target s) (ws_phase s) (watchStarted s) (first s)
      (activityTimeout s) false false true (ws_sent s)
  else
    mkWatchState (ws_watch s) (ws_target s) (ws_phase s) (watchStarted s) (first s)
      (activityTimeout s) false (checking s) (cancelled s) (ws_sent s).

(** The call of Watch returns. *)
Definition watchReturned (err : option error) (s : watchState) : watchState :=
  let s := mkWatchState (ws_watch s) (ws_target s) Ranging
             (if first s then watchStarted s - 1 else watchStarted s)
             (first s) (activityTimeout s) true (checking s) (cancelled s) (ws_sent s) in
  match err with
  | Some _ => endWatch s
  | None => s
  end.

(** The body of the loop over the result channel, up to the send. *)
Definition handleEvent (clientEvent : WatchEvent) (s : watchState) : watchState :=
  let s := mkWatchState (ws_watch s) (ws_target s) Ranging (watchStarted s) (first s)
             (activityTimeout s) true (checking s) (cancelled s) (ws_sent s) in
  match we_Type clientEvent with
  | Bookmark => s
  | ErrorEvent => endWatch s
  | t =>
      match we_Object clientEvent with
      | OtherRuntimeObject => with_phase s Panicked
      | UnstructuredObject key rv =>
          let w := ws_watch s in
          let broadcast (m : gmap Kube.NamespacedName string) :=
            mkWatchState (with_lastRV w m) (ws_target s)
              (Sending (mkClientObject (we_Object clientEvent) (ws_target s)))
              (watchStarted s) (first s) (activityTimeout s) true (checking s) (cancelled s)
              (ws_sent s) in
          match t with
          | Deleted => broadcast (delete key (lastRV w))
          | Added | Modified =>
              if decide (lastRV w !! key = Some rv) then s
              else broadcast (<[key := rv]> (lastRV w))
          | _ => broadcast (lastRV w)
          end
      end
  end.

(** The controller receives the event. *)
Definition delivered (e : clientObject) (s : watchState) : watchState :=
  mkWatchState (ws_watch s) (ws_target s) Ranging (watchStarted s) (first s) (activityTimeout s)
    (sawActivity s) (checking s) (cancelled s) (ws_sent s ++ [e]).

(** What happens next. *)
Inductive label :=
  | Tick
  | WatchReturned (err : option error)
  | Received (ev : WatchEvent)
  | Delivered
  | Closed
  | Woken.

(** One step of the goroutines, or [None] where the label cannot happen. *)
Definition step (t : Timeouts) (l : label) (s : watchState) : option watchState :=
  match l, ws_phase s with
  | Tick, (Sleeping | Panicked) => None
  | Tick, _ => if checking s then Some (checkActivity s) else None
  | WatchReturned err, Calling => Some (watchReturned err s)
  | Received ev, Ranging => Some (handleEvent ev s)
  | Delivered, Sending e => Some (delivered e s)
  | Closed, Ranging => Some (endWatch s)
  | Woken, Sleeping =>
      Some (beginWatch t (ws_watch s) (ws_target s) (watchStarted s) false (ws_sent s))
  | _, _ => None
  end.

Fixpoint run (t : Timeouts) (ls : list label) (s : watchState) : option watchState :=
  match ls with
  | [] => Some s
  | l :: ls => s' ← step t l s; run t ls s'
  end.

(** Add: the goroutine it starts. Add itself returns when [watchStarted] has
    become 0. *)
Definition Add `{RESTMapper} (t : Timeouts) (trigger : Kube.GroupVersionKind) (options : ListOptions)
    (filterNamespace : string) (target : ObjectMeta) : res watchState :=
  dkw ← wrapV "creating client" (newDynamicClient trigger options filterNamespace);
  Ok (beginWatch t dkw target 1 true []).

(** ** watch.go *)

(** The [DynamicWatch] interface. *)
Class DynamicWatch (W : Type) := {
  dw_Add : Kube.GroupVersionKind → ListOptions → string → ObjectMeta → W → W * option error
}.

(** [labels.ValidatedSelectorFromSet(set)] followed by [String()]. *)
Class LabelSelectors := { ValidatedSelectorFromSet : gmap string string → res string }.

Record clusterWatch (S : Type) := mkClusterWatch {
  scopeWatchesToNamespace : bool;
  cw_labelMaker : LabelMaker S;
  registered : gset string
}.
Arguments mkClusterWatch {S} _ _ _.
Arguments scopeWatchesToNamespace {S} _.
Arguments cw_labelMaker {S} _.
Arguments registered {S} _.

Section clusterWatch.
Context {S W : Type} `{DeclarativeObject S, Unstructured, DynamicWatch W, LabelSelectors}.

Definition filterNamespaceOf (scoped : bool) (obj : Object) : string :=
  if scoped && bool_decide (GetNamespace obj ≠ "") then GetNamespace obj else "".

Definition watchKey (gvk : Kube.GroupVersionKind) (selector filterNamespace : string) : string :=
  let key := "gvk=" +:+ gvk_Group gvk +:+ ":" +:+ gvk_Version gvk +:+ ":" +:+ gvk_Kind gvk
             +:+ ";labels=" +:+ selector in
  if decide (filterNamespace = "") then key else key +:+ ";namespace=" +:+ filterNamespace.

(** The loop over the objects. *)
Fixpoint addWatches (scoped : bool) (selector : string) (notify : ObjectMeta) (objs : list Object)
    (reg : gset string) (w : W) : W * gset string :=
  match objs with
  | [] => (w, reg)
  | obj :: objs =>
      let gvk := GroupVersionKind obj in
      let filterNamespace := filterNamespaceOf scoped obj in
      let key := watchKey gvk selector filterNamespace in
      if decide (key ∈ reg) then addWatches scoped selector notify objs reg w
      else
        let '(w, err) := dw_Add gvk (mkListOptions selector false) filterNamespace notify w in
        match err with
        | Some _ => addWatches scoped selector notify objs reg w
        | None => addWatches scoped selector notify objs ({[key]} ∪ reg) w
        end
  end.

Definition cw_BeforeApply (cw : clusterWatch S) (op : ApplyOperation S) (w : W) :
    W * (clusterWatch S * option error) :=
  match ValidatedSelectorFromSet (cw_labelMaker cw (op_Subject op)) with
  | Err e => (w, (cw, Some (WrapW "failed to build label selector" e)))
  | Ok selector =>
      let notify := mkNN (d_GetNamespace (op_Subject op)) (d_GetName (op_Subject op)) in
      let '(w, reg) := addWatches (scopeWatchesToNamespace cw) selector notify
                         (Items (op_Objects op)) (registered cw) w in
      (w, (mkClusterWatch (scopeWatchesToNamespace cw) (cw_labelMaker cw) reg, None))
  end.

(** The [clusterWatch] as a hook of the reconciler: the world has its state. *)
Definition clusterWatchHook : Hook S (W * clusterWatch S) :=
  {| BeforeApply := Some (λ op wc,
       let '(w, (cw, err)) := cw_BeforeApply (wc.2) op (wc.1) in ((w, cw), (op, err)));
     AfterApply := None; BeforeUpdateStatus := None; AfterUpdateStatus := None |}.
End clusterWatch.

(** The [dynamicWatch] as an implementation of the interface: the world is the
    goroutines started. *)
Definition dynamicWatches `{RESTMapper} (t : Timeouts) : DynamicWatch (list watchState) := {|
  dw_Add trigger options filterNamespace target ws :=
    match Add t trigger options filterNamespace target with
    | Err e => (ws, Some e)
    | Ok s => (ws ++ [s], None)
    end
|}.

(** The packages WatchChildren calls, with their types: [rest], [dynamic], the
    manager and the version shim over controller-runtime. *)
Record WatchLibs (Cfg HC Mgr RM DC : Type) := mkWatchLibs {
  HTTPClientFor : Cfg → res HC;
  GetHTTPClient : Mgr → HC;
  GetConfig : Mgr → Cfg;
  GetRESTMapper : Mgr → RM;
  NewDiscoveryRESTMapper : Cfg → option HC → res RM;
  NewForConfigAndClient : Cfg → option HC → res DC
}.
Arguments HTTPClientFor {_ _ _ _ _} _.
Arguments GetHTTPClient {_ _ _ _ _} _.
Arguments GetConfig {_ _ _ _ _} _.
Arguments GetRESTMapper {_ _ _ _ _} _.
Arguments NewDiscoveryRESTMapper {_ _ _ _ _} _.
Arguments NewForConfigAndClient {_ _ _ _ _} _.
Arguments mkWatchLibs {_ _ _ _ _}.

(** The [dynamicWatch]; its [events] channel is where [ws_sent] goes. *)
Record dynamicWatch (RM DC : Type) := mkDynamicWatch { dw_restMapper : RM; dw_client : DC }.
Arguments mkDynamicWatch {RM DC} _ _.
Arguments dw_restMapper {RM DC} _.
Arguments dw_client {RM DC} _.

Definition NewDynamicWatch {RM DC : Type} (restMapper : RM) (client : DC) : dynamicWatch RM DC :=
  mkDynamicWatch restMapper client.

(** [controller_Watch] is the answer of [options.Controller.Watch] for the
    channel of the new watch. *)
Record WatchChildrenOptions (S Cfg HC Mgr RM DC : Type) := mkWatchChildrenOptions {
  wo_Manager : option Mgr;
  wo_RESTConfig : option Cfg;
  wo_HTTPClient : option HC;
  wo_LabelMaker : option (LabelMaker S);
  controller_Watch : dynamicWatch RM DC → option error;
  ScopeWatchesToNamespace : bool
}.
Arguments wo_Manager {_ _ _ _ _ _} _.
Arguments wo_RESTConfig {_ _ _ _ _ _} _.
Arguments wo_HTTPClient {_ _ _ _ _ _} _.
Arguments wo_LabelMaker {_ _ _ _ _ _} _.
Arguments controller_Watch {_ _ _ _ _ _} _.
Arguments ScopeWatchesToNamespace {_ _ _ _ _ _} _.
Arguments mkWatchChildrenOptions {_ _ _ _ _ _}.

Section WatchChildren.
Context {S Cfg HC Mgr RM DC : Type} (L : WatchLibs Cfg HC Mgr RM DC).

(** The choice of the HTTP client; nil stays [None]. *)
Definition chooseHTTPClient (options : WatchChildrenOptions S Cfg HC Mgr RM DC) : res (option HC) :=
  match wo_HTTPClient options with
  | Some hc => Ok (Some hc)
  | None =>
      match wo_RESTConfig options with
      | Some cfg => hc ← HTTPClientFor L cfg; Ok (Some hc)
      | None =>
          match wo_Manager options with
          | Some mgr => Ok (Some (GetHTTPClient L mgr))
          | None => Ok None
          end
      end
  end.

(** What is set up on success: the dynamic watch and the state of the hook
    handed to the reconciler's AddHook. *)
Definition WatchChildren (options : WatchChildrenOptions S Cfg HC Mgr RM DC) :
    res (dynamicWatch RM DC * clusterWatch S) :=
  match wo_LabelMaker options with
  | None => Err (Errorf "labelMaker is required to scope watches")
  | Some lm =>
      httpClient ← chooseHTTPClient options;
      cfg ← match wo_RESTConfig options with
            | Some cfg => Ok cfg
            | None =>
                match wo_Manager options with
                | Some mgr => Ok (GetConfig L mgr)
                | None => Err (Errorf "RESTConfig or Manager should be set")
                end
            end;
      restMapper ← match wo_Manager options with
                   | Some mgr => Ok (GetRESTMapper L mgr)
                   | None => NewDiscoveryRESTMapper L cfg httpClient
                   end;
      dynamicClient ← NewForConfigAndClient L cfg httpClient;
      let dw := NewDynamicWatch restMapper dynamicClient in
      match controller_Watch options dw with
      | Some e => Err (WrapW "setting up dynamic watch on the controller" e)
      | None => Ok (dw, mkClusterWatch (ScopeWatchesToNamespace options) lm ∅)
      end
  end.

Definition WatchAll (config : option Cfg) (ctrl : dynamicWatch RM DC → option error)
    (lm : option (LabelMaker S)) : res (dynamicWatch RM DC * clusterWatch S) :=
  WatchChildren (mkWatchChildrenOptions None config None lm ctrl false).
End WatchChildren.

(** ** What a watch announces

    The reference: the events received, oldest first, decide what is sent. *)

(** What an event says of an object: the version it is at now, or that it is
    gone. *)
Definition observation (ev : WatchEvent) : option (Kube.NamespacedName * option string) :=
  match we_Type ev, we_Object ev with
  | (Added | Modified), UnstructuredObject key rv => Some (key, Some rv)
  | Deleted, UnstructuredObject key _ => Some (key, None)
  | _, _ => None
  end.

(** The version of an object that a history of events ends with. *)
Definition knownVersion (history : list WatchEvent) (key : Kube.NamespacedName) : option string :=
  mjoin (snd <$> list.last (filter (λ o, o.1 = key) (omap observation history))).

Definition announces (past : list WatchEvent) (ev : WatchEvent) : bool :=
  match we_Type ev, we_Object ev with
  | (Added | Modified), UnstructuredObject key rv => bool_decide (knownVersion past key ≠ Some rv)
  | (Deleted | OtherType _), UnstructuredObject _ _ => true
  | _, _ => false
  end.

Fixpoint announced (past evs : list WatchEvent) : list WatchEvent :=
  match evs with
  | [] => []
  | ev :: evs => (if announces past ev then [ev] else []) ++ announced (past ++ [ev]) evs
  end.

Definition received (ls : list label) : list WatchEvent :=
  omap (λ l, match l with Received ev => Some ev | _ => None end) ls.

(** The event the goroutine is blocked on. *)
Definition pending (s : watchState) : list clientObject :=
  match ws_phase s with Sending e => [e] | _ => [] end.

(** No sign of life since the last tick, or since this Watch call was made;
    the labels newest first. *)
Fixpoint idle (ls : list label) : bool :=
  match ls with
  | [] | Tick :: _ | Woken :: _ => true
  | (WatchReturned _ | Received _) :: _ => false
  | (Delivered | Closed) :: ls => idle ls
  end.

Definition isWatchReturned (l : label) : bool :=
  match l with WatchReturned _ => true | _ => false end.

Lemma run_app t ls1 ls2 s : run t (ls1 ++ ls2) s = run t ls1 s ≫= run t ls2.
Proof.
  revert s. induction ls1 as [|l ls1 IH]; intros s; [done|]. cbn [run app].
  destruct (step t l s); [apply IH|done].
Qed.

Lemma run_snoc t ls l s s' :
  run t (ls ++ [l]) s = Some s' ↔ ∃ s1, run t ls s = Some s1 ∧ step t l s1 = Some s'.
Proof.
  rewrite run_app. destruct (run t ls s) as [s1|]; simpl.
  - destruct (step t l s1) as [s2|] eqn:E; simpl; [|naive_solver].
    split; [intros [= <-]; eauto|]. intros (s3 & [= <-] & ?). congruence.
  - naive_solver.
Qed.

(** Rule induction on the runs: what holds at the start and is kept by each
    step holds at the end. *)
Lemma run_ind t s0 (P : list label → watchState → Prop) :
  P [] s0 →
  (∀ ls l s s', run t ls s0 = Some s → P ls s → step t l s = Some s' → P (ls ++ [l]) s') →
  ∀ ls s, run t ls s0 = Some s → P ls s.
Proof.
  intros H0 Hstep ls. induction ls as [|l ls IH] using rev_ind; intros s.
  - by intros [= <-].
  - intros (s1 & H1 & H2)%run_snoc. eauto.
Qed.

Lemma announced_snoc past evs ev :
  announced past (evs ++ [ev]) =
  announced past evs ++ (if announces (past ++ evs) ev then [ev] else []).
Proof.
  revert past. induction evs as [|e evs IH]; intros past.
  - simpl. by rewrite app_nil_r, app_nil_r.
  - cbn [announced app]. by rewrite IH, <- !app_assoc.
Qed.

Lemma knownVersion_snoc evs ev key :
  knownVersion (evs ++ [ev]) key =
  match observation ev with
  | Some (k, v) => if decide (k = key) then v else knownVersion evs key
  | None => knownVersion evs key
  end.
Proof.
  unfold knownVersion. rewrite omap_app, list.filter_app. cbn [omap list_omap].
  destruct (observation ev) as [[k v]|]; cbn [omap list_omap].
  - rewrite filter_cons. cbn [fst]. case_decide as Hk; [|by rewrite filter_nil, app_nil_r].
    by rewrite filter_nil, last_snoc.
  - by rewrite filter_nil, app_nil_r.
Qed.

Lemma received_app ls1 ls2 : received (ls1 ++ ls2) = received ls1 ++ received ls2.
Proof. apply omap_app. Qed.

(** The state of a watch against its history: the versions remembered are the
    ones the history ends with, and what was sent is what the reference
    announces. *)
Definition tracks (target : ObjectMeta) (evs : list WatchEvent) (s : watchState) : Prop :=
  ws_target s = target
  ∧ (∀ key, lastRV (ws_watch s) !! key = knownVersion evs key)
  ∧ ws_sent s ++ pending s = (λ ev, mkClientObject (we_Object ev) target) <$> announced [] evs.

Lemma tracks_received target evs ev s :
  ws_phase s = Ranging → tracks target evs s → tracks target (evs ++ [ev]) (handleEvent ev s).
Proof.
  destruct s as [w tg ph st fi tm sa ch ca sent]. cbn. intros -> (Ht & Hrv & Hsent).
  cbn in Ht, Hrv, Hsent. subst tg. rewrite app_nil_r in Hsent. subst sent.
  unfold tracks. rewrite announced_snoc, fmap_app. setoid_rewrite knownVersion_snoc.
  destruct ev as [ty [key rv|]];
    destruct ty; cbn -[announced knownVersion]; rewrite ?app_nil_r; repeat split; try done.
  all: try (case_decide as Hd; rewrite Hrv in Hd).
  all: try (rewrite bool_decide_eq_false_2 by (intros ?; done)).
  all: try (rewrite bool_decide_eq_true_2 by done).
  all: cbn -[announced knownVersion]; rewrite ?app_nil_r; try done.
  all: intros key'; rewrite ?lookup_insert, ?lookup_delete; repeat case_decide; simplify_eq;
    rewrite ?Hrv; done.
Qed.

Lemma tracks_start t w target n b : lastRV w = ∅ → tracks target [] (beginWatch t w target n b []).
Proof. intros Hw. split; [done|]. split; [|done]. intros key. cbn. by rewrite Hw. Qed.

Lemma tracks_step t target ls l s s' :
  tracks target (received ls) s → step t l s = Some s' → tracks target (received (ls ++ [l])) s'.
Proof.
  intros Htr Hstep. rewrite received_app.
  destruct l, (ws_phase s) eqn:Hp; cbn in Hstep; rewrite Hp in Hstep; simplify_eq; cbn [received omap list_omap];
    rewrite ?app_nil_r.
  all: try by apply tracks_received.
  all: destruct Htr as (Ht & Hrv & Hsent); unfold pending in Hsent; rewrite Hp in Hsent.
  all: repeat split; repeat case_match; simplify_eq; unfold checkActivity, watchReturned in *;
    repeat case_match; simplify_eq/=; unfold pending; cbn; rewrite ?Hp; rewrite ?app_nil_r in *; auto.
Qed.

Definition isUpdate (ev : WatchEvent) : bool :=
  bool_decide (we_Type ev = Added ∨ we_Type ev = Modified).

Lemma knownVersion_in evs key rv :
  knownVersion evs key = Some rv →
  ∃ ev, ev ∈ evs ∧ isUpdate ev ∧ we_Object ev = UnstructuredObject key rv.
Proof.
  induction evs as [|e evs IH] using rev_ind; [done|]. rewrite knownVersion_snoc.
  destruct e as [ty [k v|]]; destruct ty; cbn; try case_decide; intros Hk; simplify_eq;
    try (destruct (IH Hk) as (ev & ? & ? & ?); exists ev; rewrite elem_of_app; tauto).
  all: eexists; split; [apply elem_of_app; right; by left|]; by split; [apply bool_decide_pack; auto|].
Qed.

Lemma announced_complete evs ev key rv :
  ev ∈ evs → isUpdate ev → we_Object ev = UnstructuredObject key rv →
  UnstructuredObject key rv ∈ we_Object <$> announced [] evs.
Proof.
  revert ev. induction evs as [|e evs IH] using rev_ind; [by intros ? ?%elem_of_nil|].
  intros ev Hin Hup Hob. rewrite announced_snoc, fmap_app, elem_of_app.
  apply elem_of_app in Hin as [Hin| ->%list_elem_of_singleton]; [left; eauto|].
  destruct (announces _ _) eqn:Ha; [right; cbn; rewrite Hob; by left|].
  left. unfold announces in Ha. rewrite Hob in Ha.
  apply bool_decide_unpack in Hup.
  assert (knownVersion ([] ++ evs) key = Some rv) as Hk.
  { destruct Hup as [E|E]; rewrite E in Ha; apply bool_decide_eq_false_1 in Ha; by apply dec_stable. }
  destruct (knownVersion_in _ _ _ Hk) as (ev' & ? & ? & ?). eauto.
Qed.

Lemma deleted_announced past evs ev key rv :
  ev ∈ evs → we_Type ev = Deleted → we_Object ev = UnstructuredObject key rv →
  ev ∈ announced past evs.
Proof.
  revert past. induction evs as [|e evs IH]; intros past; [by intros ?%elem_of_nil|].
  intros [->|Hin]%elem_of_cons Ht Ho; cbn [announced]; apply elem_of_app; [left|right; eauto].
  unfold announces. rewrite Ht, Ho. by left.
Qed.

Section dynamic_theorems.
Context `{RESTMapper} (t : Timeouts).

Lemma Add_start trigger options ns target s :
  Add t trigger options ns target = Ok s →
  ∃ w, s = beginWatch t w target 1 true [] ∧ lastRV w = ∅.
Proof using.
  unfold Add, newDynamicClient. destruct (mapper_RESTMapping _ _) as [m|e]; [|done].
  cbn. intros [= <-]. by eexists.
Qed.

Lemma Add_tracks trigger options ns target s0 ls s :
  Add t trigger options ns target = Ok s0 → run t ls s0 = Some s →
  tracks target (received ls) s.
Proof using.
  intros (w & -> & Hw)%Add_start. revert ls s.
  apply (run_ind t _ (λ ls s, tracks target (received ls) s)).
  - by apply tracks_start.
  - intros ls l s s' _. apply tracks_step.
Qed.

(** C7. A watch tells the controller exactly what changed. Over any run of the
    goroutine that Add starts, dropped and re-opened watches included, what was
    sent (or is being sent) is, in order, the events the reference announces,
    for the target Add was given: deletions, and updates to a version other
    than the last one seen of that object. So every version and every deletion
    the server reported reaches the controller, and an object reported again
    at the same version on a rewatch does not. *)
Theorem watch_announces trigger options ns target s0 ls s :
  Add t trigger options ns target = Ok s0 → run t ls s0 = Some s →
  ws_sent s ++ pending s
    = (λ ev, mkClientObject (we_Object ev) target) <$> announced [] (received ls)
  ∧ (∀ ev key rv, ev ∈ received ls → we_Type ev ∈ [Added; Modified; Deleted] →
       we_Object ev = UnstructuredObject key rv →
       mkClientObject (UnstructuredObject key rv) target ∈ ws_sent s ++ pending s).
Proof using.
  intros Hadd Hrun. destruct (Add_tracks _ _ _ _ _ _ _ Hadd Hrun) as (_ & _ & Hsent).
  split; [done|]. intros ev key rv Hin Hty Hob. rewrite Hsent.
  assert (UnstructuredObject key rv ∈ we_Object <$> announced [] (received ls)) as Hann.
  { rewrite !elem_of_cons, elem_of_nil in Hty. destruct Hty as [Hty|[Hty|[Hty|[]]]].
    1,2: eapply announced_complete; [exact Hin|apply bool_decide_pack; auto|done].
    apply list_elem_of_fmap. exists ev. split; [done|]. by eapply deleted_announced. }
  apply list_elem_of_fmap in Hann as (ev' & E & Hin').
  apply list_elem_of_fmap. exists ev'. split; [by rewrite E|done].
Qed.
(** The checker and the WaitGroup against the history of a run. *)
Definition supervised (ls : list label) (s : watchState) : Prop :=
  (checking s = true ∧ cancelled s = false ∧ sawActivity s = negb (idle (reverse ls))
     ∧ ws_phase s ≠ Sleeping
   ∨ checking s = false ∧ cancelled s = true)
  ∧ watchStarted s = (if existsb isWatchReturned ls then 0%Z else 1%Z)
  ∧ match ws_phase s with
    | Calling => first s = negb (existsb isWatchReturned ls)
    | _ => existsb isWatchReturned ls = true
    end.

Lemma supervised_step ls l s s' :
  supervised ls s → step t l s = Some s' → supervised (ls ++ [l]) s'.
Proof using.
  unfold supervised. rewrite existsb_app, reverse_snoc.
  destruct s as [w tg ph st fi tm sa ch ca sent]. cbn -[existsb]. intros (Hact & Hst & Hph) Hstep.
  destruct l; cbn [existsb isWatchReturned idle]; rewrite ?orb_false_r, ?orb_true_r.
  - destruct ch; [|by destruct ph]. destruct Hact as [(_ & -> & Hsa & Hsl)|[]]; [|done].
    assert (Some (checkActivity (mkWatchState w tg ph st fi tm sa true false sent)) = Some s')
      as [= <-] by (by destruct ph).
    unfold checkActivity. cbn. destruct (idle (reverse ls)); rewrite Hsa; cbn; auto 10.
  - destruct ph; try done. injection Hstep as <-.
    unfold watchReturned. destruct err; cbn.
    all: split; [destruct Hact as [(? & ? & ? & ?)|[]]; auto|].
    all: split; [|done]; rewrite Hph, Hst; by destruct (existsb _ ls).
  - destruct ph; try done. injection Hstep as <-.
    unfold handleEvent. destruct ev as [ty [k v|]]; destruct ty; cbn; repeat case_decide; simplify_eq/=.
    all: split; [destruct Hact as [(? & ? & ? & ?)|[]]; auto|]; auto.
  - destruct ph; try done. injection Hstep as <-. cbn. split; [|done].
    destruct Hact as [(? & ? & ? & ?)|[]]; auto.
  - destruct ph; try done. injection Hstep as <-. cbn. auto.
  - destruct ph; try done. injection Hstep as <-. cbn.
    rewrite Hph in Hst |- *. split; [left|]; auto.
Qed.

Lemma Add_supervised trigger options ns target s0 ls s :
  Add t trigger options ns target = Ok s0 → run t ls s0 = Some s → supervised ls s.
Proof using.
  intros (w & -> & Hw)%Add_start. revert ls s. apply (run_ind t _ supervised).
  - split; [by left|]. done.
  - intros ls l s s' _. apply supervised_step.
Qed.

(** The activity check. At each tick the context of the watch is cancelled
    exactly when nothing was heard since the previous tick, or since the Watch
    call was made: a call that never answers is given up at its first tick, and
    a watch that answers in every period is never interrupted. Delivering an
    event to the controller is not activity. *)
Theorem activity_check trigger options ns target s0 ls s :
  Add t trigger options ns target = Ok s0 → run t (ls ++ [Tick]) s0 = Some s →
  cancelled s = idle (reverse ls) ∧ checking s = negb (idle (reverse ls)).
Proof using.
  intros Hadd (s1 & H1 & H2)%run_snoc.
  destruct (Add_supervised _ _ _ _ _ _ _ Hadd H1) as [Hact _].
  assert (checking s1 = true ∧ s = checkActivity s1) as [Hc ->].
  { cbn in H2. destruct (ws_phase s1), (checking s1); by simplify_eq. }
  destruct Hact as [(_ & Hca & Hsa & _)|[]]; [|congruence].
  unfold checkActivity. rewrite Hsa. destruct (idle (reverse ls)); cbn; auto.
Qed.

(** Add returns when the first Watch call has been answered, with a watch
    or with an error, and not before; the WaitGroup is released exactly once,
    so that later watches of the loop never drive its counter below zero. *)
Theorem Add_returns_once trigger options ns target s0 ls s :
  Add t trigger options ns target = Ok s0 → run t ls s0 = Some s →
  watchStarted s = (if existsb isWatchReturned ls then 0%Z else 1%Z).
Proof using. intros Hadd Hrun. by destruct (Add_supervised _ _ _ _ _ _ _ Hadd Hrun) as (_ & ? & _). Qed.

(** The labels that do not depend on the server: the ticker, the controller
    receiving an event, the end of the sleep, and, once the context is
    cancelled, the client giving up the call or closing the channel. *)
Definition unaided (l : label) (s : watchState) : bool :=
  match l with
  | Tick | Delivered | Woken => true
  | WatchReturned err => bool_decide (is_Some err) && cancelled s
  | Closed => cancelled s
  | Received _ => false
  end.

Fixpoint run_unaided (ls : list label) (s : watchState) : option watchState :=
  match ls with
  | [] => Some s
  | l :: ls => if unaided l s then s' ← step t l s; run_unaided ls s' else None
  end.

(** The steps left before the watch is given up. *)
Definition patience (s : watchState) : nat :=
  match ws_phase s with
  | Sleeping | Panicked => 0
  | Calling | Ranging => 1 + (if checking s then if sawActivity s then 2 else 1 else 0)
  | Sending _ => 2 + (if checking s then if sawActivity s then 2 else 1 else 0)
  end.

Lemma unaided_step l s s' :
  l ≠ Woken → unaided l s = true → step t l s = Some s' →
  patience s = (1 + patience s')%nat ∨ ws_phase s' = Sleeping ∧ (1 ≤ patience s)%nat.
Proof using.
  destruct s as [w tg ph st fi tm sa ch ca sent]. unfold patience. cbn. intros Hw Hu Hstep.
  destruct l; try done; destruct ph; try done; cbn in Hstep, Hu; simplify_eq/=.
  all: try (destruct ch; [|done]; injection Hstep as <-; unfold checkActivity; destruct sa; cbn; lia).
  all: try (destruct err; [|done]).
  all: cbn; first [by left | right; split; [done|lia]].
Qed.

Lemma unaided_bound ls s s' :
  Woken ∉ ls → run_unaided ls s = Some s' →
  (length ls + patience s' ≤ patience s)%nat.
Proof using.
  revert s. induction ls as [|l ls IH]; intros s Hw; [by intros [= <-]|]. cbn.
  apply not_elem_of_cons in Hw as [Hl Hw].
  destruct (unaided l s) eqn:Hu; [|done]. destruct (step t l s) as [s1|] eqn:Hs; [|done]. cbn.
  intros Hrun. specialize (IH _ Hw Hrun).
  destruct (unaided_step l s s1) as [|[Hp Hge]]; [done..|lia|].
  unfold patience in IH at 2. rewrite Hp in IH. lia.
Qed.

Lemma run_unaided_run ls s s' : run_unaided ls s = Some s' → run t ls s = Some s'.
Proof using.
  revert s. induction ls as [|l ls IH]; intros s; [done|]. cbn.
  destruct (unaided l s); [|done]. destruct (step t l s); cbn; auto.
Qed.

Lemma run_unaided_snoc ls l s s1 s2 :
  run_unaided ls s = Some s1 → unaided l s1 = true → step t l s1 = Some s2 →
  run_unaided (ls ++ [l]) s = Some s2.
Proof using.
  revert s. induction ls as [|l' ls IH]; intros s; cbn.
  - intros [= ->] -> ->. done.
  - destruct (unaided l' s); [|done]. destruct (step t l' s); cbn; [apply IH|done].
Qed.

Lemma unaided_panic ls s s' :
  ws_phase s ≠ Panicked → run_unaided ls s = Some s' → ws_phase s' ≠ Panicked.
Proof using.
  revert s. induction ls as [|l ls IH]; intros s Hp; [by intros [= <-]|]. cbn.
  destruct (unaided l s) eqn:Hu; [|done]. destruct (step t l s) as [s1|] eqn:Hs; [|done]. cbn.
  apply IH. destruct l; try done; cbn in Hs; destruct (ws_phase s) eqn:E; simplify_eq.
  all: repeat case_match; simplify_eq; unfold checkActivity, watchReturned; repeat case_match; cbn; congruence.
Qed.

(** Before it sleeps, a supervised watch has a step that needs no server. *)
Lemma unaided_progress ls s :
  supervised ls s → ws_phase s ≠ Panicked → ws_phase s ≠ Sleeping →
  ∃ l s', l ≠ Woken ∧ unaided l s = true ∧ step t l s = Some s'.
Proof using.
  intros ([(Hc & _)|[_ Hc]] & _) Hp Hs; destruct (ws_phase s) eqn:E; try done.
  1-3: exists Tick; cbn; rewrite E, Hc; eauto.
  - exists (WatchReturned (Some (Errorf "context canceled"))). cbn. rewrite E, Hc. eauto.
  - exists Closed. cbn. rewrite E, Hc. eauto.
  - exists Delivered. cbn. rewrite E. eauto.
Qed.

(** C16. A watch on which the server has gone silent is re-opened. From every
    state of the goroutine (short of the panic on a malformed event), the steps
    that need no answer of the server, in any order, are at most four before
    the watch is closed, one of them is always possible until then, and what
    follows is a new Watch call with a fresh context that keeps the versions
    already announced. The hypothesis on the client is its documented answer to
    a cancelled context: the call fails, the channel is closed. *)
Theorem silent_server_rewatch trigger options ns target s0 ls s ls' s' :
  Add t trigger options ns target = Ok s0 → run t ls s0 = Some s → ws_phase s ≠ Panicked →
  Woken ∉ ls' → run_unaided ls' s = Some s' →
  (length ls' ≤ 4)%nat
  ∧ (ws_phase s' ≠ Sleeping → ∃ l, l ≠ Woken ∧ is_Some (run_unaided (ls' ++ [l]) s))
  ∧ (ws_phase s' = Sleeping →
       run_unaided (ls' ++ [Woken]) s
         = Some (beginWatch t (ws_watch s') target (watchStarted s') false (ws_sent s'))).
Proof using.
  intros Hadd Hrun Hpan Hw Hun.
  assert (run t (ls ++ ls') s0 = Some s') as Hrun'.
  { rewrite run_app, Hrun. by apply run_unaided_run. }
  destruct (Add_tracks _ _ _ _ _ _ _ Hadd Hrun') as (Htgt & _).
  split; [|split].
  - pose proof (unaided_bound _ _ _ Hw Hun) as Hb.
    assert (patience s ≤ 4)%nat; [|lia]. unfold patience. destruct (ws_phase s), (checking s), (sawActivity s); lia.
  - intros Hs. destruct (unaided_progress _ s' (Add_supervised _ _ _ _ _ _ _ Hadd Hrun'))
      as (l & s2 & Hl & Hu & Hst); [by eapply unaided_panic|done|].
    exists l. split; [done|]. exists s2. by eapply run_unaided_snoc.
  - intros Hs. eapply run_unaided_snoc; [done..|]. cbn. by rewrite Hs, Htgt.
Qed.
End dynamic_theorems.

(** ** The registry of watches *)

(** A call of Add, with its answer. *)
Record addCall := mkAddCall {
  ac_gvk : Kube.GroupVersionKind;
  ac_options : ListOptions;
  ac_namespace : string;
  ac_target : ObjectMeta;
  ac_err : option error
}.

(** Any implementation of the interface, with its calls written to a log. *)
#[export] Instance logged {W} `{DynamicWatch W} : DynamicWatch (W * list addCall) := {|
  dw_Add gvk options ns target wl :=
    let '(w, err) := dw_Add gvk options ns target (wl.1) in
    ((w, wl.2 ++ [mkAddCall gvk options ns target err]), err)
|}.

Definition watched (c : addCall) : Kube.GroupVersionKind * string * string :=
  (ac_gvk c, lo_LabelSelector (ac_options c), ac_namespace c).
Definition keyOf (x : Kube.GroupVersionKind * string * string) : string :=
  watchKey x.1.1 x.1.2 x.2.

(** The calls of Add that were accepted. Add answers nil when it could start the
    goroutine of the watch and that goroutine's first call of Watch has returned,
    whatever that call answered ([accepted_started], [failed_watch_retried]). *)
Definition accepted (l : list addCall) : list (Kube.GroupVersionKind * string * string) :=
  watched <$> filter (λ c, ac_err c = None) l.

(** The text of a key can be taken apart again: no colon in the group and the
    version, no semicolon in the kind and the selector. API names and label
    selectors have neither. *)
Definition key_text (gvk : Kube.GroupVersionKind) (selector : string) : bool :=
  strings.free_of ":" (gvk_Group gvk) && strings.free_of ":" (gvk_Version gvk)
  && strings.free_of ";" (gvk_Kind gvk) && strings.free_of ";" selector.

Lemma free_cut c a b x y :
  strings.free_of c a = true → strings.free_of c b = true →
  a +:+ String c x = b +:+ String c y → a = b ∧ x = y.
Proof.
  revert b. induction a as [|h a IH]; intros [|h' b]; cbn; intros Ha Hb E; bsimpl; simplify_eq.
  - done.
  - destruct (IH b) as [-> ->]; auto.
Qed.

Lemma free_suffix c a b x : strings.free_of c b = true → a +:+ String c x ≠ b.
Proof.
  intros Hb E. subst b. rewrite free_of_app in Hb. bsimpl. cbn in *. by bsimpl.
Qed.

Lemma watchKey_inj g1 s1 n1 g2 s2 n2 :
  key_text g1 s1 = true → key_text g2 s2 = true →
  watchKey g1 s1 n1 = watchKey g2 s2 n2 → (g1, s1, n1) = (g2, s2, n2).
Proof.
  destruct g1 as [a1 b1 c1], g2 as [a2 b2 c2]. unfold key_text, watchKey.
  cbn [gvk_Group gvk_Version gvk_Kind]. intros H1 H2. bsimpl.
  assert (∀ r1 r2 : string,
    "gvk=" +:+ a1 +:+ ":" +:+ b1 +:+ ":" +:+ c1 +:+ ";labels=" +:+ s1 +:+ r1 =
    "gvk=" +:+ a2 +:+ ":" +:+ b2 +:+ ":" +:+ c2 +:+ ";labels=" +:+ s2 +:+ r2 →
    a1 = a2 ∧ b1 = b2 ∧ c1 = c2 ∧ s1 +:+ r1 = s2 +:+ r2) as Hcut.
  { intros r1 r2 E. injection E as E.
    apply free_cut in E as [-> E]; [|done..]. apply free_cut in E as [-> E]; [|done..].
    apply free_cut in E as [-> E]; [|done..]. injection E as E. done. }
  repeat case_decide; subst; intros E; rewrite ?string_app_assoc in E.
  - destruct (Hcut "" "") as (-> & -> & -> & Hs); [by rewrite !string_app_nil_r|].
    rewrite !string_app_nil_r in Hs. by subst.
  - exfalso. destruct (Hcut "" (";namespace=" +:+ n2)) as (_ & _ & _ & Hs); [by rewrite string_app_nil_r|].
    rewrite string_app_nil_r in Hs. eapply (free_suffix ";" s2 s1); [done|]. symmetry. exact Hs.
  - exfalso. destruct (Hcut (";namespace=" +:+ n1) "") as (_ & _ & _ & Hs); [by rewrite string_app_nil_r|].
    rewrite string_app_nil_r in Hs. eapply (free_suffix ";" s1 s2); [done|]. exact Hs.
  - destruct (Hcut _ _ E) as (-> & -> & -> & Hs).
    apply (free_cut ";" s1 s2) in Hs as [-> Hs]; [|done..]. injection Hs as ->. done.
Qed.

Section registry.
Context {S W : Type} `{DeclarativeObject S, Unstructured, DynamicWatch W, LabelSelectors}.
Implicit Types cw : clusterWatch S.
Implicit Types wl : W * list addCall.

(** The operations the reconciler announces, one after the other. *)
Fixpoint applies (ops : list (ApplyOperation S)) (wl : W * list addCall) (cw : clusterWatch S) :
    (W * list addCall) * clusterWatch S :=
  match ops with
  | [] => (wl, cw)
  | op :: ops => let '(wl, (cw, _)) := cw_BeforeApply cw op wl in applies ops wl cw
  end.

(** The registry is the keys of the calls accepted, each once, and every call
    had a key that can be taken apart. *)
Definition registry_ok (reg : gset string) (l : list addCall) : Prop :=
  reg = list_to_set (keyOf <$> accepted l)
  ∧ NoDup (keyOf <$> accepted l)
  ∧ Forall (λ x, key_text x.1.1 x.1.2 = true) (accepted l).

Lemma registry_add reg l gvk selector ns target :
  registry_ok reg l → key_text gvk selector = true → watchKey gvk selector ns ∉ reg →
  registry_ok ({[watchKey gvk selector ns]} ∪ reg)
    (l ++ [mkAddCall gvk (mkListOptions selector false) ns target None]).
Proof using.
  intros (-> & Hnd & Htext) Hk Hnew. unfold registry_ok, accepted.
  rewrite list.filter_app. cbn. rewrite !fmap_app. cbn.
  split; [|split].
  - rewrite list_to_set_app_L. cbn. set_solver.
  - apply list.NoDup_app. split; [done|]. split; [|apply NoDup_singleton].
    intros k Hin ->%list_elem_of_singleton. by rewrite elem_of_list_to_set in Hnew.
  - apply list.Forall_app. split; [done|]. by constructor.
Qed.

Lemma registry_failed reg l c :
  ac_err c ≠ None → registry_ok reg l → registry_ok reg (l ++ [c]).
Proof using.
  intros Hc. unfold registry_ok, accepted. rewrite list.filter_app, filter_cons_False, filter_nil, app_nil_r; done.
Qed.

(** What one pass over the objects leaves behind. *)
Definition covered (scoped : bool) (selector : string) (objs : list Object) (reg : gset string)
    (new : list addCall) : Prop :=
  Forall (λ obj, watchKey (GroupVersionKind obj) selector (filterNamespaceOf scoped obj) ∈ reg
    ∨ ∃ c e, c ∈ new ∧ ac_err c = Some e
        ∧ watched c = (GroupVersionKind obj, selector, filterNamespaceOf scoped obj)) objs.

Lemma covered_cons scoped selector objs reg c new :
  covered scoped selector objs reg new → covered scoped selector objs reg (c :: new).
Proof using.
  intros Hcov. eapply list.Forall_impl; [exact Hcov|]. intros o [?|(c' & e' & ? & ?)]; [by left|right].
  exists c', e'. split; [by right|done].
Qed.

Lemma addWatches_spec scoped selector notify objs reg wl wl' reg' :
  Forall (λ obj, key_text (GroupVersionKind obj) selector = true) objs →
  registry_ok reg (wl.2) →
  addWatches scoped selector notify objs reg wl = (wl', reg') →
  registry_ok reg' (wl'.2) ∧ reg ⊆ reg'
  ∧ ∃ new, wl'.2 = wl.2 ++ new ∧ Forall (λ c, ac_target c = notify) new
      ∧ covered scoped selector objs reg' new.
Proof using.
  revert reg wl. induction objs as [|obj objs IH]; intros reg wl Htext Hok.
  { intros [= <- <-]. split; [done|]. split; [done|]. exists []. rewrite app_nil_r. by repeat constructor. }
  apply list.Forall_cons in Htext as [Hk Htext]. cbn [addWatches].
  set (key := watchKey _ _ _). case_decide as Hin.
  - intros Hrun. destruct (IH _ _ Htext Hok Hrun) as (? & Hsub & new & ? & ? & ?).
    split; [done|]. split; [done|]. exists new. repeat split; [done..|]. constructor; [left; set_solver|done].
  - cbn [dw_Add logged]. destruct (dw_Add _ _ _ _ (wl.1)) as [w err] eqn:Hadd.
    set (c := mkAddCall (GroupVersionKind obj) (mkListOptions selector false)
      (filterNamespaceOf scoped obj) notify err). destruct err as [e|]; intros Hrun.
    + destruct (IH reg (w, wl.2 ++ [c]) Htext) as (? & Hsub & new & E & ? & Hcov);
        [by apply registry_failed|exact Hrun|]. split; [done|]. split; [done|].
      exists (c :: new). cbn in E. rewrite E, <- app_assoc. split; [done|]. split; [by constructor|].
      constructor; [right; exists c, e; split; [by left|done]|]. by apply covered_cons.
    + destruct (IH ({[key]} ∪ reg) (w, wl.2 ++ [c]) Htext) as (? & Hsub & new & E & ? & Hcov);
        [by apply registry_add|exact Hrun|]. split; [done|]. split; [set_solver|].
      exists (c :: new). cbn in E. rewrite E, <- app_assoc. split; [done|]. split; [by constructor|].
      constructor; [left; set_solver|]. by apply covered_cons.
Qed.
(** The keys of an operation's objects can be taken apart. *)
Definition op_text (cw : clusterWatch S) (op : ApplyOperation S) : Prop :=
  ∀ selector, ValidatedSelectorFromSet (cw_labelMaker cw (op_Subject op)) = Ok selector →
    Forall (λ obj, key_text (GroupVersionKind obj) selector = true) (Items (op_Objects op)).

Lemma BeforeApply_registry cw op wl wl' cw' err :
  op_text cw op → registry_ok (registered cw) (wl.2) →
  cw_BeforeApply cw op wl = (wl', (cw', err)) →
  registry_ok (registered cw') (wl'.2) ∧ cw_labelMaker cw' = cw_labelMaker cw
  ∧ scopeWatchesToNamespace cw' = scopeWatchesToNamespace cw
  ∧ ∀ selector, ValidatedSelectorFromSet (cw_labelMaker cw (op_Subject op)) = Ok selector →
      err = None ∧ ∃ new, wl'.2 = wl.2 ++ new
        ∧ covered (scopeWatchesToNamespace cw) selector (Items (op_Objects op)) (registered cw') new.
Proof using.
  intros Htext Hok. unfold cw_BeforeApply.
  destruct (ValidatedSelectorFromSet _) as [selector|e] eqn:Hsel.
  - destruct (addWatches _ _ _ _ _ _) as [w reg] eqn:Hadd. intros [= <- <- <-]. cbn.
    destruct (addWatches_spec _ _ _ _ _ _ _ _ (Htext _ Hsel) Hok Hadd) as (? & _ & new & ? & _ & ?).
    split; [done|]. do 2 (split; [done|]). intros sel [= <-]. eauto.
  - intros [= <- <- <-]. done.
Qed.

Lemma applies_registry ops wl cw wl' cw' :
  Forall (op_text cw) ops → registry_ok (registered cw) (wl.2) →
  applies ops wl cw = (wl', cw') →
  registry_ok (registered cw') (wl'.2) ∧ cw_labelMaker cw' = cw_labelMaker cw
  ∧ scopeWatchesToNamespace cw' = scopeWatchesToNamespace cw.
Proof using.
  revert wl cw. induction ops as [|op ops IH]; intros wl cw; [by intros _ Hok [= <- <-]|].
  intros [Hop Hops]%list.Forall_cons Hok. cbn.
  destruct (cw_BeforeApply cw op wl) as [wl1 [cw1 err]] eqn:E.
  destruct (BeforeApply_registry _ _ _ _ _ _ Hop Hok E) as (Hok1 & Hl & Hsc & _). intros Hrun.
  destruct (IH wl1 cw1) as (? & Hl' & Hsc'); [|done..|split; [done|by rewrite Hl', Hsc', Hl]].
  eapply list.Forall_impl; [exact Hops|]. intros o Ho. unfold op_text. by rewrite Hl.
Qed.

(** C15. Every kind about to be applied is watched, once. After any sequence of
    operations announced to the hook, no two accepted calls of Add have the same
    kind, label selector and namespace; and when it lets an operation through,
    for each object of the operation a call for its kind with the labels of the
    subject (in the object's namespace, where watches are scoped) has been
    accepted, or one was made in this operation and failed. An accepted call
    means a goroutine that watches and, whenever a watch cannot be opened, the
    first one included, or ends, tries again ([accepted_started],
    [failed_watch_retried]). *)
Theorem children_watched ops op cw0 w0 wl1 cw1 wl2 cw2 err selector :
  registered cw0 = ∅ → Forall (op_text cw0) (op :: ops) →
  applies ops (w0, []) cw0 = (wl1, cw1) → cw_BeforeApply cw1 op wl1 = (wl2, (cw2, err)) →
  ValidatedSelectorFromSet (cw_labelMaker cw0 (op_Subject op)) = Ok selector →
  NoDup (accepted (wl2.2)) ∧ err = None
  ∧ ∀ obj, obj ∈ Items (op_Objects op) →
      let x := (GroupVersionKind obj, selector, filterNamespaceOf (scopeWatchesToNamespace cw0) obj) in
      x ∈ accepted (wl2.2)
      ∨ ∃ pre c e, wl2.2 = wl1.2 ++ pre ∧ c ∈ pre ∧ ac_err c = Some e ∧ watched c = x.
Proof using.
  intros Hreg Htext Hops Hop Hsel.
  apply list.Forall_cons in Htext as [Htop Htops].
  assert (registry_ok (registered cw0) ((w0, []) : W * list addCall).2) as Hok0.
  { rewrite Hreg. split; [done|]. split; constructor. }
  destruct (applies_registry _ _ _ _ _ Htops Hok0 Hops) as (Hok1 & Hl & Hsc).
  destruct (BeforeApply_registry _ _ _ _ _ _ ltac:(unfold op_text; by rewrite Hl) Hok1 Hop)
    as ((Hr2 & Hnd & Hfree) & _ & _ & Hcov).
  rewrite Hl in Hcov. destruct (Hcov _ Hsel) as (-> & new & Enew & Hall).
  split; [by apply (NoDup_fmap_1 keyOf)|]. split; [done|]. intros obj Hobj x.
  rewrite Hsc in Hall. destruct (proj1 (list.Forall_forall _ _) Hall obj Hobj) as [Hin|(c & e & ? & ? & ?)].
  - left. rewrite Hr2, elem_of_list_to_set in Hin. apply list_elem_of_fmap in Hin as ([[g s] n] & E & Hin).
    rewrite list.Forall_forall in Hfree. pose proof (Hfree _ Hin) as Hf. cbn in Hf.
    pose proof (proj1 (list.Forall_forall _ _) (Htop _ Hsel) obj Hobj) as Hko.
    apply watchKey_inj in E; [|done..].
    unfold x. by rewrite E.
  - right. exists new, c, e. done.
Qed.
End registry.

(** What an accepted call means for the dynamic watch: one more goroutine, which is
    in its first call of Watch for the kind, the selector and the namespace given
    (the call of Add returns when that call of Watch has). *)
Lemma accepted_started `{RESTMapper} (t : Timeouts) gvk options ns target ws ws' :
  @dw_Add _ (dynamicWatches t) gvk options ns target ws = (ws', None) →
  ∃ s, ws' = ws ++ [s] ∧ ws_phase s = Calling ∧ ws_target s = target
    ∧ kw_GVK (ws_watch s) = gvk ∧ kw_FilterOptions (ws_watch s) = options
    ∧ kw_FilterNamespace (ws_watch s) = ns.
Proof.
  cbn [dw_Add dynamicWatches]. unfold Add, newDynamicClient.
  destruct (mapper_RESTMapping _ _) as [m|e]; cbn; [|done]. intros [= <-]. by eexists.
Qed.

(** A call of Watch that fails is followed, after the delay, by another one for
    the same kind, selector and namespace. *)
Lemma failed_watch_retried (t : Timeouts) e s s1 :
  step t (WatchReturned (Some e)) s = Some s1 →
  ws_phase s1 = Sleeping ∧ ∃ s2, step t Woken s1 = Some s2 ∧ ws_phase s2 = Calling
    ∧ ws_watch s2 = ws_watch s ∧ ws_target s2 = ws_target s.
Proof.
  unfold step. destruct (ws_phase s) eqn:E; try done. intros [= <-]. split; [done|].
  cbn. by eexists.
Qed.

(** ** Addons that share their labels *)

Section shared.
Context {S : Type} `{DeclarativeObject S, Unstructured, LabelSelectors, RESTMapper} (t : Timeouts).
#[local] Instance dw : DynamicWatch (list watchState) := dynamicWatches t.

(** A watch just started for a target. *)
Definition started (target : ObjectMeta) (s : watchState) : Prop :=
  ∃ gvk options ns, Add t gvk options ns target = Ok s.

Lemma addWatches_dynamic scoped selector notify objs reg ws :
  Forall (λ obj, ∃ m, mapper_RESTMapping (GVK_GroupKind (GroupVersionKind obj))
                        [gvk_Version (GroupVersionKind obj)] = Ok m) objs →
  Forall (started notify) ws →
  ∃ ws', addWatches scoped selector notify objs reg ws
      = (ws', reg ∪ list_to_set ((λ obj, watchKey (GroupVersionKind obj) selector
                                   (filterNamespaceOf scoped obj)) <$> objs))
    ∧ Forall (started notify) ws'.
Proof using.
  revert reg ws. induction objs as [|obj objs IH]; intros reg ws Hm Hws.
  { exists ws. split; [|done]. cbn. f_equal. set_solver. }
  apply list.Forall_cons in Hm as [[m Hm] Hms]. cbn [addWatches].
  set (key := watchKey (GroupVersionKind obj) selector (filterNamespaceOf scoped obj)).
  case_decide as Hin.
  - destruct (IH reg ws Hms Hws) as (ws' & -> & ?). exists ws'. split; [|done]. cbn. f_equal. fold key. set_solver.
  - cbn [dw_Add dw dynamicWatches].
    assert (∃ s, Add t (GroupVersionKind obj) (mkListOptions selector false)
                   (filterNamespaceOf scoped obj) notify = Ok s) as [s Es].
    { unfold Add, newDynamicClient. rewrite Hm. by eexists. }
    rewrite Es. destruct (IH ({[key]} ∪ reg) (ws ++ [s]) Hms) as (ws' & -> & ?).
    { apply list.Forall_app. split; [done|]. constructor; [|done]. by eexists _, _, _. }
    exists ws'. split; [|done]. cbn. f_equal. fold key. set_solver.
Qed.

Lemma addWatches_known scoped selector notify objs reg ws :
  Forall (λ obj, watchKey (GroupVersionKind obj) selector (filterNamespaceOf scoped obj) ∈ reg) objs →
  addWatches scoped selector notify objs reg ws = (ws, reg).
Proof using.
  induction objs as [|obj objs IH]; [done|]. intros [Ho Hos]%list.Forall_cons. cbn [addWatches].
  rewrite decide_True by done. auto.
Qed.

(** Two addons of one kind with the same name share one set of watches.
    With the labels of SourceLabel (kind and name, not the namespace) and
    watches that are not scoped to a namespace, once the first has been
    applied the second opens no watch, and whatever happens on the watches
    that are open is announced for the first addon only: a change of an
    object of the second never enqueues it. *)
Theorem same_name_not_notified (s1 s2 : S) objs1 objs2 opts selector
    (ws1 : list watchState) cw1 err :
  d_GVKForObject s1 = d_GVKForObject s2 → d_GetName s1 = d_GetName s2 →
  ValidatedSelectorFromSet (SourceLabel s1) = Ok selector →
  Forall (λ obj, ∃ m, mapper_RESTMapping (GVK_GroupKind (GroupVersionKind obj))
                        [gvk_Version (GroupVersionKind obj)] = Ok m) (Items objs1) →
  Forall (λ obj, GroupVersionKind obj ∈ GroupVersionKind <$> Items objs1) (Items objs2) →
  cw_BeforeApply (mkClusterWatch false SourceLabel ∅) (mkApplyOperation s1 objs1 opts) []
    = (ws1, (cw1, err)) →
  cw_BeforeApply cw1 (mkApplyOperation s2 objs2 opts) ws1 = (ws1, (cw1, None))
  ∧ ∀ s ls s', s ∈ ws1 → run t ls s = Some s' →
      Forall (λ e, co_ObjectMeta e = mkNN (d_GetNamespace s1) (d_GetName s1)) (ws_sent s').
Proof using.
  intros Hg Hn Hsel Hmap Hkinds. unfold cw_BeforeApply. cbn.
  assert (SourceLabel s2 = SourceLabel s1) as Hl.
  { unfold SourceLabel. rewrite <- Hg. by destruct (d_GVKForObject s1) as [g|]; [rewrite Hn|]. }
  rewrite Hsel.
  destruct (addWatches_dynamic false selector (mkNN (d_GetNamespace s1) (d_GetName s1)) (Items objs1) ∅ [] Hmap)
    as (ws' & -> & Hst); [constructor|]. intros [= <- <- <-]. cbn. rewrite Hl, Hsel.
  rewrite addWatches_known.
  - split; [done|]. intros s ls s' Hin Hrun.
    destruct (proj1 (list.Forall_forall _ _) Hst s Hin) as (gvk & o & n & Hadd).
    destruct (Add_tracks t _ _ _ _ _ _ _ Hadd Hrun) as (_ & _ & Hsent).
    assert (Forall (λ e, co_ObjectMeta e = mkNN (d_GetNamespace s1) (d_GetName s1))
              (ws_sent s' ++ pending s')) as Hall; [|by apply list.Forall_app in Hall as [? _]].
    rewrite Hsent, list.Forall_fmap. by apply list.Forall_forall.
  - eapply list.Forall_impl; [exact Hkinds|]. intros obj (o & E & Ho)%list_elem_of_fmap.
    apply elem_of_union_r, elem_of_list_to_set, list_elem_of_fmap. exists o. by rewrite E.
Qed.
End shared.

Section WatchChildren_theorems.
Context {S Cfg HC Mgr RM DC : Type} (L : WatchLibs Cfg HC Mgr RM DC).

(** WatchChildren sets up a hook only with a label maker and a way to reach
    the cluster; it then starts with no watches, on the REST mapper of the
    manager where there is one, and with the client configuration given before
    that of the manager. *)
Theorem WatchChildren_setup (options : WatchChildrenOptions S Cfg HC Mgr RM DC) dw cw :
  WatchChildren L options = Ok (dw, cw) →
  registered cw = ∅ ∧ wo_LabelMaker options = Some (cw_labelMaker cw)
  ∧ scopeWatchesToNamespace cw = ScopeWatchesToNamespace options
  ∧ controller_Watch options dw = None
  ∧ ∃ cfg hc, chooseHTTPClient L options = Ok (Some hc)
    ∧ (wo_RESTConfig options = Some cfg
       ∨ wo_RESTConfig options = None ∧ (∃ mgr, wo_Manager options = Some mgr ∧ cfg = GetConfig L mgr))
    ∧ NewForConfigAndClient L cfg (Some hc) = Ok (dw_client dw)
    ∧ match wo_Manager options with
      | Some mgr => dw_restMapper dw = GetRESTMapper L mgr
      | None => NewDiscoveryRESTMapper L cfg (Some hc) = Ok (dw_restMapper dw)
      end.
Proof using.
  unfold WatchChildren. destruct (wo_LabelMaker options) as [lm|]; [|done].
  destruct (chooseHTTPClient L options) as [ohc|] eqn:Hhc; [|done].
  assert (is_Some ohc ∨ wo_RESTConfig options = None ∧ wo_Manager options = None) as Hsome.
  { unfold chooseHTTPClient in Hhc.
    destruct (wo_HTTPClient options), (wo_RESTConfig options) as [c|], (wo_Manager options);
      simplify_eq/=; try (destruct (HTTPClientFor L c); simplify_eq/=); eauto. }
  destruct (wo_RESTConfig options) as [cfg|] eqn:Hcfg, (wo_Manager options) as [mgr|] eqn:Hmgr;
    destruct Hsome as [[hc ->]|[? ?]]; try done.
  all: intros Hok; repeat (apply bind_Ok in Hok as (? & ? & Hok)); repeat case_match; simplify_eq/=.
  all: repeat (split; [done|]); eexists _, hc; eauto 10.
Qed.
End WatchChildren_theorems.

(** ** Examples *)

Definition example_start : watchState :=
  match @Add example_mapper DefaultTimeouts (mkGVK "apps" "v1" "Deployment")
          (mkListOptions "app=guestbook" false) "" (mkNN "prod" "guestbook") with
  | Ok s => s
  | Err _ => beginWatch DefaultTimeouts (mkDynamicKindWatch (mkGVK "" "" "") ""
               (mkListOptions "" false) (mkResourceInterface (mkGVR "" "" "") None) ∅) (mkNN "" "") 0 true []
  end.

Definition example_update (ty : EventType) (rv : string) : WatchEvent :=
  mkWatchEvent ty (UnstructuredObject (mkNN "prod" "web") rv).

(** An object appears, the connection drops, the new watch reports it again at
    the same version, then changed. *)
Definition example_labels : list label :=
  [WatchReturned None; Received (example_update Added "1"); Delivered; Tick; Closed; Woken;
   WatchReturned None; Received (example_update Added "1"); Received (example_update Modified "2")].

Definition example_end (ls : list label) : watchState :=
  default example_start (run DefaultTimeouts ls example_start).

Lemma watch_announces_witness :
  ws_sent (example_end example_labels) ++ pending (example_end example_labels)
  = [mkClientObject (UnstructuredObject (mkNN "prod" "web") "1") (mkNN "prod" "guestbook");
     mkClientObject (UnstructuredObject (mkNN "prod" "web") "2") (mkNN "prod" "guestbook")].
Proof.
  refine (eq_trans (proj1 (@watch_announces example_mapper DefaultTimeouts
    (mkGVK "apps" "v1" "Deployment") (mkListOptions "app=guestbook" false) "" (mkNN "prod" "guestbook")
    example_start example_labels (example_end example_labels) _ _)) _); vm_compute; reflexivity.
Defined.

Lemma activity_check_witness : cancelled (example_end [Tick]) = true.
Proof.
  refine (proj1 (@activity_check example_mapper DefaultTimeouts
    (mkGVK "apps" "v1" "Deployment") (mkListOptions "app=guestbook" false) "" (mkNN "prod" "guestbook")
    example_start [] (example_end [Tick]) _ _)); vm_compute; reflexivity.
Defined.

Lemma Add_returns_once_witness : watchStarted (example_end example_labels) = 0%Z.
Proof.
  refine (@Add_returns_once example_mapper DefaultTimeouts
    (mkGVK "apps" "v1" "Deployment") (mkListOptions "app=guestbook" false) "" (mkNN "prod" "guestbook")
    example_start example_labels (example_end example_labels) _ _); vm_compute; reflexivity.
Defined.

(** The server is silent while the last event waits for the controller. *)
Lemma silent_server_rewatch_witness :
  ∃ s, run_unaided DefaultTimeouts [Tick; Delivered; Tick; Closed; Woken] (example_end example_labels)
       = Some s ∧ ws_phase s = Calling ∧ cancelled s = false ∧ lastRV (ws_watch s) !! mkNN "prod" "web" = Some "2".
Proof.
  destruct (run_unaided DefaultTimeouts [Tick; Delivered; Tick; Closed] (example_end example_labels))
    as [s'|] eqn:E; [|exfalso; vm_compute in E; discriminate E].
  destruct (@silent_server_rewatch example_mapper DefaultTimeouts
    (mkGVK "apps" "v1" "Deployment") (mkListOptions "app=guestbook" false) "" (mkNN "prod" "guestbook")
    example_start example_labels (example_end example_labels) [Tick; Delivered; Tick; Closed] s')
    as (_ & _ & Hw); [vm_compute; reflexivity|vm_compute; reflexivity|vm_compute; discriminate| |exact E|].
  { intros Hin. repeat (apply elem_of_cons in Hin as [Hin|Hin]; [discriminate Hin|]). by apply elem_of_nil in Hin. }
  eexists. split; [apply Hw|].
  - vm_compute in E. injection E as <-. reflexivity.
  - split; [reflexivity|]. split; [reflexivity|]. vm_compute in E. injection E as <-. reflexivity.
Defined.

(** Addons known by their namespace only. *)
Definition example_named : DeclarativeObject string := {|
  d_GetName _ := "guestbook";
  d_GetNamespace ns := ns;
  d_GetUID _ := "uid";
  d_GetGeneration _ := 1%Z;
  d_GVKForObject _ := Ok (mkGVK "example.org" "v1" "Guestbook")
|}.

Definition example_selectors : LabelSelectors :=
  {| ValidatedSelectorFromSet m :=
       Ok (strings.Join ((λ kv, kv.1 +:+ "=" +:+ kv.2) <$> map_to_list m) ",") |}.

Definition example_deployment (ns : string) : Object :=
  @NewObject example_unstructured
    {["apiVersion" := JStr "apps/v1"; "kind" := JStr "Deployment";
      "metadata" := JObj {["name" := JStr "web"; "namespace" := JStr ns]}]}.

Definition example_op (ns : string) : ApplyOperation string :=
  mkApplyOperation ns (mkObjects [example_deployment ns] [] "")
    (mkApplierOptions [] ns (mkMapping (mkGVR "" "" "") (mkGVK "" "" "") RESTScopeRoot) false [] true "").

Definition example_adds : DynamicWatch () := {| dw_Add _ _ _ _ w := (w, None) |}.

Definition example_cw (scoped : bool) : clusterWatch string :=
  mkClusterWatch scoped (@SourceLabel string example_named) ∅.

Definition example_applied : (() * list addCall) * clusterWatch string :=
  @applies string () example_named example_unstructured example_adds example_selectors
    [example_op "prod"] ((), []) (example_cw true).
Definition example_announced : (() * list addCall) * (clusterWatch string * option error) :=
  @cw_BeforeApply string _ example_named example_unstructured (@logged () example_adds) example_selectors
    (example_applied.2) (example_op "staging") (example_applied.1).

Lemma example_op_text ns : @op_text string example_unstructured example_selectors (example_cw true) (example_op ns).
Proof.
  intros selector E. vm_compute in E. injection E as <-. constructor; [|constructor].
  vm_compute. reflexivity.
Qed.

Lemma children_watched_witness :
  NoDup (accepted (example_announced.1.2)) ∧ length (accepted (example_announced.1.2)) = 2%nat.
Proof.
  destruct (@children_watched string () example_named example_unstructured example_adds example_selectors
    [example_op "prod"] (example_op "staging") (example_cw true) () (example_applied.1) (example_applied.2)
    (example_announced.1) (example_announced.2.1) (example_announced.2.2)
    "example.org/guestbook=guestbook") as [Hnd _].
  - reflexivity.
  - constructor; [|constructor; [|constructor]]; apply example_op_text.
  - vm_compute. reflexivity.
  - vm_compute. reflexivity.
  - vm_compute. reflexivity.
  - split; [exact Hnd|]. vm_compute. reflexivity.
Defined.

Definition example_first : list watchState * (clusterWatch string * option error) :=
  @cw_BeforeApply string _ example_named example_unstructured (@dynamicWatches example_mapper DefaultTimeouts)
    example_selectors (example_cw false) (example_op "prod") [].

Lemma same_name_not_notified_witness :
  @cw_BeforeApply string _ example_named example_unstructured (@dynamicWatches example_mapper DefaultTimeouts)
    example_selectors (example_first.2.1) (example_op "staging") (example_first.1)
  = (example_first.1, (example_first.2.1, None)).
Proof.
  refine (proj1 (@same_name_not_notified string example_named example_unstructured example_selectors
    example_mapper DefaultTimeouts "prod" "staging" (op_Objects (example_op "prod"))
    (op_Objects (example_op "staging")) (op_ApplierOptions (example_op "staging"))
    "example.org/guestbook=guestbook" (example_first.1) (example_first.2.1) (example_first.2.2)
    eq_refl eq_refl _ _ _ _)).
  - vm_compute. reflexivity.
  - constructor; [|constructor]. eexists. vm_compute. reflexivity.
  - constructor; [|constructor]. apply elem_of_cons. left. vm_compute. reflexivity.
  - vm_compute. reflexivity.
Defined.

Lemma WatchChildren_setup_witness :
  registered (mkClusterWatch true (@SourceLabel string example_named) ∅) = ∅.
Proof.
  exact (proj1 (@WatchChildren_setup string () () () () ()
    (mkWatchLibs (λ _, Ok ()) (λ _, ()) (λ _, ()) (λ _, ()) (λ _ _, Ok ()) (λ _ _, Ok ()))
    (mkWatchChildrenOptions None (Some ()) None (Some (@SourceLabel string example_named))
       (λ _, None) true) (mkDynamicWatch () ()) _ eq_refl)).
Defined.

End watch.
