(* ===== verification/Appliers.v ===== *)
(** * Appliers (pkg/patterns/declarative/pkg/applier)

    The three implementations of the [Applier] interface the reconciler hands
    its objects to: [ApplySetApplier] (applylib.go) on the ApplySet library,
    [DirectApplier] (direct.go) on the packages of kubectl, [ExecKubectl]
    (exec.go) on the kubectl binary. What kubectl, the file system and a
    process do is a class of operations on a world. *)

From S2P Require Import Prelude Kube KubectlApplySet ApplySet Manifest Transforms Addon Reconciler.
From stdpp Require Import options.
Import manifest transforms reconciler.

Module appliers.

(** How a call of Apply ends: with the errors of the error it returns, none for
    nil, or with a panic. *)
Inductive verdict :=
  | Done (errs : list error)
  | Crashed.

Definition failed (e : error) : verdict := Done [e].

(** ** applylib.go *)

(** The loop over ExtraArgs, from the flags the options came with. *)
Fixpoint parseExtraArgs (args : list string) (force prune : bool) : res (bool * bool) :=
  match args with
  | [] => Ok (force, prune)
  | arg :: args =>
      if decide (arg = "--force") then parseExtraArgs args true prune
      else if decide (arg = "--prune") then parseExtraArgs args force true
      else if decide (arg = "--selector") then
        match args with
        | [] => Err (Errorf "invalid `--selector` in args")
        | value :: args =>
            if strings.HasPrefix value "-" then Err (Errorf "invalid `--selector` in args")
            else parseExtraArgs args force prune
        end
      else Err (Errorf "extraArg is not supported by the ApplySetApplier")
  end.

Record ApplySetApplier := mkApplySetApplier {
  aa_Tooling : string;
  aa_patchOptions : PatchOptions;
  aa_deleteOptions : DeleteOptions
}.

Definition NewApplySetApplier (patchOptions : PatchOptions) (deleteOptions : DeleteOptions)
    (tooling : string) : ApplySetApplier :=
  mkApplySetApplier tooling patchOptions deleteOptions.

(** NewParentRef, from the object the reconciler handles. *)
Definition applier_NewParentRef `{RESTMapper} (object : RuntimeObject) (gvk : Kube.GroupVersionKind)
    (name namespace : string) : res applyset.ParentRef :=
  restMapping ← mapper_RESTMapping (GVK_GroupKind gvk) [gvk_Version gvk];
  Ok (applyset.NewParentRef object name namespace restMapping).

Section applyset_applier.
Context `{RangeOrder, SchemaText, RESTMapper, Scheduler, Unstructured} {W : Type} `{Server W}.

(** [json.Marshal], kstatus, and what an object has besides the metadata the
    ApplySet reads. *)
Context (Marshal : applyset.ApplyableObject → res string)
        (Compute : Kube.Object → option (applyset.Status * string) * option error)
        (uid payload : jmap → string).

(** obj.UnstructuredObject(), as the ApplySet sees it. *)
Definition applyable (o : Object) : applyset.ApplyableObject :=
  let m := obj_object o in
  applyset.Unstructured (mkObject (u_GVK m) (u_GetNamespace m) (u_GetName m) (uid m)
    (u_GetLabels m) (u_GetAnnotations m) (payload m)).

(** Populate the namespace on the namespace-scoped objects; the error of
    SetNamespace is dropped. The objects are changed in place, up to the one
    that fails. *)
Fixpoint populateNamespaces (ns : string) (objs : list Object) : list Object * option error :=
  match objs with
  | [] => ([], None)
  | obj :: objs =>
      let gvk := GroupVersionKind obj in
      match mapper_RESTMapping (GVK_GroupKind gvk) [gvk_Version gvk] with
      | Err e => (obj :: objs, Some (WrapW "error getting rest mapping" e))
      | Ok restMapping =>
          match rm_Scope restMapping with
          | RESTScopeNamespace =>
              let '(rest, err) := populateNamespaces ns objs in
              ((SetNamespace ns obj).1 :: rest, err)
          | RESTScopeRoot =>
              let '(rest, err) := populateNamespaces ns objs in (obj :: rest, err)
          | RESTScopeOther _ => (obj :: objs, Some (Errorf "unknown rest mapping scope"))
          end
      end
  end.

(** The options of the ApplySet. *)
Definition applysetOptions (a : ApplySetApplier) (parent : applyset.ParentRef) (force prune : bool) :
    applyset.Options :=
  let tooling :=
    if decide (aa_Tooling a = "") then gvk_Kind (applyset.ParentRef_GroupVersionKind parent)
    else aa_Tooling a in
  applyset.mkOptions (mkPatchOptions (po_FieldManager (aa_patchOptions a)) (Some force))
    (aa_deleteOptions a) prune parent tooling None.

(** Apply. [optPrune] is opt.Prune, [noClient] the error of building a dynamic
    client where the options bring none. Answers the objects and the parent as
    it leaves them. *)
Definition ApplySetApplier_Apply (a : ApplySetApplier) (parent : applyset.ParentRef)
    (optPrune : bool) (noClient : option error) (opt : ApplierOptions) :
    M W (list Object * applyset.ParentRef * verdict) :=
  match parseExtraArgs (ao_ExtraArgs opt) (ao_Force opt) optPrune with
  | Err e => mret (ao_Objects opt, parent, failed e)
  | Ok (force, prune) =>
  match noClient with
  | Some e => mret (ao_Objects opt, parent, failed (WrapW "error building dynamic client" e))
  | None =>
      let s := applyset.New Compute (applysetOptions a parent force prune) in
      let '(objs, err) :=
        if decide (ao_Namespace opt ≠ "") then populateNamespaces (ao_Namespace opt) (ao_Objects opt)
        else (ao_Objects opt, None) in
      match err with
      | Some e => mret (objs, parent, failed e)
      | None =>
          let s := applyset.SetDesiredObjects s (applyable <$> objs) in
          r ← applyset.ApplyOnce Marshal s;
          let parent := applyset.parent r.1 in
          match r.2 with
          | applyset.Panicked => mret (objs, parent, Crashed)
          | applyset.Returned _ (Some e) =>
              mret (objs, parent, failed (WrapW "error applying objects" e))
          | applyset.Returned None None => mret (objs, parent, Crashed)
          | applyset.Returned (Some results) None =>
              if applyset.AllApplied results then mret (objs, parent, Done [])
              else mret (objs, parent, failed (Errorf "not all objects applied"))
          end
      end
  end end.
End applyset_applier.

(** ** direct.go *)

(** The [apply.ApplyOptions] of kubectl, the fields that depend on the
    options. *)
Record KubectlOptions (Info PR : Type) := mkKubectlOptions {
  ko_Prune : bool;
  ko_Selector : string;
  ko_PruneResources : list PR;
  ko_ServerSideApply : bool;
  ko_ForceConflicts : bool;
  ko_Namespace : string;
  ko_Objects : list Info;
  ko_CascadingStrategy : string
}.
Arguments mkKubectlOptions {Info PR}.
Arguments ko_Prune {Info PR} _.
Arguments ko_Selector {Info PR} _.
Arguments ko_PruneResources {Info PR} _.
Arguments ko_ServerSideApply {Info PR} _.
Arguments ko_ForceConflicts {Info PR} _.
Arguments ko_Namespace {Info PR} _.
Arguments ko_Objects {Info PR} _.
Arguments ko_CascadingStrategy {Info PR} _.

(** The packages of kubectl behind [directApplierSite]. *)
Class KubectlSite (W Info PR : Type) := {
  ks_DynamicClient : option error;
  ks_Infos : string → list Info * option error;
  ks_SetNamespace : string → Info → Info * option error;
  ks_ToRESTMapper : option error;
  ks_ParseResources : list string → res (list PR);
  ks_Run : KubectlOptions Info PR → W → W * option error
}.

(** What the loop over ExtraArgs sets. *)
Record directFlags := mkDirectFlags {
  df_force : bool;
  df_prune : bool;
  df_selector : string;
  df_whitelist : list string
}.

(** A value is read where its flag is, and then looked at again as an argument
    of its own; [None] stands for the index out of range. *)
Fixpoint directArgs (args : list string) (f : directFlags) : option directFlags :=
  match args with
  | [] => Some f
  | arg :: args =>
      if decide (arg = "--force") then
        directArgs args (mkDirectFlags true (df_prune f) (df_selector f) (df_whitelist f))
      else if decide (arg = "--prune") then
        directArgs args (mkDirectFlags (df_force f) true (df_selector f) (df_whitelist f))
      else if decide (arg = "--selector") then
        match args with
        | [] => None
        | value :: _ =>
            directArgs args (mkDirectFlags (df_force f) (df_prune f) value (df_whitelist f))
        end
      else if decide (arg = "--prune-whitelist") then
        match args with
        | [] => None
        | value :: _ =>
            directArgs args (mkDirectFlags (df_force f) (df_prune f) (df_selector f)
                               (df_whitelist f ++ [value]))
        end
      else directArgs args f
  end.

Section direct.
Context `{Unstructured} {W Info PR : Type} `{KubectlSite W Info PR}.

Fixpoint visitNamespaces (ns : string) (infos : list Info) : list Info * option error :=
  match infos with
  | [] => ([], None)
  | info :: infos =>
      match ks_SetNamespace ns info with
      | (info, Some e) => (info :: infos, Some e)
      | (info, None) => let '(rest, err) := visitNamespaces ns infos in (info :: rest, err)
      end
  end.

(** The resources to prune that were named. *)
Definition pruneResources (whitelist : list string) : res (list PR) :=
  match whitelist with
  | [] => Ok []
  | _ => match ks_ToRESTMapper with
         | Some e => Err e
         | None => ks_ParseResources whitelist
         end
  end.

(** The end of Apply: from the arguments on. *)
Definition directRun (serverSideApplyPreferred : bool) (opt : ApplierOptions) (infos : list Info)
    (errs : list error) (w : W) : W * verdict :=
  match directArgs (ao_ExtraArgs opt) (mkDirectFlags (ao_Force opt) false "" []) with
  | None => (w, Crashed)
  | Some flags =>
      match pruneResources (df_whitelist flags) with
      | Err e => (w, failed e)
      | Ok r =>
          let '(w, err) := ks_Run (mkKubectlOptions (df_prune flags) (df_selector flags) r
              serverSideApplyPreferred (df_force flags) (ao_Namespace opt) infos
              (ao_CascadingStrategy opt)) w in
          match err with
          | Some e => (w, Done (errs ++ [WrapW "error from apply yamls" e]))
          | None => (w, Done errs)
          end
      end
  end.

(** DirectApplier.Apply; [hasClient] that opt.DynamicClient is set. *)
Definition DirectApplier_Apply (serverSideApplyPreferred hasClient : bool) (opt : ApplierOptions)
    (w : W) : W * verdict :=
  match JSONManifest (mkObjects (ao_Objects opt) [] "") with
  | Err e => (w, failed (WrapW "error creating JSON manifest" e))
  | Ok manifestStr =>
  match (if hasClient then None else ks_DynamicClient) with
  | Some e => (w, failed e)
  | None =>
  if ao_Validate opt then (w, failed (Errorf "client-side validation is no longer supported"))
  else
    let '(infos, err) := ks_Infos manifestStr in
    match err, infos with
    | Some e, [] => (w, failed e)
    | _, _ =>
        let errs := match err with Some e => [e] | None => [] end in
        let '(infos, err) :=
          if decide (ao_Namespace opt ≠ "") then visitNamespaces (ao_Namespace opt) infos
          else (infos, None) in
        match err with
        | Some e => (w, Done (errs ++ [WrapW "error from SetNamespace" e]))
        | None => directRun serverSideApplyPreferred opt infos errs w
        end
    end
  end end.
End direct.

(** ** exec.go *)

Record RESTConfig := mkRESTConfig {
  rc_Host : string;
  rc_CertData : string;
  rc_KeyData : string;
  rc_CAData : string;
  rc_BearerToken : string
}.

Record KubeCluster := mkKubeCluster { kc_Server : string; kc_CertificateAuthorityData : string }.
Record KubeAuthInfo := mkKubeAuthInfo {
  ka_ClientCertificateData : string; ka_ClientKeyData : string; ka_Token : string }.
Record KubeContext := mkKubeContext { kx_Cluster : string; kx_AuthInfo : string }.
Record KubeConfig := mkKubeConfig {
  kcfg_CurrentContext : string;
  kcfg_Contexts : gmap string KubeContext;
  kcfg_AuthInfos : gmap string KubeAuthInfo;
  kcfg_Clusters : gmap string KubeCluster
}.

Definition kubeconfigOf (c : RESTConfig) : KubeConfig :=
  mkKubeConfig "target"
    {["target" := mkKubeContext "target" "target"]}
    {["target" := mkKubeAuthInfo (rc_CertData c) (rc_KeyData c) (rc_BearerToken c)]}
    {["target" := mkKubeCluster (rc_Host c) (rc_CAData c)]}.

(** [os.CreateTemp], the file, [os.Remove], [cmd.Run()], and
    [clientcmd.Write]. *)
Class ExecSite (W : Type) := {
  es_WriteConfig : KubeConfig → res string;
  es_CreateTemp : W → W * res string;
  es_Write : string → string → W → W * option error;
  es_Close : string → W → W * option error;
  es_Remove : string → W → W * option error;
  es_Run : list string → string → W → W * option error
}.

(** What Apply did, in order. *)
Inductive execAction :=
  | ATemp (r : res string)
  | AWrite (name content : string)
  | AClose (name : string)
  | ARemove (name : string)
  | ARun (args : list string) (stdin : string) (err : option error).

Section exec.
Context `{Unstructured} {W : Type} `{ExecSite W}.

Definition buildKubeconfig (restConfig : RESTConfig) : res string :=
  wrapW "error building kubeconfig" (es_WriteConfig (kubeconfigOf restConfig)).

Definition FormatBool (b : bool) : string := if b then "true" else "false".

(** The arguments of kubectl; [kubeconfig] is the name of the temp file. *)
Definition execArgs (opt : ApplierOptions) (kubeconfig : option string) : list string :=
  ["apply"]
  ++ (if decide (ao_Namespace opt ≠ "") then ["-n"; ao_Namespace opt] else [])
  ++ ["--validate=" +:+ FormatBool (ao_Validate opt)]
  ++ match kubeconfig with Some f => ["--kubeconfig"; f] | None => [] end
  ++ (if ao_Force opt then ["--force"] else [])
  ++ ao_ExtraArgs opt
  ++ ["-f"; "-"].

Definition runKubectl (opt : ApplierOptions) (kubeconfig : option string) (stdin : string)
    (log : list execAction) (w : W) : W * list execAction * option error :=
  let args := execArgs opt kubeconfig in
  let '(w, err) := es_Run args stdin w in
  (w, log ++ [ARun args stdin err],
   match err with Some e => Some (WrapV "error from running kubectl apply" e) | None => None end).

(** The part of Apply between the creation of the temp file and its deferred
    removal. *)
Definition withKubeconfig (opt : ApplierOptions) (kubeconfig name stdin : string)
    (log : list execAction) (w : W) : W * list execAction * option error :=
  let '(w, err) := es_Write name kubeconfig w in
  let log := log ++ [AWrite name kubeconfig] in
  match err with
  | Some e => (w, log, Some (WrapW "error writing kubeconfig" e))
  | None =>
      let '(w, err) := es_Close name w in
      let log := log ++ [AClose name] in
      match err with
      | Some e => (w, log, Some (WrapW "error writing kubeconfig" e))
      | None => runKubectl opt (Some name) stdin log w
      end
  end.

(** ExecKubectl.Apply; [config] is opt.RESTConfig. An error of the removal is
    only logged. *)
Definition ExecKubectl_Apply (config : option RESTConfig) (opt : ApplierOptions) (w : W) :
    W * list execAction * option error :=
  match JSONManifest (mkObjects (ao_Objects opt) [] "") with
  | Err e => (w, [], Some (WrapW "error creating JSON manifest" e))
  | Ok manifestStr =>
      match config with
      | None => runKubectl opt None manifestStr [] w
      | Some restConfig =>
          match buildKubeconfig restConfig with
          | Err e => (w, [], Some (WrapW "error building kubeconfig" e))
          | Ok kubeconfig =>
              let '(w, f) := es_CreateTemp w in
              match f with
              | Err e => (w, [ATemp f], Some (WrapW "error creating temp file" e))
              | Ok name =>
                  let '(w, log, err) := withKubeconfig opt kubeconfig name manifestStr [ATemp f] w in
                  let '(w, _) := es_Remove name w in
                  (w, log ++ [ARemove name], err)
              end
          end
      end
  end.
End exec.

(** ** The arguments *)

(** The argument lists the ApplySetApplier understands, with the flags they
    set. *)
Inductive flagList : list string → bool → bool → Prop :=
  | fl_nil : flagList [] false false
  | fl_force args f p : flagList args f p → flagList ("--force" :: args) true p
  | fl_prune args f p : flagList args f p → flagList ("--prune" :: args) f true
  | fl_selector value args f p :
      strings.HasPrefix value "-" = false →
      flagList args f p → flagList ("--selector" :: value :: args) f p.

Lemma parseExtraArgs_sound args force prune f' p' :
  parseExtraArgs args force prune = Ok (f', p') →
  ∃ f p, flagList args f p ∧ f' = force || f ∧ p' = prune || p.
Proof.
  remember (length args) as n eqn:Hn. revert args force prune Hn.
  induction (lt_wf n) as [n _ IH]. intros [|arg args] force prune ->; cbn [parseExtraArgs].
  { intros [= <- <-]. exists false, false. rewrite !orb_false_r. repeat constructor. }
  repeat case_decide; try done; subst; intros Hp.
  - destruct (IH (length args) ltac:(cbn; lia) args _ _ eq_refl Hp) as (f & p & ? & -> & ->).
    exists true, p. split; [by econstructor|]. by rewrite orb_true_r.
  - destruct (IH (length args) ltac:(cbn; lia) args _ _ eq_refl Hp) as (f & p & ? & -> & ->).
    exists f, true. split; [by econstructor|]. by rewrite orb_true_r.
  - destruct args as [|v args]; [done|]. destruct (strings.HasPrefix v "-") eqn:Hv; [done|].
    destruct (IH (length args) ltac:(cbn; lia) args _ _ eq_refl Hp) as (f & p & ? & -> & ->).
    exists f, p. split; [by constructor|done].
Qed.

Lemma parseExtraArgs_complete args f p force prune :
  flagList args f p → parseExtraArgs args force prune = Ok (force || f, prune || p).
Proof.
  intros Hf. revert force prune. induction Hf as [|? ? ? ? IH|? ? ? ? IH|? ? ? ? Hv ? IH]; intros force prune; cbn [parseExtraArgs].
  - by rewrite !orb_false_r.
  - rewrite decide_True, IH by done. by rewrite orb_true_r.
  - rewrite decide_False, decide_True, IH by done. by rewrite orb_true_r.
  - rewrite decide_False, decide_False, decide_True by done. by rewrite Hv.
Qed.

(** The ApplySetApplier accepts exactly the argument lists made of
    [--force], [--prune] and [--selector] with a value that is not a flag; the
    flags are switched on where they occur or the options had them on already,
    and the selector is ignored. *)
Theorem parseExtraArgs_spec args force prune f' p' :
  parseExtraArgs args force prune = Ok (f', p') ↔
  ∃ f p, flagList args f p ∧ f' = force || f ∧ p' = prune || p.
Proof.
  split; [apply parseExtraArgs_sound|]. intros (f & p & Hf & -> & ->). by apply parseExtraArgs_complete.
Qed.

(** A value that no loop takes for a flag. *)
Definition plain_value (v : string) : bool := negb (strings.HasPrefix v "-").

Lemma plain_value_flags v :
  plain_value v = true →
  v ≠ "--force" ∧ v ≠ "--prune" ∧ v ≠ "--selector" ∧ v ≠ "--prune-whitelist".
Proof. intros Hv. by split_and!; intros ->. Qed.

Lemma directArgs_plain v args f :
  plain_value v = true → directArgs (v :: args) f = directArgs args f.
Proof.
  intros (? & ? & ? & ?)%plain_value_flags. cbn [directArgs]. by rewrite !decide_False.
Qed.

Lemma directArgs_whitelist gvks f :
  Forall (λ g, plain_value g = true) gvks →
  directArgs (gvks ≫= (λ g, ["--prune-whitelist"; g])) f
  = Some (mkDirectFlags (df_force f) (df_prune f) (df_selector f) (df_whitelist f ++ gvks)).
Proof.
  revert f. induction gvks as [|g gvks IH]; intros f.
  { intros _. cbn. rewrite app_nil_r. by destruct f. }
  intros [Hg Hgs]%list.Forall_cons. rewrite bind_cons.
  cbn [app directArgs]. rewrite decide_False, decide_False, decide_False, decide_True by done.
  change (directArgs (g :: gvks ≫= λ g, ["--prune-whitelist"; g])
    (mkDirectFlags (df_force f) (df_prune f) (df_selector f) (df_whitelist f ++ [g])) = 
    Some (mkDirectFlags (df_force f) (df_prune f) (df_selector f) (df_whitelist f ++ g :: gvks))).
  rewrite directArgs_plain, IH by done. cbn. by rewrite <- (assoc (++)).
Qed.

Section reconciler_args.
Context {S W : Type} `{Environment S W, RangeOrder, DeclarativeObject S, Unstructured}.
Implicit Types p : reconcilerParams S W.

(** The selector the reconciler prunes with. *)
Definition pruneSelector p (instance : S) : string :=
  match labelMaker p with
  | Some f => strings.Join ((λ kv, kv.1 +:+ "=" +:+ kv.2) <$> range (f instance)) ","
  | None => ""
  end.

(** The kinds it restricts pruning to. *)
Definition pruneKinds (instance : S) : list string := default [] (env_PruneWhiteList instance).

Definition prunes p (instance : S) : bool :=
  prune p && match env_Pruner instance with Some b => b | None => true end.

Lemma pruneArgs_eq p instance :
  pruneArgs p instance =
  if prunes p instance then
    ["--prune"; "--selector"; pruneSelector p instance]
    ++ (pruneKinds instance ≫= (λ g, ["--prune-whitelist"; g]))
  else [].
Proof using.
  unfold pruneArgs, prunes, pruneSelector, pruneKinds. destruct (prune p && _); [|done].
  by destruct (labelMaker p), (env_PruneWhiteList instance).
Qed.

(** What the arguments of the reconciler mean to the appliers. Unless a
    label or a kind looks like a flag, the DirectApplier reads back from them
    what the reconciler wrote: whether to prune, the selector and the kinds.
    The ApplySetApplier prunes in the same cases, and refuses to apply at all
    when the addon restricts pruning to some kinds. *)
Theorem reconciler_args p instance force :
  plain_value (pruneSelector p instance) = true →
  Forall (λ g, plain_value g = true) (pruneKinds instance) →
  directArgs (pruneArgs p instance) (mkDirectFlags force false "" [])
    = Some (if prunes p instance
            then mkDirectFlags force true (pruneSelector p instance) (pruneKinds instance)
            else mkDirectFlags force false "" [])
  ∧ (parseExtraArgs (pruneArgs p instance) force false = Ok (force, prunes p instance)
     ↔ prunes p instance = false ∨ pruneKinds instance = [])
  ∧ (prunes p instance = true → pruneKinds instance ≠ [] →
     ∃ e, parseExtraArgs (pruneArgs p instance) force false = Err e).
Proof using.
  intros Hsel Hkinds. rewrite pruneArgs_eq. destruct (prunes p instance);
    [|cbn; split; [done|]; split; [tauto|done]].
  assert (strings.HasPrefix (pruneSelector p instance) "-" = false) as Hns by (by apply negb_true_iff).
  split; [|split].
  - cbn [app directArgs]. rewrite decide_False, decide_True by done. cbn [directArgs].
    rewrite decide_False, decide_False, decide_True by done.
    change (directArgs (pruneSelector p instance :: pruneKinds instance ≫= λ g, ["--prune-whitelist"; g])
      (mkDirectFlags force true (pruneSelector p instance) []) = 
      Some (mkDirectFlags force true (pruneSelector p instance) (pruneKinds instance))).
    by rewrite directArgs_plain, directArgs_whitelist.
  - cbn. rewrite Hns. destruct (pruneKinds instance); cbn; naive_solver.
  - intros _ Hne. cbn. rewrite Hns. destruct (pruneKinds instance); [done|]. cbn. eauto.
Qed.
End reconciler_args.

(** ** The ApplySetApplier *)

Section applyset_applier_theorems.
Context `{RangeOrder, SchemaText, RESTMapper, Scheduler, U : Unstructured} {W : Type} `{Server W}.
Context (Marshal : applyset.ApplyableObject → res string)
        (Compute : Kube.Object → option (applyset.Status * string) * option error)
        (uid payload : jmap → string).

(** What an object's namespace becomes. *)
Definition placed (ns : string) (o o' : Object) : Prop :=
  GroupVersionKind o' = GroupVersionKind o ∧ u_GetName (obj_object o') = u_GetName (obj_object o)
  ∧ ∃ rm, mapper_RESTMapping (GVK_GroupKind (GroupVersionKind o)) [gvk_Version (GroupVersionKind o)] = Ok rm
    ∧ (rm_Scope rm = RESTScopeNamespace ∧ u_GetNamespace (obj_object o') = ns
       ∨ rm_Scope rm = RESTScopeRoot ∧ o' = o).

Lemma populateNamespaces_spec ns objs objs' :
  unstructured_ok U → Forall has_metadata objs →
  populateNamespaces ns objs = (objs', None) → Forall2 (placed ns) objs objs'.
Proof using.
  intros HU. revert objs'. induction objs as [|o objs IH]; intros objs'; [by intros _ [= <-]|].
  intros [Ho Hos]%list.Forall_cons. cbn [populateNamespaces].
  destruct (mapper_RESTMapping _ _) as [rm|e] eqn:Hrm; [|done].
  destruct (rm_Scope rm) eqn:Hsc; [| |done]; destruct (populateNamespaces ns objs) as [rest err];
    intros [= <- ->]; constructor; eauto.
  - destruct (u_ok_set U HU (obj_object o) (JStr ns) "metadata" "namespace") as [m' E]; [by right|].
    destruct (u_ok_namespace U HU _ _ _ E) as (Hns & Hname & Hgvk).
    unfold placed, SetNamespace, SetNestedField, GroupVersionKind. rewrite E. cbn. split; [done|]. split; [done|].
    exists rm. auto.
  - split; [done|]. split; [done|]. exists rm. auto.
Qed.

(** The patch of a placed object. *)
Lemma patches_of_objects ns opts force labels (ts : list applyset.objectTracker) objs objs' evs :
  po_Force opts = Some force → applyset.desired <$> ts = applyable uid payload <$> objs' →
  Forall2 (placed ns) objs objs' → Forall2 (applyset.applied_patch Marshal opts labels) ts evs →
  Forall2 (λ obj ev, ∃ rm body o applied,
    mapper_RESTMapping (GVK_GroupKind (GroupVersionKind obj)) [gvk_Version (GroupVersionKind obj)] = Ok rm
    ∧ ev = EvPatch (rm_Resource rm)
             (if decide (rm_Scope rm = RESTScopeNamespace) then ns else u_GetNamespace (obj_object obj))
             (u_GetName (obj_object obj)) body o (Ok applied)
    ∧ po_Force o = Some force) objs evs.
Proof using.
  intros Hforce Hdes Hpl. revert ts evs Hdes.
  induction Hpl as [|obj obj' objs objs' (Hg & Hn & rm & Hrm & Hsc) _ IH]; intros [|t ts] evs Hdes Hev;
    cbn in Hdes; try done; inversion Hev as [|? ev ? evs' Hp Hevs]; subst; constructor.
  - injection Hdes as Hd _. destruct Hp as ((u & rm' & body & r & Hd' & Hrm' & _ & ->) & [x Hx]).
    rewrite Hd in Hd'. injection Hd' as <-. cbn in Hrm', Hx |- *. unfold GroupVersionKind in *.
    rewrite Hg, Hrm in Hrm'. injection Hrm' as <-. destruct r as [applied|]; [|done].
    exists rm, body, opts, applied. split; [done|]. split; [|done]. rewrite Hn. f_equal.
    destruct Hsc as [[-> Hns]|[-> ->]]; [by rewrite decide_True|by rewrite decide_False].
  - apply (IH ts); [by injection Hdes|done].
Qed.

(** A run of the applier that ends well is a run of ApplyOnce that does. *)
Lemma ApplySetApplier_runs a parent optPrune noClient opt (env : Env W) objs parent' env' :
  ao_Namespace opt ≠ "" →
  ApplySetApplier_Apply Marshal Compute uid payload a parent optPrune noClient opt env
    = ((objs, parent', Done []), env') →
  ∃ force prune results set',
    let set := applyset.SetDesiredObjects
                 (applyset.New Compute (applysetOptions a parent force prune))
                 (applyable uid payload <$> objs) in
    parseExtraArgs (ao_ExtraArgs opt) (ao_Force opt) optPrune = Ok (force, prune)
    ∧ populateNamespaces (ao_Namespace opt) (ao_Objects opt) = (objs, None)
    ∧ applyset.ApplyOnce Marshal set env
        = ((set', applyset.Returned (Some results) None), env')
    ∧ applyset.AllApplied results = true.
Proof using.
  intros Hns. unfold ApplySetApplier_Apply.
  destruct (parseExtraArgs _ _ _) as [[force prune]|]; [|done].
  destruct noClient; [done|]. rewrite decide_True by done.
  destruct (populateNamespaces _ _) as [objs1 [e|]] eqn:Hpop; [done|].
  unfold mbind, M_bind. destruct (applyset.ApplyOnce _ _ env) as [[set' o] env1] eqn:Honce. cbn [fst snd].
  destruct o as [[results|] [e|]|]; try done.
  destruct (applyset.AllApplied results) eqn:Hall; [|done].
  intros [= <- <- <-]. exists force, prune, results, set'. done.
Qed.

(** C29. What a nil error of the ApplySetApplier means, for options that name a
    namespace and objects whose metadata is a map. The arguments were understood;
    each object was patched exactly once, in the order of the objects, and the
    server accepted each of these patches: it is for the resource the object's
    kind maps to and the object's name, in the namespace of the options if the
    kind is namespace-scoped (also for an object whose manifest names another
    namespace) and in that of the object otherwise, with the force flag asked
    for. No other patch was sent, no delete was refused, and deletes were sent
    only when pruning was asked for. *)
Theorem ApplySetApplier_success a parent optPrune noClient opt (env : Env W) objs parent' env' :
  unstructured_ok U → Forall has_metadata (ao_Objects opt) → ao_Namespace opt ≠ "" →
  ApplySetApplier_Apply Marshal Compute uid payload a parent optPrune noClient opt env
    = ((objs, parent', Done []), env') →
  ∃ force prune new, parseExtraArgs (ao_ExtraArgs opt) (ao_Force opt) optPrune = Ok (force, prune)
    ∧ log env' = log env ++ new
    ∧ Forall2 (λ obj ev, ∃ rm body o applied,
        mapper_RESTMapping (GVK_GroupKind (GroupVersionKind obj)) [gvk_Version (GroupVersionKind obj)] = Ok rm
        ∧ ev = EvPatch (rm_Resource rm)
                 (if decide (rm_Scope rm = RESTScopeNamespace) then ao_Namespace opt
                  else u_GetNamespace (obj_object obj))
                 (u_GetName (obj_object obj)) body o (Ok applied)
        ∧ po_Force o = Some force)
        (ao_Objects opt) (filter applyset.is_patch new)
    ∧ (∀ gvr ns name o r, EvDelete gvr ns name o r ∈ new → prune = true ∧ r = None).
Proof using.
  intros HU Hmeta Hns Hrun.
  destruct (ApplySetApplier_runs _ _ _ _ _ _ _ _ _ Hns Hrun)
    as (force & prune & results & set' & Hparse & Hpop & Honce & Hall).
  pose proof (populateNamespaces_spec _ _ _ HU Hmeta Hpop) as Hplaced.
  destruct (applyset.ApplyOnce_applied Marshal _ _ _ _ _ Honce Hall) as (new & Hlog & Hpat & Hdel).
  exists force, prune, new. split; [done|]. split; [done|].
  split; [|intros gvr ns name o r Hin; by destruct (Hdel _ _ _ _ _ Hin)].
  eapply (patches_of_objects (ao_Namespace opt) _ force); [|apply applyset.setDesiredObjects_desired|exact Hplaced|exact Hpat].
  unfold applyset.SetDesiredObjects, applyset.New. cbn. by case_decide.
Qed.
End applyset_applier_theorems.

(** ** The DirectApplier *)

(** Where the DirectApplier indexes past its arguments: exactly when the
    last one is a flag that wants a value. Otherwise it forces conflicts where
    the options or any argument say so and prunes where any argument says so,
    a value that reads [--force] or [--prune] included; the Prune field of the
    options is not looked at. *)
Theorem directArgs_spec args f :
  (directArgs args f = None ↔
     list.last args = Some "--selector" ∨ list.last args = Some "--prune-whitelist")
  ∧ ∀ f', directArgs args f = Some f' →
      df_force f' = df_force f || bool_decide ("--force" ∈ args)
      ∧ df_prune f' = df_prune f || bool_decide ("--prune" ∈ args).
Proof.
  revert f. induction args as [|arg args IH]; intros f.
  { split; [cbn; naive_solver|]. intros f' [= <-].
    by rewrite !bool_decide_eq_false_2, !orb_false_r by apply not_elem_of_nil. }
  assert (∀ x : string,
    bool_decide (x ∈ arg :: args) = bool_decide (x = arg) || bool_decide (x ∈ args)) as Hb.
  { intros x. rewrite <- bool_decide_or. apply bool_decide_ext, elem_of_cons. }
  rewrite !Hb. cbn [directArgs].
  assert (∀ g, df_force g = df_force f || bool_decide ("--force" = arg) →
    df_prune g = df_prune f || bool_decide ("--prune" = arg) →
    args ≠ [] ∨ arg ≠ "--selector" ∧ arg ≠ "--prune-whitelist" →
    (directArgs args g = None ↔
       list.last (arg :: args) = Some "--selector" ∨ list.last (arg :: args) = Some "--prune-whitelist")
    ∧ ∀ f', directArgs args g = Some f' →
        df_force f' = df_force f || (bool_decide ("--force" = arg) || bool_decide ("--force" ∈ args))
        ∧ df_prune f' = df_prune f || (bool_decide ("--prune" = arg) || bool_decide ("--prune" ∈ args))) as Hgo.
  { intros g Hf Hp Hne. destruct (IH g) as [Hnone Hsome]. split.
    - rewrite Hnone. destruct args; [|done]. cbn. naive_solver.
    - intros f' Hf'. destruct (Hsome f' Hf') as [-> ->]. by rewrite Hf, Hp, !orb_assoc. }
  destruct (decide (arg = "--force")) as [H1|H1]; [|destruct (decide (arg = "--prune")) as [H2|H2];
    [|destruct (decide (arg = "--selector")) as [H3|H3];
    [|destruct (decide (arg = "--prune-whitelist")) as [H4|H4]]]].
  3,4: destruct args as [|v args']; [by split; [split; [intros _; subst; auto|done]|]|].
  all: apply Hgo; subst; cbn; rewrite ?(bool_decide_eq_true_2 (_ = _)) by done;
    rewrite ?(bool_decide_eq_false_2 (_ = _)) by congruence; rewrite ?orb_true_r, ?orb_false_r; auto.
Qed.

(** ** kubectl *)

Section exec_theorems.
Context `{Unstructured} {W : Type} `{ExecSite W}.

(** C30. kubectl is run at most once, and its credentials never stay behind.
    Whatever fails, a temp file that was created is removed, as the last thing
    done. A run of kubectl gets the JSON of the objects on its standard input
    and, where a client configuration was given, the name of the temp file,
    written and closed before; and Apply succeeds exactly when kubectl did. *)
Theorem exec_cleanup config opt (w w' : W) l err :
  ExecKubectl_Apply config opt w = (w', l, err) →
  (err = None ↔ ∃ args stdin, ARun args stdin None ∈ l)
  ∧ (∀ name, ATemp (Ok name) ∈ l → list.last l = Some (ARemove name))
  ∧ (∀ args stdin r, ARun args stdin r ∈ l →
      JSONManifest (mkObjects (ao_Objects opt) [] "") = Ok stdin
      ∧ (config = None ∧ l = [ARun args stdin r] ∧ args = execArgs opt None
         ∨ ∃ c text name, config = Some c ∧ buildKubeconfig c = Ok text
           ∧ args = execArgs opt (Some name)
           ∧ l = [ATemp (Ok name); AWrite name text; AClose name; ARun args stdin r; ARemove name])).
Proof using.
  unfold ExecKubectl_Apply, withKubeconfig, runKubectl.
  destruct (JSONManifest _) as [m|e]; [|intros [= <- <- <-]; set_solver].
  destruct config as [c|].
  - destruct (buildKubeconfig c) as [text|e] eqn:Hb; [|intros [= <- <- <-]; set_solver].
    destruct (es_CreateTemp w) as [w1 [name|e]]; [|intros [= <- <- <-]; set_solver].
    destruct (es_Write name text w1) as [w2 [e|]].
    { destruct (es_Remove name w2) as [w3 r]. intros [= <- <- <-]. set_solver. }
    destruct (es_Close name w2) as [w3 [e|]].
    { destruct (es_Remove name w3) as [w4 r]. intros [= <- <- <-]. set_solver. }
    destruct (es_Run _ m w3) as [w4 e] eqn:Hr. destruct (es_Remove name w4) as [w5 r].
    intros [= <- <- <-]. destruct e; set_solver.
  - destruct (es_Run _ m w) as [w1 e]. intros [= <- <- <-]. destruct e; set_solver.
Qed.
End exec_theorems.

(** ** Examples *)

(** A Deployment whose manifest names a namespace of its own. *)
Definition example_elsewhere : Object :=
  @NewObject example_unstructured
    {["apiVersion" := JStr "apps/v1"; "kind" := JStr "Deployment";
      "metadata" := JObj {["name" := JStr "web"; "namespace" := JStr "other"]}]}.

Definition example_apply_options : ApplierOptions :=
  mkApplierOptions [example_elsewhere] "prod" (applyset.par_restMapping applyset.example_parent) false
    ["--prune"; "--selector"; "app=guestbook"] true "".

Definition example_apply :
    (list Object * applyset.ParentRef * verdict) * Env example_world :=
  @ApplySetApplier_Apply canonical_range example_text example_mapper in_order_sched example_unstructured
    example_world (example_server false) (λ _, Ok "id")
    (λ _, (Some (applyset.CurrentStatus, ""), None)) (λ _, "") (λ _, "")
    (NewApplySetApplier (mkPatchOptions "" None) (mkDeleteOptions None None []) "")
    applyset.example_parent false None example_apply_options (mkEnv ∅ []).

(** The patch of the Deployment in the log, if it went to this namespace. *)
Definition example_patched (ns : string) (ev : Event) : bool :=
  match ev with
  | EvPatch gvr ns' name _ _ _ =>
      bool_decide ((gvr, ns', name) = (mkGVR "apps" "v1" "deployments", ns, "web"))
  | _ => false
  end.

Lemma ApplySetApplier_success_witness :
  ∃ ev, filter applyset.is_patch (log (example_apply.2)) = [ev] ∧ example_patched "prod" ev = true
    ∧ match ev with EvPatch _ _ _ _ o (Ok _) => po_Force o = Some true | _ => False end.
Proof.
  assert (example_apply.1.2 = Done []) as Hv by (vm_compute; reflexivity).
  destruct example_apply as [[[objs parent'] v] env'] eqn:E. cbn [fst snd] in *. subst v.
  unfold example_apply in E. apply ApplySetApplier_success in E
    as (force & prune & new & Hp & Hl & Hpat & _).
  - vm_compute in Hp. injection Hp as <- <-. cbn [log app] in Hl. rewrite Hl.
    inversion Hpat as [|obj ev objs0 evs (rm & body & o & applied & Hrm & -> & Hf) Hrest Eo Ee]; subst.
    inversion Hrest; subst. eexists. split; [reflexivity|]. vm_compute in Hrm. injection Hrm as <-.
    split; [vm_compute; reflexivity|exact Hf].
  - exact example_unstructured_ok.
  - constructor; [|constructor]. eexists. vm_compute. reflexivity.
  - discriminate.
Defined.

Definition example_pruning : reconcilerParams (addon.subject addon.exampleAddon) () :=
  mkParams [] [] None (λ opts s w, (w, (s, ao_Objects opts, None))) "" true false false false false
    None None (Some (λ _, {["app" := "guestbook"]})) None [].

Lemma reconciler_args_witness :
  @directArgs (@pruneArgs _ () example_environment example_pruning canonical_range
     (addon.Common addon.example_addon)) (mkDirectFlags true false "" [])
  = Some (mkDirectFlags true true "app=guestbook" []).
Proof.
  refine (eq_trans (proj1 (@reconciler_args _ () example_environment canonical_range
    example_pruning (addon.Common addon.example_addon) true _ _)) _).
  - vm_compute. reflexivity.
  - vm_compute. constructor.
  - vm_compute. reflexivity.
Defined.

Definition example_exec : ExecSite () := {|
  es_WriteConfig _ := Ok "kubeconfig";
  es_CreateTemp w := (w, Ok "/tmp/kubeconfig1");
  es_Write _ _ w := (w, None);
  es_Close _ w := (w, None);
  es_Remove _ w := (w, None);
  es_Run _ _ w := (w, Some (Errorf "exit status 1"))
|}.

Definition example_exec_run : () * list execAction * option error :=
  @ExecKubectl_Apply example_unstructured () example_exec
    (Some (mkRESTConfig "https://cluster" "" "" "" "secret"))
    (mkApplierOptions [] "prod" (applyset.par_restMapping applyset.example_parent) false [] true "") ().

Lemma exec_cleanup_witness : list.last (example_exec_run.1.2) = Some (ARemove "/tmp/kubeconfig1").
Proof.
  apply (proj1 (proj2 (@exec_cleanup example_unstructured () example_exec
    (Some (mkRESTConfig "https://cluster" "" "" "" "secret"))
    (mkApplierOptions [] "prod" (applyset.par_restMapping applyset.example_parent) false [] true "")
    () (example_exec_run.1.1) (example_exec_run.1.2) (example_exec_run.2) eq_refl))).
  apply elem_of_cons. left. reflexivity.
Defined.

End appliers.
