(* ===== verification/Loaders.v ===== *)
(** * Manifest loaders (pkg/patterns/addon/pkg/loaders, pkg/patterns/addon/init.go)

    How an addon's manifest is found: a [Repository] on the file system
    (fs.go), over HTTP (http.go) or in git (git.go), the choice of a version in
    a channel, and the [ManifestLoader] the reconciler is given (types.go).
    The file system, HTTP and git are classes of operations on a world; the
    lexical functions of [path/filepath] are modelled. *)

From S2P Require Import Prelude Kube Manifest Transforms Addon.
From stdpp Require Import options.
Import manifest transforms addon.

Module loaders.

(** ** path/filepath *)

Module filepath.

(** One component against the path so far, a stack. *)
Definition push (rooted : bool) (stack : list string) (c : string) : list string :=
  if decide (c = "" ∨ c = ".") then stack
  else if decide (c = "..") then
    match stack with
    | [] => if rooted then [] else [".."]
    | top :: rest => if decide (top = "..") then c :: stack else rest
    end
  else c :: stack.

Definition rooted (p : string) : bool := strings.HasPrefix p "/".

(** The components of the cleaned path, first to last. *)
Definition segments (p : string) : list string :=
  reverse (foldl (push (rooted p)) [] (strings.Split "/" p)).

Definition Clean (p : string) : string :=
  let out := (if rooted p then "/" else "") +:+ strings.Join (segments p) "/" in
  if decide (out = "") then "." else out.

(** Join drops the empty elements before the first that is not. *)
Fixpoint Join (elem : list string) : string :=
  match elem with
  | [] => ""
  | e :: rest => if decide (e = "") then Join rest else Clean (strings.Join (e :: rest) "/")
  end.
End filepath.

(** ** fs.go: names, channels, versions *)

Fixpoint contains_ascii (s : string) (c : ascii) : bool :=
  match s with "" => false | String a s => bool_decide (a = c) || contains_ascii s c end.

(** A safelist holds ASCII only, so a rune is in it when it is one byte and
    that byte is. *)
Fixpoint matchesSafelist (s safelist : string) : bool :=
  match s with
  | "" => true
  | String c s => contains_ascii safelist c && matchesSafelist s safelist
  end.

Definition safelistChannelName : string := "abcdefghijklmnopqrstuvwxyz".
Definition safelistVersion : string := "abcdefghijklmnopqrstuvwxyz0123456789-.".

Definition allowedChannelName (name : string) : bool :=
  if negb (matchesSafelist name safelistChannelName) then false
  else if strings.HasPrefix name "." then false else true.

Definition allowedManifestId (name : string) : bool :=
  if negb (matchesSafelist name safelistVersion) then false
  else if strings.HasPrefix name "." then false else true.

Record Version := mkVersion { v_Package : string; v_Version : string }.
Record Channel := mkChannel { Manifests : list Version }.

#[export] Instance Version_eq_dec : EqDecision Version.
Proof. solve_decision. Defined.

(** blang/semver: [ParseTolerant] and [Compare]. *)
Class TolerantSemver (V : Type) := {
  ts_ParseTolerant : string → option V;
  ts_Compare : V → V → Z
}.

(** What semver documents: Compare is a total order on precedence. *)
Record tolerant_ok {V : Type} (T : TolerantSemver V) : Prop := {
  ts_ok_flip x y : (0 < ts_Compare x y ↔ ts_Compare y x < 0)%Z;
  ts_ok_trans x y z : (0 <= ts_Compare x y → 0 <= ts_Compare y z → 0 <= ts_Compare x z)%Z
}.

Section versions.
Context {V : Type} `{TolerantSemver V}.

Definition Compare (l r : Version) : Z :=
  let bySemver :=
    match ts_ParseTolerant (v_Version l), ts_ParseTolerant (v_Version r) with
    | None, None => 0%Z
    | None, Some _ => (-1)%Z
    | Some _, None => 1%Z
    | Some lSemver, Some rSemver => ts_Compare lSemver rSemver
    end in
  if decide (v_Package l ≠ v_Package r) then
    if decide (v_Package l = "") then (-1)%Z
    else if decide (v_Package r = "") then 1%Z
    else bySemver
  else bySemver.

Fixpoint latestLoop (packageName : string) (vs : list Version) (latest : option Version) :
    option Version :=
  match vs with
  | [] => latest
  | v :: vs =>
      if decide (v_Package v ≠ "" ∧ v_Package v ≠ packageName) then latestLoop packageName vs latest
      else
        match latest with
        | None => latestLoop packageName vs (Some v)
        | Some l => latestLoop packageName vs (if (Compare l v <? 0)%Z then Some v else Some l)
        end
  end.

Definition Latest (c : Channel) (packageName : string) : option Version :=
  latestLoop packageName (Manifests c) None.
End versions.

(** ** The Repository interface and its implementations *)

Record Repository (W : Type) := mkRepository {
  LoadChannel : string → W → W * res Channel;
  LoadManifest : string → string → W → W * res (gmap string string)
}.
Arguments LoadChannel {W} _.
Arguments LoadManifest {W} _.
Arguments mkRepository {W} _ _.

(** The file system, as far as it is read, and the YAML of a channel. *)
Class Files (W : Type) := {
  f_ReadFile : string → W → res string;
  f_ReadDir : string → W → res (list (string * bool));
  f_NotExist : string → W → bool;
  f_Getenv : string → W → string;
  yaml_Channel : string → res Channel
}.

Section fs.
Context {W : Type} `{Files W}.

Definition fs_LoadChannel (basedir name : string) (w : W) : W * res Channel :=
  if negb (allowedChannelName name) then (w, Err (Errorf "invalid channel name"))
  else
    let p := filepath.Join [basedir; name] in
    (w, b ← wrapV "error reading channel" (f_ReadFile p w);
        wrapV "error parsing channel" (yaml_Channel b)).

(** The loop over the directory's entries. *)
Fixpoint readFiles (dirPath : string) (entries : list (string * bool)) (w : W)
    (result : gmap string string) : res (gmap string string) :=
  match entries with
  | [] => Ok result
  | (name, isDir) :: entries =>
      if isDir : bool then readFiles dirPath entries w result
      else
        let filePath := filepath.Join [dirPath; name] in
        b ← wrapV "error reading file" (f_ReadFile filePath w);
        readFiles dirPath entries w (<[filePath := b]> result)
  end.

Definition fs_LoadManifest (basedir packageName id : string) (w : W) :
    W * res (gmap string string) :=
  if negb (allowedManifestId packageName) then (w, Err (Errorf "invalid package name"))
  else if negb (allowedManifestId id) then (w, Err (Errorf "invalid manifest id"))
  else
    let dirPath := filepath.Join [basedir; "packages"; packageName; id] in
    (w, filesPath ← wrapV "error reading directory" (f_ReadDir dirPath w);
        readFiles dirPath filesPath w ∅).

Definition FSRepository (basedir : string) : Repository W :=
  mkRepository (fs_LoadChannel basedir) (fs_LoadManifest basedir).
End fs.

(** An HTTP GET: a request that cannot be built or sent, a body that cannot be
    read, or a response. *)
Inductive httpAnswer :=
  | NewRequestErr (e : error)
  | DoErr (e : error)
  | ReadErr (e : error)
  | Response (statusCode : Z) (body : string).

Class HTTP (W : Type) := { http_GET : string → W → W * httpAnswer }.

(** [strings.HasSuffix(u, "/")] and the concatenations of makeURL. *)
Definition makeURL (baseURL : string) (paths : list string) : string :=
  foldl (λ u path, (if strings.HasSuffix u "/" then u else u +:+ "/") +:+ path) baseURL paths.

Section http.
Context {W : Type} `{HTTP W, Files W}.

Definition http_readURL (url : string) (w : W) : W * res string :=
  let '(w, answer) := http_GET url w in
  (w, match answer with
      | NewRequestErr e => Err e
      | DoErr e => Err (WrapV "error fetching" e)
      | ReadErr e => Err (WrapV "error reading response" e)
      | Response statusCode body =>
          if decide (statusCode = 200%Z) then Ok body
          else Err (Errorf "unexpected response code")
      end).

Definition http_LoadChannel (baseURL name : string) (w : W) : W * res Channel :=
  if negb (allowedChannelName name) then (w, Err (Errorf "invalid channel name"))
  else
    let '(w, b) := http_readURL (makeURL baseURL [name]) w in
    (w, b ← wrapV "error reading channel" b; wrapV "error parsing channel" (yaml_Channel b)).

Definition http_LoadManifest (baseURL packageName id : string) (w : W) :
    W * res (gmap string string) :=
  if negb (allowedManifestId packageName) then (w, Err (Errorf "invalid package name"))
  else if negb (allowedManifestId id) then (w, Err (Errorf "invalid manifest id"))
  else
    let p := makeURL baseURL ["packages"; packageName; id; "manifest.yaml"] in
    let '(w, b) := http_readURL p w in
    (w, b ← wrapV "error reading package" b; Ok {[p := b]}).

Definition HTTPRepository (baseURL : string) : Repository W :=
  mkRepository (http_LoadChannel baseURL) (http_LoadManifest baseURL).
End http.

(** ** git.go *)

Inductive cloneAnswer :=
  | CloneOk
  | ErrRepositoryAlreadyExists
  | CloneErr (e : error).

Inductive fetchAnswer :=
  | FetchOk
  | NoErrAlreadyUpToDate
  | FetchErr (e : error).

(** go-git and the ssh keys; the operations after PlainOpen act on the
    repository in the directory. *)
Class Git (W Auth : Type) := {
  ssh_ParsePrivateKey : string → string → res Auth;
  git_PlainClone : string → string → option Auth → W → W * cloneAnswer;
  git_PlainOpen : string → W → option error;
  git_Remote : string → W → option error;
  git_Fetch : string → option Auth → W → W * fetchAnswer;
  git_Worktree : string → W → option error;
  git_Checkout : string → string → W → W * option error;
  git_ResetHard : string → W → W * option error
}.

Record GitRepo := mkGitRepo { git_baseURL : string; git_subDir : string }.

Definition parseGitURL (url : string) : GitRepo :=
  let url := if strings.HasPrefix url "git::" then strings.TrimPrefix url "git::" else url in
  if strings.Contains url ".git//" then
    match strings.CutString url ".git//" with
    | Some (a, b) => mkGitRepo (a +:+ ".git") b
    | None => mkGitRepo url ""
    end
  else mkGitRepo url "".

Section git.
Context {W Auth : Type} `{Git W Auth, Files W}.

(** The passphrase is "" for none. *)
Definition getAuthMethod (w : W) : res (option Auth) :=
  let sshFile := f_Getenv "HOME" w +:+ "/.ssh/id_rsa" in
  if f_NotExist sshFile w then Ok None
  else
    sshBytes ← f_ReadFile sshFile w;
    signer ← ssh_ParsePrivateKey sshBytes (f_Getenv "SSH_PASSPHRASE" w);
    Ok (Some signer).

Definition handleExistingRepo (path : string) (auth : option Auth) (w : W) : W * option error :=
  match git_PlainOpen path w with
  | Some e => (w, Some e)
  | None =>
  match git_Remote path w with
  | Some e => (w, Some e)
  | None =>
      let '(w, fetched) := git_Fetch path auth w in
      match fetched with
      | FetchErr e => (w, Some e)
      | FetchOk | NoErrAlreadyUpToDate =>
          match git_Worktree path w with
          | Some e => (w, Some e)
          | None =>
              let '(w, err) := git_Checkout path "refs/heads/master" w in
              match err with
              | Some e => (w, Some e)
              | None => git_ResetHard path w
              end
          end
      end
  end end.

Definition repoDir : string := "/tmp/repo".

Definition git_readURL (r : GitRepo) (url : string) (w : W) : W * res string :=
  let filePath := filepath.Join [repoDir; url] in
  match getAuthMethod w with
  | Err e => (w, Err e)
  | Ok auth =>
      let '(w, cloned) := git_PlainClone repoDir (git_baseURL r) auth w in
      match cloned with
      | CloneErr e => (w, Err e)
      | CloneOk => (w, f_ReadFile filePath w)
      | ErrRepositoryAlreadyExists =>
          let '(w, err) := handleExistingRepo repoDir auth w in
          match err with
          | Some e => (w, Err e)
          | None => (w, f_ReadFile filePath w)
          end
      end
  end.

Definition git_LoadChannel (r : GitRepo) (name : string) (w : W) : W * res Channel :=
  if negb (allowedChannelName name) then (w, Err (Errorf "invalid channel name"))
  else
    let name := if decide (git_subDir r ≠ "") then git_subDir r +:+ "/" +:+ name else name in
    let '(w, b) := git_readURL r name w in
    (w, b ← b; wrapV "error parsing channel bytes" (yaml_Channel b)).

Definition git_LoadManifest (r : GitRepo) (packageName id : string) (w : W) :
    W * res (gmap string string) :=
  if negb (allowedManifestId packageName) then (w, Err (Errorf "invalid package name"))
  else if negb (allowedManifestId id) then (w, Err (Errorf "invalid manifest id"))
  else
    let filePath :=
      if decide (git_subDir r = "") then filepath.Join ["packages"; packageName; id; "manifest.yaml"]
      else filepath.Join [git_subDir r; "packages"; packageName; id; "manifest.yaml"] in
    let '(w, b) := git_readURL r filePath w in
    (w, b ← wrapV "error reading package" b; Ok {[filePath := b]}).

Definition GitRepository (r : GitRepo) : Repository W :=
  mkRepository (git_LoadChannel r) (git_LoadManifest r).
Definition NewGitRepository (baseurl : string) : Repository W := GitRepository (parseGitURL baseurl).
End git.

(** ** types.go *)

Section manifestLoader.
Context {W Auth : Type} `{Files W, HTTP W, Git W Auth}.

(** Which of the three repositories a location means. *)
Inductive location := AtHTTP | AtGit | AtFS.

Definition locate (channel : string) : location :=
  if strings.HasPrefix channel "http://" || strings.HasPrefix channel "https://" then AtHTTP
  else if strings.Contains channel "git//" || strings.Contains channel ".git" then AtGit
  else AtFS.

Definition NewManifestLoader (channel : string) : Repository W :=
  match locate channel with
  | AtHTTP => HTTPRepository channel
  | AtGit => NewGitRepository channel
  | AtFS => FSRepository channel
  end.
End manifestLoader.

Section resolve.
Context {C : Type} `{CommonObject C, Unstructured, Converter} {W V : Type} `{TolerantSemver V}.

(** The loader is the manifest controller of a reconciler. *)
Definition ResolveManifest (repo : Repository W) (object : subject C) (w : W) :
    W * res (gmap string string) :=
  match (spec ← GetCommonSpec object; name ← GetCommonName object; Ok (spec, name)) with
  | Err e => (w, Err e)
  | Ok (spec, componentName) =>
      let load (id : string) (w : W) :=
        let '(w, s) := LoadManifest repo componentName id w in
        (w, wrapV "error loading manifest" s) in
      if decide (addon.Version spec = "") then
        let channelName := if decide (addon.Channel spec = "") then "stable" else addon.Channel spec in
        let '(w, channel) := LoadChannel repo channelName w in
        match channel with
        | Err e => (w, Err e)
        | Ok channel =>
            match Latest channel componentName with
            | None => (w, Err (Errorf "could not find latest version in channel"))
            | Some version => load (v_Version version) w
            end
        end
      else load (addon.Version spec) w
  end.
End resolve.

(** ** init.go *)

(** The globals of the declarative library that Init sets, and whether
    [initOnce] was used; [L] are manifest loaders, [D] the objects transforms
    work for. *)
Record Globals (L D : Type) := mkGlobals {
  g_initOnce : bool;
  DefaultManifestLoader : option L;
  Options_Begin : list (ObjectTransform D)
}.
Arguments mkGlobals {L D} _ _ _.
Arguments g_initOnce {L D} _.
Arguments DefaultManifestLoader {L D} _.
Arguments Options_Begin {L D} _.

Section init.
Context {L D : Type} `{Unstructured}.

(** The transform Init registers; the flags are read when it runs. *)
Definition registryTransform (privateRegistry imagePullSecret : string) : ObjectTransform D :=
  λ obj m,
    if decide (privateRegistry ≠ "" ∨ imagePullSecret ≠ "")
    then ImageRegistryTransform privateRegistry imagePullSecret obj m
    else (m, None).

(** [channelLoader] is [loaders.NewManifestLoader(loaders.FlagChannel)]. *)
Definition Init (channelLoader : L) (privateRegistry imagePullSecret : string) (g : Globals L D) :
    Globals L D :=
  if g_initOnce g then g
  else
    mkGlobals true
      (match DefaultManifestLoader g with Some l => Some l | None => Some channelLoader end)
      (Options_Begin g ++ [registryTransform privateRegistry imagePullSecret]).
End init.

(** ** Paths *)

Lemma Split_app_sep c s t : strings.Split c (s +:+ String c t) = strings.Split c s ++ strings.Split c t.
Proof.
  induction s as [|a s IH].
  - rewrite string_app_nil_l. cbn [strings.Split]. by rewrite decide_True.
  - rewrite string_app_cons. cbn [strings.Split]. rewrite IH. destruct (decide (a = c)); [done|]. pose proof (Split_not_nil c s).
    by destruct (strings.Split c s).
Qed.

(** A name that is one component of a path, or empty. *)
Definition plain_name (n : string) : Prop :=
  strings.free_of "/" n = true ∧ n ≠ "." ∧ n ≠ "..".

Lemma push_plain r stack n :
  plain_name n → filepath.push r stack n = if decide (n = "") then stack else n :: stack.
Proof.
  intros (_ & H1 & H2). unfold filepath.push. repeat case_decide; naive_solver.
Qed.

Lemma foldl_push_plain r ns stack :
  Forall plain_name ns →
  foldl (filepath.push r) stack ns = reverse (filter (λ n, n ≠ "") ns) ++ stack.
Proof.
  revert stack. induction ns as [|n ns IH]; intros stack; [done|].
  intros [Hn Hns]%list.Forall_cons. cbn [foldl]. rewrite IH, push_plain by done.
  rewrite filter_cons. repeat case_decide; try done.
  by rewrite reverse_cons, <- (assoc (++)).
Qed.

Lemma Split_Join_names base ns :
  Forall plain_name ns → ns ≠ [] →
  strings.Split "/" (strings.Join (base :: ns) "/") = strings.Split "/" base ++ ns.
Proof.
  revert base. induction ns as [|n ns IH]; intros base Hns Hne; [done|].
  apply list.Forall_cons in Hns as [[Hn _] Hns].
  rewrite Join_cons by done. change ("/" +:+ ?t) with (String "/" t). rewrite Split_app_sep. f_equal.
  destruct ns as [|n' ns].
  - cbn. rewrite Split_free; [done|]. by rewrite Hn.
  - rewrite IH by done. rewrite Split_free; [done|]. by rewrite Hn.
Qed.

Lemma rooted_app base t : base ≠ "" → filepath.rooted (base +:+ t) = filepath.rooted base.
Proof.
  assert (∀ s, strings.HasPrefix s "" = true) as Hnil by by intros [].
  destruct base as [|a base]; [done|]. intros _. rewrite string_app_cons.
  unfold filepath.rooted. cbn [strings.HasPrefix]. by rewrite !Hnil.
Qed.

(** The text of a path from its components. *)
Definition path_text (isRooted : bool) (segs : list string) : string :=
  (if isRooted then "/" else "") +:+ strings.Join segs "/".

(** Names appended to a base end up below it. *)
Lemma Join_names base n ns :
  plain_name n → n ≠ "" → filepath.rooted n = false → Forall plain_name ns →
  filepath.Join (base :: n :: ns)
  = path_text (filepath.rooted base) (filepath.segments base ++ n :: filter (λ x, x ≠ "") ns).
Proof.
  intros Hn Hne Hr Hns.
  assert (Forall plain_name (n :: ns)) as Hall by by constructor.
  assert (∀ r s, foldl (filepath.push r) [] (s ++ n :: ns)
    = reverse (reverse (foldl (filepath.push r) [] s) ++ n :: filter (λ x, x ≠ "") ns)) as Hfold.
  { intros r s. rewrite foldl_app, foldl_push_plain by done.
    rewrite filter_cons, decide_True by done. by rewrite reverse_app, reverse_involutive. }
  assert (∀ r s, path_text r (s ++ n :: filter (λ x, x ≠ "") ns) ≠ "") as Hnz.
  { intros r s E. unfold path_text in E. destruct r; [done|]. cbn in E. revert E.
    apply (Join_nonempty _ _ n); [set_solver|done|done]. }
  destruct (decide (base = "")) as [->|Hb].
  - cbn [filepath.Join]. rewrite decide_True by done. rewrite decide_False by done.
    unfold filepath.Clean, filepath.segments.
    assert (filepath.rooted (strings.Join (n :: ns) "/") = false) as ->.
    { destruct ns; [done|]. rewrite Join_cons by done. by rewrite rooted_app. }
    assert (strings.Split "/" (strings.Join (n :: ns) "/") = n :: ns) as ->.
    { destruct Hn as [Hf _]. destruct ns as [|n' ns]; [cbn; apply Split_free; by rewrite Hf|].
      rewrite Split_Join_names; [by rewrite Split_free by (by rewrite Hf)|done|done]. }
    pose proof (Hfold false []) as Hf0. cbn [app] in Hf0. rewrite Hf0, reverse_involutive.
    rewrite decide_False by apply (Hnz false []). done.
  - cbn [filepath.Join]. rewrite decide_False by done. unfold filepath.Clean, filepath.segments.
    rewrite Split_Join_names by done. rewrite Join_cons by done. rewrite rooted_app by done.
    rewrite Hfold, reverse_involutive. by rewrite decide_False by apply Hnz.
Qed.

Lemma matchesSafelist_free c s safelist :
  contains_ascii safelist c = false → matchesSafelist s safelist = true → strings.free_of c s = true.
Proof.
  intros Hc. induction s as [|a s IH]; [done|]. cbn [matchesSafelist strings.free_of]. intros Hs. bsimpl; [|auto].
  intros ->. congruence.
Qed.

Lemma dotless_plain n safelist :
  contains_ascii safelist "/" = false → matchesSafelist n safelist = true →
  strings.HasPrefix n "." = false → plain_name n.
Proof.
  intros Hc Hm Hd. split; [by eapply matchesSafelist_free|]. by split; intros ->.
Qed.

Lemma allowedManifestId_plain n : allowedManifestId n = true → plain_name n.
Proof.
  unfold allowedManifestId. destruct (matchesSafelist n safelistVersion) eqn:E; [|done]. cbn.
  destruct (strings.HasPrefix n ".") eqn:Ed; [done|]. intros _. by eapply dotless_plain; [|exact E|].
Qed.

Lemma allowedChannelName_plain n : allowedChannelName n = true → plain_name n.
Proof.
  unfold allowedChannelName. destruct (matchesSafelist n safelistChannelName) eqn:E; [|done]. cbn.
  destruct (strings.HasPrefix n ".") eqn:Ed; [done|]. intros _. by eapply dotless_plain; [|exact E|].
Qed.

Lemma packages_plain : plain_name "packages".
Proof. by split_and!. Qed.

(** The directory a package version is read from. *)
Definition packageDir (basedir packageName id : string) : string :=
  path_text (filepath.rooted basedir)
    (filepath.segments basedir ++ "packages" :: filter (λ n, n ≠ "") [packageName; id]).

(** C28. No path traversal. Names that pass the check of their characters are
    joined to the base directory as components of their own, below
    [packages]: whatever the base directory is, nothing above it or beside it
    can be named. An empty name passes the check too, and is no component: the
    directory read is then the one of the package, or of all packages. *)
Theorem package_path_inside basedir packageName id :
  allowedManifestId packageName = true → allowedManifestId id = true →
  filepath.Join [basedir; "packages"; packageName; id] = packageDir basedir packageName id.
Proof.
  intros Hp Hi. unfold packageDir. rewrite Join_names; [done|apply packages_plain|done|done|].
  constructor; [by apply allowedManifestId_plain|]. constructor; [by apply allowedManifestId_plain|constructor].
Qed.

(** The same holds of channels, and in git below the subdirectory. *)
Lemma channel_path_inside basedir name :
  allowedChannelName name = true → name ≠ "" →
  filepath.Join [basedir; name]
  = path_text (filepath.rooted basedir) (filepath.segments basedir ++ [name]).
Proof.
  intros Hn%allowedChannelName_plain Hne. rewrite Join_names; auto.
  destruct Hn as [Hf _]. unfold filepath.rooted. destruct name as [|a name]; [done|].
  cbn [strings.HasPrefix strings.free_of] in *. bsimpl. rewrite bool_decide_eq_false_2; [done|]. naive_solver.
Qed.

(** ** Choosing a version *)

Section latest.
Context {V : Type} `{T : TolerantSemver V} (HT : tolerant_ok T) (packageName : string).

(** The versions a package may use: its own, and those for any package. *)
Definition eligible (v : Version) : Prop := v_Package v = "" ∨ v_Package v = packageName.

Lemma ts_refl x : ts_Compare x x = 0%Z.
Proof using HT. pose proof (ts_ok_flip T HT x x). lia. Qed.

Lemma Compare_flip l r : eligible l → eligible r → (0 < Compare l r ↔ Compare r l < 0)%Z.
Proof using HT.
  intros Hl Hr. unfold Compare.
  destruct (ts_ParseTolerant (v_Version l)) as [x|], (ts_ParseTolerant (v_Version r)) as [y|];
    repeat case_decide; try congruence; try lia; try apply (ts_ok_flip T HT).
  all: destruct Hl, Hr; congruence.
Qed.

Lemma Compare_trans a b c :
  eligible a → eligible b → eligible c →
  (0 <= Compare a b → 0 <= Compare b c → 0 <= Compare a c)%Z.
Proof using HT.
  intros Ha Hb Hc. unfold Compare.
  destruct (ts_ParseTolerant (v_Version a)) as [x|], (ts_ParseTolerant (v_Version b)) as [y|],
    (ts_ParseTolerant (v_Version c)) as [z|]; repeat case_decide; try congruence; try lia;
    try apply (ts_ok_trans T HT).
  all: unfold eligible in *; destruct Ha, Hb, Hc; congruence.
Qed.

(** The first of the largest eligible versions. *)
Definition first_largest (vs : list Version) (latest : option Version) : Prop :=
  match latest with
  | None => ∀ m, m ∈ vs → eligible m → False
  | Some v => eligible v ∧ ∃ pre post, vs = pre ++ v :: post
      ∧ (∀ m, m ∈ pre → eligible m → Compare m v < 0)%Z
      ∧ (∀ m, m ∈ post → eligible m → 0 <= Compare v m)%Z
  end.

Lemma first_largest_skip vs latest v :
  ¬ eligible v → first_largest vs latest → first_largest (vs ++ [v]) latest.
Proof using.
  intros Hv. destruct latest as [l|]; cbn.
  - intros (Hl & pre & post & -> & Hpre & Hpost). split; [done|].
    exists pre, (post ++ [v]). rewrite <- (assoc (++)). split; [done|]. split; [done|].
    intros m [Hm| ->%list_elem_of_singleton]%elem_of_app; [auto|done].
  - intros Hn m [Hm| ->%list_elem_of_singleton]%elem_of_app; [by apply Hn|done].
Qed.

Lemma first_largest_first vs v :
  eligible v → first_largest vs None → first_largest (vs ++ [v]) (Some v).
Proof using.
  intros Hv Hn. split; [done|]. exists vs, []. split; [done|].
  split; [|by intros m ?%elem_of_nil]. intros m Hm He. by destruct (Hn m Hm He).
Qed.

Lemma first_largest_compare vs l v :
  eligible v → first_largest vs (Some l) →
  first_largest (vs ++ [v]) (if (Compare l v <? 0)%Z then Some v else Some l).
Proof using HT.
  intros Hv (Hl & pre & post & -> & Hpre & Hpost). destruct (Z.ltb_spec (Compare l v) 0) as [Hlt|Hge].
  - split; [done|]. exists (pre ++ l :: post), []. split; [done|].
    split; [|by intros m ?%elem_of_nil]. intros m Hm He.
    destruct (Z.lt_ge_cases (Compare m v) 0) as [|Hmv]; [done|exfalso].
    apply elem_of_app in Hm as [Hm|[->|Hm]%elem_of_cons]; [|lia|].
    + specialize (Hpre m Hm He). pose proof (proj2 (Compare_flip v l Hv Hl)).
      pose proof (Compare_trans m v l He Hv Hl). lia.
    + specialize (Hpost m Hm He). pose proof (Compare_trans l m v Hl He Hv). lia.
  - split; [done|]. exists pre, (post ++ [v]). rewrite <- (assoc (++)). split; [done|]. split; [done|].
    intros m [Hm| ->%list_elem_of_singleton]%elem_of_app; [auto|lia].
Qed.

Lemma latestLoop_spec done vs latest :
  first_largest done latest → first_largest (done ++ vs) (latestLoop packageName vs latest).
Proof using HT.
  revert done latest. induction vs as [|v vs IH]; intros done latest Hd; [by rewrite app_nil_r|].
  rewrite (assoc (++) done [v] vs : done ++ v :: vs = _). cbn [latestLoop]. case_decide as Hv.
  - apply IH, first_largest_skip; [|done]. unfold eligible. naive_solver.
  - assert (eligible v). { unfold eligible. destruct (decide (v_Package v = "")); [auto|right]. apply dec_stable. naive_solver. }
    destruct latest as [l|]; apply IH; [by apply first_largest_compare|by apply first_largest_first].
Qed.
End latest.

(** The version a channel resolves to. Latest answers a version exactly when
    the channel has one for the package or for any package; it is the largest
    of them by semver, where any version of the package itself beats those for
    any package and an unparsable version is beaten by every other; and of
    several versions that compare equal it is the first in the channel. *)
Theorem Latest_spec {V} `{T : TolerantSemver V} (c : Channel) (packageName : string) :
  tolerant_ok T →
  match Latest c packageName with
  | None => ∀ m, m ∈ Manifests c → v_Package m = "" ∨ v_Package m = packageName → False
  | Some v =>
      (v_Package v = "" ∨ v_Package v = packageName)
      ∧ ∃ pre post, Manifests c = pre ++ v :: post
        ∧ ∀ m, m ∈ Manifests c → v_Package m = "" ∨ v_Package m = packageName →
            (0 <= Compare v m)%Z
            ∧ (m ∈ pre → 0 < Compare v m)%Z
            ∧ (v_Package m = packageName → v_Package v = packageName)
  end.
Proof.
  intros HT.
  pose proof (latestLoop_spec HT packageName [] (Manifests c) None) as Hl.
  cbn [app] in Hl. fold (Latest c packageName) in Hl.
  destruct (Latest c packageName) as [v|]; [|apply Hl; by intros m ?%elem_of_nil].
  destruct Hl as (Hv & pre & post & E & Hpre & Hpost); [by intros m ?%elem_of_nil|].
  split; [done|]. exists pre, post. split; [done|]. intros m Hm He.
  assert (m ∈ pre → 0 < Compare v m)%Z as Hlt.
  { intros Hin. apply (Compare_flip HT packageName v m Hv He). auto. }
  assert (0 <= Compare v m)%Z as Hle.
  { rewrite E in Hm. apply elem_of_app in Hm as [Hin|[->|Hin]%elem_of_cons]; [specialize (Hlt Hin); lia| |auto].
    pose proof (Compare_flip HT packageName v v Hv Hv). lia. }
  split; [done|]. split; [done|]. intros Hpk.
  destruct Hv as [Hv|Hv]; [|done]. unfold Compare in Hle. rewrite Hv, Hpk in Hle.
  destruct (decide (packageName = "")); [congruence|].
  rewrite decide_True in Hle by congruence. rewrite decide_True in Hle by done. lia.
Qed.

(** ** Resolving a manifest *)

Section resolve_theorems.
Context {W : Type} `{Files W}.

Lemma readFiles_spec dirPath entries (w : W) result files :
  (∀ p t, result !! p = Some t → f_ReadFile p w = Ok t) →
  readFiles dirPath entries w result = Ok files →
  ∀ p t, files !! p = Some t ↔
    result !! p = Some t
    ∨ ∃ entry, (entry, false) ∈ entries ∧ p = filepath.Join [dirPath; entry] ∧ f_ReadFile p w = Ok t.
Proof using.
  revert result. induction entries as [|[name isDir] entries IH]; intros result Hres; cbn [readFiles].
  { intros [= <-] p t. split; [auto|]. intros [?|(? & ?%elem_of_nil & _)]; done. }
  destruct isDir; [|destruct (f_ReadFile (filepath.Join [dirPath; name]) w) as [b|] eqn:Hb; [|done]].
  - intros Hrun p t. rewrite (IH _ Hres Hrun). setoid_rewrite elem_of_cons. naive_solver.
  - intros Hrun p t.
    rewrite (IH (<[filepath.Join [dirPath; name] := b]> result) ltac:(intros p' t' [[<- <-]|[_ ?]]%lookup_insert_Some; auto) Hrun).
    rewrite lookup_insert_Some. setoid_rewrite elem_of_cons. split.
    + intros [[[<- <-]|[_ ?]]|(entry & ? & -> & ?)]; [right|by left|right].
      * exists name. auto.
      * exists entry. auto.
    + intros [Hp|(entry & [[= ->]|?] & -> & Ht)].
      * destruct (decide (filepath.Join [dirPath; name] = p)) as [<-|]; [|by left; right].
        left. left. split; [done|]. apply Hres in Hp. congruence.
      * left. left. split; [done|]. congruence.
      * right. eauto.
Qed.

Lemma fs_LoadManifest_spec basedir packageName id (w w' : W) files :
  fs_LoadManifest basedir packageName id w = (w', Ok files) →
  w' = w ∧ ∃ entries, f_ReadDir (packageDir basedir packageName id) w = Ok entries
    ∧ ∀ p t, files !! p = Some t ↔ ∃ entry, (entry, false) ∈ entries
        ∧ p = filepath.Join [packageDir basedir packageName id; entry] ∧ f_ReadFile p w = Ok t.
Proof using.
  unfold fs_LoadManifest. destruct (allowedManifestId packageName) eqn:Hp; [|done].
  destruct (allowedManifestId id) eqn:Hi; [|done]. cbn [negb].
  rewrite package_path_inside by done.
  destruct (f_ReadDir _ w) as [entries|e] eqn:Hd; [|done]. cbn [wrapV]. intros [= <- Hrun].
  split; [done|]. exists entries. split; [done|]. intros p t.
  rewrite (readFiles_spec _ _ _ ∅ files ltac:(by intros ? ?; rewrite lookup_empty) Hrun).
  rewrite lookup_empty. naive_solver.
Qed.

Context {C V : Type} `{CommonObject C, Unstructured, Converter, TolerantSemver V}.

(** What a manifest is resolved to, on the file system. The version is the
    one the object asks for or, where it asks for none, the one Latest picks in
    the channel of the object, [stable] by default; the files are exactly the
    regular files of the directory of that version of the object's component,
    below the base directory, with their contents. Nothing is written. *)
Theorem ResolveManifest_fs basedir (object : subject C) (w w' : W) files :
  ResolveManifest (FSRepository basedir) object w = (w', Ok files) →
  w' = w ∧ ∃ spec name id entries,
    GetCommonSpec object = Ok spec ∧ GetCommonName object = Ok name
    ∧ (addon.Version spec ≠ "" ∧ id = addon.Version spec
       ∨ addon.Version spec = "" ∧ ∃ text channel v,
           f_ReadFile (filepath.Join [basedir; if decide (addon.Channel spec = "") then "stable"
                                               else addon.Channel spec]) w = Ok text
           ∧ yaml_Channel text = Ok channel ∧ Latest channel name = Some v ∧ id = v_Version v)
    ∧ f_ReadDir (packageDir basedir name id) w = Ok entries
    ∧ ∀ p t, files !! p = Some t ↔ ∃ entry, (entry, false) ∈ entries
        ∧ p = filepath.Join [packageDir basedir name id; entry] ∧ f_ReadFile p w = Ok t.
Proof using.
  unfold ResolveManifest. destruct (GetCommonSpec object) as [spec|] eqn:Hspec; [|done].
  destruct (GetCommonName object) as [name|] eqn:Hname; [|done].
  cbn [mbind res_bind LoadManifest LoadChannel FSRepository].
  assert (∀ id w1, (let '(w, s) := fs_LoadManifest basedir name id w1 in
      (w, wrapV "error loading manifest" s)) = (w', Ok files) →
    fs_LoadManifest basedir name id w1 = (w', Ok files)) as Hload.
  { intros id w1. destruct (fs_LoadManifest basedir name id w1) as [w2 r]. by intros [= -> ->%wrapV_Ok]. }
  case_decide as Hv.
  - destruct (fs_LoadChannel basedir _ w) as [w1 [channel|e]] eqn:Hc; [|done].
    destruct (Latest channel name) as [v|] eqn:Hl; [|done]. intros Hrun%Hload.
    unfold fs_LoadChannel in Hc. destruct (allowedChannelName _); [|done]. cbn [negb] in Hc.
    injection Hc as <- (text & Htext%wrapV_Ok & Hy%wrapV_Ok)%bind_Ok.
    apply fs_LoadManifest_spec in Hrun as (-> & entries & ? & ?). split; [done|].
    exists spec, name, (v_Version v), entries. split; [done|]. split; [done|]. split; [|done].
    right. split; [done|]. exists text, channel, v. done.
  - intros Hrun%Hload. apply fs_LoadManifest_spec in Hrun as (-> & entries & ? & ?). split; [done|].
    exists spec, name, (addon.Version spec), entries. split; [done|]. split; [done|]. split; [|done]. by left.
Qed.
End resolve_theorems.

(** ** git *)

(** What git documents of the operations on an existing clone, by the files of
    its local branch [master]: cloning into it changes nothing, fetching moves
    the remote-tracking branches only, and after a hard reset of the branch
    checked out the files on disk are those of the branch. *)
Record git_ok {W Auth : Type} `{Git W Auth, Files W} (master : W → gmap string string) : Prop := {
  git_ok_clone url auth w w' :
    git_PlainClone repoDir url auth w = (w', ErrRepositoryAlreadyExists) → w' = w;
  git_ok_fetch auth w : master (git_Fetch repoDir auth w).1 = master w;
  git_ok_checkout w : master (git_Checkout repoDir "refs/heads/master" w).1 = master w;
  git_ok_reset w w1 w2 : git_Checkout repoDir "refs/heads/master" w = (w1, None) →
    git_ResetHard repoDir w1 = (w2, None) →
    ∀ path, f_ReadFile path w2 =
      match master w1 !! path with Some t => Ok t | None => Err (Errorf "no such file") end
}.

Section git_theorems.
Context {W Auth : Type} `{Git W Auth, Files W}.

(** A git channel is read once. When the clone directory has a repository
    already, a read answers the file of its local [master] branch: neither what
    the remote has meanwhile, which the fetch does not merge, nor the URL the
    loader was given, nor a branch other than [master] plays a role. *)
Theorem git_read_stale master r url (w w' : W) text auth :
  git_ok master → getAuthMethod w = Ok auth →
  (git_PlainClone repoDir (git_baseURL r) auth w).2 = ErrRepositoryAlreadyExists →
  git_readURL r url w = (w', Ok text) →
  master w !! filepath.Join [repoDir; url] = Some text.
Proof using.
  intros Hok Hauth Hclone. unfold git_readURL. rewrite Hauth.
  destruct (git_PlainClone repoDir (git_baseURL r) auth w) as [w0 c] eqn:Ec. cbn [snd] in Hclone. subst c.
  rewrite (git_ok_clone master Hok _ _ _ _ Ec). unfold handleExistingRepo.
  destruct (git_PlainOpen repoDir w); [done|]. destruct (git_Remote repoDir w); [done|].
  pose proof (git_ok_fetch master Hok auth w) as Hf.
  destruct (git_Fetch repoDir auth w) as [w1 f]. cbn [fst] in Hf. rewrite <- Hf.
  assert (∀ w2 e, (match git_Worktree repoDir w1 with
      | Some e => (w1, Some e)
      | None => let '(w, err) := git_Checkout repoDir "refs/heads/master" w1 in
                match err with Some e => (w, Some e) | None => git_ResetHard repoDir w end
      end) = (w2, e) → e = None → f_ReadFile (filepath.Join [repoDir; url]) w2 = Ok text →
      master w1 !! filepath.Join [repoDir; url] = Some text) as Hread.
  { intros w2 e. destruct (git_Worktree repoDir w1); [by intros [= <- <-]|].
    pose proof (git_ok_checkout master Hok w1) as Hc.
    destruct (git_Checkout repoDir _ w1) as [w3 [e3|]] eqn:E3; [by intros [= <- <-]|]. cbn [fst] in Hc.
    intros Hr ->. rewrite (git_ok_reset master Hok w1 w3 w2 E3 Hr), <- Hc.
    by destruct (master w3 !! _); intros [= ->]. }
  destruct f; [..|done].
  all: match goal with |- context [let '(w, err) := ?m in _] => destruct m as [w2 [e|]] eqn:Em end; [done|].
  all: intros [= <- Ht]; by eapply Hread.
Qed.
End git_theorems.

Lemma Contains_CutString s p : strings.Contains s p = true → is_Some (strings.CutString s p).
Proof.
  induction s as [|c s IH]; cbn [strings.Contains strings.CutString]; rewrite HasPrefix_strip.
  - rewrite orb_false_r. intros [t ->]%bool_decide_eq_true. eauto.
  - destruct (strings.strip _ p) as [t|]; [eauto|]. rewrite bool_decide_eq_false_2 by (by intros []).
    intros [[a b] ->]%IH. eauto.
Qed.

(** The parts of a git location. A leading [git::] is dropped, and what
    follows [.git//] is the subdirectory: repository and subdirectory put
    together again are the location. But the loader only takes a location for
    git where it finds [git//] or [.git] in it: one that is marked by [git::]
    alone is read as a directory. *)
Theorem git_location url :
  (let r := parseGitURL url in
   let bare := strings.TrimPrefix url "git::" in
   git_baseURL r +:+ (if strings.Contains bare ".git//" then "//" +:+ git_subDir r else "") = bare)
  ∧ (strings.HasPrefix url "git::" = true → strings.Contains url ".git" = false →
     strings.Contains url "git//" = false → locate url = AtFS).
Proof.
  split.
  - unfold parseGitURL. cbn zeta.
    assert ((if strings.HasPrefix url "git::" then strings.TrimPrefix url "git::" else url)
      = strings.TrimPrefix url "git::") as ->.
    { unfold strings.TrimPrefix. rewrite HasPrefix_strip. case_bool_decide as Hs; [done|].
      destruct (strings.strip url "git::") eqn:E; [|done]. destruct Hs. eauto. }
    set (bare := strings.TrimPrefix url "git::"). destruct (strings.Contains bare ".git//") eqn:Hc; [|by rewrite string_app_nil_r].
    destruct (strings.CutString bare ".git//") as [[a b]|] eqn:E; cbn [git_baseURL git_subDir].
    + apply CutString_spec in E. rewrite E. rewrite !string_app_assoc. done.
    + destruct (Contains_CutString _ _ Hc) as [? E']. congruence.
  - unfold locate. intros Hp Hg Hgg. rewrite Hg, Hgg.
    destruct url as [|a url]; [done|]. cbn [strings.HasPrefix] in Hp. bsimpl. subst. done.
Qed.

(** Init registers its transform once, and keeps a loader that was set. *)
Lemma Init_once {L D : Type} `{Unstructured} (l1 l2 : L) r1 s1 r2 s2 (g : Globals L D) :
  Init l2 r2 s2 (Init l1 r1 s1 g) = Init l1 r1 s1 g.
Proof. unfold Init. by destruct (g_initOnce g) eqn:E; [rewrite E|]. Qed.

(** ** Examples *)

Lemma package_path_inside_witness :
  filepath.Join ["./channels/../base"; "packages"; "guestbook"; "0.1.0"] = "base/packages/guestbook/0.1.0".
Proof.
  refine (eq_trans (package_path_inside "./channels/../base" "guestbook" "0.1.0" _ _) _);
    vm_compute; reflexivity.
Defined.

(** Versions that are single digits. *)
Definition example_tolerant : TolerantSemver Z := {|
  ts_ParseTolerant s :=
    match s with
    | String c "" => let n := Z.of_N (N_of_ascii c) in
                     if (48 <=? n)%Z && (n <=? 57)%Z then Some (n - 48)%Z else None
    | _ => None
    end;
  ts_Compare := Z.sub
|}.

Lemma example_tolerant_ok : tolerant_ok example_tolerant.
Proof. split; cbn; lia. Qed.

Definition example_channel : Channel :=
  mkChannel [mkVersion "" "9"; mkVersion "guestbook" "1"; mkVersion "other" "7"; mkVersion "guestbook" "2";
             mkVersion "guestbook" "bad"].

Lemma Latest_spec_witness :
  @Latest Z example_tolerant example_channel "guestbook" = Some (mkVersion "guestbook" "2")
  ∧ (0 <= @Compare Z example_tolerant (mkVersion "guestbook" "2") (mkVersion "" "9"))%Z.
Proof.
  pose proof (@Latest_spec Z example_tolerant example_channel "guestbook" example_tolerant_ok) as Hl.
  assert (@Latest Z example_tolerant example_channel "guestbook" = Some (mkVersion "guestbook" "2")) as E
    by (vm_compute; reflexivity).
  split; [exact E|]. rewrite E in Hl. destruct Hl as (_ & pre & post & _ & Hall).
  apply (Hall (mkVersion "" "9")); [apply elem_of_cons; left; reflexivity|left; reflexivity].
Defined.

(** A file system of two directories and three files. *)
Definition example_files : Files (gmap string string) := {|
  f_ReadFile p w := match w !! p with Some t => Ok t | None => Err (Errorf "no such file") end;
  f_ReadDir p w := if decide (p = "base/packages/guestbook/0.1.0")
                   then Ok [("manifest.yaml", false); ("old", true)] else Err (Errorf "no such directory");
  f_NotExist _ _ := true;
  f_Getenv _ _ := "";
  yaml_Channel _ := Ok example_channel
|}.

Definition example_disk : gmap string string :=
  {["base/packages/guestbook/0.1.0/manifest.yaml" := "kind: Deployment"]}.

Definition example_resolved : gmap string string * res (gmap string string) :=
  @ResolveManifest exampleAddon example_common example_unstructured example_converter
    (gmap string string) Z example_tolerant (@FSRepository _ example_files "base")
    (Common example_addon) example_disk.

Lemma ResolveManifest_fs_witness :
  ∃ files, example_resolved.2 = Ok files
    ∧ files !! "base/packages/guestbook/0.1.0/manifest.yaml" = Some "kind: Deployment".
Proof.
  destruct example_resolved as [w' r] eqn:E.
  assert (example_resolved.2 = r) as Er by (by rewrite E).
  destruct r as [files|e]; [|exfalso; vm_compute in Er; discriminate Er].
  exists files. split; [reflexivity|]. unfold example_resolved in E.
  apply ResolveManifest_fs in E as (_ & spec & name & id & entries & Hs & Hn & Hid & Hd & Hf).
  vm_compute in Hs, Hn. injection Hs as <-. injection Hn as <-.
  destruct Hid as [[_ ->]|[Hbad _]]; [|vm_compute in Hbad; discriminate Hbad].
  vm_compute in Hd. injection Hd as <-.
  apply Hf. exists "manifest.yaml". split; [by left|]. split; vm_compute; reflexivity.
Defined.

(** A clone that is never updated: the world is the files of [master]. *)
Definition example_git : Git (gmap string string) () := {|
  ssh_ParsePrivateKey _ _ := Ok ();
  git_PlainClone _ _ _ w := (w, ErrRepositoryAlreadyExists);
  git_PlainOpen _ _ := None;
  git_Remote _ _ := None;
  git_Fetch _ _ w := (w, FetchOk);
  git_Worktree _ _ := None;
  git_Checkout _ _ w := (w, None);
  git_ResetHard _ w := (w, None)
|}.

Lemma example_git_ok : @git_ok _ _ example_git example_files (λ w, w).
Proof. split; cbn; try done; intros; simplify_eq; done. Qed.

Lemma git_read_stale_witness :
  ({["/tmp/repo/stable" := "old"]} : gmap string string) !! filepath.Join [repoDir; "stable"] = Some "old".
Proof.
  refine (@git_read_stale _ () example_git example_files (λ w, w)
    (mkGitRepo "https://example.org/new.git" "") "stable" {["/tmp/repo/stable" := "old"]}
    {["/tmp/repo/stable" := "old"]} "old" None example_git_ok _ _ _); vm_compute; reflexivity.
Defined.

End loaders.
