(* ===== verification/MemoryStorage.v ===== *)
(** * The storage of the mock API server (mockkubeapiserver/storage, hooks)

    The in-memory object store the tests run against: objects by resource, a
    resource version per write, watches that are sent what is stored and then
    every change, and hooks that stand in for controllers. The critical
    sections of a resource (its mutex held) are atomic operations; what can
    happen between them is an interleaving of such operations. An operation
    may also wait for ever or end the process, and both are outcomes. *)

From S2P Require Import Prelude Kube Manifest.
From Stdlib Require Import Qcanon.
From stdpp Require Import pretty options.
Import manifest.

Module memorystorage.

(** ** Accessors of unstructured objects *)

(** The metadata setters and getters of apimachinery in use here. *)
Class ObjectMetaOps := {
  m_GetResourceVersion : jmap → string;
  m_SetResourceVersion : string → jmap → jmap;
  m_SetUID : string → jmap → jmap;
  m_SetCreationTimestamp : Z → jmap → jmap;
  m_GetGeneration : jmap → Z;
  m_SetGeneration : Z → jmap → jmap
}.

(** What identifies an object: kind, namespace and name. *)
Definition identity `{Unstructured} (m : jmap) : Kube.GroupVersionKind * string * string :=
  (u_GVK m, u_GetNamespace m, u_GetName m).

(** The documented effect of the setters on an object whose metadata is a map:
    the resource version reads back, and nothing else that is read here
    changes. *)
Record metaops_ok `{Unstructured} (O : ObjectMetaOps) : Prop := {
  mo_rv v m x : m !! "metadata" = Some (JObj x) →
    m_GetResourceVersion (m_SetResourceVersion v m) = v;
  mo_id_rv v m : identity (m_SetResourceVersion v m) = identity m;
  mo_id_uid v m : identity (m_SetUID v m) = identity m;
  mo_id_time t m : identity (m_SetCreationTimestamp t m) = identity m;
  mo_id_gen g m : identity (m_SetGeneration g m) = identity m;
  mo_md_uid v m x : m !! "metadata" = Some (JObj x) →
    ∃ y, m_SetUID v m !! "metadata" = Some (JObj y);
  mo_md_time t m x : m !! "metadata" = Some (JObj x) →
    ∃ y, m_SetCreationTimestamp t m !! "metadata" = Some (JObj y);
  mo_md_rv v m x : m !! "metadata" = Some (JObj x) →
    ∃ y, m_SetResourceVersion v m !! "metadata" = Some (JObj y);
  mo_rv_of m m' : m !! "metadata" = m' !! "metadata" →
    m_GetResourceVersion m = m_GetResourceVersion m';
  mo_id_of m m' : m !! "metadata" = m' !! "metadata" → m !! "kind" = m' !! "kind" →
    m !! "apiVersion" = m' !! "apiVersion" → identity m = identity m';
  mo_rv_labels l m : m_GetResourceVersion (u_SetLabels m l) = m_GetResourceVersion m;
  mo_set_frame m v f fs g : g ≠ f → (u_SetNestedField m v (f :: fs)).1 !! g = m !! g
}.

(** ** clock.go and uid.go *)

(** The TestClock: the seconds since its first day began. *)
Definition TestClock_Now (t : Z) : Z * Z := (t, t + 1)%Z.

(** A lower-case hexadecimal digit, and [%012x]. *)
Definition hexDigit (d : Z) : ascii :=
  ascii_of_N (Z.to_N (if (d <? 10)%Z then 48 + d else 87 + d)).
Fixpoint hexDigits (n : nat) (v : Z) (acc : string) : string :=
  match n with
  | 0%nat => acc
  | Datatypes.S n => hexDigits n (v / 16)%Z (String (hexDigit (v mod 16)%Z) acc)
  end.

(** The TestUIDGenerator, for the values below 16^12. *)
Definition TestUID_NewUID (next : Z) : string * Z :=
  ("00000000-0000-0000-0000-" +:+ hexDigits 12 next "", next + 1)%Z.

(** ** resourceVersionClock *)

(** The signed 64-bit counter. *)
Definition wrap64 (z : Z) : Z := ((z + 2 ^ 63) mod 2 ^ 64 - 2 ^ 63)%Z.
Definition GetNext (now : Z) : Z := wrap64 (now + 1).
Definition FormatInt (z : Z) : string := pretty z.

(** ** watchevent.go *)

Record WatchEvent := mkWatchEvent {
  we_gvk : Kube.GroupVersionKind;
  we_internalObject : jmap;
  we_eventType : string;
  we_Namespace : string
}.

Definition BuildWatchEvent `{Unstructured} (gvk : Kube.GroupVersionKind) (evType : string) (u : jmap) :
    WatchEvent :=
  mkWatchEvent gvk u evType (u_GetNamespace u).

Definition we_GroupKind (ev : WatchEvent) : Kube.GroupKind := GVK_GroupKind (we_gvk ev).

(** The event after its object was changed in place. *)
Definition with_internalObject (ev : WatchEvent) (u : jmap) : WatchEvent :=
  mkWatchEvent (we_gvk ev) u (we_eventType ev) (we_Namespace ev).

(** ** Data *)

(** Where a watch is: between its registration and the end of its list,
    waiting for an error of its callback, or returned. *)
Inductive watchPhase :=
  | Backfilling
  | Waiting
  | WatchDone (e : error).

(** A watch. Its callback answers by the events it was called with before. *)
Record watch := mkWatch {
  w_gvk : Kube.GroupVersionKind;
  w_Namespace : string;
  w_callback : list WatchEvent → WatchEvent → option error;
  w_phase : watchPhase;
  w_received : list WatchEvent
}.

(** The storage of a resource: its objects, its mutex, the watches ever
    started on it, and the slots of those that are active. *)
Record resourceStorage := mkResourceStorage {
  rs_GroupResource : GroupResource;
  rs_objects : gmap Kube.NamespacedName jmap;
  rs_locked : bool;
  rs_watchers : list watch;
  rs_watches : list (option nat)
}.

(** A registered type; [mi_parseable] is the ParseableType, nil or with its
    validity, [mi_storage] the pointer into the storages. *)
Record memoryResourceInfo := mkResourceInfo {
  mi_gvk : Kube.GroupVersionKind;
  mi_gvr : GroupVersionResource;
  mi_listGVK : Kube.GroupVersionKind;
  mi_Namespaced : bool;
  mi_parseable : option bool;
  mi_storage : nat
}.

(** The hooks of package hooks, and any other that changes the object only. *)
Inductive hook :=
  | CRDHook
  | NamespaceHook
  | DeploymentHook
  | OtherHook (f : WatchEvent → jmap).

(** [G] is the state of the UID generator. *)
Record MemoryStorage (G : Type) := mkMemoryStorage {
  ms_resources : list memoryResourceInfo;
  ms_storages : list resourceStorage;
  ms_clock : Z;
  ms_uids : G;
  ms_hooks : list hook;
  ms_resourceVersion : Z
}.
Arguments mkMemoryStorage {G} _ _ _ _ _ _.
Arguments ms_resources {G} _.
Arguments ms_storages {G} _.
Arguments ms_clock {G} _.
Arguments ms_uids {G} _.
Arguments ms_hooks {G} _.
Arguments ms_resourceVersion {G} _.

(** [NewUID] of the generator. *)
Class UIDGenerator (G : Type) := { NewUID : G → string * G }.

Definition TestUIDs : UIDGenerator Z := {| NewUID := TestUID_NewUID |}.

(** The outcomes of an operation: it returns, it waits for ever with the state
    as it is, or it ends the process. *)
Inductive outcome (G A : Type) :=
  | Returns (s : MemoryStorage G) (a : A)
  | Blocks (s : MemoryStorage G)
  | Fatal.
Arguments Returns {G A} _ _.
Arguments Blocks {G A} _.
Arguments Fatal {G A}.

Inductive apiError :=
  | AlreadyExists (gr : GroupResource) (name : string)
  | NotFound (gr : GroupResource) (name : string).

Section storage.
Context `{U : Unstructured, ObjectMetaOps, RangeOrder} {G : Type} `{UIDGenerator G}.
Implicit Types s : MemoryStorage G.

Definition with_resources s (rs : list memoryResourceInfo) (st : list resourceStorage) :
    MemoryStorage G :=
  mkMemoryStorage rs st (ms_clock s) (ms_uids s) (ms_hooks s) (ms_resourceVersion s).
Definition with_storage s (i : nat) (rs : resourceStorage) : MemoryStorage G :=
  with_resources s (ms_resources s) (<[i := rs]> (ms_storages s)).

Definition with_objects (rs : resourceStorage) (m : gmap Kube.NamespacedName jmap) : resourceStorage :=
  mkResourceStorage (rs_GroupResource rs) m (rs_locked rs) (rs_watchers rs) (rs_watches rs).
Definition with_watches (rs : resourceStorage) (locked : bool) (ws : list watch)
    (slots : list (option nat)) : resourceStorage :=
  mkResourceStorage (rs_GroupResource rs) (rs_objects rs) locked ws slots.

(** ** Registering types *)

Definition listGVKOf (gvk : Kube.GroupVersionKind) : Kube.GroupVersionKind :=
  GV_WithKind (GVK_GroupVersion gvk) (gvk_Kind gvk +:+ "List").

(** A new storage for a new resource info, which goes to the end. *)
Definition addResource (gvk : Kube.GroupVersionKind) (resource : string) (namespaced : bool)
    (parseable : option bool) s : MemoryStorage G :=
  let gvr := GV_WithResource (GVK_GroupVersion gvk) resource in
  let rs := mkResourceStorage (GVR_GroupResource gvr) ∅ false [] [] in
  with_resources s
    (ms_resources s ++ [mkResourceInfo gvk gvr (listGVKOf gvk) namespaced parseable
                          (length (ms_storages s))])
    (ms_storages s ++ [rs]).

(** RegisterType; [known] tells which types the builtin schema has. *)
Definition RegisterType (known : string → bool) (gvk : Kube.GroupVersionKind) (resource : string)
    (scope : RESTScope) s : MemoryStorage G :=
  addResource gvk resource (bool_decide (Scope_Name scope = RESTScopeNameNamespace))
    (if decide (gvk_Group gvk = "")
     then Some (known ("io.k8s.api.core." +:+ gvk_Version gvk +:+ "." +:+ gvk_Kind gvk))
     else None) s.

(** The string at a path, "" for anything else. *)
Definition nestedStringOr (m : jmap) (fields : list string) : string :=
  match u_NestedString m fields with Ok (Some v) => v | _ => "" end.

(** The loop over spec.versions. *)
Fixpoint addVersions (group kind resource scope : string) (versions : list json) s :
    MemoryStorage G * option error :=
  match versions with
  | [] => (s, None)
  | JObj version :: versions =>
      let versionName := nestedStringOr version ["name"] in
      if decide (versionName = "") then (s, Some (Errorf "version name not set"))
      else if decide (scope = "Namespaced" ∨ scope = "Cluster") then
        addVersions group kind resource scope versions
          (addResource (mkGVK group versionName kind) resource (bool_decide (scope = "Namespaced")) None s)
      else
        (with_resources s (ms_resources s)
           (ms_storages s ++ [mkResourceStorage (mkGR group resource) ∅ false [] []]),
         Some (Errorf "scope is not recognized"))
  | _ :: _ => (s, Some (Errorf "spec.versions element not an object"))
  end.

Definition UpdateCRD (ev : WatchEvent) s : MemoryStorage G * option error :=
  let u := we_internalObject ev in
  let group := nestedStringOr u ["spec"; "group"] in
  let kind := nestedStringOr u ["spec"; "names"; "kind"] in
  let resource := nestedStringOr u ["spec"; "names"; "plural"] in
  let scope := nestedStringOr u ["spec"; "scope"] in
  if decide (group = "") then (s, Some (Errorf "spec.group not set"))
  else if decide (kind = "") then (s, Some (Errorf "spec.names.kind not set"))
  else if decide (resource = "") then (s, Some (Errorf "spec.names.plural not set"))
  else if decide (scope = "") then (s, Some (Errorf "spec.scope not set"))
  else
    match nestedFieldNoCopy u ["spec"; "versions"] with
    | Ok (Some (JArr versions)) => addVersions group kind resource scope versions s
    | Ok (Some _) => (s, Some (Errorf "spec.versions not a slice"))
    | _ => (s, Some (Errorf "spec.versions not set"))
    end.

Definition FindResource (gr : GroupResource) s : option memoryResourceInfo :=
  List.find (λ r, bool_decide (GVR_GroupResource (mi_gvr r) = gr)) (ms_resources s).

Definition findResourceByGVK (gvk : Kube.GroupVersionKind) s : option memoryResourceInfo :=
  List.find (λ r, bool_decide (mi_gvk r = gvk)) (ms_resources s).

(** The [metav1.APIResource] of each: name, group, version, kind, scope. *)
Definition AllResources s : list (GroupVersionResource * string * bool) :=
  (λ r, (mi_gvr r, gvk_Kind (mi_gvk r), mi_Namespaced r)) <$> ms_resources s.

Definition SetsGeneration (r : memoryResourceInfo) : bool :=
  negb (bool_decide (GVK_GroupKind (mi_gvk r) ∈
    [mkGK "" "ConfigMap"; mkGK "" "Secret"; mkGK "" "Namespace"])).

(** ** Hooks *)

(** [u.Object["status"]], made where it is nil; an error for another type. *)
Definition statusOf (u : jmap) : res jmap :=
  match u !! "status" with
  | None | Some JNull => Ok ∅
  | Some (JObj status) => Ok status
  | Some _ => Err (Errorf "status was of unexpected type")
  end.

Definition condition (type status reason : string) (message : option string) : json :=
  JObj (<["type" := JStr type]> (<["status" := JStr status]> (<["reason" := JStr reason]>
    (match message with Some m => {["message" := JStr m]} | None => ∅ end)))).

Definition updateCRDConditions (u : jmap) : res jmap :=
  status ← statusOf u;
  let conditions :=
    JArr [condition "NamesAccepted" "True" "NoConflicts" (Some "no conflicts found");
          condition "Established" "True" "InitialNamesAccepted"
            (Some "the initial names have been accepted")] in
  Ok (<["status" := JObj (<["conditions" := conditions]> status)]> u).

(** The replicas as an int64; a float64 is truncated towards zero. *)
Definition replicasOf (replicasVal : option json) : res Z :=
  match replicasVal with
  | Some (JNum replicas) => Ok replicas
  | Some (JFloat x) => Ok (Z.quot (QArith_base.Qnum (this x)) (Zpos (QArith_base.Qden (this x))))
  | _ => Err (Errorf "unhandled type for spec.replicas")
  end.

Definition deploymentChanged (u : jmap) : res jmap :=
  status ← statusOf u;
  replicasVal ← wrapW "error getting spec.replicas" (nestedFieldNoCopy u ["spec"; "replicas"]);
  replicas ← replicasOf replicasVal;
  let conditions :=
    JArr [condition "Available" "True" "MinimumReplicasAvailable" None;
          condition "Progressing" "True" "NewReplicaSetAvailable" None] in
  Ok (<["status" := JObj (
    <["observedGeneration" := JNum (m_GetGeneration u)]>
    (<["updatedReplicas" := JNum replicas]>
    (<["replicas" := JNum replicas]>
    (<["readyReplicas" := JNum replicas]>
    (<["availableReplicas" := JNum replicas]>
    (<["conditions" := conditions]> status))))))]> u).

Definition isKubernetes (finalizer : json) : bool :=
  match finalizer with JStr f => bool_decide (f = "kubernetes") | _ => false end.

(** The errors of the accessors are dropped. *)
Definition namespaceChanged (u : jmap) : jmap :=
  let labels := u_GetLabels u in
  let name := u_GetName u in
  let u :=
    if decide (default "" (labels !! "kubernetes.io/metadata.name") ≠ name)
    then u_SetLabels u (<["kubernetes.io/metadata.name" := name]> labels) else u in
  let u :=
    match nestedFieldNoCopy u ["status"; "phase"] with
    | Ok (Some (JStr "Active")) => u
    | _ => (u_SetNestedField u (JStr "Active") ["status"; "phase"]).1
    end in
  let finalizers := match u_NestedSlice u ["spec"; "finalizers"] with Ok (Some l) => l | _ => [] end in
  if existsb isKubernetes finalizers then u
  else (u_SetNestedField u (JArr (finalizers ++ [JStr "kubernetes"])) ["spec"; "finalizers"]).1.

(** One hook; [None] is [klog.Fatalf]. *)
Definition OnWatchEvent (h : hook) (ev : WatchEvent) s : option (MemoryStorage G * jmap) :=
  let u := we_internalObject ev in
  match h with
  | CRDHook =>
      if decide (we_GroupKind ev = mkGK "apiextensions.k8s.io" "CustomResourceDefinition") then
        let '(s, _) := UpdateCRD ev s in
        match updateCRDConditions u with Ok u => Some (s, u) | Err _ => None end
      else Some (s, u)
  | NamespaceHook =>
      if decide (we_GroupKind ev = mkGK "" "Namespace") then Some (s, namespaceChanged u)
      else Some (s, u)
  | DeploymentHook =>
      if decide (we_GroupKind ev = mkGK "apps" "Deployment") then
        match deploymentChanged u with Ok u => Some (s, u) | Err _ => None end
      else Some (s, u)
  | OtherHook f => Some (s, f ev)
  end.

Fixpoint fireOnWatchEvent (hs : list hook) (ev : WatchEvent) s :
    option (MemoryStorage G * WatchEvent) :=
  match hs with
  | [] => Some (s, ev)
  | h :: hs =>
      match OnWatchEvent h ev s with
      | None => None
      | Some (s, u) => fireOnWatchEvent hs (with_internalObject ev u) s
      end
  end.

(** ** Watches *)

Definition received (w : watch) (ev : WatchEvent) (p : watchPhase) : watch :=
  mkWatch (w_gvk w) (w_Namespace w) (w_callback w) p (w_received w ++ [ev]).

(** The loop of broadcastEventHoldingLock over the slots. The error of a
    callback is handed to the watch over a channel without a buffer: this
    waits until the watch receives from it, which it does after its list.
    [None] where that never happens. *)
Fixpoint notify (ev : WatchEvent) (slots : list (option nat)) (ws : list watch) :
    option (list (option nat) * list watch) :=
  match slots with
  | [] => Some ([], ws)
  | slot :: slots =>
      let go (slot : option nat) (ws : list watch) :=
        match notify ev slots ws with
        | None => None
        | Some (slots, ws) => Some (slot :: slots, ws)
        end in
      match slot ≫= λ i, w ← ws !! i; Some (i, w) with
      | None => go slot ws
      | Some (i, w) =>
          if decide (w_Namespace w ≠ "" ∧ we_Namespace ev ≠ w_Namespace w) then go slot ws
          else
            match w_callback w (w_received w) ev with
            | None => go slot (<[i := received w ev (w_phase w)]> ws)
            | Some e =>
                match w_phase w with
                | Waiting => go None (<[i := received w ev (WatchDone e)]> ws)
                | _ => None
                end
            end
      end
  end.

(** A write under the lock of storage [i]: the object goes to the hooks, which
    may change it, then [store] tells what happens to the objects, and the
    watches are told. *)
Definition commit {A : Type} (i : nat) (gvk : Kube.GroupVersionKind) (evType : string) (u : jmap)
    (store : jmap → gmap Kube.NamespacedName jmap → gmap Kube.NamespacedName jmap)
    (answer : jmap → A) s : outcome G A :=
  match fireOnWatchEvent (ms_hooks s) (BuildWatchEvent gvk evType u) s with
  | None => Fatal
  | Some (s, ev) =>
      match ms_storages s !! i with
      | None => Blocks s
      | Some rs =>
          let rs := with_objects rs (store (we_internalObject ev) (rs_objects rs)) in
          match notify ev (rs_watches rs) (rs_watchers rs) with
          | None => Blocks (with_storage s i (with_watches rs true (rs_watchers rs) (rs_watches rs)))
          | Some (slots, ws) =>
              Returns (with_storage s i (with_watches rs false ws slots)) (answer (we_internalObject ev))
          end
      end
  end.

(** The storage of a resource, where its lock is free. *)
Definition locking {A : Type} (r : memoryResourceInfo) s
    (k : resourceStorage → outcome G A) : outcome G A :=
  match ms_storages s !! mi_storage r with
  | None => Blocks s
  | Some rs => if rs_locked rs then Blocks s else k rs
  end.

(** ** Objects *)

Definition GetObject (r : memoryResourceInfo) (id : Kube.NamespacedName) s : outcome G (option jmap) :=
  locking r s (λ rs, Returns s (rs_objects rs !! id)).

Definition ListObjects (r : memoryResourceInfo) (namespace : string) s :
    outcome G (list jmap * string) :=
  locking r s (λ rs,
    let items := (range (rs_objects rs)).*2 in
    Returns s (filter (λ obj, namespace = "" ∨ u_GetNamespace obj = namespace) items,
               FormatInt (ms_resourceVersion s))).

Definition stamp s (u : jmap) : jmap * MemoryStorage G :=
  let rv := GetNext (ms_resourceVersion s) in
  (m_SetResourceVersion (FormatInt rv) u,
   mkMemoryStorage (ms_resources s) (ms_storages s) (ms_clock s) (ms_uids s) (ms_hooks s) rv).

Definition CreateObject (r : memoryResourceInfo) (id : Kube.NamespacedName) (u : jmap) s :
    outcome G (jmap + apiError) :=
  locking r s (λ rs,
    match rs_objects rs !! id with
    | Some _ => Returns s (inr (AlreadyExists (GVR_GroupResource (mi_gvr r)) (nn_Name id)))
    | None =>
        let '(now, clock) := TestClock_Now (ms_clock s) in
        let u := m_SetCreationTimestamp now u in
        let '(uid, uids) := NewUID (ms_uids s) in
        let u := m_SetUID uid u in
        let s := mkMemoryStorage (ms_resources s) (ms_storages s) clock uids (ms_hooks s)
                   (ms_resourceVersion s) in
        let '(u, s) := stamp s u in
        commit (mi_storage r) (mi_gvk r) "ADDED" u (λ u m, <[id := u]> m) inl s
    end).

Definition UpdateObject (r : memoryResourceInfo) (id : Kube.NamespacedName) (u : jmap) s :
    outcome G (jmap + apiError) :=
  locking r s (λ rs,
    match rs_objects rs !! id with
    | None => Returns s (inr (AlreadyExists (GVR_GroupResource (mi_gvr r)) (nn_Name id)))
    | Some _ =>
        let '(u, s) := stamp s u in
        commit (mi_storage r) (mi_gvk r) "MODIFIED" u (λ u m, <[id := u]> m) inl s
    end).

Definition DeleteObject (r : memoryResourceInfo) (id : Kube.NamespacedName) s :
    outcome G (jmap + apiError) :=
  locking r s (λ rs,
    match rs_objects rs !! id with
    | None => Returns s (inr (NotFound (GVR_GroupResource (mi_gvr r)) (nn_Name id)))
    | Some deletedObj =>
        commit (mi_storage r) (mi_gvk r) "DELETED" deletedObj (λ _ m, delete id m) inl s
    end).

(** AddObject; the apiVersion of the object parses, or it has no kind. *)
Definition AddObject (obj : jmap) s : outcome G (option apiError + error) :=
  let gvk := u_GVK obj in
  match findResourceByGVK gvk s with
  | None => Returns s (inr (Errorf "object group/version/kind not known"))
  | Some resource =>
      let obj := if SetsGeneration resource then m_SetGeneration 1 obj else obj in
      match CreateObject resource (mkNN (u_GetNamespace obj) (u_GetName obj)) obj s with
      | Returns s (inl _) => Returns s (inl None)
      | Returns s (inr e) => Returns s (inl (Some e))
      | Blocks s => Blocks s
      | Fatal => Fatal
      end
  end.

Definition AddStorageHook (h : hook) s : MemoryStorage G :=
  mkMemoryStorage (ms_resources s) (ms_storages s) (ms_clock s) (ms_uids s) (ms_hooks s ++ [h])
    (ms_resourceVersion s).

(** ** Watching *)

(** The first free slot, or a new one. *)
Fixpoint takeSlot (slots : list (option nat)) (w : nat) : list (option nat) * nat :=
  match slots with
  | [] => ([Some w], 0%nat)
  | None :: slots => (Some w :: slots, 0%nat)
  | slot :: slots => let '(slots, pos) := takeSlot slots w in (slot :: slots, Datatypes.S pos)
  end.

(** The first critical section of watch; answers the watch and its slot. *)
Definition watchRegister (r : memoryResourceInfo) (namespace : string)
    (callback : list WatchEvent → WatchEvent → option error) s : outcome G (nat * nat) :=
  locking r s (λ rs,
    let w := length (rs_watchers rs) in
    let '(slots, pos) := takeSlot (rs_watches rs) w in
    Returns (with_storage s (mi_storage r)
      (with_watches rs false
         (rs_watchers rs ++ [mkWatch (mi_gvk r) namespace callback Backfilling []]) slots))
      (w, pos)).

(** The events of the list. *)
Fixpoint backfill (w : watch) (objs : list jmap) : watch * option error :=
  match objs with
  | [] => (w, None)
  | obj :: objs =>
      if decide (w_Namespace w ≠ "" ∧ u_GetNamespace obj ≠ w_Namespace w) then backfill w objs
      else
        let ev := BuildWatchEvent (w_gvk w) "ADDED" obj in
        match w_callback w (w_received w) ev with
        | Some e => (received w ev (WatchDone e), Some e)
        | None => backfill (received w ev (w_phase w)) objs
        end
  end.

(** The second critical section. On an error of the callback, watch returns
    without unlocking. *)
Definition watchBackfill (r : memoryResourceInfo) (i pos : nat) s : outcome G (option error) :=
  locking r s (λ rs,
    match rs_watchers rs !! i with
    | None => Blocks s
    | Some w =>
        let '(w, err) := backfill w (range (rs_objects rs)).*2 in
        match err with
        | Some e =>
            Returns (with_storage s (mi_storage r)
              (with_watches rs true (<[i := w]> (rs_watchers rs)) (<[pos := None]> (rs_watches rs))))
              (Some e)
        | None =>
            let w := mkWatch (w_gvk w) (w_Namespace w) (w_callback w) Waiting (w_received w) in
            Returns (with_storage s (mi_storage r)
              (with_watches rs false (<[i := w]> (rs_watchers rs)) (rs_watches rs))) None
        end
    end).
End storage.

(** NewMemoryStorage, from the builtin types of the schema: group, version,
    kind, resource, scope, and whether their type is known. *)
Definition NewMemoryStorage {G : Type} (clock : Z) (uids : G)
    (builtin : list (Kube.GroupVersionKind * string * string * bool)) : MemoryStorage G :=
  foldl (λ s t, let '(gvk, resource, scope, valid) := t in
           addResource gvk resource (bool_decide (scope = RESTScopeNameNamespace)) (Some valid) s)
    (mkMemoryStorage [] [] clock uids [] 0) builtin.

(** ** What hooks leave alone *)

Section hook_lemmas.
Context `{U : Unstructured, O : ObjectMetaOps, RangeOrder} {G : Type} `{UIDGenerator G}.
Context (HU : unstructured_ok U) (HO : metaops_ok O).
Implicit Types s : MemoryStorage G.

(** The part of an object that storage relies on is the same. *)
Definition kept (u u' : jmap) : Prop :=
  identity u' = identity u ∧ m_GetResourceVersion u' = m_GetResourceVersion u.

(** A hook that is not one of ours keeps it too. *)
Definition hook_ok (h : hook) : Prop :=
  match h with OtherHook f => ∀ ev, kept (we_internalObject ev) (f ev) | _ => True end.

(** The storage with more types registered: new resources, with new and empty
    storages. *)
Definition extends s s' : Prop :=
  (∃ extra, ms_storages s' = ms_storages s ++ extra
     ∧ Forall (λ rs, rs_objects rs = ∅ ∧ rs_locked rs = false ∧ rs_watchers rs = [] ∧ rs_watches rs = []) extra)
  ∧ ms_resourceVersion s' = ms_resourceVersion s ∧ ms_hooks s' = ms_hooks s.

Lemma extends_refl s : extends s s.
Proof using. split; [|done]. exists []. by rewrite app_nil_r. Qed.

Lemma extends_trans s1 s2 s3 : extends s1 s2 → extends s2 s3 → extends s1 s3.
Proof using.
  intros [(x1 & E1 & F1) [C1 K1]] [(x2 & E2 & F2) [C2 K2]]. split; [|split; congruence].
  exists (x1 ++ x2). rewrite E2, E1, <- (assoc (++)). split; [done|]. by apply list.Forall_app.
Qed.

Lemma extends_add gvk resource n p s : extends s (addResource gvk resource n p s).
Proof using. split; [|done]. eexists. split; [reflexivity|]. by repeat constructor. Qed.

Lemma addVersions_extends g k r sc vs s : extends s (addVersions g k r sc vs s).1.
Proof using.
  revert s. induction vs as [|v vs IH]; intros s; cbn [addVersions]; [apply extends_refl|].
  destruct v; try apply extends_refl. case_decide; [apply extends_refl|]. case_decide.
  - eapply extends_trans; [apply extends_add|apply IH].
  - split; [|done]. eexists. split; [reflexivity|]. by repeat constructor.
Qed.

Lemma UpdateCRD_extends ev s : extends s (UpdateCRD ev s).1.
Proof using.
  unfold UpdateCRD. repeat case_decide; try apply extends_refl.
  destruct (nestedFieldNoCopy _ _) as [[[]|]|]; try apply extends_refl. apply addVersions_extends.
Qed.

Lemma kept_refl u : kept u u.
Proof using. done. Qed.

Lemma kept_trans u1 u2 u3 : kept u1 u2 → kept u2 u3 → kept u1 u3.
Proof using. intros [? ?] [? ?]. split; congruence. Qed.

(** A field that is neither metadata nor type may be set. *)
Lemma kept_insert u f v : f ∉ ["metadata"; "kind"; "apiVersion"] → kept u (<[f := v]> u).
Proof using HO.
  rewrite !not_elem_of_cons. intros (? & ? & ? & _).
  split; [apply (mo_id_of O HO)|apply (mo_rv_of O HO)]; by rewrite lookup_insert_ne.
Qed.

Lemma kept_set u v f fs : f ∉ ["metadata"; "kind"; "apiVersion"] → kept u (u_SetNestedField u v (f :: fs)).1.
Proof using HO.
  rewrite !not_elem_of_cons. intros (? & ? & ? & _).
  split; [apply (mo_id_of O HO)|apply (mo_rv_of O HO)]; by rewrite (mo_set_frame O HO).
Qed.

Lemma namespaceChanged_kept u : kept u (namespaceChanged u).
Proof using HU HO.
  unfold namespaceChanged. cbv zeta.
  set (u1 := if decide _ then u_SetLabels u _ else u).
  assert (kept u u1) as H1.
  { unfold u1. case_decide; [|done]. set (l := <[_ := _]> _).
    destruct (u_ok_labels U HU u l) as (_ & Hn & Hns & Hg & _).
    split; [|apply (mo_rv_labels O HO)]. unfold identity. by rewrite Hn, Hns, Hg. }
  set (u2 := match nestedFieldNoCopy u1 _ with Ok _ => _ | Err _ => _ end).
  assert (kept u1 u2) as H2.
  { unfold u2. repeat case_match; try apply kept_refl; apply kept_set; set_solver. }
  eapply kept_trans; [exact H1|]. eapply kept_trans; [exact H2|].
  case_match; [apply kept_refl|]. apply kept_set. set_solver.
Qed.

Lemma OnWatchEvent_ok h ev s s' u :
  hook_ok h → OnWatchEvent h ev s = Some (s', u) → extends s s' ∧ kept (we_internalObject ev) u.
Proof using HU HO.
  intros Hh. destruct h as [| | |f]; cbn [OnWatchEvent].
  - case_decide; [|intros [= <- <-]; auto using extends_refl, kept_refl].
    pose proof (UpdateCRD_extends ev s) as He. destruct (UpdateCRD ev s) as [s1 err]. cbn [fst] in He.
    unfold updateCRDConditions. destruct (statusOf _) as [st|]; [|done]. cbn.
    intros [= <- <-]. split; [done|]. apply kept_insert. set_solver.
  - case_decide; intros [= <- <-]; auto using extends_refl, kept_refl, namespaceChanged_kept.
  - case_decide; [|intros [= <- <-]; auto using extends_refl, kept_refl].
    unfold deploymentChanged. destruct (statusOf _) as [st|]; [|done].
    destruct (nestedFieldNoCopy _ _) as [v|]; [|done]. cbn. destruct (replicasOf v) as [n|]; [|done]. cbn.
    intros [= <- <-]. split; [apply extends_refl|]. apply kept_insert. set_solver.
  - intros [= <- <-]. split; [apply extends_refl|]. apply Hh.
Qed.

Lemma fireOnWatchEvent_ok hs ev s s' ev' :
  Forall hook_ok hs → fireOnWatchEvent hs ev s = Some (s', ev') →
  extends s s' ∧ kept (we_internalObject ev) (we_internalObject ev')
  ∧ we_eventType ev' = we_eventType ev ∧ we_Namespace ev' = we_Namespace ev.
Proof using HU HO.
  revert ev s. induction hs as [|h hs IH]; intros ev s; cbn [fireOnWatchEvent].
  { intros _ [= <- <-]. auto using extends_refl, kept_refl. }
  intros [Hh Hhs]%list.Forall_cons. destruct (OnWatchEvent h ev s) as [[s1 u]|] eqn:E; [|done].
  destruct (OnWatchEvent_ok _ _ _ _ _ Hh E) as [He Hk]. intros Hr.
  destruct (IH _ _ Hhs Hr) as (He' & Hk' & Ht & Hn). cbn in Hk', Ht, Hn.
  split; [by eapply extends_trans|]. split; [by eapply kept_trans|done].
Qed.
End hook_lemmas.

(** ** What a broadcast does to a watch *)

Definition wants (w : watch) (namespace : string) : Prop :=
  w_Namespace w = "" ∨ namespace = w_Namespace w.
#[export] Instance wants_dec w namespace : Decision (wants w namespace).
Proof. unfold wants. apply _. Defined.

(** The active watches, by the slots. *)
Definition active (slots : list (option nat)) : list nat := omap id slots.

Lemma elem_of_active j slots : j ∈ active slots ↔ Some j ∈ slots.
Proof. unfold active. rewrite list_elem_of_omap. naive_solver. Qed.

(** A watch before and after: an active one that wants the event has received
    it, and is active no more if its callback failed; the others are as they
    were. *)
Definition notified (ev : WatchEvent) (slots slots' : list (option nat)) (j : nat) (w w' : watch) : Prop :=
  (j ∈ active slots → wants w (we_Namespace ev) →
     (w' = received w ev (w_phase w) ∧ j ∈ active slots')
     ∨ (∃ e, w' = received w ev (WatchDone e) ∧ j ∉ active slots'))
  ∧ (j ∉ active slots ∨ ¬ wants w (we_Namespace ev) →
     w' = w ∧ (j ∈ active slots' ↔ j ∈ active slots)).

Record notify_ok (ev : WatchEvent) (slots slots' : list (option nat)) (ws ws' : list watch) : Prop := {
  no_length : length ws' = length ws;
  no_watch j w : ws !! j = Some w → ∃ w', ws' !! j = Some w' ∧ notified ev slots slots' j w w';
  no_nodup : NoDup (active slots');
  no_sub j : j ∈ active slots' → j ∈ active slots
}.

Lemma active_cons slot slots :
  active (slot :: slots) = match slot with Some j => j :: active slots | None => active slots end.
Proof. by destruct slot. Qed.

(** A slot that is skipped. *)
Lemma notify_ok_skip ev slot slots slots' ws ws' :
  NoDup (active (slot :: slots)) →
  (∀ i w, slot = Some i → ws !! i = Some w → ¬ wants w (we_Namespace ev)) →
  notify_ok ev slots slots' ws ws' → notify_ok ev (slot :: slots) (slot :: slots') ws ws'.
Proof.
  intros Hnd Hskip [Hlen Hw Hnd' Hsub]. split; [done| | |].
  - intros j w Hj. destruct (Hw j w Hj) as (w' & Hj' & Hn). exists w'. split; [done|].
    unfold notified in *. rewrite !active_cons in *. destruct slot as [i|]; [|done].
    apply list.NoDup_cons in Hnd as [Hi _]. rewrite !elem_of_cons.
    destruct (decide (j = i)) as [->|Hne].
    + specialize (Hskip i w eq_refl Hj). destruct Hn as [_ Hn]. destruct (Hn ltac:(by left)) as [-> _].
      split; [naive_solver|]. intros _. split; [done|]. tauto.
    + destruct Hn as [H1 H2]. split.
      * intros [?|Hin] Hwt; [done|]. destruct (H1 Hin Hwt) as [[? ?]|(e & ? & ?)]; [left; auto|right; exists e; split; [done|]; rewrite elem_of_cons; tauto].
      * intros Hc. destruct H2 as [-> ?]; [tauto|]. split; [done|]. tauto.
  - rewrite active_cons in *. destruct slot; [|done]. apply list.NoDup_cons in Hnd as [Hi _].
    apply list.NoDup_cons. split; [|done]. intros ?%Hsub. done.
  - intros j. rewrite !active_cons in *. destruct slot; [|auto]. rewrite !elem_of_cons. naive_solver.
Qed.

(** A slot whose watch receives the event. *)
Lemma notify_ok_deliver ev i w w1 slot slots slots' ws ws' :
  NoDup (active (Some i :: slots)) → ws !! i = Some w → wants w (we_Namespace ev) →
  (w1 = received w ev (w_phase w) ∧ slot = Some i
   ∨ ∃ e, w1 = received w ev (WatchDone e) ∧ slot = None) →
  notify_ok ev slots slots' (<[i := w1]> ws) ws' →
  notify_ok ev (Some i :: slots) (slot :: slots') ws ws'.
Proof.
  intros Hnd Hi Hwants Hcase [Hlen Hw Hnd' Hsub].
  rewrite active_cons in Hnd. apply list.NoDup_cons in Hnd as [Hni Hnd].
  assert (i ∉ active slots') as Hni' by (intros ?%Hsub; done).
  split.
  - by rewrite Hlen, length_insert.
  - intros j w0 Hj. unfold notified. rewrite (active_cons (Some i)).
    destruct (decide (j = i)) as [->|Hne].
    + simplify_eq. destruct (Hw i w1) as (w' & Hi' & Hn).
      { apply list_lookup_insert_eq. by eapply lookup_lt_Some. }
      destruct Hn as [_ Hn]. destruct (Hn ltac:(by left)) as [-> _].
      exists w1. split; [done|]. split; [intros _ _|intros []; [|done]; exfalso; set_solver].
      destruct Hcase as [[-> ->]|(e & -> & ->)]; [left|right; exists e]; (split; [done|]); rewrite active_cons; [by left|done].
    + destruct (Hw j w0) as (w' & Hj' & [H1 H2]). { by rewrite list_lookup_insert_ne. }
      exists w'. split; [done|]. rewrite elem_of_cons.
      assert (j ∈ active (slot :: slots') ↔ j ∈ active slots') as Heq.
      { rewrite active_cons. destruct Hcase as [[_ ->]|(e & _ & ->)]; [|done]. rewrite elem_of_cons. tauto. }
      split.
      * intros [?|Hin] Hwt; [done|]. destruct (H1 Hin Hwt) as [[? ?]|(e & ? & ?)]; [left; tauto|right; exists e; tauto].
      * intros Hc. destruct H2 as [-> ?]; [tauto|]. split; [done|]. tauto.
  - rewrite active_cons. destruct Hcase as [[_ ->]|(e & _ & ->)]; [|done]. by apply list.NoDup_cons.
  - intros j. rewrite !active_cons. destruct Hcase as [[_ ->]|(e & _ & ->)]; rewrite ?elem_of_cons; naive_solver.
Qed.

Lemma notify_spec ev slots ws slots' ws' :
  NoDup (active slots) → notify ev slots ws = Some (slots', ws') → notify_ok ev slots slots' ws ws'.
Proof.
  revert ws slots' ws'. induction slots as [|slot slots IH]; intros ws slots' ws' Hnd; cbn [notify].
  { intros [= <- <-]. split; [done| |done|done]. intros j w Hj. exists w. split; [done|].
    split; [by intros ?%elem_of_nil|done]. }
  assert (NoDup (active slots)) as Hnd1.
  { rewrite active_cons in Hnd. destruct slot; [|done]. by apply list.NoDup_cons in Hnd as [_ ?]. }
  destruct slot as [i|]; cbn [mbind option_bind];
    [destruct (ws !! i) as [w|] eqn:Hi; cbn [mbind option_bind]|].
  - case_decide as Hns; [|destruct (w_callback w (w_received w) ev) as [e|]; [destruct (w_phase w) eqn:Hph; try done|]].
    all: match goal with |- context [notify ?e ?ss ?x] => destruct (notify e ss x) as [[sl wl]|] eqn:Hrec end;
      [|done]; intros [= <- <-]; apply IH in Hrec; [|done].
    + apply notify_ok_skip; [done| |done]. intros i' w' [= <-] ?. simplify_eq. unfold wants. naive_solver.
    + eapply notify_ok_deliver; [done|done|unfold wants; destruct (decide (w_Namespace w = "")); [auto|right; apply dec_stable; naive_solver]|right; eauto|done].
    + eapply notify_ok_deliver; [done|done|unfold wants; destruct (decide (w_Namespace w = "")); [auto|right; apply dec_stable; naive_solver]|left; eauto|done].
  - destruct (notify ev slots ws) as [[sl wl]|] eqn:Hrec; [|done]. intros [= <- <-]. apply IH in Hrec; [|done].
    apply notify_ok_skip; [done| |done]. intros i' w' [= <-] ?. congruence.
  - destruct (notify ev slots ws) as [[sl wl]|] eqn:Hrec; [|done]. intros [= <- <-]. apply IH in Hrec; [|done].
    by apply notify_ok_skip.
Qed.

(** ** The view of a watch *)

Section view.
Context `{U : Unstructured}.

Definition objectKey (u : jmap) : Kube.NamespacedName := mkNN (u_GetNamespace u) (u_GetName u).

(** What a client that follows the events holds. *)
Definition replay_event (m : gmap Kube.NamespacedName jmap) (ev : WatchEvent) :
    gmap Kube.NamespacedName jmap :=
  let u := we_internalObject ev in
  if decide (we_eventType ev = "DELETED") then delete (objectKey u) m else <[objectKey u := u]> m.
Definition replay (evs : list WatchEvent) : gmap Kube.NamespacedName jmap :=
  foldl replay_event ∅ evs.

(** The objects of a namespace, of all of them for "". *)
Definition view (ns : string) (m : gmap Kube.NamespacedName jmap) : gmap Kube.NamespacedName jmap :=
  filter (λ p, ns = "" ∨ nn_Namespace p.1 = ns) m.

Definition keyed (m : gmap Kube.NamespacedName jmap) : Prop :=
  ∀ id u, m !! id = Some u → objectKey u = id.

Lemma replay_snoc evs ev : replay (evs ++ [ev]) = replay_event (replay evs) ev.
Proof using. unfold replay. by rewrite foldl_app. Qed.

Lemma replay_event_mono m1 m2 ev : m1 ⊆ m2 → replay_event m1 ev ⊆ replay_event m2 ev.
Proof using. intros Hs. unfold replay_event. case_decide; [by apply delete_mono|by apply insert_mono]. Qed.

Lemma view_in ns m ev :
  ns = "" ∨ nn_Namespace (objectKey (we_internalObject ev)) = ns →
  view ns (replay_event m ev) = replay_event (view ns m) ev.
Proof using.
  intros Hns. unfold replay_event, view. case_decide; [apply map_filter_delete|].
  by apply map_filter_insert_True.
Qed.

Lemma view_out ns m ev :
  ¬ (ns = "" ∨ nn_Namespace (objectKey (we_internalObject ev)) = ns) →
  view ns (replay_event m ev) = view ns m.
Proof using.
  intros Hns. unfold replay_event, view. apply map_eq. intros k. apply option_eq. intros v.
  rewrite !map_lookup_filter_Some. case_decide.
  - rewrite lookup_delete_Some. cbn. split; [naive_solver|]. intros [Hk Hin]. split; [|done]. split; [|done].
    intros <-. done.
  - rewrite lookup_insert_Some. cbn. split; [naive_solver|]. intros [Hk Hin]. split; [|done]. right.
    split; [|done]. intros <-. done.
Qed.

Lemma keyed_replay_event m ev : keyed m → keyed (replay_event m ev).
Proof using.
  intros Hm id u. unfold replay_event. case_decide.
  - intros [_ ?]%lookup_delete_Some. auto.
  - intros [[<- <-]|[_ ?]]%lookup_insert_Some; auto.
Qed.

(** A list of what is there, on top of a part of it, is all of it. *)
Lemma replay_list gvk (V m0 : gmap Kube.NamespacedName jmap) (objs : list jmap) :
  keyed V → m0 ⊆ V → (∀ u, u ∈ objs → V !! objectKey u = Some u) →
  (∀ id u, V !! id = Some u → m0 !! id = Some u ∨ u ∈ objs) →
  foldl replay_event m0 (BuildWatchEvent gvk "ADDED" <$> objs) = V.
Proof using.
  intros HV. revert m0. induction objs as [|u objs IH]; intros m0 Hsub Hin Hall; cbn [fmap list_fmap foldl].
  - apply map_eq. intros id. apply option_eq. intros u. split; [|intros [?|?%elem_of_nil]%Hall; done].
    intros Hm. by eapply lookup_weaken.
  - apply IH.
    + unfold replay_event. cbn. rewrite decide_False by done. apply insert_subseteq_l; [|done].
      apply Hin. by left.
    + intros v Hv. apply Hin. by right.
    + intros id v Hv. unfold replay_event. cbn. rewrite decide_False by done.
      destruct (Hall id v Hv) as [?|[->|?]%elem_of_cons]; [|left|by right].
      * destruct (decide (objectKey u = id)) as [<-|]; [|left; by rewrite lookup_insert_ne].
        left. rewrite lookup_insert_eq. f_equal.
        assert (V !! objectKey u = Some u) by (apply Hin; by left). congruence.
      * assert (V !! objectKey u = Some u) as Hu by (apply Hin; by left).
        destruct (decide (objectKey u = id)) as [<-|Hne]; [by rewrite lookup_insert_eq|].
        destruct Hne. by apply HV.
Qed.
End view.

(** ** The invariant of a resource *)

Section resource_invariant.
Context `{U : Unstructured, O : ObjectMetaOps, RangeOrder}.

(** What a watch has been told, against what is stored. *)
Definition watch_ok (m : gmap Kube.NamespacedName jmap) (w : watch) : Prop :=
  match w_phase w with
  | Waiting => replay (w_received w) = view (w_Namespace w) m
  | Backfilling => replay (w_received w) ⊆ view (w_Namespace w) m
  | WatchDone _ => True
  end.

Record rs_ok (rs : resourceStorage) : Prop := {
  ro_keyed : keyed (rs_objects rs);
  ro_watch j w : rs_watchers rs !! j = Some w → watch_ok (rs_objects rs) w;
  ro_nodup : rs_locked rs = false → NoDup (active (rs_watches rs));
  ro_active j w : rs_locked rs = false → rs_watchers rs !! j = Some w →
    (∃ e, w_phase w = WatchDone e) ∨ j ∈ active (rs_watches rs);
  ro_bound j : rs_locked rs = false → j ∈ active (rs_watches rs) → (j < length (rs_watchers rs))%nat
}.

Lemma rs_ok_empty gr : rs_ok (mkResourceStorage gr ∅ false [] []).
Proof using. split; try done; cbn; intros; try by constructor. by apply elem_of_nil in H1. Qed.

Lemma watch_ok_event m w ev p :
  watch_ok m w → wants w (we_Namespace ev) → w_phase w = p →
  we_Namespace ev = nn_Namespace (objectKey (we_internalObject ev)) →
  watch_ok (replay_event m ev) (received w ev p).
Proof using.
  intros Hw Hwant <- Hns. unfold watch_ok in *. cbn [received w_phase w_received w_Namespace].
  assert (w_Namespace w = "" ∨ nn_Namespace (objectKey (we_internalObject ev)) = w_Namespace w) as Hin
    by (rewrite <- Hns; exact Hwant).
  rewrite replay_snoc, view_in by done.
  destruct (w_phase w); [by apply replay_event_mono|by rewrite Hw|done].
Qed.

Lemma watch_ok_other m w ev :
  watch_ok m w → ¬ wants w (we_Namespace ev) →
  we_Namespace ev = nn_Namespace (objectKey (we_internalObject ev)) →
  watch_ok (replay_event m ev) w.
Proof using.
  intros Hw Hwant Hns. unfold watch_ok in *. rewrite view_out; [done|]. rewrite <- Hns. exact Hwant.
Qed.

(** A write keeps the invariant. *)
Lemma rs_ok_event rs ev slots ws :
  rs_ok rs → rs_locked rs = false →
  we_Namespace ev = nn_Namespace (objectKey (we_internalObject ev)) →
  notify ev (rs_watches rs) (rs_watchers rs) = Some (slots, ws) →
  rs_ok (mkResourceStorage (rs_GroupResource rs) (replay_event (rs_objects rs) ev) false ws slots).
Proof using.
  intros [Hk Hw Hnd Hac Hbo] Hl Hns Hn.
  apply notify_spec in Hn as [Hlen Hwatch Hnd' Hsub]; [|auto].
  assert (∀ j w', ws !! j = Some w' → ∃ w, rs_watchers rs !! j = Some w
    ∧ notified ev (rs_watches rs) slots j w w') as Hback.
  { intros j w' Hj. destruct (lookup_lt_is_Some_2 (rs_watchers rs) j) as [w Hwj].
    { rewrite <- Hlen. by eapply lookup_lt_Some. }
    exists w. split; [done|]. destruct (Hwatch j w Hwj) as (w'' & ? & ?). by simplify_eq. }
  split; cbn.
  - by apply keyed_replay_event.
  - intros j w' Hj. destruct (Hback j w' Hj) as (w & Hwj & H1 & H2).
    destruct (decide (wants w (we_Namespace ev))) as [Hwant|Hwant].
    + destruct (decide (j ∈ active (rs_watches rs))) as [Hin|Hin].
      * destruct (H1 Hin Hwant) as [[-> _]|(e & -> & _)]; [|done]. eapply watch_ok_event; eauto.
      * destruct H2 as [-> _]; [by left|]. destruct (Hac j w Hl Hwj) as [[e He]|?]; [|done].
        unfold watch_ok. by rewrite He.
    + destruct H2 as [-> _]; [by right|]. eapply watch_ok_other; eauto.
  - done.
  - intros j w' _ Hj. destruct (Hback j w' Hj) as (w & Hwj & H1 & H2).
    destruct (decide (j ∈ active (rs_watches rs) ∧ wants w (we_Namespace ev))) as [[Hin Hwant]|Hno].
    + destruct (H1 Hin Hwant) as [[-> ?]|(e & -> & _)]; [by right|left; by exists e].
    + destruct H2 as [-> Hiff]; [destruct (decide (j ∈ active (rs_watches rs))); naive_solver|].
      rewrite Hiff. eauto.
  - intros j _ Hj. rewrite Hlen. auto.
Qed.

Lemma takeSlot_active slots w slots' pos :
  takeSlot slots w = (slots', pos) → active slots' ≡ₚ w :: active slots.
Proof using.
  revert slots' pos. induction slots as [|[j|] slots IH]; intros slots' pos; cbn [takeSlot].
  - by intros [= <- <-].
  - destruct (takeSlot slots w) as [sl p] eqn:E. intros [= <- <-]. rewrite !active_cons.
    rewrite (IH _ _ eq_refl). apply Permutation_swap.
  - by intros [= <- <-].
Qed.

Lemma rs_ok_register rs gvk ns cb slots pos :
  rs_ok rs → rs_locked rs = false → takeSlot (rs_watches rs) (length (rs_watchers rs)) = (slots, pos) →
  rs_ok (with_watches rs false (rs_watchers rs ++ [mkWatch gvk ns cb Backfilling []]) slots).
Proof using.
  intros [Hk Hw Hnd Hac Hbo] Hl Ht%takeSlot_active. split; cbn.
  - done.
  - intros j w [Hj|[_ [_ <-]%list_lookup_singleton_Some]]%lookup_app_Some; [by eapply Hw|].
    apply map_empty_subseteq.
  - intros _. rewrite Ht. apply list.NoDup_cons. split; [|auto]. intros Hin. apply Hbo in Hin; [lia|done].
  - intros j w _ Hj. rewrite Ht, elem_of_cons.
    apply lookup_app_Some in Hj as [Hj|[Hge [Hj <-]%list_lookup_singleton_Some]].
    + destruct (Hac j w Hl Hj); auto.
    + right. left. lia.
  - intros j _. rewrite Ht, length_app, elem_of_cons. cbn. intros [->|Hj%Hbo]; [lia|lia|done].
Qed.

Lemma backfill_spec w objs w' :
  backfill w objs = (w', None) →
  w_received w' = w_received w ++ (BuildWatchEvent (w_gvk w) "ADDED" <$>
      filter (λ u, wants w (u_GetNamespace u)) objs)
  ∧ w_Namespace w' = w_Namespace w ∧ w_phase w' = w_phase w ∧ w_gvk w' = w_gvk w.
Proof using.
  revert w. induction objs as [|u objs IH]; intros w; cbn [backfill].
  { intros [= <-]. by rewrite app_nil_r. }
  rewrite filter_cons. case_decide as Hns.
  - rewrite decide_False by (unfold wants; naive_solver). apply IH.
  - destruct (w_callback w (w_received w) _) eqn:Hc; [done|]. intros Hb.
    rewrite decide_True.
    + destruct (IH _ Hb) as (E & ? & ? & ?). cbn in *. split; [|done]. rewrite E, <- (assoc (++)). done.
    + unfold wants. destruct (decide (w_Namespace w = "")); [by left|right; apply dec_stable; naive_solver].
Qed.

Lemma backfill_failed w objs w' e : backfill w objs = (w', Some e) → w_phase w' = WatchDone e.
Proof using.
  revert w. induction objs as [|u objs IH]; intros w; cbn [backfill]; [done|].
  case_decide; [apply IH|]. destruct (w_callback w _ _); [by intros [= <- <-]|apply IH].
Qed.

Lemma backfill_view rs j w w' :
  rs_ok rs → rs_watchers rs !! j = Some w → w_phase w = Backfilling →
  backfill w (range (rs_objects rs)).*2 = (w', None) →
  replay (w_received w') = view (w_Namespace w') (rs_objects rs).
Proof using.
  intros Hok Hj Hp Hb. destruct (backfill_spec _ _ _ Hb) as (E & Ens & _ & _).
  pose proof (ro_watch _ Hok j w Hj) as Hw. unfold watch_ok in Hw. rewrite Hp in Hw.
  pose proof (ro_keyed _ Hok) as Hk. rewrite E, Ens. unfold replay. rewrite foldl_app.
  apply replay_list; [|done|..].
  - intros id u [Hu _]%map_lookup_filter_Some. by apply Hk.
  - intros u [Hns Hu]%list_elem_of_filter. apply list_elem_of_fmap in Hu as ([id u'] & -> & Hu). cbn in *.
    apply elem_of_range in Hu. rewrite (Hk _ _ Hu). apply map_lookup_filter_Some. split; [done|].
    rewrite <- (Hk _ _ Hu). exact Hns.
  - intros id u [Hu Hns]%map_lookup_filter_Some. right. apply list_elem_of_filter. cbn in Hns.
    rewrite <- (Hk _ _ Hu) in Hns. split; [exact Hns|]. apply list_elem_of_fmap. exists (id, u).
    split; [done|]. by apply elem_of_range.
Qed.

Lemma rs_ok_backfilled rs j w w' :
  rs_ok rs → rs_locked rs = false → rs_watchers rs !! j = Some w → w_phase w = Backfilling →
  backfill w (range (rs_objects rs)).*2 = (w', None) →
  rs_ok (with_watches rs false
    (<[j := mkWatch (w_gvk w') (w_Namespace w') (w_callback w') Waiting (w_received w')]> (rs_watchers rs))
    (rs_watches rs)).
Proof using.
  intros Hok Hl Hj Hp Hb. pose proof (backfill_view _ _ _ _ Hok Hj Hp Hb) as Hv.
  destruct Hok as [Hk Hw Hnd Hac Hbo]. split; cbn; [done| |auto| |].
  - intros i x [(<- & <- & _)|[_ Hi]]%list_lookup_insert_Some; [exact Hv|by eapply Hw].
  - intros i x _ [(<- & <- & _)|[_ Hi]]%list_lookup_insert_Some; [|eauto].
    destruct (Hac j w Hl Hj) as [[e He]|?]; [congruence|by right].
  - intros i _. rewrite length_insert. auto.
Qed.

Lemma rs_ok_abandoned rs j w w' e slots :
  rs_ok rs → rs_watchers rs !! j = Some w →
  backfill w (range (rs_objects rs)).*2 = (w', Some e) →
  rs_ok (with_watches rs true (<[j := w']> (rs_watchers rs)) slots).
Proof using.
  intros [Hk Hw Hnd Hac Hbo] Hj Hb%backfill_failed. split; cbn; try done.
  intros i x [(<- & <- & _)|[_ Hi]]%list_lookup_insert_Some; [|by eapply Hw].
  unfold watch_ok. by rewrite Hb.
Qed.
End resource_invariant.

(** ** Runs *)

Section runs.
Context `{U : Unstructured, O : ObjectMetaOps, RangeOrder} {G : Type} `{UIDGenerator G}.
Implicit Types s : MemoryStorage G.

(** An object that can be stored: its metadata is a map. *)
Definition storable (u : jmap) : Prop := ∃ x, u !! "metadata" = Some (JObj x).

(** One critical section, by any caller, that returns, with what it was asked to
    store: any object, under any id. A watch lists once. *)
Inductive sstep : list (Kube.NamespacedName * jmap) → MemoryStorage G → MemoryStorage G → Prop :=
  | ss_create r id u s s' a : CreateObject r id u s = Returns s' a → sstep [(id, u)] s s'
  | ss_update r id u s s' a : UpdateObject r id u s = Returns s' a → sstep [(id, u)] s s'
  | ss_delete r id s s' a : DeleteObject r id s = Returns s' a → sstep [] s s'
  | ss_register r ns cb s s' a : watchRegister r ns cb s = Returns s' a → sstep [] s s'
  | ss_backfill r j pos rs w s s' a :
      ms_storages s !! mi_storage r = Some rs → rs_watchers rs !! j = Some w →
      w_phase w = Backfilling → watchBackfill r j pos s = Returns s' a → sstep [] s s'
  | ss_type known gvk resource scope s : sstep [] s (RegisterType known gvk resource scope s)
  | ss_hook h s : hook_ok h → sstep [] s (AddStorageHook h s).

(** The states reached in a number of steps from a storage without objects, with
    all that the callers stored on the way. *)
Inductive ran : nat → list (Kube.NamespacedName * jmap) → MemoryStorage G → Prop :=
  | ran_start s :
      ms_resourceVersion s = 0%Z → ms_hooks s = [] →
      Forall (λ rs, rs_objects rs = ∅ ∧ rs_locked rs = false ∧ rs_watchers rs = [] ∧ rs_watches rs = [])
        (ms_storages s) → ran 0 [] s
  | ran_step n stores st s s' :
      ran n stores s → sstep st s s' → ran (Datatypes.S n) (stores ++ st) s'.

(** Stored under its own name and namespace, with metadata that is a map. The
    storage does not check it, and the handlers of PUT and PATCH do not either:
    see [misfiled_update_diverges]. *)
Definition filed (x : Kube.NamespacedName * jmap) : Prop := x.1 = objectKey x.2 ∧ storable x.2.

(** Steps and runs of callers that file what they store. *)
Definition filed_step s s' : Prop := ∃ st, sstep st s s' ∧ Forall filed st.
Definition reach (n : nat) s : Prop := ∃ stores, ran n stores s ∧ Forall filed stores.

Lemma reach_start s :
  ms_resourceVersion s = 0%Z → ms_hooks s = [] →
  Forall (λ rs, rs_objects rs = ∅ ∧ rs_locked rs = false ∧ rs_watchers rs = [] ∧ rs_watches rs = [])
    (ms_storages s) → reach 0 s.
Proof using. intros. exists []. split; [by apply ran_start|constructor]. Qed.

Lemma reach_step n s s' : reach n s → filed_step s s' → reach (Datatypes.S n) s'.
Proof using.
  intros (stores & Hr & Hf) (st & Hs & Hst). exists (stores ++ st).
  split; [by eapply ran_step|by apply list.Forall_app].
Qed.

Context (HU : unstructured_ok U) (HO : metaops_ok O).

Lemma commit_effect {A} i gvk evType u store (answer : jmap → A) s s' a rs :
  Forall hook_ok (ms_hooks s) → ms_storages s !! i = Some rs →
  commit i gvk evType u store answer s = Returns s' a →
  ∃ ev slots ws extra,
    kept u (we_internalObject ev) ∧ we_eventType ev = evType ∧ we_Namespace ev = u_GetNamespace u
    ∧ a = answer (we_internalObject ev)
    ∧ notify ev (rs_watches rs) (rs_watchers rs) = Some (slots, ws)
    ∧ ms_storages s' = <[i := mkResourceStorage (rs_GroupResource rs)
        (store (we_internalObject ev) (rs_objects rs)) false ws slots]> (ms_storages s ++ extra)
    ∧ Forall (λ rs, rs_objects rs = ∅ ∧ rs_locked rs = false ∧ rs_watchers rs = [] ∧ rs_watches rs = []) extra
    ∧ ms_resourceVersion s' = ms_resourceVersion s ∧ ms_hooks s' = ms_hooks s.
Proof using HU HO.
  intros Hh Hi. unfold commit.
  destruct (fireOnWatchEvent _ _ s) as [[s1 ev]|] eqn:Hf; [|done].
  destruct (fireOnWatchEvent_ok HU HO _ _ _ _ _ Hh Hf) as ([(extra & Es & Hx) [Hrv Hhk]] & Hk & Ht & Hns).
  rewrite Es, (lookup_app_l_Some _ _ _ _ Hi). cbn [with_objects rs_watches rs_watchers].
  destruct (notify ev (rs_watches rs) (rs_watchers rs)) as [[slots ws]|] eqn:Hn; [|done].
  intros [= <- <-]. exists ev, slots, ws, extra. cbn. rewrite Es. done.
Qed.

(** The objects of the whole storage: by storage and name. *)
Definition stored s (i : nat) (id : Kube.NamespacedName) (u : jmap) : Prop :=
  ∃ rs, ms_storages s !! i = Some rs ∧ rs_objects rs !! id = Some u.

(** Every object has a version the clock has shown, and no two the same. *)
Record versions_ok s : Prop := {
  vo_now : (0 <= ms_resourceVersion s)%Z;
  vo_past i id u : stored s i id u →
    ∃ n, m_GetResourceVersion u = FormatInt n ∧ (0 < n <= ms_resourceVersion s)%Z;
  vo_unique i id u i' id' u' : stored s i id u → stored s i' id' u' →
    m_GetResourceVersion u = m_GetResourceVersion u' → i = i' ∧ id = id'
}.

Lemma FormatInt_inj a b : FormatInt a = FormatInt b → a = b.
Proof using. apply (inj pretty). Qed.

(** Objects that are a part of those before. *)
Lemma versions_ok_sub s s' :
  versions_ok s → (ms_resourceVersion s <= ms_resourceVersion s')%Z →
  (∀ i id u, stored s' i id u → stored s i id u) → versions_ok s'.
Proof using.
  intros [Hn Hp Hu] Hle Hsub. split; [lia| |].
  - intros i id u Hs. destruct (Hp i id u) as (n & ? & ?); [auto|]. exists n. split; [done|lia].
  - intros i id u i' id' u' H1 H2. apply (Hu i id u i' id' u'); auto.
Qed.

(** One object put in place with the next version. *)
Lemma versions_ok_put s s' i0 id0 u0 :
  versions_ok s → ms_resourceVersion s' = (ms_resourceVersion s + 1)%Z →
  m_GetResourceVersion u0 = FormatInt (ms_resourceVersion s + 1) →
  (∀ i id u, stored s' i id u → i = i0 ∧ id = id0 ∧ u = u0 ∨ (i, id) ≠ (i0, id0) ∧ stored s i id u) →
  versions_ok s'.
Proof using.
  intros [Hn Hp Hu] Hrv Hv Hsub. split; [lia| |].
  - intros i id u [(-> & -> & ->)|[_ Hs]]%Hsub; [exists (ms_resourceVersion s + 1)%Z; split; [done|lia]|].
    destruct (Hp i id u Hs) as (n & ? & ?). exists n. split; [done|lia].
  - intros i id u i' id' u' [(-> & -> & ->)|[_ H1]]%Hsub [(-> & -> & ->)|[_ H2]]%Hsub; [done|..].
    + destruct (Hp i' id' u' H2) as (n & En & ?). rewrite Hv, En. intros ?%FormatInt_inj. lia.
    + destruct (Hp i id u H1) as (n & En & ?). rewrite Hv, En. intros ?%FormatInt_inj. lia.
    + by apply Hu.
Qed.

Lemma GetNext_small z : (0 <= z < 2 ^ 63 - 1)%Z → GetNext z = (z + 1)%Z.
Proof using. intros Hz. unfold GetNext, wrap64. rewrite Z.mod_small; lia. Qed.
(** The invariant after a number of steps. *)
Record inv (n : nat) s : Prop := {
  inv_hooks : Forall hook_ok (ms_hooks s);
  inv_rs i rs : ms_storages s !! i = Some rs → rs_ok rs;
  inv_versions : versions_ok s;
  inv_count : (ms_resourceVersion s <= Z.of_nat n)%Z
}.

Definition empty_storages (l : list resourceStorage) : Prop :=
  Forall (λ rs, rs_objects rs = ∅ ∧ rs_locked rs = false ∧ rs_watchers rs = [] ∧ rs_watches rs = []) l.

Lemma empty_rs_ok rs l : empty_storages l → rs ∈ l → rs_ok rs.
Proof using.
  intros Hl Hin. destruct (proj1 (list.Forall_forall _ _) Hl rs Hin) as (Ho & Hlk & Hw & Hs).
  destruct rs as [gr m lk ws sl]. cbn in *. subst. apply rs_ok_empty.
Qed.

(** The storages of a state with one replaced and some new ones. *)
Lemma replaced_lookup (l extra : list resourceStorage) i rs' j x :
  (i < length l)%nat → empty_storages extra →
  <[i := rs']> (l ++ extra) !! j = Some x →
  j = i ∧ x = rs' ∨ j ≠ i ∧ l !! j = Some x ∨ j ≠ i ∧ x ∈ extra ∧ rs_objects x = ∅.
Proof using.
  intros Hi He. rewrite list_lookup_insert_Some. intros [(-> & -> & _)|[Hne Hj]]; [by left|right].
  apply lookup_app_Some in Hj as [Hj|[_ Hj]]; [by left|right].
  apply list_elem_of_lookup_2 in Hj. split; [done|]. split; [done|].
  by destruct (proj1 (list.Forall_forall _ _) He x Hj).
Qed.

Lemma locking_Returns {A} r s (k : resourceStorage → outcome G A) s' a :
  locking r s k = Returns s' a →
  ∃ rs, ms_storages s !! mi_storage r = Some rs ∧ rs_locked rs = false ∧ k rs = Returns s' a.
Proof using.
  unfold locking. destruct (ms_storages s !! _) as [rs|]; [|done].
  destruct (rs_locked rs) eqn:El; [done|]. eauto.
Qed.

(** States that differ in the clock and the uids only. *)
Lemma inv_ext n s s' :
  ms_storages s' = ms_storages s → ms_hooks s' = ms_hooks s →
  ms_resourceVersion s' = ms_resourceVersion s → inv n s → inv n s'.
Proof using.
  intros E1 E2 E3 [Hh Hr [V1 V2 V3] Hc]. split; rewrite ?E2, ?E3; try done; [by rewrite E1|].
  split; rewrite ?E3; unfold stored in *; rewrite ?E1; done.
Qed.

Lemma inv_mono n m s : (n ≤ m)%nat → inv n s → inv m s.
Proof using. intros ? [? ? ? ?]. split; try done. lia. Qed.

Lemma objectKey_kept u u' : kept u u' → objectKey u' = objectKey u.
Proof using. intros [[= _ E1 E2] _]. unfold objectKey. by rewrite E1, E2. Qed.

(** A write of the next version under the object's own name. *)
Lemma inv_put n s i gvk evType u s' a rs :
  (Z.of_nat n < 2 ^ 63 - 1)%Z → inv n s → storable u → evType ≠ "DELETED" →
  ms_storages s !! i = Some rs → rs_locked rs = false →
  commit i gvk evType (stamp s u).1 (λ u' m, <[objectKey u := u']> m) (inl (B := apiError)) (stamp s u).2
    = Returns s' a → inv (Datatypes.S n) s'.
Proof using HU HO.
  intros Hn Hinv [md Hmd] Hty Hi Hl Hc.
  destruct Hinv as [Hh Hr Hv Hcnt]. pose proof (vo_now _ Hv) as Hpos.
  assert (GetNext (ms_resourceVersion s) = (ms_resourceVersion s + 1)%Z) as Hnext by (apply GetNext_small; lia).
  unfold stamp in Hc. cbn [fst snd] in Hc. rewrite Hnext in Hc.
  eapply commit_effect in Hc
    as (ev & slots & ws & extra & Hk & Et & Ens & _ & Hnot & Es & Hx & Erv & Ehk); [|exact Hh|exact Hi].
  cbn [ms_storages ms_resourceVersion ms_hooks] in Es, Erv, Ehk.
  assert (objectKey (we_internalObject ev) = objectKey u) as Hkey.
  { rewrite (objectKey_kept _ _ Hk). unfold objectKey.
    pose proof (mo_id_rv O HO (FormatInt (ms_resourceVersion s + 1)) u) as [= _ -> ->]. done. }
  assert (<[objectKey u := we_internalObject ev]> (rs_objects rs) = replay_event (rs_objects rs) ev) as Ereplay.
  { unfold replay_event. rewrite decide_False by congruence. by rewrite Hkey. }
  rewrite Ereplay in Es.
  assert (rs_ok (mkResourceStorage (rs_GroupResource rs) (replay_event (rs_objects rs) ev) false ws slots)) as Hok'.
  { apply rs_ok_event; [by eapply Hr|done| |done]. rewrite Hkey, Ens.
    pose proof (mo_id_rv O HO (FormatInt (ms_resourceVersion s + 1)) u) as [= _ -> _]. done. }
  assert ((i < length (ms_storages s))%nat) as Hlt by by eapply lookup_lt_Some.
  split.
  - by rewrite Ehk.
  - intros j x. rewrite Es. intros [[-> ->]|[[_ ?]|(_ & ? & _)]]%replaced_lookup; eauto using empty_rs_ok.
  - eapply (versions_ok_put s _ i (objectKey u) (we_internalObject ev)); [done|done| |].
    + destruct Hk as [_ ->]. by eapply (mo_rv O HO).
    + intros j id v (x & Hx1 & Hx2). rewrite Es in Hx1.
      apply replaced_lookup in Hx1 as [[-> ->]|[[Hne Hj]|(Hne & _ & He)]]; [|right|rewrite He in Hx2|done|done].
      * cbn in Hx2. rewrite <- Ereplay in Hx2. apply lookup_insert_Some in Hx2 as [[<- <-]|[Hne Hx2]]; [by left|right].
        split; [congruence|]. by exists rs.
      * split; [congruence|]. by exists x.
      * by rewrite lookup_empty in Hx2.
  - lia.
Qed.
Lemma inv_delete n s r id s' a : inv n s → DeleteObject r id s = Returns s' a → inv n s'.
Proof using HU HO.
  intros [Hh Hr Hv Hcnt] (rs & Hi & Hl & Hc)%locking_Returns.
  destruct (rs_objects rs !! id) as [u|] eqn:Hid; [|by injection Hc as <- <-].
  pose proof (ro_keyed _ (Hr _ _ Hi) id u Hid) as Hkey.
  eapply commit_effect in Hc
    as (ev & slots & ws & extra & Hk & Et & Ens & _ & Hnot & Es & Hx & Erv & Ehk); [|exact Hh|exact Hi].
  assert (objectKey (we_internalObject ev) = id) as Hkey' by (by rewrite (objectKey_kept _ _ Hk)).
  assert (delete id (rs_objects rs) = replay_event (rs_objects rs) ev) as Ereplay.
  { unfold replay_event. rewrite decide_True by done. by rewrite Hkey'. }
  rewrite Ereplay in Es.
  assert (rs_ok (mkResourceStorage (rs_GroupResource rs) (replay_event (rs_objects rs) ev) false ws slots)) as Hok'.
  { apply rs_ok_event; [by eapply Hr|done| |done]. by rewrite Hkey', Ens, <- Hkey. }
  assert ((mi_storage r < length (ms_storages s))%nat) as Hlt by by eapply lookup_lt_Some.
  split.
  - by rewrite Ehk.
  - intros j x. rewrite Es. intros [[-> ->]|[[_ ?]|(_ & ? & _)]]%replaced_lookup; eauto using empty_rs_ok.
  - apply (versions_ok_sub s); [done|lia|]. intros j id' v (x & Hx1 & Hx2). rewrite Es in Hx1.
    apply replaced_lookup in Hx1 as [[-> ->]|[[Hne Hj]|(Hne & _ & He)]]; [|by exists x|rewrite He in Hx2|done|done].
    + cbn in Hx2. rewrite <- Ereplay in Hx2. apply lookup_delete_Some in Hx2 as [_ Hx2]. by exists rs.
    + by rewrite lookup_empty in Hx2.
  - lia.
Qed.

(** A storage replaced by one with the same objects. *)
Lemma inv_storage n s i rs rs' :
  inv n s → ms_storages s !! i = Some rs → rs_objects rs' = rs_objects rs → rs_ok rs' →
  inv n (with_storage s i rs').
Proof using.
  intros [Hh Hr Hv Hc] Hi Ho Hok. split; [done| | |done].
  - intros j x. cbn. intros [(<- & <- & _)|[_ ?]]%list_lookup_insert_Some; eauto.
  - apply (versions_ok_sub s); [done|cbn; lia|]. intros j id u (x & Hx1 & Hx2). cbn in Hx1.
    apply list_lookup_insert_Some in Hx1 as [(<- & <- & _)|[_ ?]]; [exists rs; by rewrite <- Ho|by exists x].
Qed.

Lemma inv_register n s r ns cb s' a : inv n s → watchRegister r ns cb s = Returns s' a → inv n s'.
Proof using.
  intros Hinv (rs & Hi & Hl & Hc)%locking_Returns. cbv zeta in Hc.
  destruct (takeSlot _ _) as [slots pos] eqn:Ht. injection Hc as <- <-.
  eapply inv_storage; [done|done|done|]. eapply rs_ok_register; [by eapply inv_rs|done|done].
Qed.

Lemma inv_backfill n s r j pos rs w s' a :
  inv n s → ms_storages s !! mi_storage r = Some rs → rs_watchers rs !! j = Some w →
  w_phase w = Backfilling → watchBackfill r j pos s = Returns s' a → inv n s'.
Proof using.
  intros Hinv Hi Hj Hp (rs' & Hi' & Hl & Hc)%locking_Returns. simplify_eq. rewrite Hj in Hc.
  destruct (backfill w _) as [w' [e|]] eqn:Hb; injection Hc as <- <-;
    (eapply inv_storage; [done|done|done|]).
  - eapply rs_ok_abandoned; [by eapply inv_rs|done|done].
  - eapply rs_ok_backfilled; [by eapply inv_rs|done..].
Qed.

Lemma inv_type n s known gvk resource scope : inv n s → inv n (RegisterType known gvk resource scope s).
Proof using.
  intros [Hh Hr Hv Hc].
  assert (∀ i rs, ms_storages (RegisterType known gvk resource scope s) !! i = Some rs →
    ms_storages s !! i = Some rs ∨ rs_objects rs = ∅ ∧ rs_ok rs) as Hlook.
  { intros i rs. cbn. intros [?|[_ [_ <-]%list_lookup_singleton_Some]]%lookup_app_Some; [by left|right].
    split; [done|apply rs_ok_empty]. }
  split; [done| | |done].
  - intros i rs [?|[_ ?]]%Hlook; eauto.
  - apply (versions_ok_sub s); [done|cbn; lia|].
    intros i id u (rs & [?|[He _]]%Hlook & Hx); [by exists rs|]. by rewrite He, lookup_empty in Hx.
Qed.

Lemma inv_step n s s' : (Z.of_nat n < 2 ^ 63 - 1)%Z → inv n s → filed_step s s' → inv (Datatypes.S n) s'.
Proof using HU HO.
  intros Hn Hinv (st & Hstep & Hfiled).
  destruct Hstep as [r id u s s' a Hc|r id u s s' a Hc|r id s s' a Hc|r ns cb s s' a Hc|r j pos rs w s s' a Hi Hj Hp Hc|known gvk resource scope s|h s Hh].
  - apply list.Forall_singleton in Hfiled as [Hid Hu]. cbn in Hid, Hu. subst id.
    apply locking_Returns in Hc as (rs & Hi & Hl & Hc).
    destruct (rs_objects rs !! objectKey u); [injection Hc as <- <-; eapply inv_mono; [|done]; lia|].
    unfold TestClock_Now in Hc. destruct (NewUID (ms_uids s)) as [uid uids].
    set (u1 := m_SetUID uid (m_SetCreationTimestamp (ms_clock s) u)) in *.
    set (s1 := mkMemoryStorage _ _ _ _ _ (ms_resourceVersion s)) in *.
    assert (objectKey u = objectKey u1) as Hkey.
    { unfold u1, objectKey. pose proof (mo_id_uid O HO uid (m_SetCreationTimestamp (ms_clock s) u)) as [= _ -> ->].
      pose proof (mo_id_time O HO (ms_clock s) u) as [= _ -> ->]. done. }
    rewrite Hkey in Hc. eapply (inv_put n s1 _ _ _ u1); [done| | | |exact Hi|exact Hl|exact Hc]; [|
      |done].
    + by eapply inv_ext; [..|exact Hinv].
    + destruct Hu as [x Hx]. destruct (mo_md_time O HO (ms_clock s) u x Hx) as [y Hy].
      by eapply (mo_md_uid O HO).
  - apply list.Forall_singleton in Hfiled as [Hid Hu]. cbn in Hid, Hu. subst id.
    apply locking_Returns in Hc as (rs & Hi & Hl & Hc).
    destruct (rs_objects rs !! objectKey u); [|injection Hc as <- <-; eapply inv_mono; [|done]; lia].
    eapply inv_put; [done|exact Hinv|done| |exact Hi|exact Hl|exact Hc]. done.
  - eapply inv_mono; [|by eapply inv_delete]. lia.
  - eapply inv_mono; [|by eapply inv_register]. lia.
  - eapply inv_mono; [|by eapply inv_backfill]. lia.
  - eapply inv_mono; [|by apply inv_type]. lia.
  - eapply inv_mono; [|destruct Hinv as [Hhs Hr Hv Hc]; split; [|exact Hr| |exact Hc]]; [lia| |].
    + cbn. apply list.Forall_app. split; [done|]. by constructor.
    + by apply (versions_ok_sub s).
Qed.

Lemma reach_inv n s : (Z.of_nat n < 2 ^ 63)%Z → reach n s → inv n s.
Proof using HU HO.
  intros Hn (stores & Hr & Hf). induction Hr as [s Hrv Hh He|n stores st s s' Hr IH Hst].
  - split; [by rewrite Hh| | |lia].
    + intros i rs Hi. eapply empty_rs_ok; [exact He|]. by eapply list_elem_of_lookup_2.
    + assert (∀ i id u, ¬ stored s i id u) as Hno.
      { intros i id u (rs & Hi & Hid). apply list_elem_of_lookup_2 in Hi.
        destruct (proj1 (list.Forall_forall _ _) He rs Hi) as [E _]. by rewrite E, lookup_empty in Hid. }
      split; [lia| |]; intros; exfalso; by eapply Hno.
  - apply list.Forall_app in Hf as [Hf Hfst]. eapply inv_step; [lia|by apply IH; [lia|]|by exists st].
Qed.

(** Resource versions are unique. In every state that less than 2^63
    operations lead to, by whatever callers, with any of the hooks, each object
    of any resource carries a version the clock has shown, and no two objects
    carry the same: a version seen twice is the same object unchanged. *)
Theorem resource_versions_unique n s :
  (Z.of_nat n < 2 ^ 63)%Z → reach n s →
  (∀ i id u, stored s i id u →
     ∃ v, m_GetResourceVersion u = FormatInt v ∧ (0 < v <= ms_resourceVersion s)%Z)
  ∧ (∀ i id u i' id' u', stored s i id u → stored s i' id' u' →
       m_GetResourceVersion u = m_GetResourceVersion u' → i = i' ∧ id = id').
Proof using HU HO. intros Hn Hr. destruct (inv_versions _ _ (reach_inv _ _ Hn Hr)) as [_ H1 H2]. done. Qed.

(** C14. A watch shows what is stored, when the callers file what they store.
    Take any run of the storage's operations in which every create and update
    stores an object under its own name and namespace, with metadata that is a
    map. A client that followed the events of a watch that is waiting, from the
    list at its start through every change since, in whatever order lists,
    writes and other watches came, holds exactly the objects stored in the
    watched namespace, at their current content. The handlers of PUT and PATCH
    do not check that a body is about the object of the path; a run of theirs is
    covered when the bodies are ([mockserver.traffic_consistent]), and without
    the condition the watch is wrong ([misfiled_update_diverges]). *)
Theorem watch_consistent n stores s i rs j w :
  (Z.of_nat n < 2 ^ 63)%Z → ran n stores s →
  Forall (λ x, x.1 = objectKey x.2 ∧ storable x.2) stores →
  ms_storages s !! i = Some rs → rs_watchers rs !! j = Some w → w_phase w = Waiting →
  replay (w_received w) = view (w_Namespace w) (rs_objects rs).
Proof using HU HO.
  intros Hn Hr Hf Hi Hj Hp. assert (reach n s) as Hreach by (by exists stores).
  pose proof (ro_watch _ (inv_rs _ _ (reach_inv _ _ Hn Hreach) _ _ Hi) _ _ Hj) as Hw.
  unfold watch_ok in Hw. by rewrite Hp in Hw.
Qed.

(** The objects of a resource; [None] for a dangling pointer. *)
Definition objects_of s (r : memoryResourceInfo) : option (gmap Kube.NamespacedName jmap) :=
  rs_objects <$> ms_storages s !! mi_storage r.

Lemma objects_after s s' i rs rs' extra r :
  ms_storages s !! i = Some rs → ms_storages s' = <[i := rs']> (ms_storages s ++ extra) →
  (mi_storage r < length (ms_storages s))%nat →
  objects_of s' r = if decide (mi_storage r = i) then Some (rs_objects rs') else objects_of s r.
Proof using.
  intros Hi Es Hr. unfold objects_of. rewrite Es. case_decide as Heq.
  - rewrite Heq, list_lookup_insert_eq; [done|]. rewrite length_app. apply lookup_lt_Some in Hi. lia.
  - rewrite list_lookup_insert_ne by done. by rewrite lookup_app_l.
Qed.

(** C39. The storage of a resource is a map. A create puts the object under its
    id where there was none, with the next resource version, and answers it as
    stored; an update replaces the object there is; a delete removes and
    answers it. Each leaves every other object of the resource alone, and a
    refused operation changes nothing: it answers AlreadyExists for a create
    over an object, NotFound for the delete of nothing, and AlreadyExists, not
    NotFound, for the update of nothing. *)
Theorem storage_is_map s r id u s' a m :
  Forall hook_ok (ms_hooks s) → storable u → objects_of s r = Some m →
  let gr := GVR_GroupResource (mi_gvr r) in
  (CreateObject r id u s = Returns s' a →
     if decide (is_Some (m !! id)) then s' = s ∧ a = inr (AlreadyExists gr (nn_Name id))
     else ∃ u', a = inl u' ∧ objects_of s' r = Some (<[id := u']> m) ∧ identity u' = identity u
       ∧ m_GetResourceVersion u' = FormatInt (GetNext (ms_resourceVersion s)))
  ∧ (UpdateObject r id u s = Returns s' a →
     if decide (is_Some (m !! id)) then
       ∃ u', a = inl u' ∧ objects_of s' r = Some (<[id := u']> m) ∧ identity u' = identity u
         ∧ m_GetResourceVersion u' = FormatInt (GetNext (ms_resourceVersion s))
     else s' = s ∧ a = inr (AlreadyExists gr (nn_Name id)))
  ∧ (DeleteObject r id s = Returns s' a →
     match m !! id with
     | Some v => ∃ v', a = inl v' ∧ identity v' = identity v ∧ objects_of s' r = Some (delete id m)
     | None => s' = s ∧ a = inr (NotFound gr (nn_Name id))
     end).
Proof using HU HO.
  intros Hh [x Hx] Hm gr. unfold objects_of in Hm.
  assert (∀ rs, ms_storages s !! mi_storage r = Some rs → rs_objects rs = m
    ∧ (mi_storage r < length (ms_storages s))%nat) as Hrs.
  { intros rs Hi. rewrite Hi in Hm. cbn in Hm. split; [congruence|]. by eapply lookup_lt_Some. }
  split; [|split].
  - intros (rs & Hi & Hl & Hc)%locking_Returns. destruct (Hrs rs Hi) as [<- Hlt].
    destruct (rs_objects rs !! id) as [v|].
    { rewrite decide_True by eauto. by injection Hc as <- <-. }
    rewrite decide_False by (by intros []). unfold TestClock_Now in Hc.
    destruct (NewUID (ms_uids s)) as [uid uids]. unfold stamp in Hc. cbn [ms_resourceVersion] in Hc.
    eapply commit_effect in Hc
      as (ev & slots & ws & extra & [Hid Hrv] & _ & _ & -> & _ & Es & _ & _ & _); [|exact Hh|exact Hi].
    exists (we_internalObject ev). split; [done|]. split; [|split].
    + rewrite (objects_after s s' _ _ _ _ r Hi Es Hlt). by rewrite decide_True.
    + rewrite Hid, (mo_id_rv O HO), (mo_id_uid O HO). apply (mo_id_time O HO).
    + rewrite Hrv. destruct (mo_md_time O HO (ms_clock s) u x Hx) as [y Hy].
      destruct (mo_md_uid O HO uid _ y Hy) as [z Hz]. by eapply (mo_rv O HO).
  - intros (rs & Hi & Hl & Hc)%locking_Returns. destruct (Hrs rs Hi) as [<- Hlt].
    destruct (rs_objects rs !! id) as [v|];
      [|rewrite decide_False by (by intros []); by injection Hc as <- <-].
    rewrite decide_True by eauto. unfold stamp in Hc.
    eapply commit_effect in Hc
      as (ev & slots & ws & extra & [Hid Hrv] & _ & _ & -> & _ & Es & _ & _ & _); [|exact Hh|exact Hi].
    exists (we_internalObject ev). split; [done|]. split; [|split].
    + rewrite (objects_after s s' _ _ _ _ r Hi Es Hlt). by rewrite decide_True.
    + by rewrite Hid, (mo_id_rv O HO).
    + rewrite Hrv. by eapply (mo_rv O HO).
  - intros (rs & Hi & Hl & Hc)%locking_Returns. destruct (Hrs rs Hi) as [<- Hlt].
    destruct (rs_objects rs !! id) as [v|]; [|by injection Hc as <- <-].
    eapply commit_effect in Hc
      as (ev & slots & ws & extra & [Hid Hrv] & _ & _ & -> & _ & Es & _ & _ & _); [|exact Hh|exact Hi].
    exists (we_internalObject ev). split; [done|]. split; [done|].
    rewrite (objects_after s s' _ _ _ _ r Hi Es Hlt). by rewrite decide_True.
Qed.

(** The lock of a resource is held for good. *)
Definition stuck s (i : nat) : Prop := ∃ rs, ms_storages s !! i = Some rs ∧ rs_locked rs = true.

Lemma stuck_blocks {A} s r (k : resourceStorage → outcome G A) :
  stuck s (mi_storage r) → locking r s k = Blocks s.
Proof using. intros (rs & Hi & Hl). unfold locking. by rewrite Hi, Hl. Qed.

(** A watch that fails during its first list makes its resource unusable:
    it returns with the lock held, and every later get, list, create, update,
    delete or watch of any caller on that resource waits for ever. *)
Theorem failed_list_deadlocks r j pos s s' e :
  watchBackfill r j pos s = Returns s' (Some e) →
  ∀ r', mi_storage r' = mi_storage r →
  (∀ id, GetObject r' id s' = Blocks s') ∧ (∀ ns, ListObjects r' ns s' = Blocks s')
  ∧ (∀ id u, CreateObject r' id u s' = Blocks s') ∧ (∀ id u, UpdateObject r' id u s' = Blocks s')
  ∧ (∀ id, DeleteObject r' id s' = Blocks s')
  ∧ (∀ ns cb, watchRegister r' ns cb s' = Blocks s').
Proof using.
  intros (rs & Hi & Hl & Hc)%locking_Returns r' Hr'.
  destruct (rs_watchers rs !! j) as [w|]; [|done]. destruct (backfill w _) as [w' [e'|]]; [|done].
  injection Hc as <- <-.
  assert (stuck (with_storage s (mi_storage r) (with_watches rs true (<[j := w']> (rs_watchers rs))
    (<[pos := None]> (rs_watches rs)))) (mi_storage r')) as Hst.
  { eexists. split; [cbn; rewrite Hr', list_lookup_insert_eq; [reflexivity|by eapply lookup_lt_Some]|reflexivity]. }
  repeat split; intros; by apply stuck_blocks.
Qed.

(** A watch whose callback fails before its list is done. *)
Lemma notify_early_failure ev slots ws j w e :
  NoDup (active slots) → j ∈ active slots → ws !! j = Some w → wants w (we_Namespace ev) →
  w_phase w = Backfilling → w_callback w (w_received w) ev = Some e → notify ev slots ws = None.
Proof using.
  intros Hnd Hin Hj Hwant Hp Hcb.
  destruct (notify ev slots ws) as [[slots' ws']|] eqn:Hn; [exfalso|done].
  revert ws slots' ws' Hj Hn. induction slots as [|slot slots IH]; intros ws slots' ws' Hj; [by apply elem_of_nil in Hin|].
  cbn [notify]. rewrite active_cons in Hnd, Hin. destruct slot as [i|]; cbn [mbind option_bind].
  - apply list.NoDup_cons in Hnd as [Hni Hnd]. apply elem_of_cons in Hin as [->|Hin].
    + rewrite Hj. cbn. rewrite decide_False by (unfold wants in Hwant; naive_solver). by rewrite Hcb, Hp.
    + assert (j ≠ i) as Hne by (intros ->; done).
      destruct (ws !! i) as [w0|]; cbn; [case_decide; [|destruct (w_callback w0 _ _); [destruct (w_phase w0); try done|]]|].
      all: match goal with |- context [notify ?x ?y ?z] => destruct (notify x y z) as [[]|] eqn:E end; [|done].
      all: intros _; eapply IH; [done|done| |exact E]; rewrite ?list_lookup_insert_ne; done.
  - destruct (notify ev slots ws) as [[]|] eqn:E; [|done]. intros _. by eapply IH.
Qed.
(** A watch whose client goes away while its first list is still to come
    stops its resource too. The write that meets it waits for the watch to take
    the error, with the lock held that the watch needs before it gets there:
    neither goes on, and nobody else does on that resource. *)
Theorem early_failure_deadlocks {A} n i gvk evType u store (answer : jmap → A) s s1 ev rs j w e :
  (Z.of_nat n < 2 ^ 63)%Z → reach n s →
  fireOnWatchEvent (ms_hooks s) (BuildWatchEvent gvk evType u) s = Some (s1, ev) →
  ms_storages s !! i = Some rs → rs_locked rs = false →
  rs_watchers rs !! j = Some w → w_phase w = Backfilling → wants w (we_Namespace ev) →
  w_callback w (w_received w) ev = Some e →
  ∃ s2, commit i gvk evType u store answer s = Blocks s2 ∧ stuck s2 i.
Proof using HU HO.
  intros Hn Hr Hf Hi Hl Hj Hp Hwant Hcb. pose proof (reach_inv _ _ Hn Hr) as Hinv.
  pose proof (inv_rs _ _ Hinv _ _ Hi) as Hok.
  destruct (fireOnWatchEvent_ok HU HO _ _ _ _ _ (inv_hooks _ _ Hinv) Hf) as ([(extra & Es & _) _] & _).
  unfold commit. rewrite Hf, Es, (lookup_app_l_Some _ _ _ _ Hi). cbn [with_objects rs_watches rs_watchers].
  destruct (ro_active _ Hok j w Hl Hj) as [[e' He]|Hact]; [congruence|].
  rewrite (notify_early_failure ev _ _ j w e); [|by apply (ro_nodup _ Hok)|done..].
  eexists. split; [reflexivity|]. eexists. split; [cbn; rewrite list_lookup_insert_eq; [reflexivity|]|reflexivity].
  rewrite Es, length_app. apply lookup_lt_Some in Hi. lia.
Qed.
End runs.

(** ** Custom resource definitions *)

Section crds.
Context `{U : Unstructured} {G : Type}.
Implicit Types s : MemoryStorage G.

Lemma addVersions_resources g k r sc vs s s' :
  addVersions g k r sc vs s = (s', None) →
  ∃ infos, length infos = length vs
    ∧ ms_resources s' = ms_resources s ++ infos
    ∧ ∀ s2, ∃ infos2, (addVersions g k r sc vs s2).2 = None
        ∧ ms_resources (addVersions g k r sc vs s2).1 = ms_resources s2 ++ infos2
        ∧ (λ x, (mi_gvr x, gvk_Kind (mi_gvk x), mi_Namespaced x)) <$> infos2
          = (λ x, (mi_gvr x, gvk_Kind (mi_gvk x), mi_Namespaced x)) <$> infos.
Proof using.
  revert s. induction vs as [|v vs IH]; intros s; cbn [addVersions].
  { intros [= <-]. exists []. rewrite app_nil_r. split; [done|]. split; [done|].
    intros s2. exists []. by rewrite app_nil_r. }
  destruct v; try done. case_decide; [done|]. case_decide; [|done]. intros Hr.
  destruct (IH _ Hr) as (infos & Hlen & Ei & Hall).
  eexists (_ :: infos). split; [cbn; by rewrite Hlen|]. split; [rewrite Ei; cbn; by rewrite <- (assoc (++))|].
  intros s2. destruct (Hall (addResource (mkGVK g (nestedStringOr m ["name"]) k) r
    (bool_decide (sc = "Namespaced")) None s2)) as (infos2 & ? & E2 & Ef).
  eexists (_ :: infos2). split; [done|]. split; [rewrite E2; cbn; by rewrite <- (assoc (++))|].
  rewrite !fmap_cons, Ef. done.
Qed.

Lemma find_app {A} (f : A → bool) l1 l2 :
  List.find f (l1 ++ l2) = match List.find f l1 with Some x => Some x | None => List.find f l2 end.
Proof using. induction l1 as [|x l1 IH]; cbn; [done|]. by destruct (f x). Qed.

(** Every event of a definition registers its types again, one that only
    changes the status of the definition or deletes it included. The objects
    stored before stay reachable, since the first registration of a resource
    is the one that is found; but discovery lists the resource once per event. *)
Theorem crd_events_accumulate ev s s1 :
  UpdateCRD ev s = (s1, None) → AllResources s1 ≠ AllResources s →
  ∃ new, new ≠ [] ∧ AllResources s1 = AllResources s ++ new
    ∧ AllResources (UpdateCRD ev s1).1 = AllResources s ++ new ++ new
    ∧ ∀ gr r, FindResource gr s1 = Some r → FindResource gr (UpdateCRD ev s1).1 = Some r.
Proof using.
  unfold UpdateCRD. repeat (case_decide; [done|]).
  destruct (nestedFieldNoCopy _ _) as [[[]|]|]; try done. intros Hr Hne.
  destruct (addVersions_resources _ _ _ _ _ _ _ Hr) as (infos & _ & E1 & Hall).
  destruct (Hall s1) as (infos2 & _ & E2 & Ef). unfold AllResources in *.
  rewrite E2, E1, !fmap_app, Ef. eexists. split; [|split; [reflexivity|split; [by rewrite (assoc (++))|]]].
  - intros Hnil. apply Hne. by rewrite E1, fmap_app, Hnil, app_nil_r.
  - intros gr r. unfold FindResource. rewrite E2, find_app. by intros ->.
Qed.
End crds.

(** ** Examples *)

(** A field of the metadata, where it is a map. *)
Definition set_meta (field : string) (v : json) (m : jmap) : jmap :=
  match m !! "metadata" with
  | Some (JObj x) => <["metadata" := JObj (<[field := v]> x)]> m
  | _ => m
  end.

Definition example_metaops : ObjectMetaOps := {|
  m_GetResourceVersion m := str_at m ["metadata"; "resourceVersion"];
  m_SetResourceVersion v := set_meta "resourceVersion" (JStr v);
  m_SetUID v := set_meta "uid" (JStr v);
  m_SetCreationTimestamp t := set_meta "creationTimestamp" (JNum t);
  m_GetGeneration m :=
    match nestedFieldNoCopy m ["metadata"; "generation"] with Ok (Some (JNum g)) => g | _ => 0%Z end;
  m_SetGeneration g := set_meta "generation" (JNum g)
|}.

Lemma str_at_eq m m' f fs : m !! f = m' !! f → str_at m (f :: fs) = str_at m' (f :: fs).
Proof. intros E. unfold str_at, nestedFieldNoCopy. cbn [nestedField]. by rewrite E. Qed.

Lemma example_identity m m' :
  m !! "kind" = m' !! "kind" → m !! "apiVersion" = m' !! "apiVersion" →
  str_at m ["metadata"; "namespace"] = str_at m' ["metadata"; "namespace"] →
  str_at m ["metadata"; "name"] = str_at m' ["metadata"; "name"] →
  @identity example_unstructured m = @identity example_unstructured m'.
Proof.
  intros E1 E2 E3 E4. unfold identity. cbn [u_GVK u_GetNamespace u_GetName example_unstructured].
  by rewrite (str_at_eq m m' "kind" [] E1), (str_at_eq m m' "apiVersion" [] E2), E3, E4.
Qed.

Lemma set_meta_other field v m f :
  f ≠ field → str_at (set_meta field v m) ["metadata"; f] = str_at m ["metadata"; f].
Proof.
  intros Hf. unfold set_meta, str_at, nestedFieldNoCopy. cbn [nestedField].
  destruct (m !! "metadata") as [[]|] eqn:E; rewrite ?E; try done.
  rewrite lookup_insert_eq, lookup_insert_ne by congruence. done.
Qed.

Lemma set_meta_outside field v m g : g ≠ "metadata" → set_meta field v m !! g = m !! g.
Proof. intros Hg. unfold set_meta. repeat case_match; try done. by rewrite lookup_insert_ne. Qed.

Lemma set_meta_identity field v m :
  field ≠ "namespace" → field ≠ "name" →
  @identity example_unstructured (set_meta field v m) = @identity example_unstructured m.
Proof.
  intros H1 H2. apply example_identity; [by apply set_meta_outside..|by apply set_meta_other|by apply set_meta_other].
Qed.

Lemma set_meta_metadata field v m x :
  m !! "metadata" = Some (JObj x) → ∃ y, set_meta field v m !! "metadata" = Some (JObj y).
Proof. intros E. unfold set_meta. rewrite E, lookup_insert_eq. eauto. Qed.

Lemma setNestedField_frame m v f fs g : g ≠ f → (setNestedField m v (f :: fs)).1 !! g = m !! g.
Proof.
  intros Hg. destruct fs as [|f' fs].
  - cbn [setNestedField fst]. by rewrite lookup_insert_ne.
  - rewrite setNested_cons. destruct (m !! f) as [[]|]; try done.
    all: match goal with |- context [setNestedField ?a ?b ?c] => destruct (setNestedField a b c) end;
      cbn [fst]; by rewrite lookup_insert_ne.
Qed.

Lemma example_metaops_ok : @metaops_ok example_unstructured example_metaops.
Proof.
  split; cbn [m_GetResourceVersion m_SetResourceVersion m_SetUID m_SetCreationTimestamp m_GetGeneration
    m_SetGeneration example_metaops u_SetLabels u_SetNestedField example_unstructured].
  - intros v m x E. unfold set_meta. rewrite E. unfold str_at, nestedFieldNoCopy. cbn [nestedField].
    by rewrite lookup_insert_eq, lookup_insert_eq.
  - intros v m. by apply set_meta_identity.
  - intros v m. by apply set_meta_identity.
  - intros v m. by apply set_meta_identity.
  - intros v m. by apply set_meta_identity.
  - intros v m x. apply set_meta_metadata.
  - intros v m x. apply set_meta_metadata.
  - intros v m x. apply set_meta_metadata.
  - intros m m'. apply str_at_eq.
  - intros m m' E1 E2 E3. apply example_identity; [done|done|by apply str_at_eq|by apply str_at_eq].
  - intros l m. apply set_strings_str_at. simpl. naive_solver.
  - intros m v f fs g. apply setNestedField_frame.
Qed.

Definition example_storage : MemoryStorage Z :=
  NewMemoryStorage 0 1%Z [(mkGVK "" "v1" "ConfigMap", "configmaps", "namespace", true)].

Definition example_resource : memoryResourceInfo :=
  mkResourceInfo (mkGVK "" "v1" "ConfigMap") (mkGVR "" "v1" "configmaps")
    (mkGVK "" "v1" "ConfigMapList") true (Some true) 0.

Definition example_configmap : jmap :=
  {["apiVersion" := JStr "v1"; "kind" := JStr "ConfigMap";
    "metadata" := JObj {["name" := JStr "settings"; "namespace" := JStr "prod"]}]}.

Definition state_of {A : Type} (o : outcome Z A) : MemoryStorage Z :=
  match o with Returns s _ | Blocks s => s | Fatal => example_storage end.

Definition example_create (s : MemoryStorage Z) : outcome Z (jmap + apiError) :=
  @CreateObject example_unstructured example_metaops Z TestUIDs example_resource
    (@objectKey example_unstructured example_configmap) example_configmap s.

(** A watch of everything, then its list, then a write. *)
Definition example_registered : MemoryStorage Z :=
  state_of (@watchRegister Z example_resource "" (λ _ _, None) example_storage).
Definition example_listed : MemoryStorage Z :=
  state_of (@watchBackfill example_unstructured canonical_range Z example_resource 0 0 example_registered).
Definition example_written : MemoryStorage Z := state_of (example_create example_listed).

Lemma example_storable : storable example_configmap.
Proof. eexists. vm_compute. reflexivity. Qed.

Lemma outcome_state {A} (o : outcome Z A) :
  match o with Returns _ _ => True | _ => False end → ∃ a, o = Returns (state_of o) a.
Proof. destruct o; try done. eauto. Qed.

Lemma example_ran_listed :
  @ran example_unstructured example_metaops canonical_range Z TestUIDs 2 [] example_listed.
Proof.
  apply (ran_step 1 [] [] example_registered); [apply (ran_step 0 [] [] example_storage)|].
  - apply ran_start; [reflexivity|reflexivity|]. by repeat constructor.
  - destruct (outcome_state (@watchRegister Z example_resource "" (λ _ _, None) example_storage)) as [a E];
      [vm_compute; exact I|]. by eapply ss_register.
  - destruct (outcome_state (@watchBackfill example_unstructured canonical_range Z example_resource 0 0 example_registered))
      as [a E]; [vm_compute; exact I|]. eapply ss_backfill; [| | |exact E]; vm_compute; reflexivity.
Qed.

Definition example_stores : list (Kube.NamespacedName * jmap) :=
  [(@objectKey example_unstructured example_configmap, example_configmap)].

Lemma example_ran :
  @ran example_unstructured example_metaops canonical_range Z TestUIDs 3 example_stores example_written.
Proof.
  apply (ran_step 2 [] example_stores example_listed); [exact example_ran_listed|].
  destruct (outcome_state (example_create example_listed)) as [a E]; [vm_compute; exact I|].
  eapply ss_create. exact E.
Qed.

Lemma example_filed : Forall (@filed example_unstructured) example_stores.
Proof. constructor; [split; [reflexivity|exact example_storable]|constructor]. Qed.

Lemma example_reach :
  @reach example_unstructured example_metaops canonical_range Z TestUIDs 3 example_written.
Proof. exists example_stores. split; [exact example_ran|exact example_filed]. Qed.

Lemma resource_versions_unique_witness :
  ∃ u v, @stored Z example_written 0 (mkNN "prod" "settings") u
    ∧ @m_GetResourceVersion example_metaops u = FormatInt v ∧ (0 < v <= 1)%Z.
Proof.
  assert (∃ u, @stored Z example_written 0 (mkNN "prod" "settings") u) as [u Hu].
  { eexists. eexists. split; vm_compute; reflexivity. }
  destruct (@resource_versions_unique example_unstructured example_metaops canonical_range Z TestUIDs
    example_unstructured_ok example_metaops_ok 3 example_written ltac:(lia) example_reach) as [Hv _].
  destruct (Hv 0%nat _ u Hu) as (v & Ev & Hb). exists u, v. split; [exact Hu|]. split; [exact Ev|].
  exact Hb.
Defined.

Definition example_rs : resourceStorage :=
  default (mkResourceStorage (mkGR "" "") ∅ true [] []) (ms_storages example_written !! 0%nat).
Definition example_watch : watch :=
  default (mkWatch (mkGVK "" "" "") "" (λ _ _, None) Backfilling []) (rs_watchers example_rs !! 0%nat).

Lemma watch_consistent_witness :
  @replay example_unstructured (w_received example_watch) = view "" (rs_objects example_rs)
  ∧ length (w_received example_watch) = 1%nat.
Proof.
  split; [|vm_compute; reflexivity].
  refine (@watch_consistent example_unstructured example_metaops canonical_range Z TestUIDs
    example_unstructured_ok example_metaops_ok 3 example_stores example_written 0 example_rs 0 example_watch
    ltac:(lia) example_ran example_filed _ _ _); vm_compute; reflexivity.
Defined.

(** An update of "settings" with an object named "other", which the handler of
    PUT lets through. *)
Definition example_other : jmap :=
  {["apiVersion" := JStr "v1"; "kind" := JStr "ConfigMap";
    "metadata" := JObj {["name" := JStr "other"; "namespace" := JStr "prod"]}]}.
Definition example_misfile : outcome Z (jmap + apiError) :=
  @UpdateObject example_unstructured example_metaops Z example_resource (mkNN "prod" "settings")
    example_other example_written.
Definition example_misfiled : MemoryStorage Z := state_of example_misfile.

(** The condition is needed: after such an update the watch still shows the old
    object, and shows the new one under a name nobody can get it by. *)
Lemma misfiled_update_diverges :
  ∃ rs w, @ran example_unstructured example_metaops canonical_range Z TestUIDs 4
      (example_stores ++ [(mkNN "prod" "settings", example_other)]) example_misfiled
    ∧ ms_storages example_misfiled !! 0%nat = Some rs ∧ rs_watchers rs !! 0%nat = Some w
    ∧ w_phase w = Waiting ∧ size (rs_objects rs) = 1%nat
    ∧ size (@replay example_unstructured (w_received w)) = 2%nat.
Proof.
  destruct (ms_storages example_misfiled !! 0%nat) as [rs|] eqn:Hi; [|vm_compute in Hi; discriminate].
  destruct (rs_watchers rs !! 0%nat) as [w|] eqn:Hj.
  2:{ vm_compute in Hi. injection Hi as <-. vm_compute in Hj. discriminate. }
  exists rs, w. split; [|split; [done|split; [done|]]].
  - eapply (ran_step 3); [exact example_ran|].
    destruct (outcome_state example_misfile) as [a E]; [vm_compute; exact I|]. eapply ss_update. exact E.
  - vm_compute in Hi. injection Hi as <-. vm_compute in Hj. injection Hj as <-.
    split; [reflexivity|]. split; vm_compute; reflexivity.
Qed.

Lemma storage_is_map_witness :
  ∃ u', example_create example_storage = Returns (state_of (example_create example_storage)) (inl u')
    ∧ objects_of (state_of (example_create example_storage)) example_resource
      = Some (<[mkNN "prod" "settings" := u']> ∅)
    ∧ @m_GetResourceVersion example_metaops u' = "1".
Proof.
  destruct (outcome_state (example_create example_storage)) as [a E]; [vm_compute; exact I|].
  destruct (@storage_is_map example_unstructured example_metaops Z TestUIDs
    example_unstructured_ok example_metaops_ok example_storage example_resource (mkNN "prod" "settings")
    example_configmap (state_of (example_create example_storage)) a ∅) as [Hc _].
  - constructor.
  - exact example_storable.
  - reflexivity.
  - destruct (Hc E) as (u' & -> & Ho & _ & Hrv). exists u'. split; [exact E|]. split; [exact Ho|exact Hrv].
Defined.

(** A watch whose client is gone. *)
Definition example_gone : MemoryStorage Z :=
  state_of (@watchRegister Z example_resource "" (λ _ _, Some (Errorf "broken pipe"))
    (state_of (example_create example_storage))).
Definition example_stuck : MemoryStorage Z :=
  state_of (@watchBackfill example_unstructured canonical_range Z example_resource 0 0 example_gone).

Lemma failed_list_deadlocks_witness :
  GetObject example_resource (mkNN "prod" "settings") example_stuck = Blocks example_stuck.
Proof.
  refine (proj1 (@failed_list_deadlocks example_unstructured example_metaops canonical_range Z TestUIDs
    example_resource 0 0 example_gone example_stuck (Errorf "broken pipe") _ example_resource eq_refl) _).
  destruct (outcome_state (@watchBackfill example_unstructured canonical_range Z example_resource 0 0 example_gone))
    as [a E]; [vm_compute; exact I|]. refine (eq_trans E _). unfold example_stuck. f_equal.
  assert (match @watchBackfill example_unstructured canonical_range Z example_resource 0 0 example_gone with
    | Returns _ x => x = Some (Errorf "broken pipe") | _ => True end) as Ha by (vm_compute; reflexivity).
  rewrite E in Ha. exact Ha.
Defined.

Definition example_crd : WatchEvent :=
  @BuildWatchEvent example_unstructured (mkGVK "apiextensions.k8s.io" "v1" "CustomResourceDefinition") "ADDED"
    {["spec" := JObj {["group" := JStr "example.org"; "scope" := JStr "Namespaced";
        "names" := JObj {["kind" := JStr "Guestbook"; "plural" := JStr "guestbooks"]};
        "versions" := JArr [JObj {["name" := JStr "v1"]}]]}]}.

Definition example_defined : MemoryStorage Z :=
  (@UpdateCRD example_unstructured Z example_crd example_storage).1.

Lemma crd_events_accumulate_witness :
  length (AllResources (@UpdateCRD example_unstructured Z example_crd example_defined).1) = 3%nat.
Proof.
  destruct (@crd_events_accumulate example_unstructured Z example_crd example_storage example_defined)
    as (new & Hne & E1 & E2 & _).
  - vm_compute. reflexivity.
  - vm_compute. discriminate.
  - rewrite E2. vm_compute in E1. injection E1 as <-. reflexivity.
Defined.

End memorystorage.
