(* ===== verification/GoLib.v ===== *)
(** * reflect.DeepEqual and sort.Slice

    reflect.DeepEqual on decoded JSON is equality of the values: maps compare by
    their keys and entries, slices element by element. The function is defined
    by recursion through the maps and shown to decide equality, which makes
    [json] a type with decidable equality. [sort.Slice] is not stable, so it is
    any function that answers a rearrangement in order. *)

From S2P Require Import Prelude Kube Manifest.
From Stdlib Require Import Qcanon.
From stdpp Require Import options.
Import manifest.

Module jsoneq.

(** ** Induction through maps and slices *)

Fixpoint json_size (v : json) : nat :=
  match v with
  | JArr l => Datatypes.S (foldr (λ v n, json_size v + n)%nat 0%nat l)
  | JObj m => Datatypes.S (map_fold (λ _ v n, json_size v + n)%nat 0%nat m)
  | _ => 0%nat
  end.

Lemma map_fold_size_le (m : jmap) k v :
  m !! k = Some v → (json_size v ≤ map_fold (λ _ v n, json_size v + n)%nat 0%nat m)%nat.
Proof.
  revert k v. apply (map_fold_weak_ind (λ r m, ∀ k v, m !! k = Some v → (json_size v ≤ r)%nat)).
  - by intros k v ?%lookup_empty_Some.
  - intros i x m' r Hi IH k v [[<- <-]|[_ Hk]]%lookup_insert_Some; [lia|].
    specialize (IH _ _ Hk). lia.
Qed.

Lemma foldr_size_le (l : list json) v :
  v ∈ l → (json_size v ≤ foldr (λ v n, json_size v + n)%nat 0%nat l)%nat.
Proof. induction 1 as [|v w l _ IH]; simpl; lia. Qed.

Lemma json_induction (P : json → Prop) :
  P JNull → (∀ b, P (JBool b)) → (∀ n, P (JNum n)) → (∀ q, P (JFloat q)) → (∀ s, P (JStr s)) →
  (∀ l, Forall P l → P (JArr l)) → (∀ m, map_Forall (λ _, P) m → P (JObj m)) →
  ∀ v, P v.
Proof.
  intros H1 H2 H3 H4 H5 Hl Hm v.
  induction v as [v IH] using (well_founded_induction (wf_projected lt json_size (λ x y H, H) lt_wf)).
  destruct v as [|b|n|q|s|l|m]; [done|auto..| |].
  - apply Hl, list.Forall_forall. intros v Hv. apply IH. cbn. pose proof (foldr_size_le _ _ Hv). lia.
  - apply Hm. intros k v Hk. apply IH. cbn. pose proof (map_fold_size_le _ _ _ Hk). lia.
Qed.

(** ** DeepEqual *)

Fixpoint DeepEqual (x y : json) {struct x} : bool :=
  match x, y with
  | JNull, JNull => true
  | JBool a, JBool b => Bool.eqb a b
  | JNum a, JNum b => (a =? b)%Z
  | JFloat a, JFloat b => bool_decide (a = b)
  | JStr a, JStr b => bool_decide (a = b)
  | JArr l, JArr k =>
      (fix slices (l k : list json) : bool :=
         match l, k with
         | [], [] => true
         | a :: l, b :: k => DeepEqual a b && slices l k
         | _, _ => false
         end) l k
  | JObj m, JObj m' =>
      bool_decide (dom m = dom m')
      && map_fold (λ k v r, match m' !! k with Some v' => DeepEqual v v' | None => false end && r) true m
  | _, _ => false
  end.

Lemma map_fold_all (f : string → json → bool) (m : jmap) :
  map_fold (λ k v r, f k v && r) true m = true ↔ map_Forall (λ k v, f k v = true) m.
Proof.
  apply (map_fold_weak_ind (λ r m, r = true ↔ map_Forall (λ k v, f k v = true) m)).
  - split; [intros _; apply map_Forall_empty|done].
  - intros i x m' r Hi IH. rewrite andb_true_iff, IH, map_Forall_insert by done. done.
Qed.

Lemma DeepEqual_maps (m m' : jmap) :
  DeepEqual (JObj m) (JObj m') = true ↔
  dom m = dom m' ∧ map_Forall (λ k v, match m' !! k with Some v' => DeepEqual v v' | None => false end = true) m.
Proof.
  cbn [DeepEqual]. rewrite andb_true_iff, bool_decide_eq_true, <- map_fold_all. done.
Qed.

(** It decides equality. *)
Lemma DeepEqual_eq x y : DeepEqual x y = true ↔ x = y.
Proof.
  revert y. induction x as [|a|a|a|a|l IH|m IH] using json_induction; intros [|b|b|b|b|k|m'];
    cbn [DeepEqual]; try (split; intros; simplify_eq; done).
  - rewrite Bool.eqb_true_iff. split; congruence.
  - rewrite Z.eqb_eq. split; congruence.
  - rewrite bool_decide_eq_true. split; congruence.
  - rewrite bool_decide_eq_true. split; congruence.
  - transitivity (l = k); [|split; congruence].
    revert k. induction IH as [|a l Ha Hl IH]; intros [|b k]; try (split; intros; simplify_eq; done).
    rewrite andb_true_iff, Ha, IH. split; [intros [-> ->]; done|by intros [= -> ->]].
  - change (DeepEqual (JObj m) (JObj m') = true ↔ JObj m = JObj m'). rewrite DeepEqual_maps. split.
    + intros [Hd Hall]. f_equal. apply map_eq. intros k. destruct (m !! k) as [v|] eqn:Hk.
      * pose proof (Hall k v Hk) as Hv. cbv beta in Hv. destruct (m' !! k) as [v'|]; [|done].
        by apply (IH _ _ Hk) in Hv as ->.
      * apply not_elem_of_dom in Hk. rewrite Hd in Hk. by apply not_elem_of_dom in Hk.
    + intros [= ->]. split; [done|]. intros k v Hk. rewrite Hk. by apply (IH _ _ Hk).
Qed.

#[export] Instance json_eq_dec : EqDecision json.
Proof.
  intros x y. destruct (DeepEqual x y) eqn:E.
  - left. by apply DeepEqual_eq.
  - right. intros Heq%DeepEqual_eq. congruence.
Defined.

Lemma DeepEqual_decide x y : DeepEqual x y = bool_decide (x = y).
Proof.
  destruct (DeepEqual x y) eqn:E; symmetry; [by apply bool_decide_eq_true, DeepEqual_eq|].
  apply bool_decide_eq_false. intros Heq%DeepEqual_eq. congruence.
Qed.

End jsoneq.

Module slices.

(** What [sort.Slice] asks of [less]: a strict order in which being unordered is
    transitive. *)
Record strict_weak {A} (less : A → A → bool) : Prop := {
  sw_irrefl x : less x x = false;
  sw_trans x y z : less x y = true → less y z = true → less x z = true;
  sw_weak x y z : less x y = false → less y z = false → less x z = false
}.

(** [sort.Slice]: nothing but its specification. *)
Class SliceSort := {
  sort_Slice {A} (less : A → A → bool) : list A → list A;
  sort_Slice_perm {A} (less : A → A → bool) l : sort_Slice less l ≡ₚ l;
  sort_Slice_sorted {A} (less : A → A → bool) l :
    strict_weak less → StronglySorted (λ x y, less y x = false) (sort_Slice less l)
}.

(** One such function, for examples. *)
Fixpoint insert_sorted {A} (less : A → A → bool) (x : A) (l : list A) : list A :=
  match l with
  | [] => [x]
  | y :: l => if less y x then y :: insert_sorted less x l else x :: y :: l
  end.
Definition insertion_sort {A} (less : A → A → bool) : list A → list A :=
  foldr (insert_sorted less) [].

Lemma insert_sorted_perm {A} (less : A → A → bool) x l : insert_sorted less x l ≡ₚ x :: l.
Proof.
  induction l as [|y l IH]; [done|]. cbn. destruct (less y x); [|done]. rewrite IH. constructor.
Qed.

Lemma insertion_sort_perm {A} (less : A → A → bool) l : insertion_sort less l ≡ₚ l.
Proof. induction l as [|x l IH]; [done|]. cbn. by rewrite insert_sorted_perm, IH. Qed.

Lemma strict_weak_asym {A} (less : A → A → bool) x y :
  strict_weak less → less x y = true → less y x = false.
Proof.
  intros Hs Hxy. destruct (less y x) eqn:E; [|done].
  pose proof (sw_trans _ Hs _ _ _ Hxy E) as H. by rewrite (sw_irrefl _ Hs) in H.
Qed.

Lemma insert_sorted_sorted {A} (less : A → A → bool) x l :
  strict_weak less → StronglySorted (λ x y, less y x = false) l →
  StronglySorted (λ x y, less y x = false) (insert_sorted less x l).
Proof.
  intros Hs. induction 1 as [|y l Hl IH Hy]; cbn; [repeat constructor|].
  destruct (less y x) eqn:E; constructor; [done| |by constructor|].
  - rewrite insert_sorted_perm. constructor; [by apply strict_weak_asym|done].
  - constructor; [done|]. eapply list.Forall_impl; [exact Hy|]. intros z Hz. cbv beta in Hz |- *.
    by eapply (sw_weak _ Hs).
Qed.

Lemma insertion_sort_sorted {A} (less : A → A → bool) l :
  strict_weak less → StronglySorted (λ x y, less y x = false) (insertion_sort less l).
Proof. intros Hs. induction l as [|x l IH]; [constructor|]. by apply insert_sorted_sorted. Qed.

Definition insertion_slices : SliceSort :=
  {| sort_Slice := @insertion_sort; sort_Slice_perm := @insertion_sort_perm;
     sort_Slice_sorted := @insertion_sort_sorted |}.

(** A cycle of comparisons is absurd. *)
Ltac sw_contra less Hs :=
  exfalso; match goal with
  | E : less ?a ?b = true, F : less ?b ?a = true |- _ =>
      pose proof (strict_weak_asym less _ _ Hs E); congruence
  | E : less ?a ?b = true, F : less ?b ?c = true, K : less ?a ?c = false |- _ =>
      pose proof (sw_trans less Hs _ _ _ E F); congruence
  | E : less ?a ?b = false, F : less ?b ?c = false, K : less ?a ?c = true |- _ =>
      pose proof (sw_weak less Hs _ _ _ E F); congruence
  end.

(** Sorting by a first key and then by a second one. *)
Lemma strict_weak_lex {A} (same : A → A → bool) (l1 l2 : A → A → bool) :
  (∀ x y, same x y = negb (l1 x y) && negb (l1 y x)) →
  strict_weak l1 → strict_weak l2 →
  strict_weak (λ x y, if same x y then l2 x y else l1 x y).
Proof.
  intros Hsame H1 H2.
  split.
  - intros x. rewrite Hsame, (sw_irrefl _ H1). apply (sw_irrefl _ H2).
  - intros x y z. rewrite !Hsame.
    destruct (l1 x y) eqn:Exy, (l1 y x) eqn:Eyx, (l1 y z) eqn:Eyz, (l1 z y) eqn:Ezy,
      (l1 x z) eqn:Exz, (l1 z x) eqn:Ezx; cbn; try done; try (by eapply (sw_trans _ H2));
      sw_contra l1 H1.
  - intros x y z. rewrite !Hsame.
    destruct (l1 x y) eqn:Exy, (l1 y x) eqn:Eyx, (l1 y z) eqn:Eyz, (l1 z y) eqn:Ezy,
      (l1 x z) eqn:Exz, (l1 z x) eqn:Ezx; cbn; try done; try (by eapply (sw_weak _ H2));
      sw_contra l1 H1.
Qed.

(** Comparing texts. *)
Lemma string_lt_le x y : string_lt x y = true ↔ ¬ String.le y x.
Proof.
  unfold string_lt, String.ltb. change (String.le y x) with (Is_true (String.leb y x)).
  unfold String.leb. rewrite (String.compare_antisym y x).
  destruct (String.compare x y); cbn; split; intros; try done; naive_solver.
Qed.

Lemma string_lt_ge x y : string_lt x y = false ↔ String.le y x.
Proof.
  destruct (string_lt x y) eqn:E; split; try done.
  - intros Hle. by apply string_lt_le in E.
  - intros _. destruct (decide (String.le y x)) as [Hle|Hle]; [done|].
    apply string_lt_le in Hle. congruence.
Qed.

Lemma strict_weak_string {A} (f : A → string) : strict_weak (λ x y, string_lt (f x) (f y)).
Proof.
  split.
  - intros x. by apply string_lt_ge.
  - intros x y z. rewrite !string_lt_le. intros Hxy Hyz Hzx. apply Hyz.
    destruct (total String.le (f x) (f y)) as [H|H]; [by trans (f x)|done].
  - intros x y z. rewrite !string_lt_ge. intros Hyx Hzy. by trans (f y).
Qed.

Lemma same_string {A} (f : A → string) x y :
  bool_decide (f x = f y) = negb (string_lt (f x) (f y)) && negb (string_lt (f y) (f x)).
Proof.
  destruct (string_lt (f x) (f y)) eqn:E1, (string_lt (f y) (f x)) eqn:E2; cbn.
  4:{ apply bool_decide_eq_true. apply string_lt_ge in E1, E2. by apply (anti_symm String.le). }
  all: apply bool_decide_eq_false; intros E; rewrite E in *;
    pose proof (sw_irrefl _ (strict_weak_string f) y); cbv beta in *; congruence.
Qed.

Lemma strict_weak_Z {A} (f : A → Z) : strict_weak (λ x y, (f x <? f y)%Z).
Proof. split; intros *; rewrite ?Z.ltb_irrefl, ?Z.ltb_lt, ?Z.ltb_ge; lia. Qed.

Lemma same_Z {A} (f : A → Z) x y :
  bool_decide (f x = f y) = negb (f x <? f y)%Z && negb (f y <? f x)%Z.
Proof.
  destruct (Z.ltb_spec (f x) (f y)), (Z.ltb_spec (f y) (f x)); cbn;
    first [apply bool_decide_eq_false; lia|apply bool_decide_eq_true; lia].
Qed.

(** A sorted rearrangement is unique where only equal elements are unordered. *)
Lemma sort_Slice_unique `{S1 : SliceSort, S2 : SliceSort} {A} (less : A → A → bool) (l k : list A) :
  strict_weak less → (∀ x y, x ∈ l → y ∈ l → less x y = false → less y x = false → x = y) → l ≡ₚ k →
  @sort_Slice S1 _ less l = @sort_Slice S2 _ less k.
Proof.
  intros Hs Hanti Hp.
  apply (StronglySorted_unique_strong (λ x y, less y x = false)).
  - intros x y Hx Hy Hyx Hxy. rewrite sort_Slice_perm in Hx. rewrite sort_Slice_perm in Hy.
    apply Hanti; [done|by rewrite Hp|done..].
  - by apply sort_Slice_sorted.
  - by apply sort_Slice_sorted.
  - by rewrite !sort_Slice_perm.
Qed.

End slices.
