(* ===== verification/ServerSideApply.v ===== *)
(** * Server-side apply of the mock API server

    mockkubeapiserver/storage/resourceinfo.go ([DoServerSideApply]) and the
    encoding of managed fields in mockkubeapiserver/forked/managedfields.go.
    Parsing typed objects and merging them is the structured-merge-diff library,
    a parameter. *)

From S2P Require Import Prelude Kube Manifest MemoryStorage GoLib.
From stdpp Require Import options.
Import manifest memorystorage jsoneq slices.

Module ssa.

(** [metav1.ManagedFieldsEntry]; the time in seconds, the fields as JSON. *)
Record ManagedFieldsEntry := mkEntry {
  mf_Manager : string;
  mf_Operation : string;
  mf_APIVersion : string;
  mf_Time : option Z;
  mf_FieldsType : string;
  mf_FieldsV1 : option string;
  mf_Subresource : string
}.

#[export] Instance ManagedFieldsEntry_eq_dec : EqDecision ManagedFieldsEntry.
Proof. solve_decision. Defined.

(** [fieldpath.VersionedSet], over the sets of field paths of the library. *)
Record VersionedSet (FS : Type) := mkVersionedSet {
  vs_Set : FS;
  vs_APIVersion : string;
  vs_Applied : bool
}.
Arguments mkVersionedSet {FS} _ _ _.
Arguments vs_Set {FS} _.
Arguments vs_APIVersion {FS} _.
Arguments vs_Applied {FS} _.

(** The libraries: structured-merge-diff, with typed values [T], and the JSON
    text of a managed fields entry. *)
Class MergeLib (T FS : Type) := {
  FromUnstructured : Kube.GroupVersionKind → jmap → res T;
  FromYAML : Kube.GroupVersionKind → string → res T;
  Updater_Apply : T → T → string → gmap string (VersionedSet FS) → string → bool →
    res (option T * gmap string (VersionedSet FS));
  AsUnstructured : T → jmap;
  Set_ToJSON : FS → res string;
  entry_Marshal : ManagedFieldsEntry → res string;
  entry_Unmarshal : string → res ManagedFieldsEntry;
  m_SetManagedFields : list ManagedFieldsEntry → jmap → jmap;
  m_GetManagedFields : jmap → list ManagedFieldsEntry
}.

(** Its documented behaviour: an apply answers the managers it was given with
    the entry of the applying manager replaced; entries read back from their
    text and from an object. *)
Record merge_ok {T FS} (L : MergeLib T FS) : Prop := {
  ml_managers live config v managers manager force t managers' :
    Updater_Apply live config v managers manager force = Ok (t, managers') →
    dom managers' ⊆ dom managers ∪ {[manager]};
  ml_entry e text : entry_Marshal e = Ok text → entry_Unmarshal text = Ok e;
  ml_fields l u : m_GetManagedFields (m_SetManagedFields l u) = l
}.

(** ** managedfields.go *)

Section encode.
Context {T FS : Type} `{MergeLib T FS, SchemaText, RangeOrder, SliceSort}.

Definition encodeManagerVersionedSet (manager : string) (versionedSet : VersionedSet FS) :
    res ManagedFieldsEntry :=
  entry ← wrapV "error unmarshalling manager identifier" (entry_Unmarshal manager);
  fields ← wrapV "error encoding set" (Set_ToJSON (vs_Set versionedSet));
  Ok (mkEntry (mf_Manager entry)
        (if vs_Applied versionedSet then "Apply" else mf_Operation entry)
        (vs_APIVersion versionedSet) (mf_Time entry) "FieldsV1" (Some fields) (mf_Subresource entry)).

Definition seconds (e : ManagedFieldsEntry) : Z := default 0%Z (mf_Time e).

(** The comparison of sortEncodedManagedFields. *)
Definition lessEntry (p q : ManagedFieldsEntry) : bool :=
  if bool_decide (mf_Operation p = mf_Operation q) then
    if bool_decide (seconds p = seconds q) then
      if bool_decide (mf_Manager p = mf_Manager q) then
        if bool_decide (mf_APIVersion p = mf_APIVersion q) then
          string_lt (mf_Subresource p) (mf_Subresource q)
        else string_lt (mf_APIVersion p) (mf_APIVersion q)
      else string_lt (mf_Manager p) (mf_Manager q)
    else (seconds p <? seconds q)%Z
  else string_lt (mf_Operation p) (mf_Operation q).

Definition sortEncodedManagedFields (l : list ManagedFieldsEntry) : list ManagedFieldsEntry :=
  sort_Slice lessEntry l.

Definition with_Time (times : gmap string Z) (manager : string) (e : ManagedFieldsEntry) :
    ManagedFieldsEntry :=
  match times !! manager with
  | Some t => mkEntry (mf_Manager e) (mf_Operation e) (mf_APIVersion e) (Some t) (mf_FieldsType e)
                (mf_FieldsV1 e) (mf_Subresource e)
  | None => e
  end.

Definition encodeManagedFields (fields : gmap string (VersionedSet FS)) (times : gmap string Z) :
    res (list ManagedFieldsEntry) :=
  entries ← res_mapM (λ '(manager, versionedSet),
    wrapV "error encoding versioned set"
      (with_Time times manager <$> encodeManagerVersionedSet manager versionedSet)) (range fields);
  Ok (sortEncodedManagedFields entries).

Definition EncodeObjectManagedFields (obj : jmap) (fields : gmap string (VersionedSet FS))
    (times : gmap string Z) : res jmap :=
  encoded ← wrapV "failed to convert back managed fields to API" (encodeManagedFields fields times);
  Ok (m_SetManagedFields encoded obj).

(** ** DoServerSideApply *)

(** [None] where the object was unchanged. The managers start out as a nil
    map. *)
Definition DoServerSideApply (r : memoryResourceInfo) (live : jmap) (patchYAML : string)
    (options : PatchOptions) : res (option jmap) :=
  match mi_parseable r with
  | None | Some false => Err (Errorf "no type info")
  | Some true =>
      liveObject ← wrapW "error parsing live object" (FromUnstructured (mi_gvk r) live);
      configObject ← wrapW "error parsing patch object" (FromYAML (mi_gvk r) patchYAML);
      let force := default false (po_Force options) in
      let manager := mkEntry (po_FieldManager options) "" "" None "" None "" in
      managerJSON ← wrapW "error encoding manager" (entry_Marshal manager);
      let apiVersion := GV_String (GVK_GroupVersion (mi_gvk r)) in
      '(mergedObject, newManagers) ← wrapW "error applying patch"
        (Updater_Apply liveObject configObject apiVersion ∅ managerJSON force);
      match mergedObject with
      | None => Ok None
      | Some mergedObject =>
          u ← wrapW "error from EncodeObjectManagedFields"
            (EncodeObjectManagedFields (AsUnstructured mergedObject) newManagers ∅);
          Ok (Some u)
      end
  end.
End encode.

(** ** Properties *)

Lemma lessEntry_weak : strict_weak lessEntry.
Proof.
  unfold lessEntry.
  apply (strict_weak_lex (λ p q, bool_decide (mf_Operation p = mf_Operation q))
           (λ p q, string_lt (mf_Operation p) (mf_Operation q)));
    [apply same_string|apply strict_weak_string|].
  apply (strict_weak_lex (λ p q, bool_decide (seconds p = seconds q))
           (λ p q, (seconds p <? seconds q)%Z)); [apply same_Z|apply strict_weak_Z|].
  apply (strict_weak_lex (λ p q, bool_decide (mf_Manager p = mf_Manager q))
           (λ p q, string_lt (mf_Manager p) (mf_Manager q)));
    [apply same_string|apply strict_weak_string|].
  apply (strict_weak_lex (λ p q, bool_decide (mf_APIVersion p = mf_APIVersion q))
           (λ p q, string_lt (mf_APIVersion p) (mf_APIVersion q)));
    [apply same_string|apply strict_weak_string|].
  apply strict_weak_string.
Qed.

Section properties.
Context {T FS : Type} `{L : MergeLib T FS, SchemaText}.

(** The entries of the managers, in whatever order. *)
Lemma encodeManagedFields_entries `{RangeOrder, SliceSort} (fields : gmap string (VersionedSet FS)) times l :
  encodeManagedFields fields times = Ok l →
  ∃ entries, l ≡ₚ entries ∧ Forall2 (λ '(manager, vs) e,
    ∃ e', encodeManagerVersionedSet manager vs = Ok e' ∧ e = with_Time times manager e')
    (map_to_list fields) entries.
Proof using.
  unfold encodeManagedFields. intros (entries & Hm & [= <-])%bind_Ok. apply res_mapM_Ok in Hm.
  destruct (Permutation_Forall2 (range_perm fields) Hm) as (entries' & Hp & Hf).
  exists entries'. split; [unfold sortEncodedManagedFields; by rewrite sort_Slice_perm|].
  eapply list.Forall2_impl; [exact Hf|]. intros [manager vs] e He.
  apply wrapV_Ok in He. destruct (encodeManagerVersionedSet manager vs) as [e'|]; [|done].
  exists e'. split; [done|]. by injection He as <-.
Qed.

(** The managed fields do not depend on the order in which the managers are
    ranged over, nor on the sorting algorithm, where no two entries agree in
    everything that is compared. *)
Lemma encodeManagedFields_deterministic (R1 R2 : RangeOrder) (S1 S2 : SliceSort)
    (fields : gmap string (VersionedSet FS)) times l1 l2 :
  @encodeManagedFields _ _ L R1 S1 fields times = Ok l1 →
  @encodeManagedFields _ _ L R2 S2 fields times = Ok l2 →
  (∀ x y, x ∈ l1 → y ∈ l1 → lessEntry x y = false → lessEntry y x = false → x = y) →
  l1 = l2.
Proof using.
  unfold encodeManagedFields. intros (e1 & H1 & [= <-])%bind_Ok (e2 & H2 & [= <-])%bind_Ok Hanti.
  apply res_mapM_Ok in H1, H2. unfold sortEncodedManagedFields in *.
  apply sort_Slice_unique; [apply lessEntry_weak| |].
  - intros x y Hx Hy. apply Hanti; by rewrite sort_Slice_perm.
  - assert (@range R1 _ _ _ _ fields ≡ₚ @range R2 _ _ _ _ fields) as Hp by (by rewrite !range_perm).
    destruct (Permutation_Forall2 Hp H1) as (e1' & Hpe & Hf). rewrite Hpe.
    apply res_mapM_Ok in Hf, H2. rewrite Hf in H2. by injection H2 as ->.
Qed.

(** Server-side apply forgets the other managers. Whatever managed fields
    the live object has, the object that is stored has at most one entry, of
    the manager of this request: the fields others own are neither checked
    for conflicts nor kept. *)
Theorem ssa_single_manager `{RangeOrder, SliceSort} r live patchYAML options u :
  merge_ok L → DoServerSideApply r live patchYAML options = Ok (Some u) →
  (length (m_GetManagedFields u) ≤ 1)%nat
  ∧ ∀ e, e ∈ m_GetManagedFields u → mf_Manager e = po_FieldManager options.
Proof using.
  intros HL. unfold DoServerSideApply. destruct (mi_parseable r) as [[]|]; try done.
  intros (lv & _ & (cf & _ & (text & Htext%wrapW_Ok & ([t managers] & Ha%wrapW_Ok & Hu)%bind_Ok)%bind_Ok)%bind_Ok)%bind_Ok.
  destruct t as [t|]; [|done]. apply bind_Ok in Hu as (u' & Hu%wrapW_Ok & [= ->]).
  unfold EncodeObjectManagedFields in Hu. apply bind_Ok in Hu as (l & Hl%wrapV_Ok & [= <-]).
  rewrite (ml_fields L HL). apply encodeManagedFields_entries in Hl as (entries & Hp & Hf).
  assert (∀ k vs, managers !! k = Some vs → k = text) as Hone.
  { intros k vs Hk%elem_of_dom_2. apply (ml_managers L HL) in Ha. set_solver. }
  assert (length (map_to_list managers) ≤ 1)%nat as Hlen.
  { rewrite length_map_to_list, <- size_dom. transitivity (size ({[text]} : gset string)); [|by rewrite size_singleton].
    apply subseteq_size. intros k [vs Hk]%elem_of_dom. apply Hone in Hk. set_solver. }
  split; [rewrite Hp, <- (list.Forall2_length _ _ _ Hf); done|].
  intros e He. rewrite Hp in He. apply list_elem_of_lookup_1 in He as [i Hi].
  destruct (list.Forall2_lookup_r _ _ _ _ _ Hf Hi) as ([k vs] & Hk & e' & He' & ->).
  apply list_elem_of_lookup_2, elem_of_map_to_list, Hone in Hk as ->.
  unfold encodeManagerVersionedSet in He'. rewrite (ml_entry L HL _ _ Htext) in He'. cbn in He'.
  apply bind_Ok in He' as (x & _ & [= <-]). unfold with_Time. by rewrite lookup_empty.
Qed.
End properties.

(** ** Examples *)

(** A library on plain maps, whose sets of fields are lists of names. *)
Definition entry_json (e : ManagedFieldsEntry) : json :=
  JArr [JStr (mf_Manager e); JStr (mf_Operation e); JStr (mf_APIVersion e);
        from_option JNum JNull (mf_Time e); JStr (mf_FieldsType e);
        from_option JStr JNull (mf_FieldsV1 e); JStr (mf_Subresource e)].
Definition json_entry (v : json) : option ManagedFieldsEntry :=
  match v with
  | JArr [JStr m; JStr o; JStr a; t; JStr ft; fv; JStr s] =>
      Some (mkEntry m o a (match t with JNum t => Some t | _ => None end) ft
              (match fv with JStr f => Some f | _ => None end) s)
  | _ => None
  end.
Lemma json_entry_json e : json_entry (entry_json e) = Some e.
Proof. by destruct e as [m o a [t|] ft [f|] s]. Qed.

Definition example_merge : MergeLib jmap (list string) := {|
  FromUnstructured _ u := Ok u;
  FromYAML _ text := Ok {["data" := JStr text]};
  Updater_Apply live config v managers manager force :=
    Ok (if decide (config ∪ live = live) then None else Some (config ∪ live),
        <[manager := mkVersionedSet (map_to_list config).*1 v true]> managers);
  AsUnstructured u := u;
  Set_ToJSON fs := Ok (strings.Join fs ",");
  entry_Marshal e :=
    if decide (e = mkEntry (mf_Manager e) "" "" None "" None "") then Ok (mf_Manager e)
    else Err (Errorf "not supported");
  entry_Unmarshal text := Ok (mkEntry text "" "" None "" None "");
  m_SetManagedFields l u := <["managedFields" := JArr (entry_json <$> l)]> u;
  m_GetManagedFields u :=
    match u !! "managedFields" with Some (JArr l) => omap json_entry l | _ => [] end
|}.

Lemma example_merge_ok : merge_ok example_merge.
Proof.
  split; cbn.
  - intros live config v managers manager force t managers' [= _ <-]. set_solver.
  - intros e text. case_decide as E; [|done]. intros [= <-]. by rewrite <- E.
  - intros l u. rewrite lookup_insert_eq. induction l as [|e l IH]; [done|].
    rewrite fmap_cons. cbn [omap list_omap]. rewrite json_entry_json. f_equal. exact IH.
Qed.

Definition example_live : jmap :=
  {["managedFields" := JArr [entry_json (mkEntry "other" "Apply" "v1" None "FieldsV1" (Some "x") "")]]}.
Definition example_info : memoryResourceInfo :=
  mkResourceInfo (mkGVK "" "v1" "ConfigMap") (mkGVR "" "v1" "configmaps") (mkGVK "" "v1" "ConfigMapList")
    true (Some true) 0.

Definition example_apply : res (option jmap) :=
  @DoServerSideApply _ _ example_merge example_text canonical_range insertion_slices
    example_info example_live "y" (mkPatchOptions "me" None).
Lemma example_apply_changes :
  match example_apply with Ok (Some _) => true | _ => false end = true.
Proof. vm_compute. reflexivity. Qed.

Lemma ssa_single_manager_witness :
  ∃ u, example_apply = Ok (Some u)
    ∧ (length (@m_GetManagedFields _ _ example_merge u) ≤ 1)%nat
    ∧ ∀ e, e ∈ @m_GetManagedFields _ _ example_merge u → mf_Manager e = "me".
Proof.
  pose proof example_apply_changes as Hc. destruct example_apply as [[u|]|] eqn:E; [|discriminate Hc..].
  exists u. split; [done|]. exact (ssa_single_manager _ _ _ _ _ example_merge_ok E).
Defined.

End ssa.
