(* ===== verification/MockServer.v ===== *)
(** * The mock API server (mockkubeapiserver)

    Requests, their routing and their handlers, on the storage of
    [MemoryStorage]: apiserver.go, request.go, the [*resource.go] files, the
    discovery handlers, testhelpers.go, and the texts of watch events
    (storage/watchevent.go). A handler is a program of calls to the storage
    interface, each of which is atomic; requests are served concurrently, so
    the calls of several handlers interleave. What is written to the response
    is a list of calls on the response writer. *)

From S2P Require Import Prelude Encoding Kube Manifest MemoryStorage GoLib ServerSideApply.
From stdpp Require Import pretty options.
Import manifest memorystorage jsoneq slices ssa.

Module mockserver.

(** ** HTTP *)

(** The parts of a request that are read; reading the body may fail. *)
Record httpRequest := mkHTTPRequest {
  hr_Method : string;
  hr_Path : string;
  hr_Query : gmap string string;
  hr_Accept : string;
  hr_Body : res string;
  hr_clientGone : list WatchEvent → WatchEvent → option error
}.

(** The calls on a response writer. *)
Inductive writerCall :=
  | HeaderAdd (k v : string)
  | HeaderSet (k v : string)
  | HeaderDel (k : string)
  | WriteHeader (statusCode : Z)
  | Write (b : string).

#[export] Instance writerCall_eq_dec : EqDecision writerCall.
Proof. solve_decision. Defined.

Definition StatusText (code : Z) : string :=
  if (code =? 404)%Z then "Not Found"
  else if (code =? 405)%Z then "Method Not Allowed"
  else if (code =? 500)%Z then "Internal Server Error" else "OK".

Definition newline : string := String (ascii_of_N 10) "".

(** [http.Error(w, http.StatusText(code), code)]. *)
Definition http_Error (code : Z) : list writerCall :=
  [HeaderDel "Content-Length"; HeaderSet "Content-Type" "text/plain; charset=utf-8";
   HeaderSet "X-Content-Type-Options" "nosniff"; WriteHeader code; Write (StatusText code +:+ newline)].

(** [strings.Trim(s, c)] and the parts of a path. *)
Fixpoint TrimLeft (c : ascii) (s : string) : string :=
  match s with
  | "" => ""
  | String a s' => if decide (a = c) then TrimLeft c s' else s
  end.
Definition Trim (c : ascii) (s : string) : string :=
  strings.rev_string (TrimLeft c (strings.rev_string (TrimLeft c s) "")) "".
Definition tokensOf (path : string) : list string := strings.Split "/" (Trim "/" path).

(** [strconv.ParseBool]. *)
Definition ParseBool (s : string) : res bool :=
  if decide (s ∈ ["1"; "t"; "T"; "TRUE"; "true"; "True"]) then Ok true
  else if decide (s ∈ ["0"; "f"; "F"; "FALSE"; "false"; "False"]) then Ok false
  else Err (Errorf "invalid syntax").

(** ** Requests *)

Record resourceRequestBase := mkBase {
  rb_Group : string;
  rb_Version : string;
  rb_Resource : string;
  rb_Namespace : string;
  rb_Name : string;
  rb_SubResource : string
}.

(** The request types; a request of a collection has no name. *)
Inductive Request :=
  | ApiResourceList (group version : string)
  | OpenapiRequest
  | ApiVersionsRequest
  | ApiGroupList
  | PostResource (group version resource namespace : string)
  | ListResource (group version resource namespace : string)
  | GetResource (common : resourceRequestBase)
  | PatchResource (common : resourceRequestBase)
  | PutResource (common : resourceRequestBase)
  | DeleteResource (common : resourceRequestBase).

Definition onGet (method : string) (req : Request) : option Request :=
  if decide (method = "GET") then Some req else None.

Definition buildCollectionRequest (method group version resource namespace : string) : option Request :=
  if decide (method = "POST") then Some (PostResource group version resource namespace)
  else if decide (method = "GET") then Some (ListResource group version resource namespace)
  else None.

Definition buildObjectRequest (method : string) (common : resourceRequestBase) : option Request :=
  if decide (method = "GET") then Some (GetResource common)
  else if decide (method = "PATCH") then Some (PatchResource common)
  else if decide (method = "PUT") then Some (PutResource common)
  else if decide (method = "DELETE") then Some (DeleteResource common)
  else None.

(** The routing of ServeHTTP: whether the path was recognized, and the request
    where the method was too. Paths of five tokens or more. *)
Definition routeLong (method : string) (tokens : list string) : bool * option Request :=
  match tokens with
  | [t0; t1; t2; t3; t4] =>
      if decide (t0 = "api" ∧ t1 = "v1" ∧ t2 = "namespaces") then
        (true, buildCollectionRequest method "" t1 t4 t3)
      else if decide (t0 = "apis") then (true, buildObjectRequest method (mkBase t1 t2 t3 "" t4 ""))
      else (false, None)
  | [t0; t1; t2; t3; t4; t5] =>
      if decide (t0 = "api" ∧ t2 = "namespaces") then
        (true, buildObjectRequest method (mkBase "" t1 t4 t3 t5 ""))
      else if decide (t0 = "apis" ∧ t3 = "namespaces") then
        (true, buildCollectionRequest method t1 t2 t5 t4)
      else (false, None)
  | [t0; t1; t2; t3; t4; t5; t6] =>
      if decide (t0 = "apis" ∧ t3 = "namespaces") then
        (true, buildObjectRequest method (mkBase t1 t2 t5 t4 t6 ""))
      else (false, None)
  | [t0; t1; t2; t3; t4; t5; t6; t7] =>
      if decide (t0 = "apis" ∧ t3 = "namespaces") then
        (true, buildObjectRequest method (mkBase t1 t2 t5 t4 t6 t7))
      else (false, None)
  | _ => (false, None)
  end.

(** All paths. *)
Definition route (method : string) (tokens : list string) : bool * option Request :=
  match tokens with
  | [t0] =>
      if decide (t0 = "api") then (true, onGet method ApiVersionsRequest)
      else if decide (t0 = "apis") then (true, onGet method ApiGroupList)
      else (false, None)
  | [t0; t1] =>
      if decide (t0 = "api" ∧ t1 = "v1") then (true, onGet method (ApiResourceList "" "v1"))
      else if decide (t0 = "openapi" ∧ t1 = "v2") then (true, onGet method OpenapiRequest)
      else (false, None)
  | [t0; t1; t2] =>
      if decide (t0 = "apis") then (true, onGet method (ApiResourceList t1 t2))
      else if decide (t0 = "api" ∧ t1 = "v1") then (true, buildCollectionRequest method "" t1 t2 "")
      else (false, None)
  | [t0; t1; t2; t3] =>
      if decide (t0 = "api") then (true, buildObjectRequest method (mkBase "" t1 t2 "" t3 ""))
      else if decide (t0 = "apis") then (true, buildCollectionRequest method t1 t2 t3 "")
      else (false, None)
  | _ => routeLong method tokens
  end.

(** ** Responses *)

(** A version is its group/version text and its name; the preferred one is
    [None] only where the code would index an empty slice. *)
Record APIGroup := mkAPIGroup {
  ag_Name : string;
  ag_Versions : list (string * string);
  ag_PreferredVersion : option (string * string)
}.

(** [metav1.PartialObjectMetadata], as it is filled in for a watch. *)
Record PartialObjectMetadata := mkPartial {
  pm_Annotations : gmap string string;
  pm_Labels : gmap string string;
  pm_Name : string;
  pm_Namespace : string;
  pm_ResourceVersion : string;
  pm_Generation : Z;
  pm_others : list json
}.

(** What is encoded as JSON in a response. *)
Inductive payload :=
  | PObject (u : jmap)
  | PList (gvk : Kube.GroupVersionKind) (resourceVersion : string) (items : list jmap)
  | PVersions (versions : list string)
  | PGroups (groups : list APIGroup)
  | PResources (groupVersion : string) (resources : list (GroupVersionResource * string * bool))
  | PMessage (type : string) (object : jmap + PartialObjectMetadata).

(** The JSON library, and the accessors of metadata that only watches read. *)
Class HTTPLibs := {
  json_Marshal : payload → res string;
  json_Unmarshal : string → res jmap;
  yaml_Unmarshal : string → res jmap;
  m_otherMetadata : jmap → list json
}.

(** ** Calls to the storage *)

(** The methods of storage.Storage and storage.ResourceInfo the handlers call,
    with the type of their answer. Watch is three of them: registering, the
    list, and waiting for the error of the callback. *)
Inductive call : Type → Type :=
  | CFindResource (gr : GroupResource) : call (option memoryResourceInfo)
  | CAllResources : call (list (GroupVersionResource * string * bool))
  | CGetObject (r : memoryResourceInfo) (id : Kube.NamespacedName) : call (option jmap)
  | CListObjects (r : memoryResourceInfo) (ns : string) : call (list jmap * string)
  | CCreateObject (r : memoryResourceInfo) (id : Kube.NamespacedName) (u : jmap) : call (jmap + apiError)
  | CUpdateObject (r : memoryResourceInfo) (id : Kube.NamespacedName) (u : jmap) : call (jmap + apiError)
  | CDeleteObject (r : memoryResourceInfo) (id : Kube.NamespacedName) : call (jmap + apiError)
  | CWatchRegister (r : memoryResourceInfo) (ns : string)
      (callback : list WatchEvent → WatchEvent → option error) : call (nat * nat)
  | CWatchBackfill (r : memoryResourceInfo) (w pos : nat) : call (option error)
  | CWatchWait (r : memoryResourceInfo) (w : nat) : call (list WatchEvent * error).

(** A handler: a tree of calls. *)
Inductive prog (A : Type) :=
  | Ret (a : A)
  | Call {B : Type} (c : call B) (k : B → prog A).
Arguments Ret {A} _.
Arguments Call {A B} _ _.

#[export] Instance prog_ret : MRet prog := @Ret.
Fixpoint prog_bindf {A B} (f : A → prog B) (p : prog A) : prog B :=
  match p with Ret a => f a | Call c k => Call c (λ b, prog_bindf f (k b)) end.
#[export] Instance prog_bind : MBind prog := @prog_bindf.
Definition ask {B : Type} (c : call B) : prog B := Call c Ret.

(** What a handler answers: the calls on the response writer, and its error. *)
Abbreviation reply := (list writerCall * option error)%type.

(** ** Handlers *)

Section handlers.
Context `{U : Unstructured, ObjectMetaOps, SchemaText, RangeOrder, SliceSort, HTTPLibs}.
Context {T FS : Type} `{MergeLib T FS}.

(** *** request.go *)

Definition writeResponse (obj : payload) : reply :=
  match json_Marshal obj with
  | Err e => ([], Some (WrapW "error from json.Marshal" e))
  | Ok b =>
      ([HeaderAdd "Content-Type" "application/json"; HeaderAdd "Cache-Control" "no-cache, private";
        HeaderAdd "Content-Length" (pretty (String.length b)); WriteHeader 200; Write b], None)
  end.

Definition writeErrorResponse (statusCode : Z) : reply := (http_Error statusCode, None).

Definition failWith (e : error) : reply := ([], Some e).

(** The text of an error of the storage. *)
Definition apiErrorError (e : apiError) : error :=
  match e with
  | AlreadyExists _ _ => Errorf "already exists"
  | NotFound _ _ => Errorf "not found"
  end.

Definition answerObject (a : jmap + apiError) : reply :=
  match a with
  | inl u => writeResponse (PObject u)
  | inr e => failWith (apiErrorError e)
  end.

(** [s.storage.FindResource(gr)], with its answer for an unknown resource. *)
Definition withResource (group resource : string) (k : memoryResourceInfo → prog reply) : prog reply :=
  r ← ask (CFindResource (mkGR group resource));
  match r with
  | None => mret (writeErrorResponse 404)
  | Some r => k r
  end.

Definition requestId (req : resourceRequestBase) : Kube.NamespacedName :=
  mkNN (rb_Namespace req) (rb_Name req).

(** *** getresource.go, deleteresource.go *)

Definition getResource_Run (req : resourceRequestBase) : prog reply :=
  withResource (rb_Group req) (rb_Resource req) (λ resource,
    object ← ask (CGetObject resource (requestId req));
    mret (match object with
          | None => writeErrorResponse 404
          | Some object => writeResponse (PObject object)
          end)).

Definition deleteResource_Run (req : resourceRequestBase) : prog reply :=
  withResource (rb_Group req) (rb_Resource req) (λ resource,
    if decide (rb_SubResource req ≠ "") then mret (failWith (Errorf "unexpected subresource on delete"))
    else
      deleted ← ask (CDeleteObject resource (requestId req));
      mret (answerObject deleted)).

(** *** postresource.go *)

Definition secretGVK : Kube.GroupVersionKind := mkGVK "" "v1" "Secret".

Definition beforeSecretCreation (obj : jmap) : res jmap :=
  stringData ← wrapW "getting Secret stringData" (u_NestedStringMap obj ["stringData"]);
  if decide (default ∅ stringData = ∅) then Ok obj
  else
    data ← wrapW "getting Secret data" (u_NestedStringMap obj ["data"]);
    let data := ((λ v, base64.StdEncoding (string_bytes v)) <$> default ∅ stringData) ∪ default ∅ data in
    match u_SetNestedStringMap obj data ["data"] with
    | (_, Some e) => Err (WrapW "setting Secret data" e)
    | (obj, None) => Ok (delete "stringData" obj)
    end.

Definition beforeObjectCreation (obj : jmap) : res jmap :=
  if decide (u_GVK obj = secretGVK) then beforeSecretCreation obj else Ok obj.

(** The object of a POST, as it is to be created, and its name. *)
Definition postedObject (resource : memoryResourceInfo) (namespace : string) (rq : httpRequest) :
    res (Kube.NamespacedName * jmap) :=
  body ← hr_Body rq;
  obj ← wrapW "failed to parse payload" (u_Decode body);
  let id := objectKey obj in
  if decide (nn_Namespace id ≠ namespace) then
    Err (Errorf "namespace in payload did not match namespace in URL")
  else if decide (nn_Name id = "") then Err (Errorf "name must be provided in payload")
  else
    obj ← beforeObjectCreation (if SetsGeneration resource then m_SetGeneration 1 obj else obj);
    Ok (id, obj).

Definition postResource_Run (group resource namespace : string) (rq : httpRequest) : prog reply :=
  withResource group resource (λ resource,
    match postedObject resource namespace rq with
    | Err e => mret (failWith e)
    | Ok (id, obj) =>
        created ← ask (CCreateObject resource id obj);
        mret (answerObject created)
    end).

(** *** putresource.go *)

(** [obj.Object[field]]: nil for a field that is not there. *)
Definition fieldOf (u : jmap) (field : string) : json := default JNull (u !! field).

Definition bumpGeneration (resource : memoryResourceInfo) (original updated : jmap) : jmap :=
  if SetsGeneration resource then
    if DeepEqual (fieldOf original "spec") (fieldOf updated "spec") then updated
    else m_SetGeneration (m_GetGeneration updated + 1) updated
  else updated.

Definition putBody (subResource : string) (existing body : jmap) : res jmap :=
  if decide (subResource = "") then Ok body
  else if decide (subResource = "status") then
    match fieldOf body "status" with
    | JNull => Err (Errorf "status not specified on status subresource update")
    | newStatus => Ok (<["status" := newStatus]> existing)
    end
  else Err (Errorf "unknown subresource").

(** What a PUT makes of the object there is: [None] for no change. *)
Definition putUpdate (resource : memoryResourceInfo) (subResource : string) (existing : jmap)
    (rq : httpRequest) : res (option jmap) :=
  bytes ← hr_Body rq;
  body ← wrapW "failed to parse payload" (u_Decode bytes);
  updated ← putBody subResource existing body;
  if DeepEqual (JObj existing) (JObj updated) then Ok None
  else updated ← beforeObjectCreation (bumpGeneration resource existing updated); Ok (Some updated).

Definition putResource_Run (req : resourceRequestBase) (rq : httpRequest) : prog reply :=
  withResource (rb_Group req) (rb_Resource req) (λ resource,
    existing ← ask (CGetObject resource (requestId req));
    match existing with
    | None => mret (writeErrorResponse 404)
    | Some existing =>
        match putUpdate resource (rb_SubResource req) existing rq with
        | Err e => mret (failWith e)
        | Ok None => mret (writeResponse (PObject existing))
        | Ok (Some updated) =>
            answer ← ask (CUpdateObject resource (requestId req) updated);
            mret (answerObject answer)
        end
    end).

(** *** patchresource.go *)

(** The value of a key after a patch; which of several errors is returned
    depends on the order of the map, and does not matter. *)
Fixpoint patchValue (existingValue : option json) (value : json) : res json :=
  match value with
  | JStr _ | JNum _ | JFloat _ => Ok value
  | JObj patch =>
      match existingValue with
      | None | Some JNull => Ok value
      | Some (JObj existing) =>
          JObj <$> map_fold (λ k v r, m ← r; v ← patchValue (existing !! k) v; Ok (<[k := v]> m))
                     (Ok existing) patch
      | Some _ => Err (Errorf "unexpected type mismatch, expected map")
      end
  | _ => Err (Errorf "type not handled in patch")
  end.

Definition applyPatch (existing patch : jmap) : res jmap :=
  map_fold (λ k v r, m ← r; v ← patchValue (existing !! k) v; Ok (<[k := v]> m)) (Ok existing) patch.

Definition patchOptionsOf (rq : httpRequest) : res PatchOptions :=
  let fieldManager := default "" (hr_Query rq !! "fieldManager") in
  let force := default "" (hr_Query rq !! "force") in
  if decide (force = "") then Ok (mkPatchOptions fieldManager None)
  else match ParseBool force with
       | Ok b => Ok (mkPatchOptions fieldManager (Some b))
       | Err _ => Err (Errorf "invalid value for force")
       end.

(** What a PATCH makes of the object there is: [None] for no change. *)
Definition patchUpdate (resource : memoryResourceInfo) (subResource : string) (existing : jmap)
    (bytes : string) (body : jmap) (rq : httpRequest) : res (option jmap) :=
  if decide (subResource ≠ "") then Err (Errorf "unknown subresource")
  else
    updated ← match mi_parseable resource with
              | Some _ => options ← patchOptionsOf rq; DoServerSideApply resource existing bytes options
              | None => Some <$> applyPatch existing body
              end;
    match updated with
    | None => Ok None
    | Some updated =>
        updated ← beforeObjectCreation updated;
        Ok (Some (bumpGeneration resource existing updated))
    end.

Definition patchedBody (rq : httpRequest) : res (string * jmap) :=
  bytes ← hr_Body rq;
  body ← wrapW "failed to parse PATCH payload" (json_Unmarshal bytes);
  Ok (bytes, body).

Definition patchResource_Run (req : resourceRequestBase) (rq : httpRequest) : prog reply :=
  withResource (rb_Group req) (rb_Resource req) (λ resource,
    existing ← ask (CGetObject resource (requestId req));
    match patchedBody rq with
    | Err e => mret (failWith e)
    | Ok (bytes, body) =>
        match existing with
        | None =>
            if decide (rb_SubResource req ≠ "") then mret (writeErrorResponse 404)
            else
              match beforeObjectCreation (if SetsGeneration resource then m_SetGeneration 1 body else body) with
              | Err e => mret (failWith e)
              | Ok patched =>
                  created ← ask (CCreateObject resource (requestId req) patched);
                  mret (answerObject created)
              end
        | Some existing =>
            match patchUpdate resource (rb_SubResource req) existing bytes body rq with
            | Err e => mret (failWith e)
            | Ok None => mret (writeResponse (PObject existing))
            | Ok (Some updated) =>
                answer ← ask (CUpdateObject resource (requestId req) updated);
                mret (answerObject answer)
            end
        end
    end).

(** *** watchevent.go, listresource.go *)

Definition partialObjectMetadata (u : jmap) : PartialObjectMetadata :=
  mkPartial (u_GetAnnotations u) (u_GetLabels u) (u_GetName u) (u_GetNamespace u)
    (m_GetResourceVersion u) (m_GetGeneration u) (m_otherMetadata u).

Definition eventPayload (partial : bool) (ev : WatchEvent) : payload :=
  PMessage (we_eventType ev)
    (if partial then inr (partialObjectMetadata (we_internalObject ev)) else inl (we_internalObject ev)).

(** The line an event is sent as; an event that cannot be encoded ends the
    process, and is left out here. *)
Definition eventJSON (partial : bool) (ev : WatchEvent) : string :=
  match json_Marshal (eventPayload partial ev) with Ok j => j +:+ newline | Err _ => "" end.

(** doWatch. The writes of its callback happen in the calls of those who change
    objects; they are listed when the watch has ended, without the last one,
    which failed. *)
Definition doWatch (resource : memoryResourceInfo) (namespace : string) (partial : bool)
    (rq : httpRequest) : prog reply :=
  let contentType := if partial then "application/json;as=PartialObjectMetadataList;g=meta.k8s.io;v=v1"
                     else "application/json" in
  '(w, pos) ← ask (CWatchRegister resource namespace (hr_clientGone rq));
  _ ← ask (CWatchBackfill resource w pos);
  '(events, e) ← ask (CWatchWait resource w);
  mret ([HeaderAdd "Content-Type" contentType; HeaderAdd "Cache-Control" "no-cache, private"; WriteHeader 200]
          ++ ((λ ev, Write (eventJSON partial ev)) <$> removelast events), Some e).

Definition listResource_Run (group resource namespace : string) (rq : httpRequest) : prog reply :=
  withResource group resource (λ resource,
    let partial := strings.Contains (hr_Accept rq) "PartialObjectMetadata" in
    if decide (default "" (hr_Query rq !! "watch") = "true") then doWatch resource namespace partial rq
    else
      '(items, rv) ← ask (CListObjects resource namespace);
      mret (writeResponse (PList (mi_listGVK resource) rv items))).

(** *** apigrouplist.go, apiresourcelist.go, apiversions.go, openapi_request.go *)

(** The versions of each group, as they come. *)
Definition addGroupVersion (groups : gmap string (list (string * string)))
    (resource : GroupVersionResource * string * bool) : gmap string (list (string * string)) :=
  let '(gvr, _, _) := resource in
  let group := gvr_Group gvr in
  if decide (group = "") then groups
  else
    let versions := default [] (groups !! group) in
    <[group := if existsb (λ v, bool_decide (v.2 = gvr_Version gvr)) versions then versions
               else versions ++ [(group +:+ "/" +:+ gvr_Version gvr, gvr_Version gvr)]]> groups.

Definition lessVersion (x y : string * string) : bool := string_lt (x.2) (y.2).

Definition groupsOf (resources : list (GroupVersionResource * string * bool)) : list APIGroup :=
  let groupMap := sort_Slice lessVersion <$> foldl addGroupVersion ∅ resources in
  (λ key, let versions := default [] (groupMap !! key) in
          mkAPIGroup key versions (list.last versions))
    <$> sort_Strings (range groupMap).*1.

Definition apiGroupList_Run : prog reply :=
  resources ← ask CAllResources;
  mret (writeResponse (PGroups (groupsOf resources))).

(** By kind; the groups are all the same. *)
Definition lessResource (l r : GroupVersionResource * string * bool) : bool :=
  let '(lg, lk, _) := l in
  let '(rg, rk, _) := r in
  if bool_decide (gvr_Group lg = gvr_Group rg) then string_lt lk rk
  else string_lt (gvr_Group lg) (gvr_Group rg).

Definition resourcesOf (group version : string) (resources : list (GroupVersionResource * string * bool)) :
    list (GroupVersionResource * string * bool) :=
  sort_Slice lessResource
    (filter (λ r, gvr_Group r.1.1 = group ∧ gvr_Version r.1.1 = version) resources).

Definition apiResourceList_Run (group version : string) : prog reply :=
  resources ← ask CAllResources;
  mret (writeResponse (PResources (GV_String (mkGV group version)) (resourcesOf group version resources))).

Definition apiVersionsRequest_Run : prog reply := mret (writeResponse (PVersions ["v1"])).

Definition openapiRequest_Run : prog reply :=
  mret ([HeaderAdd "Content-Type" "application/com.github.proto-openapi.spec.v2";
         HeaderAdd "Cache-Control" "no-cache, private"; Write ""], None).

(** *** apiserver.go *)

Definition Run (req : Request) (rq : httpRequest) : prog reply :=
  match req with
  | ApiResourceList group version => apiResourceList_Run group version
  | OpenapiRequest => openapiRequest_Run
  | ApiVersionsRequest => apiVersionsRequest_Run
  | ApiGroupList => apiGroupList_Run
  | PostResource group _ resource namespace => postResource_Run group resource namespace rq
  | ListResource group _ resource namespace => listResource_Run group resource namespace rq
  | GetResource common => getResource_Run common
  | PatchResource common => patchResource_Run common rq
  | PutResource common => putResource_Run common rq
  | DeleteResource common => deleteResource_Run common
  end.

(** [hooks] are the BeforeHTTPOperation of the server's hooks. *)
Definition ServeHTTP (hooks : list (httpRequest → httpRequest)) (rq : httpRequest) : prog (list writerCall) :=
  let rq := foldl (λ rq hook, hook rq) rq hooks in
  match route (hr_Method rq) (tokensOf (hr_Path rq)) with
  | (true, None) => mret (http_Error 405)
  | (false, None) => mret (http_Error 404)
  | (_, Some req) =>
      '(calls, err) ← Run req rq;
      mret (match err with Some _ => calls ++ http_Error 500 | None => calls end)
  end.
End handlers.

(** ** Serving *)

Section serving.
Context `{U : Unstructured, ObjectMetaOps, RangeOrder} {G : Type} `{UIDGenerator G}.
Implicit Types s : MemoryStorage G.

(** What the storage does for a call. *)
Definition perform {B : Type} (c : call B) s : outcome G B :=
  match c in call B return outcome G B with
  | CFindResource gr => Returns s (FindResource gr s)
  | CAllResources => Returns s (AllResources s)
  | CGetObject r id => GetObject r id s
  | CListObjects r ns => ListObjects r ns s
  | CCreateObject r id u => CreateObject r id u s
  | CUpdateObject r id u => UpdateObject r id u s
  | CDeleteObject r id => DeleteObject r id s
  | CWatchRegister r ns callback => watchRegister r ns callback s
  | CWatchBackfill r w pos => watchBackfill r w pos s
  | CWatchWait r w =>
      match ms_storages s !! mi_storage r ≫= λ rs, rs_watchers rs !! w with
      | Some w => match w_phase w with WatchDone e => Returns s (w_received w, e) | _ => Blocks s end
      | None => Blocks s
      end
  end.

(** A request served while no other is. *)
Fixpoint exec {A : Type} (p : prog A) s : outcome G A :=
  match p with
  | Ret a => Returns s a
  | Call c k =>
      match perform c s with
      | Returns s b => exec (k b) s
      | Blocks s => Blocks s
      | Fatal => Fatal
      end
  end.

(** The next call of a handler. *)
Definition advance {A : Type} (p : prog A) s : option (prog A * MemoryStorage G) :=
  match p with
  | Ret _ => None
  | Call c k => match perform c s with Returns s b => Some (k b, s) | _ => None end
  end.

(** Requests served concurrently: any of them makes its next call. One that
    waits, or that would end the process, has no step. *)
Inductive pstep {A : Type} : list (prog A) * MemoryStorage G → list (prog A) * MemoryStorage G → Prop :=
  | pstep_call i p p' ps s s' :
      ps !! i = Some p → advance p s = Some (p', s') → pstep (ps, s) (<[i := p']> ps, s').

(** ** apiserver.go: the server; testhelpers.go *)

(** The storage is the one of an option, or a new one. *)
Definition NewMockKubeAPIServer (option : option (MemoryStorage G)) (newStorage : MemoryStorage G) :
    MemoryStorage G :=
  let storage := default newStorage option in
  AddStorageHook DeploymentHook (AddStorageHook NamespaceHook (AddStorageHook CRDHook storage)).

Context `{HTTPLibs}.

(** [strings.Split] for a separator of several bytes; each piece is shorter
    than the text, so its length is enough fuel. *)
Fixpoint SplitString (fuel : nat) (s sep : string) : list string :=
  match fuel, strings.CutString s sep with
  | Datatypes.S fuel, Some (a, b) => a :: SplitString fuel b sep
  | _, _ => [s]
  end.

Fixpoint addObjects (texts : list string) s : outcome G (option error) :=
  match texts with
  | [] => Returns s None
  | text :: texts =>
      match yaml_Unmarshal text with
      | Err e => Returns s (Some (WrapW "failed to unmarshal object" e))
      | Ok u =>
          match AddObject u s with
          | Returns s (inl None) => addObjects texts s
          | Returns s (inl (Some e)) => Returns s (Some (apiErrorError e))
          | Returns s (inr e) => Returns s (Some e)
          | Blocks s => Blocks s
          | Fatal => Fatal
          end
      end
  end.

Definition AddObjectsFromManifest (y : string) : MemoryStorage G → outcome G (option error) :=
  addObjects (SplitString (String.length y) y (newline +:+ "---" +:+ newline)).
End serving.

Lemma CutString_shorter s sep a b :
  sep ≠ "" → strings.CutString s sep = Some (a, b) → (String.length b < String.length s)%nat.
Proof.
  intros Hsep. revert a b. induction s as [|c s IH]; intros a b; cbn [strings.CutString].
  { by destruct sep. }
  assert (∀ s' p t, strings.strip s' p = Some t → (String.length t + String.length p = String.length s')%nat) as Hstrip.
  { clear. intros s' p. revert s'. induction p as [|x p IH]; intros [|y s'] t; cbn; try done.
    - by intros [= <-].
    - intros [= <-]. cbn. lia.
    - case_decide; [|done]. intros E%IH. lia. }
  destruct (strings.strip (String c s) sep) as [t|] eqn:E.
  - intros [= _ <-]. apply Hstrip in E. destruct sep; [done|]. cbn in *. lia.
  - destruct (strings.CutString s sep) as [[a' b']|] eqn:Ec; [|done]. intros [= _ <-]. specialize (IH _ _ eq_refl). cbn. lia.
Qed.

(** The length of the text is enough. *)
Lemma SplitString_fuel fuel s sep :
  sep ≠ "" → (String.length s ≤ fuel)%nat → SplitString fuel s sep = SplitString (String.length s) s sep.
Proof.
  intros Hsep. revert s. induction fuel as [fuel IH] using lt_wf_ind. intros s Hf.
  destruct fuel as [|fuel]; [by replace (String.length s) with 0%nat by lia|].
  cbn [SplitString]. destruct (strings.CutString s sep) as [[a b]|] eqn:E.
  - pose proof (CutString_shorter _ _ _ _ Hsep E). destruct (String.length s) as [|n] eqn:En; [lia|].
    cbn [SplitString]. rewrite E. f_equal. rewrite (IH fuel), (IH n); [done|lia..].
  - destruct (String.length s); cbn [SplitString]; [done|]. by rewrite E.
Qed.

(** ** Routing *)

(** The path of an object or a collection, as clients build it. *)
Definition segmentsOf (group version namespace resource name subResource : string) : list string :=
  (if decide (group = "") then ["api"; version] else ["apis"; group; version])
  ++ (if decide (namespace = "") then [] else ["namespaces"; namespace])
  ++ [resource]
  ++ (if decide (name = "") then [] else [name])
  ++ (if decide (subResource = "") then [] else [subResource]).
Definition pathOf (segments : list string) : string := "/" +:+ strings.Join segments "/".

(** A segment of a path: not empty, and without a slash. *)
Definition segment (t : string) : Prop := t ≠ "" ∧ strings.free_of "/" t = true.

Lemma rev_string_app s acc : strings.rev_string s acc = strings.rev_string s "" +:+ acc.
Proof.
  revert acc. induction s as [|c s IH]; intros acc; [done|]. cbn [strings.rev_string].
  rewrite IH, (IH (String c "")), string_app_assoc. done.
Qed.

Lemma rev_string_snoc s c acc : strings.rev_string (s +:+ String c "") acc = String c (strings.rev_string s acc).
Proof. revert acc. induction s as [|a s IH]; intros acc; [done|]. rewrite string_app_cons. apply IH. Qed.

Lemma rev_string_involutive s : strings.rev_string (strings.rev_string s "") "" = s.
Proof.
  induction s as [|c s IH]; [done|]. cbn [strings.rev_string].
  by rewrite (rev_string_app s (String c "")), rev_string_snoc, IH.
Qed.

(** A text whose last byte is not a slash. *)
Definition ends (s : string) : Prop := ∃ p a, s = p +:+ String a "" ∧ a ≠ "/"%char.

Lemma ends_app s t : ends t → ends (s +:+ t).
Proof. intros (p & a & -> & Ha). exists (s +:+ p), a. by rewrite string_app_assoc. Qed.

Lemma segment_ends t : segment t → ends t.
Proof.
  intros [Hne Hf]. induction t as [|c t IH]; [done|]. cbn in Hf. bsimpl.
  destruct t as [|d t]; [by exists "", c|].
  apply (ends_app (String c "")), IH; done.
Qed.

Lemma Join_ends ts : ts ≠ [] → Forall segment ts → ends (strings.Join ts "/").
Proof.
  intros Hne Hall. induction Hall as [|t ts Ht Hall IH]; [done|].
  destruct ts as [|t' ts]; [by apply segment_ends|].
  rewrite Join_cons by done. do 2 apply ends_app. by apply IH.
Qed.

Lemma Trim_path t ts : Forall segment (t :: ts) →
  Trim "/" (pathOf (t :: ts)) = strings.Join (t :: ts) "/".
Proof.
  intros Hall. destruct (Join_ends (t :: ts)) as (p & a & E & Ha); [done|done|].
  assert (TrimLeft "/" (pathOf (t :: ts)) = strings.Join (t :: ts) "/") as El.
  { unfold pathOf. rewrite string_app_cons, string_app_nil_l. cbn [TrimLeft]. rewrite decide_True by done.
    apply list.Forall_cons in Hall as [[Hne Hf] _]. destruct t as [|c t]; [done|].
    cbn in Hf. bsimpl. destruct ts as [|t' ts]; [cbn; by rewrite decide_False|].
    rewrite Join_cons by done. rewrite string_app_cons. cbn [TrimLeft]. by rewrite decide_False. }
  unfold Trim. rewrite El, E, rev_string_snoc. cbn [TrimLeft]. rewrite decide_False by done.
  cbn [strings.rev_string]. by rewrite rev_string_app, rev_string_involutive.
Qed.

(** The tokens of a path are its segments. *)
Lemma tokensOf_path t ts : Forall segment (t :: ts) → tokensOf (pathOf (t :: ts)) = t :: ts.
Proof.
  intros Hall. unfold tokensOf. rewrite Trim_path by done. apply (Split_Join "/"); [done|].
  eapply list.Forall_impl; [exact Hall|]. by intros x [_ ->].
Qed.

(** The tokens of the path of an object or a collection. *)
Lemma segmentsOf_tokens group version namespace resource name subResource :
  segment version → segment resource → (group ≠ "" → segment group) → (namespace ≠ "" → segment namespace) →
  (name ≠ "" → segment name) → (subResource ≠ "" → segment subResource) →
  let segments := segmentsOf group version namespace resource name subResource in
  tokensOf (pathOf segments) = segments.
Proof.
  intros Hv Hr Hg Hns Hn Hsub segments.
  assert (Forall segment segments) as Hall.
  { unfold segments, segmentsOf. rewrite !list.Forall_app.
    repeat case_decide; rewrite ?list.Forall_cons, ?list.Forall_nil; split_and!; try done; tauto. }
  destruct segments as [|t ts] eqn:E; [|by apply tokensOf_path].
  unfold segments, segmentsOf in E. by case_decide.
Qed.

(** C40. The paths clients build are routed to the object or the collection they
    name. A collection is listed and created into, an object is read, patched,
    replaced and deleted; a subresource is found for namespaced objects of a
    group only: one of the core group is not found, and one of a cluster-scoped
    object neither, unless the resource is [namespaces], whose subresources are
    taken for a collection in that namespace. *)
Theorem route_paths method group version namespace resource name subResource :
  Forall segment [version; resource] → (group ≠ "" → segment group) →
  (namespace ≠ "" → segment namespace) → (name ≠ "" → segment name) →
  (subResource ≠ "" → segment subResource ∧ name ≠ "") → (group = "" → version = "v1") →
  let common := mkBase group version resource namespace name subResource in
  route method (tokensOf (pathOf (segmentsOf group version namespace resource name subResource)))
    = if decide (name = "") then (true, buildCollectionRequest method group version resource namespace)
      else if decide (subResource = "") then (true, buildObjectRequest method common)
      else if decide (group ≠ "" ∧ namespace ≠ "") then (true, buildObjectRequest method common)
      else if decide (namespace = "" ∧ resource = "namespaces") then
        (true, buildCollectionRequest method group version subResource name)
      else (false, None).
Proof.
  intros Hvr Hg Hns Hn Hsub Hcore common. apply list.Forall_cons in Hvr as [Hv Hvr].
  apply list.Forall_cons in Hvr as [Hr _].
  assert (tokensOf (pathOf (segmentsOf group version namespace resource name subResource))
    = segmentsOf group version namespace resource name subResource) as Htok by (apply segmentsOf_tokens; tauto).
  unfold segmentsOf in Htok |- *.
  destruct (decide (group = "")) as [->|Hg'], (decide (namespace = "")) as [->|Hns'],
    (decide (name = "")) as [->|Hn'], (decide (subResource = "")) as [->|Hs'];
    try (exfalso; by apply (Hsub Hs')); cbn [app] in Htok |- *; rewrite Htok; unfold route, routeLong;
    try rewrite (Hcore eq_refl).
  all: repeat (case_decide; destruct_and?; simplify_eq; try done); try naive_solver.
Qed.

(** ** What a request does when served alone *)

Section alone.
Context `{U : Unstructured, O : ObjectMetaOps, R : RangeOrder} {G : Type} `{UIDGenerator G}.
Implicit Types s : MemoryStorage G.

(** Types are only ever added. *)
Definition grows s s' : Prop := ∃ extra, ms_resources s' = ms_resources s ++ extra.

Lemma grows_refl s : grows s s.
Proof using. exists []. by rewrite app_nil_r. Qed.

Lemma grows_trans s1 s2 s3 : grows s1 s2 → grows s2 s3 → grows s1 s3.
Proof using. intros [x Hx] [y Hy]. exists (x ++ y). by rewrite Hy, Hx, (assoc (++)). Qed.

Lemma addVersions_grows g k r sc vs s : grows s (addVersions g k r sc vs s).1.
Proof using.
  revert s. induction vs as [|v vs IH]; intros s; cbn [addVersions]; [apply grows_refl|].
  destruct v; try apply grows_refl. case_decide; [apply grows_refl|].
  case_decide; [|exists []; by rewrite app_nil_r].
  eapply grows_trans; [|apply IH]. by eexists.
Qed.

Lemma UpdateCRD_grows ev s : grows s (UpdateCRD ev s).1.
Proof using.
  unfold UpdateCRD. repeat (case_decide; [apply grows_refl|]).
  destruct (nestedFieldNoCopy _ _) as [[[]|]|]; try apply grows_refl. apply addVersions_grows.
Qed.

Lemma fireOnWatchEvent_grows hs ev s s' ev' :
  fireOnWatchEvent hs ev s = Some (s', ev') → grows s s'.
Proof using.
  revert ev s. induction hs as [|h hs IH]; intros ev s; cbn [fireOnWatchEvent].
  { intros [= <- _]. apply grows_refl. }
  destruct (OnWatchEvent h ev s) as [[s1 u]|] eqn:Ho; [|done]. intros Hf%IH.
  eapply grows_trans; [|exact Hf]. clear Hf IH. unfold OnWatchEvent in Ho.
  destruct h; repeat case_decide; simplify_eq; try apply grows_refl.
  - pose proof (UpdateCRD_grows ev s) as Hg. destruct (UpdateCRD ev s) as [s2 e].
    destruct (updateCRDConditions _); by simplify_eq.
  - destruct (deploymentChanged _); simplify_eq. apply grows_refl.
Qed.

Lemma FindResource_grows gr r s s' : grows s s' → FindResource gr s = Some r → FindResource gr s' = Some r.
Proof using. intros [extra E] Hf. unfold FindResource in *. rewrite E, find_app. by rewrite Hf. Qed.

(** A write that returned is there for the next reader. *)
Lemma commit_visible {A} i gvk evType u store (answer : jmap → A) s s' a :
  commit i gvk evType u store answer s = Returns s' a →
  grows s s' ∧ ∃ v m rs, a = answer v ∧ ms_storages s' !! i = Some rs ∧ rs_locked rs = false
    ∧ rs_objects rs = store v m.
Proof using.
  unfold commit. destruct (fireOnWatchEvent _ _ _) as [[s1 ev]|] eqn:Hf; [|done].
  apply fireOnWatchEvent_grows in Hf. destruct (ms_storages s1 !! i) as [rs|] eqn:Hi; [|done].
  destruct (notify _ _ _) as [[slots ws]|]; [|done]. intros [= <- <-]. split; [done|].
  eexists (we_internalObject ev), (rs_objects rs), _. split; [done|].
  split; [cbn; rewrite list_lookup_insert_eq; [reflexivity|by eapply lookup_lt_Some]|done].
Qed.

Lemma CreateObject_visible r id u s s' a :
  CreateObject r id u s = Returns s' a →
  match a with
  | inl v => GetObject r id s' = Returns s' (Some v) ∧ grows s s'
  | inr _ => s' = s
  end.
Proof using.
  intros (rs & Hi & Hl & Hc)%locking_Returns. destruct (rs_objects rs !! id) as [v|].
  { by injection Hc as <- <-. }
  unfold TestClock_Now in Hc. destruct (NewUID (ms_uids s)) as [uid uids]. unfold stamp in Hc.
  apply commit_visible in Hc as (Hg & v & m & rs' & -> & Hi' & Hl' & Ho). split; [|exact Hg].
  unfold GetObject, locking. rewrite Hi', Hl', Ho. by rewrite lookup_insert_eq.
Qed.

Lemma UpdateObject_visible r id u s s' a :
  UpdateObject r id u s = Returns s' a →
  match a with
  | inl v => GetObject r id s' = Returns s' (Some v) ∧ grows s s'
  | inr _ => s' = s
  end.
Proof using.
  intros (rs & Hi & Hl & Hc)%locking_Returns. destruct (rs_objects rs !! id) as [v|].
  2:{ by injection Hc as <- <-. }
  unfold stamp in Hc. apply commit_visible in Hc as (Hg & v' & m & rs' & -> & Hi' & Hl' & Ho).
  split; [|exact Hg]. unfold GetObject, locking. rewrite Hi', Hl', Ho. by rewrite lookup_insert_eq.
Qed.

Lemma DeleteObject_visible r id s s' a :
  DeleteObject r id s = Returns s' a →
  match a with
  | inl v => GetObject r id s' = Returns s' None ∧ grows s s'
  | inr _ => s' = s
  end.
Proof using.
  intros (rs & Hi & Hl & Hc)%locking_Returns. destruct (rs_objects rs !! id) as [v|].
  2:{ by injection Hc as <- <-. }
  apply commit_visible in Hc as (Hg & v' & m & rs' & -> & Hi' & Hl' & Ho).
  split; [|exact Hg]. unfold GetObject, locking. rewrite Hi', Hl', Ho. by rewrite lookup_delete_eq.
Qed.

Lemma GetObject_state r id s s' a : GetObject r id s = Returns s' a → s' = s.
Proof using. intros (rs & _ & _ & [= <- _])%locking_Returns. done. Qed.
End alone.

Section requests.
Context `{U : Unstructured, O : ObjectMetaOps, SchemaText, R : RangeOrder, SliceSort, HTTPLibs}.
Context {T FS : Type} `{MergeLib T FS} {G : Type} `{UIDGenerator G}.
Implicit Types s : MemoryStorage G.

Lemma exec_bind {A B} (f : A → prog B) (p : prog A) s :
  exec (p ≫= f) s = match exec p s with Returns s a => exec (f a) s | Blocks s => Blocks s | Fatal => Fatal end.
Proof using.
  revert s. induction p as [a|B' c k IH]; intros s; [done|].
  cbn. destruct (perform c s) as [s1 b|s1|]; [|done..]. apply IH.
Qed.

Lemma exec_ask {A B} (c : call B) (f : B → prog A) s :
  exec (ask c ≫= f) s = match perform c s with Returns s b => exec (f b) s | Blocks s => Blocks s | Fatal => Fatal end.
Proof using. rewrite exec_bind. cbn. by destruct (perform c s). Qed.

Lemma exec_withResource group resource k s :
  exec (withResource group resource k) s
    = match FindResource (mkGR group resource) s with
      | None => Returns s (writeErrorResponse 404)
      | Some r => exec (k r) s
      end.
Proof using. unfold withResource. rewrite exec_ask. cbn. by destruct (FindResource _ s). Qed.

(** Every object has a JSON text. *)
Definition encodable : Prop := ∀ u, is_Ok (json_Marshal (PObject u)) = true.

Lemma writeResponse_object u : encodable →
  WriteHeader 200 ∈ (writeResponse (PObject u)).1 ∧ (writeResponse (PObject u)).2 = None.
Proof using.
  intros He. unfold writeResponse. specialize (He u). destruct (json_Marshal (PObject u)) as [b|]; [|done].
  cbn. split; [|done]. do 3 right. left.
Qed.

Lemma http_Error_not_200 code : code ≠ 200%Z → WriteHeader 200 ∉ http_Error code.
Proof using. intros Hc Hin. unfold http_Error in Hin. repeat (apply elem_of_cons in Hin as [?|Hin]; [congruence|]). by apply elem_of_nil in Hin. Qed.

(** The object a request writes. *)
Definition writtenObject (req : Request) (rq : httpRequest) : option resourceRequestBase :=
  match req with
  | PutResource c | PatchResource c =>
      Some (mkBase (rb_Group c) (rb_Version c) (rb_Resource c) (rb_Namespace c) (rb_Name c) "")
  | PostResource group version resource namespace =>
      match body ← hr_Body rq; u_Decode body with
      | Ok obj => Some (mkBase group version resource namespace (u_GetName obj) "")
      | Err _ => None
      end
  | _ => None
  end.

(** What serving a request amounts to: it answers what a GET of the object
    answers afterwards, or nothing happened. *)
Definition served (req : Request) (rq : httpRequest) s s' (a : reply) : Prop :=
  (a.2 = None → WriteHeader 200 ∈ a.1 →
     (∀ c, writtenObject req rq = Some c → exec (getResource_Run c) s' = Returns s' a)
     ∧ (∀ c, req = DeleteResource c → exec (getResource_Run c) s' = Returns s' (writeErrorResponse 404)))
  ∧ (s' = s ∨ WriteHeader 200 ∈ a.1).

Lemma served_error req rq s e : served req rq s s (failWith e).
Proof using. split; [done|by left]. Qed.

Lemma served_status req rq s code : code ≠ 200%Z → served req rq s s (writeErrorResponse code).
Proof using. intros Hc. split; [|by left]. intros _ Hin. by apply http_Error_not_200 in Hin. Qed.

(** A read of the object that is there. *)
Lemma exec_get c r s v :
  FindResource (mkGR (rb_Group c) (rb_Resource c)) s = Some r →
  GetObject r (requestId c) s = Returns s v →
  exec (getResource_Run c) s
    = Returns s (match v with Some v => writeResponse (PObject v) | None => writeErrorResponse 404 end).
Proof using.
  intros Hf Hg. unfold getResource_Run. rewrite exec_withResource, Hf, exec_ask. cbn [perform]. by rewrite Hg.
Qed.

(** A write whose answer is the object stored. *)
Lemma served_write req rq s s' a c r :
  encodable → writtenObject req rq = Some c → (∀ d, req ≠ DeleteResource d) →
  FindResource (mkGR (rb_Group c) (rb_Resource c)) s = Some r →
  match a with
  | inl v => GetObject r (requestId c) s' = Returns s' (Some v) ∧ grows s s'
  | inr _ => s' = s
  end → served req rq s s' (answerObject a).
Proof using.
  intros He Hw Hd Hf Ha. destruct a as [v|e]; cbn [answerObject]; [|subst s'; apply served_error].
  destruct Ha as [Hg Hgr]. split; [|right; by apply writeResponse_object].
  intros _ _. split; [|intros d ->; by destruct (Hd d)]. intros c' Hc'. rewrite Hw in Hc'. injection Hc' as <-.
  by rewrite (exec_get _ r _ (Some v)); [|by eapply FindResource_grows|].
Qed.

Lemma served_read req rq s a :
  writtenObject req rq = None → (∀ d, req ≠ DeleteResource d) → served req rq s s a.
Proof using. intros Hw Hd. split; [|by left]. intros _ _. split; [by rewrite Hw|]. intros c ->. by destruct (Hd c). Qed.

Lemma postedObject_id r ns rq id obj :
  postedObject r ns rq = Ok (id, obj) →
  ∃ body, (text ← hr_Body rq; u_Decode text) = Ok body ∧ id = mkNN ns (u_GetName body).
Proof using.
  unfold postedObject. intros (text & Ht & (body & Hb%wrapW_Ok & Hid)%bind_Ok)%bind_Ok.
  exists body. rewrite Ht. split; [exact Hb|]. cbv zeta in Hid.
  case_decide as Hns; [done|]. case_decide; [done|]. apply bind_Ok in Hid as (o & _ & [= <- _]).
  cbn in Hns. unfold objectKey. by rewrite Hns.
Qed.

(** The part of PUT and PATCH after the object was found. *)
Lemma served_update c req rq s s' a r existing (update : res (option jmap)) :
  encodable → writtenObject req rq = Some (mkBase (rb_Group c) (rb_Version c) (rb_Resource c) (rb_Namespace c) (rb_Name c) "") →
  (∀ d, req ≠ DeleteResource d) →
  FindResource (mkGR (rb_Group c) (rb_Resource c)) s = Some r →
  GetObject r (requestId c) s = Returns s (Some existing) →
  exec (match update with
        | Err e => mret (failWith e)
        | Ok None => mret (writeResponse (PObject existing))
        | Ok (Some updated) =>
            answer ← ask (CUpdateObject r (requestId c) updated);
            mret (answerObject answer)
        end) s = Returns s' a →
  served req rq s s' a.
Proof using.
  intros He Hw Hd Hf Hg. destruct update as [[updated|]|e].
  - rewrite exec_ask. cbn [perform]. destruct (UpdateObject r (requestId c) updated s) as [s1 b|s1|] eqn:Hu; [|done..].
    intros [= <- <-]. eapply served_write; [done|exact Hw|done|exact Hf|]. by apply UpdateObject_visible in Hu.
  - intros [= <- <-]. eapply (served_write req rq s s (inl existing)); [done|exact Hw|done|exact Hf|].
    split; [exact Hg|apply grows_refl].
  - intros [= <- <-]. apply served_error.
Qed.

(** The storage after a call that returned. *)
Ltac storage_call :=
  rewrite exec_ask; cbn [perform];
  match goal with |- context [match ?o with Returns _ _ => _ | Blocks _ => _ | Fatal => _ end] =>
    let E := fresh "E" in destruct o as [? ?|?|] eqn:E; [|done..] end.
Ltac known_resource r :=
  rewrite exec_withResource;
  destruct (FindResource _ _) as [r|] eqn:Hf; [|intros [= <- <-]; by apply served_status].

Lemma post_served g v rn ns rq s s' a :
  encodable → exec (postResource_Run g rn ns rq) s = Returns s' a →
  served (PostResource g v rn ns) rq s s' a.
Proof using.
  intros He. unfold postResource_Run. known_resource r.
  destruct (postedObject r ns rq) as [[id obj]|e] eqn:Hp; [|intros [= <- <-]; apply served_error].
  apply postedObject_id in Hp as (body & Hb & ->). storage_call. intros [= <- <-].
  eapply served_write; [done|cbn; by rewrite Hb|done|exact Hf|]. by apply CreateObject_visible in E.
Qed.

Lemma doWatch_ended r ns partial rq s s' a :
  exec (doWatch r ns partial rq) s = Returns s' a → a.2 ≠ None ∧ WriteHeader 200 ∈ a.1.
Proof using.
  unfold doWatch. storage_call. destruct a0 as [w pos]. storage_call. storage_call.
  destruct a1 as [events e]. intros [= <- <-]. split; [done|]. cbn. do 2 right. left.
Qed.

Lemma list_served g v rn ns rq s s' a :
  exec (listResource_Run g rn ns rq) s = Returns s' a → served (ListResource g v rn ns) rq s s' a.
Proof using.
  unfold listResource_Run. known_resource r. case_decide.
  - intros [Ha Hb]%doWatch_ended. split; [|by right]. by intros ?%Ha.
  - storage_call. apply locking_Returns in E as (rs & _ & _ & [= <- <-]).
    intros [= <- <-]. by apply served_read.
Qed.

Lemma get_served c rq s s' a :
  exec (getResource_Run c) s = Returns s' a → served (GetResource c) rq s s' a.
Proof using.
  unfold getResource_Run. known_resource r. storage_call. apply GetObject_state in E as ->.
  intros [= <- <-]. by apply served_read.
Qed.

Lemma patch_served c rq s s' a :
  encodable → exec (patchResource_Run c rq) s = Returns s' a → served (PatchResource c) rq s s' a.
Proof using.
  intros He. unfold patchResource_Run. known_resource r. storage_call.
  pose proof E as Es. apply GetObject_state in Es as ->.
  destruct (patchedBody rq) as [[bytes body]|e]; [|intros [= <- <-]; apply served_error].
  destruct a0 as [existing|]; [by eapply served_update|].
  case_decide; [intros [= <- <-]; by apply served_status|].
  destruct (beforeObjectCreation _) as [patched|e]; [|intros [= <- <-]; apply served_error].
  clear E. storage_call. intros [= <- <-].
  eapply served_write; [done|reflexivity|done|exact Hf|]. by apply CreateObject_visible in E.
Qed.

Lemma put_served c rq s s' a :
  encodable → exec (putResource_Run c rq) s = Returns s' a → served (PutResource c) rq s s' a.
Proof using.
  intros He. unfold putResource_Run. known_resource r. storage_call.
  pose proof E as Es. apply GetObject_state in Es as ->.
  destruct a0 as [existing|]; [by eapply served_update|]. intros [= <- <-]. by apply served_status.
Qed.

Lemma delete_served c rq s s' a :
  encodable → exec (deleteResource_Run c) s = Returns s' a → served (DeleteResource c) rq s s' a.
Proof using.
  intros He. unfold deleteResource_Run. known_resource r.
  case_decide; [intros [= <- <-]; apply served_error|]. storage_call.
  apply DeleteObject_visible in E. intros [= <- <-]. destruct a0 as [v|e]; [|subst; apply served_error].
  destruct E as [Hg Hgr]. split; [|right; by apply writeResponse_object].
  intros _ _. split; [done|]. intros d [= <-].
  by rewrite (exec_get _ r _ None); [|by eapply FindResource_grows|].
Qed.

Lemma Run_served req rq s s' a :
  encodable → exec (Run req rq) s = Returns s' a → served req rq s s' a.
Proof using.
  intros He. destruct req; cbn [Run]; eauto using post_served, list_served, get_served, patch_served,
    put_served, delete_served; intros [= <- <-]; by apply served_read.
Qed.

(** C19. A request reads what was written. When a POST, PUT or PATCH answers 200
    (and not an error after it, as a watch that ends does), a GET of that object
    answers the very same response; after a DELETE that answers 200 it answers
    404; and a request that does not answer 200 has changed nothing. *)
Theorem read_your_writes rq req s s' calls :
  encodable → route (hr_Method rq) (tokensOf (hr_Path rq)) = (true, Some req) →
  exec (ServeHTTP [] rq) s = Returns s' calls →
  (WriteHeader 200 ∈ calls → WriteHeader 500 ∉ calls →
     (∀ c, writtenObject req rq = Some c → exec (getResource_Run c) s' = Returns s' (calls, None))
     ∧ (∀ c, req = DeleteResource c → exec (getResource_Run c) s' = Returns s' (http_Error 404, None)))
  ∧ (WriteHeader 200 ∉ calls → s' = s).
Proof using.
  intros He Hr. unfold ServeHTTP. cbn [foldl]. rewrite Hr. rewrite exec_bind.
  destruct (exec (Run req rq) s) as [s1 [l err]|s1|] eqn:Hx; [|done..].
  apply Run_served in Hx as [Hw Hs]; [|done]. cbn [fst snd] in *. destruct err as [e|]; intros [= <- <-].
  - split.
    + intros _ Hno. destruct Hno. apply elem_of_app. right. do 3 right. left.
    + rewrite elem_of_app. tauto.
  - split; [intros H200 _; exact (Hw eq_refl H200)|tauto].
Qed.
End requests.

(** ** Requests served concurrently *)

(** What apimachinery documents of the accessors: a name or a version that is
    not empty was read from the metadata; setting a string map changes one
    field. *)
Record accessors_ok `{U : Unstructured} (O : ObjectMetaOps) : Prop := {
  ac_version m : m_GetResourceVersion m ≠ "" → storable m;
  ac_name m : u_GetName m ≠ "" → storable m;
  ac_strings m d f g : g ≠ f → (u_SetNestedStringMap m d [f]).1 !! g = m !! g
}.

Section traffic.
Context `{U : Unstructured, O : ObjectMetaOps, SchemaText, R : RangeOrder, SliceSort, HTTPLibs}.
Context {T FS : Type} `{MergeLib T FS} {G : Type} `{UIDGenerator G}.
Context (HU : unstructured_ok U) (HO : metaops_ok O) (HA : accessors_ok O).
Implicit Types s : MemoryStorage G.

(** A request whose body is about the object of its path. *)
Definition addressed (req : Request) (rq : httpRequest) : Prop :=
  match req with
  | PutResource c =>
      rb_Name c ≠ "" ∧ (rb_SubResource c = "" → ∀ text body, hr_Body rq = Ok text → u_Decode text = Ok body →
        objectKey body = requestId c)
  | PatchResource c =>
      rb_Name c ≠ "" ∧ ∀ bytes body, patchedBody rq = Ok (bytes, body) →
        objectKey body = requestId c
        ∧ ∀ r existing updated, objectKey existing = requestId c →
            patchUpdate r (rb_SubResource c) existing bytes body rq = Ok (Some updated) →
            objectKey updated = requestId c
  | _ => True
  end.

(** An object that is stored under its own name. *)
Definition wellkept (id : Kube.NamespacedName) (u : jmap) : Prop := objectKey u = id ∧ storable u.

Lemma wellkept_name id u : objectKey u = id → nn_Name id ≠ "" → wellkept id u.
Proof using HA. intros <- Hn. split; [done|]. by apply (ac_name O HA). Qed.

Lemma beforeObjectCreation_key obj obj' :
  beforeObjectCreation obj = Ok obj' → objectKey obj' = objectKey obj.
Proof using HO HA.
  unfold beforeObjectCreation. case_decide; [|by intros [= <-]].
  unfold beforeSecretCreation. intros (sd & _ & Hx)%bind_Ok. case_decide; [by injection Hx as <-|].
  apply bind_Ok in Hx as (d & _ & Hx).
  match type of Hx with match u_SetNestedStringMap ?a ?b ?c with _ => _ end = _ =>
    pose proof (ac_strings O HA a b "data") as Hf; destruct (u_SetNestedStringMap a b c) as [obj1 [e|]] end; [done|].
  injection Hx as <-. cbn [fst] in Hf.
  assert (identity (delete "stringData" obj1) = identity obj) as [= _ E1 E2];
    [|unfold objectKey; by rewrite E1, E2].
  apply (mo_id_of O HO); rewrite lookup_delete_ne by done; by apply Hf.
Qed.

Lemma SetGeneration_key g u : objectKey (m_SetGeneration g u) = objectKey u.
Proof using HO. pose proof (mo_id_gen O HO g u) as [= _ E1 E2]. unfold objectKey. by rewrite E1, E2. Qed.

Lemma bumpGeneration_key r original updated : objectKey (bumpGeneration r original updated) = objectKey updated.
Proof using HO.
  unfold bumpGeneration. destruct (SetsGeneration r); [|done]. destruct (DeepEqual _ _); [done|].
  apply SetGeneration_key.
Qed.

(** The calls of a handler that respect the storage: objects are stored under
    their own names, and a watch lists once, after it was registered. [pending]
    is the watch that is registered and has not listed. *)
Definition guarded {B : Type} (c : call B) (pending : option (nat * nat))
    (Q : option (nat * nat) → B → Prop) : Prop :=
  match c in call B return (option (nat * nat) → B → Prop) → Prop with
  | CGetObject r id => λ Q, pending = None ∧
      Q None None ∧ ∀ u, wellkept id u → Q None (Some u)
  | CCreateObject r id u => λ Q, pending = None ∧ wellkept id u ∧ ∀ b, Q None b
  | CUpdateObject r id u => λ Q, pending = None ∧ wellkept id u ∧ ∀ b, Q None b
  | CWatchRegister r ns cb => λ Q, pending = None ∧ ∀ w pos, Q (Some (mi_storage r, w)) (w, pos)
  | CWatchBackfill r w pos => λ Q, pending = Some (mi_storage r, w) ∧ ∀ b, Q None b
  | _ => λ Q, pending = None ∧ ∀ b, Q None b
  end Q.

Fixpoint safe {A : Type} (pending : option (nat * nat)) (p : prog A) : Prop :=
  match p with
  | Ret _ => pending = None
  | Call c k => guarded c pending (λ pending b, safe pending (k b))
  end.

Lemma safe_bind {A B} (f : A → prog B) (p : prog A) pending :
  safe pending p → (∀ a, safe None (f a)) → safe pending (p ≫= f).
Proof using.
  intros Hp Hf. revert pending Hp. induction p as [a|B' c k IH]; intros pending.
  { intros ->. apply Hf. }
  cbn. destruct c; cbn; naive_solver.
Qed.

Lemma safe_withResource g r k : (∀ i, safe None (k i)) → safe None (withResource g r k).
Proof using. intros Hk. cbn. split; [done|]. intros [i|]; [apply Hk|done]. Qed.

Lemma post_safe g rn ns rq : safe None (postResource_Run g rn ns rq).
Proof using HO HA.
  apply safe_withResource. intros r. destruct (postedObject r ns rq) as [[id obj]|e] eqn:Hp; [|done].
  cbn. split; [done|]. split; [|done].
  unfold postedObject in Hp. apply bind_Ok in Hp as (text & _ & (body & _ & Hp)%bind_Ok). cbv zeta in Hp.
  case_decide; [done|]. case_decide as Hn; [done|]. apply bind_Ok in Hp as (o & Ho & [= <- <-]).
  apply wellkept_name; [|done]. rewrite (beforeObjectCreation_key _ _ Ho).
  destruct (SetsGeneration r); [apply SetGeneration_key|done].
Qed.

Lemma putUpdate_key r c existing rq updated :
  addressed (PutResource c) rq → objectKey existing = requestId c →
  putUpdate r (rb_SubResource c) existing rq = Ok (Some updated) → wellkept (requestId c) updated.
Proof using HO HA.
  intros [Hname Hbody] Hex. unfold putUpdate.
  intros (text & Ht & (body & Hb%wrapW_Ok & (upd & Hu & Hx)%bind_Ok)%bind_Ok)%bind_Ok.
  destruct (DeepEqual _ _); [done|]. apply bind_Ok in Hx as (u & Hu' & [= <-]).
  apply wellkept_name; [|done]. rewrite (beforeObjectCreation_key _ _ Hu'), bumpGeneration_key.
  unfold putBody in Hu. case_decide as Hsub; [injection Hu as <-; by eapply Hbody|].
  case_decide; [|done]. rewrite <- Hex.
  assert (∀ v, objectKey (<["status" := v]> existing) = objectKey existing) as Hst.
  { intros v. assert (identity (<["status" := v]> existing) = identity existing) as [= _ E1 E2];
      [|unfold objectKey; by rewrite E1, E2].
    apply (mo_id_of O HO); by rewrite lookup_insert_ne. }
  destruct (fieldOf body "status"); simplify_eq; apply Hst.
Qed.

Lemma put_safe c rq : addressed (PutResource c) rq → safe None (putResource_Run c rq).
Proof using HO HA.
  intros Ha. apply safe_withResource. intros r. cbn. split; [done|]. split; [done|].
  intros existing [Hex _]. destruct (putUpdate _ _ _ _) as [[updated|]|e] eqn:Hu; [|done..].
  cbn. split; [done|]. split; [by eapply putUpdate_key|done].
Qed.

Lemma patch_safe c rq : addressed (PatchResource c) rq → safe None (patchResource_Run c rq).
Proof using HO HA.
  intros [Hname Ha]. apply safe_withResource. intros r. cbn. split; [done|].
  destruct (patchedBody rq) as [[bytes body]|e]; [|done]. destruct (Ha _ _ eq_refl) as [Hb Hp]. split.
  - case_decide; [done|]. destruct (beforeObjectCreation _) as [patched|e] eqn:Hbo; [|done].
    cbn. split; [done|]. split; [|done]. apply wellkept_name; [|done].
    rewrite (beforeObjectCreation_key _ _ Hbo). destruct (SetsGeneration r); [by rewrite SetGeneration_key|done].
  - intros existing [Hex _]. destruct (patchUpdate _ _ _ _ _ _) as [[updated|]|e] eqn:Hu; [|done..].
    cbn. split; [done|]. split; [|done]. apply wellkept_name; [by eapply Hp|done].
Qed.

Lemma list_safe g rn ns rq : safe None (listResource_Run g rn ns rq).
Proof using.
  apply safe_withResource. intros r. case_decide; cbn; (split; [done|]).
  - intros w pos. split; [done|]. intros _. split; [done|]. by intros [evs e].
  - by intros [items rv].
Qed.

Lemma Run_safe req rq : addressed req rq → safe None (Run req rq).
Proof using HO HA.
  intros Ha. destruct req; cbn [Run]; auto using post_safe, list_safe, put_safe, patch_safe; try done.
  - apply safe_withResource. done.
  - apply safe_withResource. intros r. by case_decide.
Qed.

Lemma ServeHTTP_safe hooks rq :
  (∀ req b, route (hr_Method (foldl (λ rq hook, hook rq) rq hooks))
              (tokensOf (hr_Path (foldl (λ rq hook, hook rq) rq hooks))) = (b, Some req) →
     addressed req (foldl (λ rq hook, hook rq) rq hooks)) →
  safe None (ServeHTTP hooks rq).
Proof using HO HA.
  intros Ha. unfold ServeHTTP. cbv zeta. destruct (route _ _) as [b [req|]]; [|by destruct b].
  assert (safe None ('(calls, err) ← Run req (foldl (λ rq hook, hook rq) rq hooks);
      mret (match err with Some _ => calls ++ http_Error 500 | None => calls end))) as Hs.
  { apply safe_bind; [by eapply Run_safe, Ha|]. by intros [calls err]. }
  by destruct b.
Qed.

(** A watch that has been registered and is still to list. *)
Definition backfilling s (x : nat * nat) : Prop :=
  ∃ rs w, ms_storages s !! x.1 = Some rs ∧ rs_watchers rs !! x.2 = Some w ∧ w_phase w = Backfilling.

Lemma notify_backfilling ev slots ws slots' ws' j w :
  notify ev slots ws = Some (slots', ws') → ws !! j = Some w → w_phase w = Backfilling →
  ∃ w', ws' !! j = Some w' ∧ w_phase w' = Backfilling.
Proof using.
  revert ws slots' ws' w. induction slots as [|slot slots IH]; intros ws slots' ws' w; cbn [notify].
  { intros [= <- <-]. eauto. }
  assert (∀ sl ws1 w1, ws1 !! j = Some w1 → w_phase w1 = Backfilling →
    match notify ev slots ws1 with None => None | Some (slots, ws) => Some (sl :: slots, ws) end
      = Some (slots', ws') → ∃ w', ws' !! j = Some w' ∧ w_phase w' = Backfilling) as Hgo.
  { intros sl ws1 w1 Hj Hp. destruct (notify ev slots ws1) as [[sl' ws2]|] eqn:E; [|done].
    intros [= _ <-]. by eapply IH. }
  intros Hn Hj Hp. destruct (slot ≫= λ i, w ← ws !! i; Some (i, w)) as [[i wi]|] eqn:Es; [|by eapply Hgo].
  destruct slot as [i'|]; [|done]. cbn in Es. destruct (ws !! i') as [wi'|] eqn:Hi; [|done].
  injection Es as -> ->. case_decide; [by eapply Hgo|].
  assert (i < length ws)%nat as Hlt by (by eapply lookup_lt_Some).
  destruct (w_callback wi (w_received wi) ev) as [e|]; [destruct (w_phase wi) eqn:Hpi; try done|].
  - eapply Hgo; [|exact Hp|exact Hn]. rewrite list_lookup_insert_ne; [done|]. intros ->. congruence.
  - destruct (decide (i = j)) as [->|Hne].
    + eapply Hgo; [by apply list_lookup_insert_eq| |exact Hn]. cbn. congruence.
    + eapply Hgo; [|exact Hp|exact Hn]. by rewrite list_lookup_insert_ne.
Qed.

Lemma commit_backfilling {A} i gvk evType u store (answer : jmap → A) s s' a rs x :
  Forall hook_ok (ms_hooks s) → ms_storages s !! i = Some rs →
  commit i gvk evType u store answer s = Returns s' a → backfilling s x → backfilling s' x.
Proof using HU HO.
  intros Hh Hi Hc (rs0 & w & Hx & Hw & Hp).
  eapply (commit_effect HU HO) in Hc as (ev & slots & ws & extra & _ & _ & _ & _ & Hn & Es & _);
    [|exact Hh|exact Hi].
  unfold backfilling. rewrite Es. destruct (decide (i = x.1)) as [->|Hne].
  - simplify_eq. destruct (notify_backfilling _ _ _ _ _ _ _ Hn Hw Hp) as (w' & Hw' & Hp').
    eexists _, w'. split; [apply list_lookup_insert_eq; rewrite length_app; apply lookup_lt_Some in Hi; lia|done].
  - exists rs0, w. split; [|done]. rewrite list_lookup_insert_ne by done. by apply lookup_app_l_Some.
Qed.

Lemma pretty_N_go_nonempty x acc : (0 < x)%N ∨ acc ≠ "" → pretty_N_go x acc ≠ "".
Proof using.
  revert acc. induction (N.lt_wf_0 x) as [x _ IH]; intros acc Hx.
  destruct (decide (x = 0%N)) as [->|Hne].
  - rewrite pretty_N_go_0. destruct Hx; [lia|done].
  - rewrite pretty_N_go_step by lia. apply IH; [apply N.div_lt; lia|by right].
Qed.

Lemma FormatInt_nonempty v : (0 < v)%Z → FormatInt v ≠ "".
Proof using.
  destruct v as [|v|v]; [lia| |lia]. intros _. unfold FormatInt, pretty, pretty_Z, pretty, pretty_positive, pretty, pretty_N.
  case_decide; [done|]. apply pretty_N_go_nonempty. left. lia.
Qed.

(** What the handlers are told of an object is so. *)
Lemma GetObject_wellkept n r id s s' u :
  inv n s → GetObject r id s = Returns s' (Some u) → wellkept id u.
Proof using HA.
  intros Hinv (rs & Hi & _ & [= _ Hu])%locking_Returns. split.
  - by eapply (ro_keyed rs (inv_rs _ _ Hinv _ _ Hi)).
  - destruct (vo_past _ (inv_versions _ _ Hinv) (mi_storage r) id u) as (v & Hv & Hpos); [by exists rs|].
    apply (ac_version O HA). rewrite Hv. apply FormatInt_nonempty. lia.
Qed.

(** The other calls leave a watch that is still to list as it is. *)
Lemma CreateObject_backfilling r id u s s' a x :
  Forall hook_ok (ms_hooks s) → CreateObject r id u s = Returns s' a → backfilling s x → backfilling s' x.
Proof using HU HO.
  intros Hh (rs & Hi & Hl & Hc)%locking_Returns. destruct (rs_objects rs !! id); [by injection Hc as <- _|].
  unfold TestClock_Now in Hc. destruct (NewUID (ms_uids s)) as [uid uids]. unfold stamp in Hc.
  intros Hx. eapply commit_backfilling in Hc; [exact Hc|exact Hh|exact Hi|exact Hx].
Qed.

Lemma UpdateObject_backfilling r id u s s' a x :
  Forall hook_ok (ms_hooks s) → UpdateObject r id u s = Returns s' a → backfilling s x → backfilling s' x.
Proof using HU HO.
  intros Hh (rs & Hi & Hl & Hc)%locking_Returns. destruct (rs_objects rs !! id); [|by injection Hc as <- _].
  unfold stamp in Hc. intros Hx. eapply commit_backfilling in Hc; [exact Hc|exact Hh|exact Hi|exact Hx].
Qed.

Lemma DeleteObject_backfilling r id s s' a x :
  Forall hook_ok (ms_hooks s) → DeleteObject r id s = Returns s' a → backfilling s x → backfilling s' x.
Proof using HU HO.
  intros Hh (rs & Hi & Hl & Hc)%locking_Returns. destruct (rs_objects rs !! id); [|by injection Hc as <- _].
  intros Hx. eapply commit_backfilling in Hc; [exact Hc|exact Hh|exact Hi|exact Hx].
Qed.

Lemma watchRegister_backfilling r ns cb s s' w pos :
  watchRegister r ns cb s = Returns s' (w, pos) →
  (∀ x, backfilling s x → backfilling s' x)
  ∧ backfilling s' (mi_storage r, w) ∧ ¬ backfilling s (mi_storage r, w).
Proof using.
  intros (rs & Hi & Hl & Hc)%locking_Returns. cbv zeta in Hc.
  destruct (takeSlot _ _) as [slots pos']. injection Hc as <- <- <-.
  assert (mi_storage r < length (ms_storages s))%nat as Hlt by (by eapply lookup_lt_Some).
  split; [|split].
  - intros x (rs0 & w0 & Hx & Hw & Hp). unfold backfilling. cbn.
    destruct (decide (mi_storage r = x.1)) as [E|Hne].
    + rewrite <- E in *. simplify_eq. eexists _, w0. rewrite list_lookup_insert_eq by done.
      split; [done|]. cbn. split; [by apply lookup_app_l_Some|done].
    + exists rs0, w0. by rewrite list_lookup_insert_ne.
  - eexists _, _. cbn. rewrite list_lookup_insert_eq by done. split; [done|]. cbn.
    rewrite lookup_app_r by done. by rewrite Nat.sub_diag.
  - intros (rs0 & w0 & Hx & Hw & _). cbn in Hx, Hw. simplify_eq. apply lookup_lt_Some in Hw. lia.
Qed.

Lemma watchBackfill_backfilling r w pos s s' a x :
  watchBackfill r w pos s = Returns s' a → backfilling s x → x ≠ (mi_storage r, w) → backfilling s' x.
Proof using.
  intros (rs & Hi & Hl & Hc)%locking_Returns (rs0 & w0 & Hx & Hw & Hp) Hne.
  destruct (rs_watchers rs !! w) as [wt|] eqn:Hwt; [|done].
  destruct (backfill wt _) as [wt' err].
  assert (∀ lk wt2 sl, backfilling (with_storage s (mi_storage r)
    (with_watches rs lk (<[w := wt2]> (rs_watchers rs)) sl)) x) as Hall.
  { intros lk wt2 sl. unfold backfilling. cbn. destruct (decide (mi_storage r = x.1)) as [E|Hd].
    - rewrite <- E in *. simplify_eq. eexists _, w0.
      rewrite list_lookup_insert_eq by (by eapply lookup_lt_Some). split; [done|]. cbn.
      rewrite list_lookup_insert_ne; [done|]. intros ->. destruct Hne. destruct x; cbn in *; congruence.
    - exists rs0, w0. by rewrite list_lookup_insert_ne. }
  destruct err; injection Hc as <- _; apply Hall.
Qed.

(** A call that stores nothing, and one that stores an object filed as it is. *)
Lemma quiet_step s s' : sstep [] s s' → filed_step s s'.
Proof using. intros Hs. exists []. split; [done|constructor]. Qed.

Lemma stored_step u s s' : sstep [(objectKey u, u)] s s' → storable u → filed_step s s'.
Proof using. intros Hs Hu. eexists. split; [exact Hs|]. by constructor; [split|constructor]. Qed.

(** One call of one handler. *)
Lemma advance_ok {A} n s (p p' : prog A) s' pending :
  inv n s → safe pending p → (∀ x, pending = Some x → backfilling s x) → advance p s = Some (p', s') →
  (s' = s ∨ filed_step s s')
  ∧ (∀ x, backfilling s x → pending ≠ Some x → backfilling s' x)
  ∧ ∃ pending', safe pending' p' ∧ ∀ x, pending' = Some x → backfilling s' x ∧ ¬ backfilling s x.
Proof using HU HO HA.
  intros Hinv Hs Hpend. pose proof (inv_hooks _ _ Hinv) as Hh.
  destruct p as [a|B c k]; [done|]. cbn [advance safe] in *.
  destruct (perform c s) as [s1 b|s1|] eqn:Hp; [|done..]. intros [= <- <-].
  assert (s1 = s → safe None (k b) → (s1 = s ∨ filed_step s s1)
    ∧ (∀ x, backfilling s x → pending ≠ Some x → backfilling s1 x)
    ∧ ∃ pending', safe pending' (k b) ∧ ∀ x, pending' = Some x → backfilling s1 x ∧ ¬ backfilling s x) as Hread.
  { intros -> Hk. split; [by left|]. split; [done|]. by exists None. }
  destruct c as [gr| |r id|r ns|r id u|r id u|r id|r ns cb|r w pos|r w]; cbn [perform guarded] in *.
  - destruct Hs as [_ Hk]. injection Hp as <- <-. by apply Hread.
  - destruct Hs as [_ Hk]. injection Hp as <- <-. by apply Hread.
  - destruct Hs as (_ & Hn & Hk). apply Hread; [by eapply GetObject_state|].
    destruct b as [u|]; [|done]. by eapply Hk, GetObject_wellkept.
  - destruct Hs as [_ Hk]. apply Hread; [|done]. by apply locking_Returns in Hp as (rs & _ & _ & [= <- _]).
  - destruct Hs as (_ & [<- Hu] & Hk). split; [right; eapply stored_step; [by eapply ss_create|done]|]. split; [|by exists None].
    intros x Hx _. by eapply CreateObject_backfilling.
  - destruct Hs as (_ & [<- Hu] & Hk). split; [right; eapply stored_step; [by eapply ss_update|done]|]. split; [|by exists None].
    intros x Hx _. by eapply UpdateObject_backfilling.
  - destruct Hs as [_ Hk]. split; [right; eapply quiet_step; by eapply ss_delete|]. split; [|by exists None].
    intros x Hx _. by eapply DeleteObject_backfilling.
  - destruct Hs as [_ Hk]. split; [right; eapply quiet_step; by eapply ss_register|]. destruct b as [w pos].
    destruct (watchRegister_backfilling _ _ _ _ _ _ _ Hp) as (Hkeep & Hnew & Hfresh).
    split; [auto|]. exists (Some (mi_storage r, w)). split; [apply Hk|]. by intros x [= <-].
  - destruct Hs as [-> Hk]. destruct (Hpend _ eq_refl) as (rs & wt & Hi & Hw & Hph).
    split; [right; eapply quiet_step; by eapply ss_backfill|]. split; [|by exists None].
    intros x Hx Hne. eapply watchBackfill_backfilling; [exact Hp|done|congruence].
  - destruct Hs as [_ Hk]. apply Hread; [|done]. by repeat case_match; simplify_eq.
Qed.

(** The handlers of all requests: safe, and no two list for the same watch. *)
Definition pool_ok {A} s (ps : list (prog A)) : Prop :=
  ∃ pend, Forall2 safe pend ps
    ∧ (∀ i x, pend !! i = Some (Some x) → backfilling s x)
    ∧ (∀ i j x, pend !! i = Some (Some x) → pend !! j = Some (Some x) → i = j).

Lemma pstep_ok {A} n (ps ps' : list (prog A)) s s' :
  (Z.of_nat n < 2 ^ 63)%Z → reach n s → pool_ok s ps → pstep (ps, s) (ps', s') →
  ∃ m, (m ≤ Datatypes.S n)%nat ∧ reach m s' ∧ pool_ok s' ps'.
Proof using HU HO HA.
  intros Hn Hr (pend & Hsafe & Hback & Huniq) Hstep. inversion Hstep as [i p p' ? ? ? Hi Ha]. subst.
  destruct (list.Forall2_lookup_r _ _ _ _ _ Hsafe Hi) as (pd & Hpd & Hs).
  destruct (advance_ok n s p p' s' pd) as (Hst & Hkeep & pd' & Hs' & Hnew);
    [by eapply reach_inv|done|intros x ->; by eapply Hback|done|].
  assert (∃ m, (m ≤ Datatypes.S n)%nat ∧ reach m s') as (m & Hm & Hrm).
  { destruct Hst as [->|Hst]; [exists n; split; [lia|done]|]. exists (Datatypes.S n). split; [done|]. by eapply reach_step. }
  exists m. split; [done|]. split; [done|]. exists (<[i := pd']> pend).
  assert (i < length pend)%nat as Hlt by (by eapply lookup_lt_Some).
  assert (∀ j x, (<[i := pd']> pend) !! j = Some (Some x) →
    j = i ∧ pd' = Some x ∨ j ≠ i ∧ pend !! j = Some (Some x)) as Hcase.
  { intros j x Hj. destruct (decide (j = i)) as [->|Hne].
    - rewrite list_lookup_insert_eq in Hj by done. left. by simplify_eq.
    - rewrite list_lookup_insert_ne in Hj by done. by right. }
  split; [by apply list.Forall2_insert|]. split.
  - intros j x [[-> ->]|[Hne Hj]]%Hcase; [by apply Hnew|]. apply Hkeep; [by eapply Hback|].
    intros ->. destruct Hne. by eapply Huniq.
  - intros j1 j2 x [[-> ->]|[Hne1 Hj1]]%Hcase [[-> E]|[Hne2 Hj2]]%Hcase; [done| | |by eapply Huniq].
    + destruct (Hnew x eq_refl) as [_ Hno]. destruct Hno. by eapply Hback.
    + destruct (Hnew x E) as [_ Hno]. destruct Hno. by eapply Hback.
Qed.

Lemma psteps_ok {A} k n (ps ps' : list (prog A)) s s' :
  (Z.of_nat (n + k) < 2 ^ 63)%Z → reach n s → pool_ok s ps → relations.nsteps pstep k (ps, s) (ps', s') →
  ∃ m, (m ≤ n + k)%nat ∧ reach m s' ∧ pool_ok s' ps'.
Proof using HU HO HA.
  revert n ps s. induction k as [|k IH]; intros n ps s Hn Hr Hp Hk.
  { inversion Hk; subst. exists n. split; [lia|done]. }
  inversion Hk as [|? ? [ps1 s1] ? Hst Hrest]; subst.
  destruct (pstep_ok n ps ps1 s s1) as (m & Hm & Hrm & Hpm); [lia|done..|].
  destruct (IH m ps1 s1) as (m' & Hm' & ?); [lia|done..|]. exists m'. split; [lia|done].
Qed.

(** C8. Whatever requests are served concurrently, in whatever interleaving of
    their calls: as long as the bodies of PUT and PATCH are about the object of
    their path, no two objects ever share a resource version, and every watch
    that is being served has sent its client what is stored. *)
Theorem traffic_consistent n s (rqs : list httpRequest) k ps s' :
  (Z.of_nat (n + k) < 2 ^ 63)%Z → reach n s →
  (∀ rq req b, rq ∈ rqs → route (hr_Method rq) (tokensOf (hr_Path rq)) = (b, Some req) → addressed req rq) →
  relations.nsteps pstep k (ServeHTTP [] <$> rqs, s) (ps, s') →
  (∀ i id u i' id' u', stored s' i id u → stored s' i' id' u' →
     m_GetResourceVersion u = m_GetResourceVersion u' → i = i' ∧ id = id')
  ∧ (∀ i rs j w, ms_storages s' !! i = Some rs → rs_watchers rs !! j = Some w → w_phase w = Waiting →
       replay (w_received w) = view (w_Namespace w) (rs_objects rs)).
Proof using HU HO HA.
  intros Hn Hr Ha Hsteps.
  assert (pool_ok s (ServeHTTP [] <$> rqs)) as Hp.
  { exists (replicate (length rqs) None). split; [|split].
    - apply Forall2_replicate_l; [by rewrite length_fmap|]. apply list.Forall_fmap, list.Forall_forall.
      intros rq Hrq. apply ServeHTTP_safe. intros req b. by apply Ha.
    - by intros i x [? _]%lookup_replicate_1.
    - by intros i j x [? _]%lookup_replicate_1. }
  destruct (psteps_ok k n _ ps s s' Hn Hr Hp Hsteps) as (m & Hm & Hrm & _).
  assert (inv m s') as Hinv by (eapply reach_inv; [done..|lia|done]).
  split; [exact (vo_unique _ (inv_versions _ _ Hinv))|].
  intros i rs j w Hi Hw Hph. pose proof (ro_watch _ (inv_rs _ _ Hinv _ _ Hi) j w Hw) as Hok.
  unfold watch_ok in Hok. by rewrite Hph in Hok.
Qed.
End traffic.

(** ** Replacing an object *)

Section put.
Context `{U : Unstructured, O : ObjectMetaOps, SchemaText, R : RangeOrder, SliceSort, HTTPLibs}.
Context (HO : metaops_ok O).

(** A generation that was set reads back. *)
Definition generation_ok : Prop := ∀ g m, storable m → m_GetGeneration (m_SetGeneration g m) = g.

(** What a PUT stores. A body equal to the object there is changes nothing;
    any other one replaces it, with the generation of the body, plus one where
    the spec changed and the kind has generations: the generation the object
    had plays no role, so that a body without one sets it back. *)
Theorem put_generation r existing rq text body :
  generation_ok → hr_Body rq = Ok text → u_Decode text = Ok body → storable body → u_GVK body ≠ secretGVK →
  (putUpdate r "" existing rq = Ok None ↔ body = existing)
  ∧ (body ≠ existing → ∃ u, putUpdate r "" existing rq = Ok (Some u)
      ∧ m_GetGeneration u = (m_GetGeneration body
          + if decide (SetsGeneration r = true ∧ fieldOf existing "spec" ≠ fieldOf body "spec") then 1 else 0)%Z).
Proof using HO.
  intros Hg Ht Hb Hst Hsec. unfold putUpdate. rewrite Ht. cbn [mbind res_bind]. rewrite Hb. cbn [wrapW mbind res_bind].
  unfold putBody. rewrite decide_True by done. cbn [mbind res_bind].
  assert (∀ u, u_GVK u = u_GVK body → beforeObjectCreation u = Ok u) as Hbefore.
  { intros u E. unfold beforeObjectCreation. by rewrite E, decide_False. }
  assert (u_GVK (bumpGeneration r existing body) = u_GVK body) as Egvk.
  { unfold bumpGeneration. repeat case_match; try done.
    by pose proof (mo_id_gen O HO (m_GetGeneration body + 1) body) as [= -> _ _]. }
  destruct (DeepEqual (JObj existing) (JObj body)) eqn:Ed.
  { apply DeepEqual_eq in Ed. split; [split; [congruence|done]|congruence]. }
  rewrite (Hbefore _ Egvk). cbn [mbind res_bind]. split.
  { split; [done|]. intros ->. assert (DeepEqual (JObj existing) (JObj existing) = true) by (by apply DeepEqual_eq). congruence. }
  intros _. eexists. split; [reflexivity|]. unfold bumpGeneration.
  destruct (SetsGeneration r); [|rewrite decide_False by naive_solver; lia].
  destruct (DeepEqual (fieldOf existing "spec") _) eqn:Es.
  - apply DeepEqual_eq in Es. rewrite decide_False by naive_solver. lia.
  - rewrite decide_True; [by apply Hg|]. split; [done|]. intros E%DeepEqual_eq. congruence.
Qed.
End put.

(** ** Secrets *)

Section secrets.
Context `{U : Unstructured}.

(** What NestedStringMap and SetNestedStringMap document, for a field of the
    object itself. *)
Record stringmap_ok : Prop := {
  sm_get m f : u_NestedStringMap m [f] = Ok None ↔ m !! f = None;
  sm_read m f d : u_NestedStringMap m [f] = Ok (Some d) ↔ m !! f = Some (JObj (JStr <$> d));
  sm_set m d f : u_SetNestedStringMap m d [f] = (<[f := JObj (JStr <$> d)]> m, None)
}.

(** A Secret is stored with its stringData merged into its data, encoded,
    and winning over data of the same name; stringData itself is dropped, and
    nothing else of the object changes. *)
Theorem secret_stored obj stringData data :
  stringmap_ok → u_GVK obj = secretGVK → stringData ≠ ∅ →
  obj !! "stringData" = Some (JObj (JStr <$> stringData)) →
  obj !! "data" = (if decide (data = ∅) then None else Some (JObj (JStr <$> data))) →
  ∃ obj', beforeObjectCreation obj = Ok obj'
    ∧ obj' !! "stringData" = None
    ∧ obj' !! "data" = Some (JObj (JStr <$>
        ((λ v, base64.StdEncoding (string_bytes v)) <$> stringData) ∪ data))
    ∧ ∀ f, f ≠ "stringData" → f ≠ "data" → obj' !! f = obj !! f.
Proof using.
  intros HS Hk Hne Hsd Hd. unfold beforeObjectCreation. rewrite decide_True by done.
  unfold beforeSecretCreation. rewrite (proj2 (sm_read HS _ _ _) Hsd). cbn [wrapW mbind res_bind default].
  rewrite decide_False by done.
  assert (∃ d, u_NestedStringMap obj ["data"] = Ok d ∧ default ∅ d = data) as (d & -> & <-).
  { case_decide as E; [exists None; split; [by apply (sm_get HS)|done]|].
    exists (Some data). split; [by apply (sm_read HS)|done]. }
  cbn [wrapW mbind res_bind]. rewrite (sm_set HS). eexists. split; [reflexivity|]. split; [by rewrite lookup_delete_eq|].
  split; [by rewrite lookup_delete_ne, lookup_insert_eq|].
  intros f H1 H2. by rewrite lookup_delete_ne, lookup_insert_ne.
Qed.
End secrets.

(** ** The untyped patch *)

(** A patch that succeeds sets the keys it has, each from the value there was,
    whatever the order of the map; every other key is as it was. *)
Lemma applyPatch_lookup existing patch m :
  applyPatch existing patch = Ok m →
  ∀ k, match patch !! k with
       | None => m !! k = existing !! k
       | Some v => ∃ v', patchValue (existing !! k) v = Ok v' ∧ m !! k = Some v'
       end.
Proof.
  unfold applyPatch. revert m.
  apply (map_fold_weak_ind (λ r patch, ∀ m, r = Ok m → ∀ k, match patch !! k with
    | None => m !! k = existing !! k
    | Some v => ∃ v', patchValue (existing !! k) v = Ok v' ∧ m !! k = Some v' end)).
  - intros m [= <-] k. by rewrite lookup_empty.
  - intros i x p r Hi IH m (m1 & -> & (v & Hv & [= <-])%bind_Ok)%bind_Ok k.
    destruct (decide (i = k)) as [->|Hne].
    + rewrite !lookup_insert_eq. eauto.
    + rewrite !lookup_insert_ne by done. by apply IH.
Qed.

(** ** Discovery *)

Section discovery.
Implicit Types resources : list (GroupVersionResource * string * bool).

(** A group and version that some resource has. *)
Definition registered resources (group version : string) : Prop :=
  ∃ r, r ∈ resources ∧ gvr_Group r.1.1 = group ∧ gvr_Version r.1.1 = version.

(** The versions collected of a group: each once, those of its resources. *)
Definition versions_of resources (group : string) (versions : list (string * string)) : Prop :=
  NoDup versions ∧ ∀ x, x ∈ versions ↔ registered resources group x.2 ∧ x.1 = group +:+ "/" +:+ x.2.

Lemma versions_of_other resources r group versions :
  gvr_Group r.1.1 ≠ group → versions_of resources group versions → versions_of (resources ++ [r]) group versions.
Proof.
  intros Hne [Hnd Hv]. split; [done|]. intros x. rewrite Hv. apply and_iff_compat_r. unfold registered.
  setoid_rewrite elem_of_app. setoid_rewrite list_elem_of_singleton. naive_solver.
Qed.

Lemma versions_of_add resources r versions :
  versions_of resources (gvr_Group r.1.1) versions →
  versions_of (resources ++ [r]) (gvr_Group r.1.1)
    (if existsb (λ v, bool_decide (v.2 = gvr_Version r.1.1)) versions then versions
     else versions ++ [(gvr_Group r.1.1 +:+ "/" +:+ gvr_Version r.1.1, gvr_Version r.1.1)]).
Proof.
  intros [Hnd Hv].
  assert (∀ v, registered (resources ++ [r]) (gvr_Group r.1.1) v ↔
    registered resources (gvr_Group r.1.1) v ∨ v = gvr_Version r.1.1) as Hreg.
  { intros v. unfold registered. setoid_rewrite elem_of_app. setoid_rewrite list_elem_of_singleton. naive_solver. }
  destruct (existsb _ versions) eqn:E.
  - split; [done|]. intros x. rewrite Hreg, Hv. split; [naive_solver|].
    intros [[?| ->] ->]; [done|]. split; [|done].
    apply existsb_exists in E as (y & Hy%list_elem_of_In & Ey%bool_decide_eq_true). apply Hv in Hy as [Hy _]. by rewrite <- Ey.
  - assert (∀ x, x ∈ versions → x.2 ≠ gvr_Version r.1.1) as Hnone.
    { intros x Hx Ex. assert (existsb (λ v, bool_decide (v.2 = gvr_Version r.1.1)) versions = true); [|congruence].
      apply existsb_exists. exists x. split; [by apply list_elem_of_In|by apply bool_decide_eq_true]. }
    split.
    + apply list.NoDup_app. split; [done|]. split; [|apply list.NoDup_singleton].
      intros x Hx ->%list_elem_of_singleton. by apply (Hnone _ Hx).
    + intros [a b]. rewrite elem_of_app, list_elem_of_singleton, Hreg, Hv. cbn. split; [naive_solver|].
      intros [[?| ->] ->]; [by left|by right].
Qed.

(** The map of groups that is collected. *)
Definition groups_ok resources (groups : gmap string (list (string * string))) : Prop :=
  ∀ group, match groups !! group with
           | Some versions => group ≠ "" ∧ versions_of resources group versions ∧ versions ≠ []
           | None => group = "" ∨ ∀ v, ¬ registered resources group v
           end.

Lemma addGroupVersion_ok resources r groups :
  groups_ok resources groups → groups_ok (resources ++ [r]) (addGroupVersion groups r).
Proof.
  intros Hok group. destruct r as [[gvr kind] nsd]. unfold addGroupVersion.
  assert (∀ v, gvr_Group gvr ≠ group → registered (resources ++ [(gvr, kind, nsd)]) group v → registered resources group v) as Hother.
  { intros v Hne (r & [Hr| ->%list_elem_of_singleton]%elem_of_app & Hx); [by exists r|by destruct Hx]. }
  case_decide as Hg.
  - specialize (Hok group). destruct (groups !! group) as [vs|].
    + destruct Hok as (? & ? & ?). split; [done|]. split; [|done]. apply versions_of_other; cbn; [congruence|done].
    + destruct (decide (group = "")); [by left|]. right. destruct Hok as [?|Hok]; [done|].
      intros v Hv. apply (Hok v), Hother; [congruence|done].
  - destruct (decide (gvr_Group gvr = group)) as [<-|Hne].
    + rewrite lookup_insert_eq. split; [done|].
      assert (versions_of resources (gvr_Group gvr) (default [] (groups !! gvr_Group gvr))) as Hvs.
      { specialize (Hok (gvr_Group gvr)). destruct (groups !! gvr_Group gvr) as [vs|]; [by destruct Hok as (_ & ? & _)|].
        destruct Hok as [?|Hok]; [done|]. split; [constructor|]. intros x. rewrite elem_of_nil.
        split; [done|]. intros [Hx _]. by apply (Hok x.2). }
      split; [exact (versions_of_add resources (gvr, kind, nsd) _ Hvs)|].
      destruct (default [] _) as [|v vs]; [done|]. by case_match.
    + rewrite lookup_insert_ne by done. specialize (Hok group). destruct (groups !! group) as [vs|].
      * destruct Hok as (? & ? & ?). split; [done|]. split; [|done]. by apply versions_of_other.
      * destruct Hok as [?|Hok]; [by left|]. right. intros v Hv. by apply (Hok v), Hother.
Qed.

Lemma collected_ok resources : groups_ok resources (foldl addGroupVersion ∅ resources).
Proof.
  induction resources as [|r resources IH] using rev_ind.
  - intros group. cbn. rewrite lookup_empty. right. by intros v (r & ?%elem_of_nil & _).
  - rewrite foldl_app. by apply addGroupVersion_ok.
Qed.

Lemma StronglySorted_weaken {A} (R S : A → A → Prop) l :
  (∀ x y, R x y → S x y) → StronglySorted R l → StronglySorted S l.
Proof.
  intros HRS. induction 1 as [|x l Hl IH Hx]; constructor; [done|].
  eapply list.Forall_impl; [exact Hx|]. intros y. apply HRS.
Qed.

Lemma last_sorted {A} (R : A → A → Prop) l x y :
  (∀ z, R z z) → StronglySorted R l → list.last l = Some x → y ∈ l → R y x.
Proof.
  intros Hrefl. induction 1 as [|z l Hl IH Hz]; [done|]. rewrite last_cons. intros Hx [->|Hy]%elem_of_cons.
  - destruct (list.last l) as [w|] eqn:E; simplify_eq; [|apply Hrefl]. rewrite list.Forall_forall in Hz.
    apply Hz. by apply last_Some_elem_of.
  - apply IH; [|done]. destruct (list.last l) eqn:E; [done|]. apply last_None in E as ->. by apply elem_of_nil in Hy.
Qed.

(** Discovery lists what is registered. The groups are sorted and distinct,
    and are those of the registered types but for the core one; each has its
    versions, sorted and distinct, and prefers the one that comes last as a
    text, which need not be the newest: v1beta1 comes after v1. The resources
    of a group and version are those registered, whatever the order of the map
    and the sorting algorithm. *)
Theorem discovery_spec `{RangeOrder, SliceSort} resources :
  let groups := groupsOf resources in
  StronglySorted String.le (ag_Name <$> groups) ∧ NoDup (ag_Name <$> groups)
  ∧ (∀ g, g ∈ ag_Name <$> groups ↔ g ≠ "" ∧ ∃ v, registered resources g v)
  ∧ (∀ a, a ∈ groups →
       versions_of resources (ag_Name a) (ag_Versions a)
       ∧ StronglySorted (λ x y, String.le (x.2) (y.2)) (ag_Versions a)
       ∧ ∃ p, ag_PreferredVersion a = Some p ∧ p ∈ ag_Versions a
           ∧ ∀ x, x ∈ ag_Versions a → String.le (x.2) (p.2))
  ∧ ∀ group version, resourcesOf group version resources
      ≡ₚ filter (λ r, gvr_Group r.1.1 = group ∧ gvr_Version r.1.1 = version) resources.
Proof.
  cbv zeta. set (m := sort_Slice lessVersion <$> foldl addGroupVersion ∅ resources).
  assert (ag_Name <$> groupsOf resources = sort_Strings (range m).*1) as Enames.
  { unfold groupsOf. fold m. rewrite <- list_fmap_compose. by apply list_fmap_id. }
  rewrite Enames. pose proof (collected_ok resources) as Hok.
  assert (∀ g, g ∈ (range m).*1 ↔ is_Some (m !! g)) as Hdom.
  { intros g. rewrite range_perm. rewrite list_elem_of_fmap. split.
    - intros ([k vs] & -> & Hk%elem_of_map_to_list). by exists vs.
    - intros [vs Hvs]. exists (g, vs). split; [done|]. by apply elem_of_map_to_list. }
  split; [apply sort_Strings_sorted|]. split.
  { rewrite sort_Strings_perm, range_perm. apply NoDup_fst_map_to_list. }
  split.
  { intros g. rewrite elem_of_sort_Strings, Hdom. unfold m. rewrite lookup_fmap, fmap_is_Some.
    specialize (Hok g). destruct (foldl _ _ _ !! g) as [vs|].
    - destruct Hok as (Hg & [_ Hv] & Hne). split; [|by eexists]. intros _. split; [done|].
      destruct vs as [|x vs]; [done|]. exists x.2. by apply (Hv x); left.
    - split; [by intros []|]. intros [Hg [v Hv]]. destruct Hok as [?|Hok]; [done|]. by apply Hok in Hv. }
  split; [|intros group version; apply sort_Slice_perm].
  intros a Ha. unfold groupsOf in Ha. fold m in Ha. apply list_elem_of_fmap in Ha as (g & -> & Hg).
  rewrite elem_of_sort_Strings, Hdom in Hg. cbn [ag_Name ag_Versions ag_PreferredVersion].
  destruct Hg as [vs Hvs]. rewrite Hvs. cbn [default]. unfold m in Hvs. rewrite lookup_fmap in Hvs.
  specialize (Hok g). destruct (foldl _ _ _ !! g) as [vs0|]; [|done]. cbn in Hvs. injection Hvs as <-.
  destruct Hok as (_ & [Hnd Hv] & Hne). pose proof (sort_Slice_perm lessVersion vs0) as Hp.
  assert (StronglySorted (λ x y, String.le (x.2) (y.2)) (sort_Slice lessVersion vs0)) as Hs.
  { eapply StronglySorted_weaken; [|apply sort_Slice_sorted, (strict_weak_string snd)].
    intros x y. apply string_lt_ge. }
  split; [split; [by rewrite Hp|intros x; by rewrite Hp]|]. split; [exact Hs|].
  destruct (list.last (sort_Slice lessVersion vs0)) as [p|] eqn:Hl.
  - exists p. split; [done|]. split; [by apply last_Some_elem_of|]. intros x Hx.
    by apply (last_sorted (λ x y, String.le (x.2) (y.2)) (sort_Slice lessVersion vs0) p x).
  - apply last_None in Hl. rewrite Hl in Hp. by apply Permutation_nil in Hp.
Qed.
End discovery.

(** ** Examples *)

(** The unstructured package of the examples, with one text that decodes. *)
Definition example_nestedStringMap (m : jmap) (fs : list string) : res (option (gmap string string)) :=
  match nestedFieldNoCopy m fs with
  | Ok None => Ok None
  | Ok (Some (JObj x)) =>
      if decide ((JStr <$> omap jstr x : jmap) = x) then Ok (Some (omap jstr x))
      else Err (Errorf "accessor error: expected strings")
  | Ok (Some _) => Err (Errorf "accessor error: expected map")
  | Err e => Err e
  end.

Definition server_unstructured : Unstructured := {|
  u_GVK := @u_GVK example_unstructured; u_GetKind := @u_GetKind example_unstructured;
  u_GetName := @u_GetName example_unstructured; u_GetNamespace := @u_GetNamespace example_unstructured;
  u_GetLabels := @u_GetLabels example_unstructured; u_SetLabels := @u_SetLabels example_unstructured;
  u_GetAnnotations := @u_GetAnnotations example_unstructured;
  u_SetAnnotations := @u_SetAnnotations example_unstructured;
  u_SetNestedField := @u_SetNestedField example_unstructured;
  u_SetNestedStringMap := @u_SetNestedStringMap example_unstructured;
  u_NestedStringMap := example_nestedStringMap;
  u_NestedString := @u_NestedString example_unstructured;
  u_NestedMap := @u_NestedMap example_unstructured; u_NestedSlice := @u_NestedSlice example_unstructured;
  u_MarshalJSON _ := Err (Errorf "not supported");
  u_Decode text := if decide (text = "settings") then Ok example_configmap else Err (Errorf "no object")
|}.

Lemma server_unstructured_ok : unstructured_ok server_unstructured.
Proof. destruct example_unstructured_ok. by split. Qed.
Lemma server_metaops_ok : @metaops_ok server_unstructured example_metaops.
Proof. destruct example_metaops_ok. by split. Qed.

Lemma str_at_storable m f : str_at m ["metadata"; f] ≠ "" → storable m.
Proof.
  unfold str_at, nestedFieldNoCopy, storable. cbn [nestedField].
  destruct (m !! "metadata") as [[]|]; try done. eauto.
Qed.

Lemma server_accessors_ok : @accessors_ok server_unstructured example_metaops.
Proof.
  split; cbn.
  - intros m. apply str_at_storable.
  - intros m. apply str_at_storable.
  - intros m d f g Hg. apply (setNestedField_frame m _ f [] g Hg).
Qed.

Lemma server_generation_ok : @generation_ok example_metaops.
Proof.
  intros g m [x Hx]. cbn. unfold set_meta. rewrite Hx. unfold nestedFieldNoCopy. cbn [nestedField].
  by rewrite lookup_insert_eq, lookup_insert_eq.
Qed.

Lemma server_stringmap_ok : @stringmap_ok server_unstructured.
Proof.
  assert (∀ m f, nestedFieldNoCopy m [f] = Ok (m !! f)) as Hn.
  { intros m f. unfold nestedFieldNoCopy. cbn. by destruct (m !! f). }
  split; cbn [u_NestedStringMap u_SetNestedStringMap server_unstructured]; unfold example_nestedStringMap.
  - intros m f. rewrite Hn. destruct (m !! f) as [[]|]; try done. by case_decide.
  - intros m f d. rewrite Hn. destruct (m !! f) as [[]|]; try done. case_decide as E.
    + split; [intros [= <-]; by rewrite E|]. intros [= ->]. do 2 f_equal.
      apply map_eq. intros k. rewrite lookup_omap, lookup_fmap. by destruct (d !! k).
    + split; [done|]. intros [= ->]. destruct E. f_equal.
      apply map_eq. intros k. rewrite lookup_omap, lookup_fmap. by destruct (d !! k).
  - done.
Qed.

Definition example_http : HTTPLibs := {|
  json_Marshal p := match p with PObject _ => Ok "object" | _ => Ok "other" end;
  json_Unmarshal := @u_Decode server_unstructured;
  yaml_Unmarshal := @u_Decode server_unstructured;
  m_otherMetadata _ := []
|}.

#[local] Existing Instances server_unstructured example_metaops example_text canonical_range insertion_slices
  example_http example_merge TestUIDs.

Definition example_post : httpRequest :=
  mkHTTPRequest "POST" "/api/v1/namespaces/prod/configmaps" ∅ "" (Ok "settings") (λ _ _, None).
Definition example_watching : httpRequest :=
  mkHTTPRequest "GET" "/api/v1/configmaps" {["watch" := "true"]} "" (Ok "") (λ _ _, None).
Definition example_settings : resourceRequestBase := mkBase "" "v1" "configmaps" "prod" "settings" "".

Lemma route_paths_witness :
  route "PUT" (tokensOf (pathOf (segmentsOf "apps" "v1" "prod" "deployments" "web" "status")))
    = (true, Some (PutResource (mkBase "apps" "v1" "deployments" "prod" "web" "status"))).
Proof.
  rewrite (route_paths "PUT" "apps" "v1" "prod" "deployments" "web" "status"); [reflexivity|..].
  - repeat constructor; done.
  - done.
  - done.
  - done.
  - done.
  - done.
Defined.

Definition example_posted : outcome Z (list writerCall) := exec (ServeHTTP [] example_post) example_storage.

Lemma example_posted_200 :
  match example_posted with
  | Returns _ calls => bool_decide (WriteHeader 200 ∈ calls) && negb (bool_decide (WriteHeader 500 ∈ calls))
  | _ => false
  end = true.
Proof. vm_compute. reflexivity. Qed.

Lemma read_your_writes_witness :
  ∃ s' calls, example_posted = Returns s' calls
    ∧ exec (getResource_Run example_settings) s' = Returns s' (calls, None).
Proof.
  pose proof example_posted_200 as H200. destruct example_posted as [s' calls|s'|] eqn:E; [|discriminate H200..].
  apply andb_true_iff in H200 as [H1 H2]. apply bool_decide_eq_true in H1.
  apply negb_true_iff, bool_decide_eq_false in H2. exists s', calls. split; [done|].
  destruct (read_your_writes example_post (PostResource "" "v1" "configmaps" "prod") example_storage s' calls)
    as [Hread _]; [done|vm_compute; reflexivity|exact E|].
  apply (Hread H1 H2). vm_compute. reflexivity.
Defined.

(** An interleaving, by the position of the request that makes the next call. *)
Fixpoint interleave {A : Type} (order : list nat) (x : list (prog A) * MemoryStorage Z) :
    option (list (prog A) * MemoryStorage Z) :=
  match order with
  | [] => Some x
  | i :: order =>
      p ← x.1 !! i;
      '(p, s) ← advance p x.2;
      interleave order (<[i := p]> x.1, s)
  end.

Lemma interleave_steps {A} order (x y : list (prog A) * MemoryStorage Z) :
  interleave order x = Some y → relations.nsteps pstep (length order) x y.
Proof.
  revert x. induction order as [|i order IH]; intros [ps s]; cbn.
  { intros [= <-]. constructor. }
  destruct (ps !! i) as [p|] eqn:Hi; [|done]. cbn. destruct (advance p s) as [[p' s']|] eqn:Ha; [|done].
  cbn. intros Hx. econstructor; [by eapply pstep_call|]. by apply IH.
Qed.

(** A watch and a POST: the watch is registered, the object is created, then
    the watch lists. *)
Definition example_traffic : option (list (prog (list writerCall)) * MemoryStorage Z) :=
  interleave [0; 0; 1; 1; 0]%nat (ServeHTTP [] <$> [example_watching; example_post], example_storage).

Lemma example_traffic_waits :
  match example_traffic with
  | Some (_, s) =>
      match ms_storages s !! 0%nat ≫= λ rs, rs_watchers rs !! 0%nat with
      | Some w => match w_phase w with Waiting => negb (bool_decide (length (w_received w) = 0%nat)) | _ => false end
      | None => false
      end
  | None => false
  end = true.
Proof. vm_compute. reflexivity. Qed.

Lemma traffic_consistent_witness :
  ∃ ps s rs w, example_traffic = Some (ps, s) ∧ ms_storages s !! 0%nat = Some rs
    ∧ rs_watchers rs !! 0%nat = Some w ∧ w_received w ≠ []
    ∧ replay (w_received w) = view (w_Namespace w) (rs_objects rs).
Proof.
  pose proof example_traffic_waits as Hw. destruct example_traffic as [[ps s]|] eqn:E; [|discriminate Hw].
  destruct (ms_storages s !! 0%nat) as [rs|] eqn:Hi; [|discriminate Hw]. cbn in Hw.
  destruct (rs_watchers rs !! 0%nat) as [w|] eqn:Hj; [|discriminate Hw].
  destruct (w_phase w) eqn:Hp; try discriminate Hw.
  exists ps, s, rs, w. split; [done|]. split; [done|]. split; [done|]. split.
  { intros Hn. rewrite Hn in Hw. discriminate Hw. }
  refine (proj2 (traffic_consistent server_unstructured_ok server_metaops_ok server_accessors_ok 0 example_storage
    [example_watching; example_post] 5 ps s _ _ _ _) 0%nat rs 0%nat w Hi Hj Hp).
  - done.
  - apply reach_start; [reflexivity|reflexivity|]. by repeat constructor.
  - intros rq req b [->|[->|[]%elem_of_nil]%elem_of_cons]%elem_of_cons Hr; vm_compute in Hr; injection Hr as _ <-; exact I.
  - exact (interleave_steps [0; 0; 1; 1; 0]%nat _ _ E).
Defined.

(** An object of generation 7 that is replaced by a body without one. *)
Definition example_put : httpRequest :=
  mkHTTPRequest "PUT" "/api/v1/namespaces/prod/configmaps/settings" ∅ "" (Ok "settings") (λ _ _, None).
Definition example_scaled : jmap := m_SetGeneration 7 (<["spec" := JObj {["replicas" := JNum 3]}]> example_configmap).
Definition example_kind : memoryResourceInfo :=
  mkResourceInfo (mkGVK "apps" "v1" "Deployment") (mkGVR "apps" "v1" "deployments")
    (mkGVK "apps" "v1" "DeploymentList") true None 0.

Lemma put_generation_witness :
  m_GetGeneration example_scaled = 7%Z ∧
  ∃ u, putUpdate example_kind "" example_scaled example_put = Ok (Some u) ∧ m_GetGeneration u = 1%Z.
Proof.
  split; [vm_compute; reflexivity|].
  destruct (put_generation server_metaops_ok example_kind example_scaled example_put "settings" example_configmap)
    as [_ Hput]; [exact server_generation_ok|done|done|exact example_storable|by vm_compute|].
  destruct Hput as (u & Hu & Hg); [intros E; apply (f_equal m_GetGeneration) in E; vm_compute in E; discriminate E|].
  exists u. split; [done|]. rewrite Hg. vm_compute. reflexivity.
Defined.

Definition example_secret : jmap :=
  {["apiVersion" := JStr "v1"; "kind" := JStr "Secret"; "stringData" := JObj {["user" := JStr "root"]};
    "data" := JObj {["pass" := JStr "eA=="]}]}.

Lemma secret_stored_witness :
  ∃ obj, beforeObjectCreation example_secret = Ok obj ∧ obj !! "stringData" = None.
Proof.
  destruct (secret_stored example_secret {["user" := "root"]} {["pass" := "eA=="]}) as (obj & H1 & H2 & _);
    [exact server_stringmap_ok|vm_compute; reflexivity|by vm_compute|vm_compute; reflexivity|vm_compute; reflexivity|].
  by exists obj.
Defined.

End mockserver.
