(* ===== verification/DirectHTTP.v ===== *)
(** * The transport without a socket (mockkubeapiserver/direct_http.go)

    RoundTrip runs the server in a goroutine of its own and answers as soon as
    there is a header; the body is a buffer that one side writes and the other
    reads, under a mutex. A reader that finds nothing parks on a condition
    variable and looks again when it is woken; the writer wakes it with
    Broadcast. The two sides are a step function under any schedule: each
    critical section is a step, and a parked reader has none until a Broadcast. *)

From S2P Require Import Prelude Kube Manifest MemoryStorage GoLib ServerSideApply MockServer.
From stdpp Require Import options.
Import mockserver.

Module directhttp.

(** ** The response writer *)

(** [dw_parked]: the client's goroutine is in [cond.Wait]. The client makes one
    call at a time, so nobody else waits on the condition variable. *)
Record directResponseWriter := mkWriter {
  dw_statusCode : Z;
  dw_header : gmap string (list string);
  dw_wroteHeader : bool;
  dw_done : bool;
  dw_body : string;
  dw_parked : bool
}.

Definition newDirectResponseWriter : directResponseWriter := mkWriter 0 ∅ false false "" false.

(** [cond.Broadcast] and [cond.Wait]. *)
Definition Broadcast (w : directResponseWriter) : directResponseWriter :=
  mkWriter (dw_statusCode w) (dw_header w) (dw_wroteHeader w) (dw_done w) (dw_body w) false.
Definition Wait (w : directResponseWriter) : directResponseWriter :=
  mkWriter (dw_statusCode w) (dw_header w) (dw_wroteHeader w) (dw_done w) (dw_body w) true.

(** Header, WriteHeader and Write. *)
Definition callWriter (c : writerCall) (w : directResponseWriter) : directResponseWriter :=
  let 'mkWriter code h wrote fin body parked := w in
  match c with
  | HeaderAdd k v => mkWriter code (<[k := default [] (h !! k) ++ [v]]> h) wrote fin body parked
  | HeaderSet k v => mkWriter code (<[k := [v]]> h) wrote fin body parked
  | HeaderDel k => mkWriter code (delete k h) wrote fin body parked
  | WriteHeader statusCode => Broadcast (mkWriter statusCode h true fin body parked)
  | Write b => Broadcast (mkWriter code h true fin (body +:+ b) parked)
  end.

Definition closeWriter (w : directResponseWriter) : directResponseWriter :=
  let 'mkWriter code h _ _ body parked := w in Broadcast (mkWriter code h true true body parked).

(** One turn of the loop of response: [None] where it waits. *)
Definition response (w : directResponseWriter) : option Z :=
  if dw_wroteHeader w then Some (if (dw_statusCode w =? 0)%Z then 200%Z else dw_statusCode w) else None.

(** [bytes.Buffer.Read] for a slice of some length: the bytes read and the
    rest, [None] for EOF. *)
Definition Buffer_Read (n : nat) (body : string) : option (string * string) :=
  if decide (body = "") then if decide (n = 0%nat) then Some ("", "") else None
  else Some (substring 0 n body, substring n (String.length body - n) body).

Inductive readAnswer :=
  | ReadBytes (data : string)
  | ReadEOF.

(** One turn of the loop of Read: [None] where it waits. *)
Definition Read (n : nat) (w : directResponseWriter) : option (readAnswer * directResponseWriter) :=
  let 'mkWriter code h wrote fin body parked := w in
  match Buffer_Read n body with
  | None => if fin then Some (ReadEOF, w) else None
  | Some (data, rest) => Some (ReadBytes data, mkWriter code h wrote fin rest parked)
  end.

(** ** RoundTrip *)

(** What the client does: it waits for its response, then reads the body. *)
Inductive clientCall :=
  | GetResponse
  | ReadBody (n : nat).

(** The goroutine of the server, with the calls it is still to make and whether
    the handler returns after them (the handler of a watch may not), and the
    client, with the call it is in, the status and the body it got so far. *)
Record roundTrip := mkRoundTrip {
  rt_writer : directResponseWriter;
  rt_calls : list writerCall;
  rt_returns : bool;
  rt_call : option clientCall;
  rt_status : option Z;
  rt_received : string;
  rt_eof : bool
}.

Definition RoundTrip (calls : list writerCall) (returns : bool) : roundTrip :=
  mkRoundTrip newDirectResponseWriter calls returns None None "" false.

(** The server makes its next call, or closes when the handler has returned; the
    client begins a call; the client goes through the loop of its call once, and
    returns from it or parks. *)
Inductive label :=
  | Serve
  | Begin (c : clientCall)
  | Loop.

Definition step (l : label) (t : roundTrip) : option roundTrip :=
  let 'mkRoundTrip w calls returns call status received eof := t in
  match l with
  | Serve =>
      match calls with
      | c :: calls => Some (mkRoundTrip (callWriter c w) calls returns call status received eof)
      | [] =>
          if negb returns || dw_done w then None
          else Some (mkRoundTrip (closeWriter w) [] returns call status received eof)
      end
  | Begin c =>
      match call, c, status, eof with
      | None, GetResponse, None, _ | None, ReadBody _, Some _, false =>
          Some (mkRoundTrip w calls returns (Some c) status received eof)
      | _, _, _, _ => None
      end
  | Loop =>
      if dw_parked w then None
      else
        match call with
        | None => None
        | Some GetResponse =>
            match response w with
            | Some code => Some (mkRoundTrip w calls returns None (Some code) received eof)
            | None => Some (mkRoundTrip (Wait w) calls returns call status received eof)
            end
        | Some (ReadBody n) =>
            match Read n w with
            | Some (ReadBytes data, w) => Some (mkRoundTrip w calls returns None status (received +:+ data) eof)
            | Some (ReadEOF, w) => Some (mkRoundTrip w calls returns None status received true)
            | None => Some (mkRoundTrip (Wait w) calls returns call status received eof)
            end
        end
  end.

Fixpoint run (ls : list label) (t : roundTrip) : option roundTrip :=
  match ls with
  | [] => Some t
  | l :: ls => t ← step l t; run ls t
  end.

(** ** What is written, and what arrives *)

Fixpoint written (calls : list writerCall) : string :=
  match calls with
  | [] => ""
  | Write b :: calls => b +:+ written calls
  | _ :: calls => written calls
  end.

(** The status of a response: its only one, before anything is written. *)
Fixpoint statusOf (calls : list writerCall) : Z :=
  match calls with
  | [] | Write _ :: _ => 200
  | WriteHeader code :: _ => code
  | _ :: calls => statusOf calls
  end.
Fixpoint headers_after (calls : list writerCall) : nat :=
  match calls with
  | [] => 0
  | WriteHeader _ :: calls => S (headers_after calls)
  | _ :: calls => headers_after calls
  end.
(** One header at most, and none after the body has begun. *)
Fixpoint oneHeader (calls : list writerCall) : bool :=
  match calls with
  | [] => true
  | (WriteHeader _ | Write _) :: calls => Nat.eqb (headers_after calls) 0
  | _ :: calls => oneHeader calls
  end.

Lemma string_take_drop n s :
  substring 0 n s +:+ substring n (String.length s - n) s = s.
Proof.
  revert n. induction s as [|c s IH]; intros n; [by destruct n|].
  destruct n as [|n]; cbn [substring String.length].
  - rewrite string_app_nil_l, Nat.sub_0_r. specialize (IH 0%nat).
    replace (substring 0 0 s) with "" in IH by (by destruct s).
    rewrite string_app_nil_l, Nat.sub_0_r in IH. by rewrite IH.
  - rewrite string_app_cons. cbn [Nat.sub]. by rewrite IH.
Qed.

Lemma written_app c1 c2 : written (c1 ++ c2) = written c1 +:+ written c2.
Proof. induction c1 as [|[] c1 IH]; cbn; rewrite ?IH, ?string_app_assoc; done. Qed.

(** The status a client is told. *)
Definition effective (code : Z) : Z := if (code =? 0)%Z then 200%Z else code.

(** The calls that begin the response. *)
Definition begins (c : writerCall) : bool := match c with WriteHeader _ | Write _ => true | _ => false end.

(** The state of a round trip whose server makes the calls [calls]. A parked
    client is one whose call has nothing to return yet. *)
Record trip_ok (calls : list writerCall) (returns : bool) (t : roundTrip) : Prop := {
  to_body : ∃ before, calls = before ++ rt_calls t
    ∧ rt_received t +:+ dw_body (rt_writer t) = written before
    ∧ (dw_wroteHeader (rt_writer t) = false → existsb begins before = false);
  to_returns : rt_returns t = returns ∧ (dw_done (rt_writer t) = true → returns = true);
  to_done : dw_done (rt_writer t) = true → rt_calls t = [] ∧ dw_wroteHeader (rt_writer t) = true;
  to_eof : rt_eof t = true → dw_done (rt_writer t) = true ∧ dw_body (rt_writer t) = "";
  to_header : oneHeader calls = true →
    if dw_wroteHeader (rt_writer t)
    then effective (dw_statusCode (rt_writer t)) = effective (statusOf calls) ∧ headers_after (rt_calls t) = 0%nat
    else dw_statusCode (rt_writer t) = 0%Z ∧ statusOf (rt_calls t) = statusOf calls
      ∧ oneHeader (rt_calls t) = true;
  to_status code : oneHeader calls = true → rt_status t = Some code → code = effective (statusOf calls);
  to_call : match rt_call t with
            | Some GetResponse => rt_status t = None
            | Some (ReadBody _) => is_Some (rt_status t) ∧ rt_eof t = false
            | None => True
            end;
  to_parked : dw_parked (rt_writer t) = true →
    match rt_call t with
    | Some GetResponse => dw_wroteHeader (rt_writer t) = false
    | Some (ReadBody n) => dw_body (rt_writer t) = "" ∧ dw_done (rt_writer t) = false
    | None => False
    end;
  to_began : is_Some (rt_status t) → dw_wroteHeader (rt_writer t) = true
}.

Lemma RoundTrip_ok calls returns : trip_ok calls returns (RoundTrip calls returns).
Proof.
  split; cbn; try done. by exists [].
Qed.

Lemma serve_ok calls returns t t' : trip_ok calls returns t → step Serve t = Some t' → trip_ok calls returns t'.
Proof.
  intros [(before & Ec & Eb & Eq) [Hr Hrd] Hd He Hh Hs Hcl Hpk Hbg].
  destruct t as [[code h wrote fin body parked] rest rets call status received eof].
  cbn in *. subst rets. destruct rest as [|c rest].
  - destruct returns; [|done]. cbn. destruct fin; [done|]. intros [= <-]. split; cbn; try done.
    + by exists before.
    + intros E. by destruct (He E).
    + intros Ho. specialize (Hh Ho). destruct wrote; [done|]. destruct Hh as (-> & Es & _). by rewrite <- Es.
  - intros [= <-]. assert (fin = false) as -> by (destruct fin; [by destruct (Hd eq_refl)|done]).
    assert (eof = false) as -> by (destruct eof; [by destruct (He eq_refl)|done]).
    split; cbn.
    + exists (before ++ [c]). rewrite <- (assoc (++)). split; [by rewrite Ec|].
      rewrite written_app, <- Eb. split; [destruct c; cbn; rewrite ?string_app_nil_r, ?string_app_assoc; done|].
      rewrite existsb_app. destruct c; cbn; try done; intros Hw; by rewrite (Eq Hw).
    + split; [done|]. by destruct c.
    + by destruct c.
    + done.
    + intros Ho. specialize (Hh Ho). destruct wrote.
      * destruct Hh as [E1 E2]. destruct c; cbn in *; done.
      * destruct Hh as (-> & E1 & E2). destruct c; cbn in *; try done.
        all: apply Nat.eqb_eq in E2; by rewrite <- E1.
    + intros k Ho. by apply Hs.
    + done.
    + by destruct c.
    + by destruct c.
Qed.

Lemma begin_ok calls returns c t t' : trip_ok calls returns t → step (Begin c) t = Some t' → trip_ok calls returns t'.
Proof.
  intros [Hb Hr Hd He Hh Hs Hcl Hpk Hbg].
  destruct t as [[code h wrote fin body parked] rest rets call status received eof]. cbn in *.
  destruct call as [call|]; [done|]. destruct parked; [by destruct (Hpk eq_refl)|].
  destruct c; destruct status; try done; [|destruct eof; [done|]]; intros [= <-]; by split.
Qed.

Lemma loop_ok calls returns t t' : trip_ok calls returns t → step Loop t = Some t' → trip_ok calls returns t'.
Proof.
  intros [(before & Ec & Eb & Eq) Hr Hd He Hh Hs Hcl Hpk Hbg].
  destruct t as [[code h wrote fin body parked] rest rets call status received eof].
  cbn in *. destruct parked; [done|]. destruct call as [[|n]|]; [| |done].
  - unfold response. cbn. destruct wrote; intros [= <-].
    + split; cbn; try done; [by exists before|]. intros k Ho [= <-]. by destruct (Hh Ho).
    + split; cbn; try done. by exists before.
  - destruct Hcl as [Hst ->]. unfold Buffer_Read. case_decide as Hbody; [case_decide|].
    + intros [= <-]. subst. split; cbn; try done. exists before. by rewrite !string_app_nil_r in *.
    + destruct fin; intros [= <-]; split; cbn; try done; by exists before.
    + intros [= <-]. split; cbn; try done. exists before. split; [done|].
      split; [|done]. by rewrite string_app_assoc, string_take_drop.
Qed.

Lemma trip_step_ok calls returns l t t' : trip_ok calls returns t → step l t = Some t' → trip_ok calls returns t'.
Proof. destruct l; eauto using serve_ok, begin_ok, loop_ok. Qed.

Lemma run_ok calls returns ls t t' : trip_ok calls returns t → run ls t = Some t' → trip_ok calls returns t'.
Proof.
  revert t. induction ls as [|l ls IH]; intros t Ht; cbn; [by intros [= <-]|].
  destruct (step l t) as [t1|] eqn:E; [|done]. cbn. apply IH. by eapply trip_step_ok.
Qed.

(** C22. Nothing is lost, repeated or reordered on the way. Under every schedule
    of the two goroutines and with reads of any size, what the client has got
    is a beginning of what the server wrote, all of it at the end of the body;
    and where the server sends one header, before the body, the status is
    that one, whenever the client asked. *)
Theorem direct_lossless calls returns ls t :
  run ls (RoundTrip calls returns) = Some t →
  (∃ rest, written calls = rt_received t +:+ rest)
  ∧ (rt_eof t = true → rt_received t = written calls)
  ∧ (oneHeader calls = true → ∀ code, rt_status t = Some code → code = effective (statusOf calls)).
Proof.
  intros Hr. destruct (run_ok _ _ _ _ _ (RoundTrip_ok calls returns) Hr) as [(before & Ec & Eb & _) _ Hd He Hh Hs _ _ _].
  split; [|split; [|intros Ho code; by apply Hs]].
  - rewrite Ec, written_app, <- Eb, string_app_assoc. eauto.
  - intros E. destruct (He E) as [Hdone Hbody]. destruct (Hd Hdone) as [Hnil _].
    rewrite Hbody, string_app_nil_r in Eb. by rewrite Ec, Hnil, app_nil_r, Eb.
Qed.

(** ** Nobody waits in vain *)

(** Twice the calls, bytes and answers still to come, and one for a client that is
    between two calls and for one that is not parked. *)
Definition measure (t : roundTrip) : nat :=
  2 * (length (rt_calls t) + String.length (written (rt_calls t)) + String.length (dw_body (rt_writer t))
       + (if dw_done (rt_writer t) then 0 else 1) + (match rt_status t with Some _ => 0 | None => 1 end)
       + (if rt_eof t then 0 else 1))
  + (match rt_call t with Some _ => 0 | None => 1 end) + (if dw_parked (rt_writer t) then 0 else 1).

Lemma measure_start calls returns :
  measure (RoundTrip calls returns) = (2 * (length calls + String.length (written calls)) + 8)%nat.
Proof. unfold measure. cbn -[Nat.mul]. lia. Qed.

Lemma length_substring n s : String.length (substring n (String.length s - n) s) = (String.length s - n)%nat.
Proof.
  assert (String.length (substring 0 n s) = Nat.min n (String.length s)) as H0.
  { revert n. induction s as [|c s IH]; intros [|n]; cbn; try done. by rewrite IH. }
  pose proof (f_equal String.length (string_take_drop n s)) as E. rewrite string_length_app, H0 in E. lia.
Qed.

(** A call of Read with an empty slice comes back at once with nothing. *)
Definition idle (t : roundTrip) : Prop := rt_call t = Some (ReadBody 0).

Lemma step_measure calls returns l t t' :
  trip_ok calls returns t → ¬ idle t → step l t = Some t' → (measure t' < measure t)%nat.
Proof.
  intros [_ _ _ _ _ _ Hcl Hpk _] Hid.
  destruct t as [[code h wrote fin body parked] rest rets call status received eof].
  unfold measure, idle in *. cbn in Hcl, Hpk, Hid. destruct l as [|c|]; cbn.
  - destruct rest as [|c rest].
    + destruct (negb rets || fin) eqn:E; [done|]. apply orb_false_iff in E as [_ ->].
      intros [= <-]. cbn. destruct parked; lia.
    + intros [= <-]. destruct c; cbn; rewrite ?string_length_app; destruct parked; lia.
  - destruct call; [done|]. destruct c, status; try done; [|destruct eof; [done|]]; intros [= <-]; cbn; lia.
  - destruct parked; [done|]. destruct call as [[|n]|]; [| |done].
    + subst status. unfold response. cbn. destruct wrote; intros [= <-]; cbn; lia.
    + destruct Hcl as [_ ->]. unfold Buffer_Read. case_decide as Hb; [case_decide; [congruence|]|].
      * destruct fin; intros [= <-]; cbn; lia.
      * intros [= <-]. cbn. rewrite length_substring. destruct body; [done|]. cbn.
        assert (n ≠ 0%nat) by congruence. lia.
Qed.

(** The calls of a schedule ask for at least a byte. *)
Lemma step_busy l t t' : l ≠ Begin (ReadBody 0) → ¬ idle t → step l t = Some t' → ¬ idle t'.
Proof.
  intros Hl. destruct t as [[code h wrote fin body parked] rest rets call status received eof]. unfold idle.
  destruct l as [|c|]; cbn; intros Hid.
  - destruct rest; [destruct (negb rets || fin); [done|]|]; by intros [= <-].
  - destruct call; [done|]. destruct c, status; try done; [|destruct eof; [done|]]; intros [= <-]; cbn; congruence.
  - destruct parked; [done|]. destruct call as [[|n]|]; [| |done].
    + destruct (response _); by intros [= <-].
    + unfold Buffer_Read. repeat case_decide; [by intros [= <-]|destruct fin|]; by intros [= <-].
Qed.

(** When nothing can happen. *)
Definition stuck (t : roundTrip) : Prop := ∀ l, l ≠ Begin (ReadBody 0) → step l t = None.

Lemma stuck_parked calls returns t :
  trip_ok calls returns t → stuck t → rt_eof t = false →
  rt_calls t = [] ∧ dw_parked (rt_writer t) = true ∧ dw_done (rt_writer t) = returns.
Proof.
  intros [_ [Hr Hrd] _ _ _ _ Hcl Hpk _] Hs Heof.
  pose proof (Hs Serve ltac:(done)) as H1. pose proof (Hs Loop ltac:(done)) as H2.
  pose proof (Hs (Begin GetResponse) ltac:(done)) as H3. pose proof (Hs (Begin (ReadBody 1)) ltac:(done)) as H4.
  destruct t as [[code h wrote fin body parked] rest rets call status received eof]. cbn in *. subst rets eof.
  destruct rest; [|done]. split; [done|]. split.
  - destruct parked; [done|]. destruct call as [[|n]|].
    + by destruct (response _).
    + unfold Buffer_Read in H2. repeat case_decide; try done. by destruct fin.
    + by destruct status.
  - destruct returns; cbn in *; [by destruct fin|]. destruct fin; [by discriminate Hrd|done].
Qed.

(** C21. No round trip waits in vain, whatever the schedule. With reads that ask
    for at least a byte, the two sides make no more steps than twice the calls and
    the bytes, and eight; and when neither side has a step left, the client has
    got everything: the end of the body and all bytes, if the handler returns;
    and if it does not (as a watch does not while nothing happens), all the bytes
    it has written so far, and a status unless it has written nothing. A parked
    client is woken by the writer: a Broadcast left out of Write, WriteHeader or
    close leaves it waiting for what is there. *)
Theorem direct_terminates calls returns ls t :
  run ls (RoundTrip calls returns) = Some t → Begin (ReadBody 0) ∉ ls →
  (length ls ≤ 2 * (length calls + String.length (written calls)) + 8)%nat
  ∧ ((∀ l, l ≠ Begin (ReadBody 0) → step l t = None) →
     rt_received t = written calls
     ∧ (if returns then rt_eof t = true
        else rt_calls t = [] ∧ (rt_status t = None → existsb begins calls = false))).
Proof.
  intros Hr Hno. pose proof (run_ok _ _ _ _ _ (RoundTrip_ok calls returns) Hr) as Ht. split.
  - assert (∀ t0, trip_ok calls returns t0 → ¬ idle t0 → run ls t0 = Some t →
      (length ls + measure t ≤ measure t0)%nat) as Hm.
    { clear Hr Ht. induction ls as [|l ls IH]; intros t0 H0 Hid; cbn [run length]; [by intros [= <-]|].
      apply not_elem_of_cons in Hno as [Hl Hls].
      destruct (step l t0) as [t1|] eqn:E; [|done]. cbn [mbind option_bind]. intros Hr.
      pose proof (step_measure _ _ _ _ _ H0 Hid E).
      specialize (IH Hls t1 (trip_step_ok _ _ _ _ _ H0 E) (step_busy _ _ _ (not_eq_sym Hl) Hid E) Hr). lia. }
    specialize (Hm _ (RoundTrip_ok calls returns) ltac:(done) Hr). rewrite measure_start in Hm. lia.
  - intros Hstuck. destruct (rt_eof t) eqn:Heof.
    + destruct Ht as [(before & Ec & Eb & _) [_ Hret] Hd He _ _ _ _ _].
      destruct (He Heof) as [Hdone Hbody]. destruct (Hd Hdone) as [Hnil _]. rewrite (Hret Hdone).
      rewrite Hnil, app_nil_r in Ec. subst before. by rewrite Hbody, string_app_nil_r in Eb.
    + destruct (stuck_parked _ _ _ Ht Hstuck Heof) as (Hnil & Hpk & Hdone).
      destruct Ht as [(before & Ec & Eb & Eq) _ Hd _ _ _ Hcl Hpark Hbg]. specialize (Hpark Hpk).
      rewrite Hnil, app_nil_r in Ec. subst before.
      destruct (rt_call t) as [[|n]|]; [| |done].
      * assert (returns = false) as ->.
        { destruct returns; [|done]. destruct (Hd Hdone) as [_ E]. congruence. }
        specialize (Eq Hpark). split; [|split; [done|done]].
        assert (written calls = "") as E.
        { clear -Eq. induction calls as [|[] calls IH]; cbn in *; try done; by apply IH. }
        rewrite E in Eb. apply (f_equal String.length) in Eb. rewrite string_length_app in Eb. cbn in Eb.
        rewrite E. destruct (rt_received t); [done|cbn in Eb; lia].
      * destruct Hpark as [Hbody Hnd], Hcl as [[k Hk] _]. destruct returns; [by rewrite Hnd in Hdone|].
        rewrite Hbody, string_app_nil_r in Eb. split; [done|]. split; [done|]. congruence.
Qed.

(** A response of the server arrives as it was encoded. *)
Lemma writeResponse_arrives `{HTTPLibs} p b ls t :
  json_Marshal p = Ok b → run ls (RoundTrip (writeResponse p).1 true) = Some t → rt_eof t = true →
  rt_received t = b ∧ ∀ code, rt_status t = Some code → code = 200%Z.
Proof.
  intros Hm. unfold writeResponse. rewrite Hm. cbn [fst]. intros Hr He.
  destruct (run_ok _ _ _ _ _ (RoundTrip_ok _ _) Hr) as [(before & Ec & Eb & _) _ Hd Heof _ Hs _ _ _].
  destruct (Heof He) as [Hdone Hbody]. destruct (Hd Hdone) as [Hnil _].
  rewrite Hnil, app_nil_r in Ec. subst before. rewrite Hbody, string_app_nil_r in Eb. cbn in Eb.
  split; [by rewrite Eb, string_app_nil_r|]. intros code. by apply Hs.
Qed.

(** ** Examples *)

Definition example_response : list writerCall := [HeaderAdd "Content-Type" "text"; WriteHeader 404; Write "not"; Write " found"].
(** The client asks first, and is woken by each write. *)
Definition example_schedule : list label :=
  [Begin GetResponse; Loop; Serve; Serve; Loop; Begin (ReadBody 2); Loop; Serve; Loop; Begin (ReadBody 2); Loop;
   Begin (ReadBody 10); Loop; Serve; Loop; Begin (ReadBody 1); Loop; Serve; Loop].

Definition example_trip : option roundTrip := run example_schedule (RoundTrip example_response true).
Lemma example_trip_ends : match example_trip with Some t => rt_eof t | None => false end = true.
Proof. vm_compute. reflexivity. Qed.

Lemma direct_lossless_witness :
  ∃ t, example_trip = Some t ∧ rt_received t = "not found" ∧ ∀ code, rt_status t = Some code → code = 404%Z.
Proof.
  pose proof example_trip_ends as He. destruct example_trip as [t|] eqn:E; [|discriminate He].
  destruct (direct_lossless example_response true example_schedule t E) as (_ & Hr & Hs).
  exists t. split; [done|]. split; [exact (Hr He)|]. exact (Hs eq_refl).
Defined.

(** A watch whose handler does not return: the client has got what was written and
    is parked. *)
Definition example_waiting : list label :=
  [Begin GetResponse; Loop; Serve; Serve; Loop; Serve; Serve; Begin (ReadBody 64); Loop; Begin (ReadBody 64); Loop].

Lemma direct_terminates_witness :
  ∃ t, run example_waiting (RoundTrip example_response false) = Some t
    ∧ dw_parked (rt_writer t) = true ∧ rt_received t = "not found".
Proof.
  eexists. split; [vm_compute; reflexivity|]. split; [reflexivity|].
  eapply (proj1 (proj2 (direct_terminates example_response false example_waiting _ _ _) _)).
  Unshelve.
  - vm_compute. reflexivity.
  - unfold example_waiting. rewrite !not_elem_of_cons. repeat split; try discriminate. apply not_elem_of_nil.
  - intros [|[|n]|] Hl; reflexivity.
Defined.

End directhttp.
