(* ===== verification/MockCluster.v ===== *)
(** * The library on the mock API server

    The requests of the applyset library ([Kube.Server]) served by the mock API
    server ([MockServer] on [MemoryStorage]), one at a time: what a client that
    applies, lists and prunes observes. The client libraries between them
    (client-go's dynamic client and controller-runtime's client) are a class
    [RESTClient] with the paths and the decoding they document. *)

From S2P Require Import Prelude Kube Manifest MemoryStorage GoLib ServerSideApply MockServer Sets KubectlApplySet.
From stdpp Require Import options.
Import manifest memorystorage jsoneq slices ssa mockserver.

Module mockcluster.

(** ** The client libraries *)

(** The requests of a client, and how it reads the body of an answer. *)
Class RESTClient := {
  listRequest : GroupVersionResource → string → string → httpRequest;
  patchRequest : GroupVersionResource → string → string → string → PatchOptions → httpRequest;
  deleteRequest : GroupVersionResource → string → string → DeleteOptions → httpRequest;
  updateRequest : Kube.Object → httpRequest;
  decodeObject : string → res Kube.Object;
  decodeList : string → res (list Kube.Object);
  statusError : Z → error
}.

Definition collectionPath (gvr : GroupVersionResource) (ns : string) : string :=
  pathOf (segmentsOf (gvr_Group gvr) (gvr_Version gvr) ns (gvr_Resource gvr) "" "").
Definition objectPath (gvr : GroupVersionResource) (ns name : string) : string :=
  pathOf (segmentsOf (gvr_Group gvr) (gvr_Version gvr) ns (gvr_Resource gvr) name "").

(** What the client libraries document. [toObject] reads an object off its JSON
    value. A single object must name its kind to be decoded; the items of a list
    that do not name their kind or their version are given those of the list. *)
Definition has_kind `{Unstructured} (u : jmap) : Prop := u_GetKind u ≠ "".
Definition typed `{Unstructured} (u : jmap) : Prop := has_kind u ∧ gvk_Version (u_GVK u) ≠ "".

Record client_ok `{Unstructured, HTTPLibs} (C : RESTClient) (toObject : jmap → Kube.Object) : Prop := {
  list_method gvr ns selector : hr_Method (listRequest gvr ns selector) = "GET";
  list_path gvr ns selector : hr_Path (listRequest gvr ns selector) = collectionPath gvr ns;
  list_no_watch gvr ns selector : hr_Query (listRequest gvr ns selector) !! "watch" = None;
  patch_method gvr ns name body opts : hr_Method (patchRequest gvr ns name body opts) = "PATCH";
  patch_path gvr ns name body opts : hr_Path (patchRequest gvr ns name body opts) = objectPath gvr ns name;
  update_method o : hr_Method (updateRequest o) = "PUT";
  decode_object u b :
    has_kind u → json_Marshal (PObject u) = Ok b → decodeObject b = Ok (toObject u);
  decode_kindless u b :
    ¬ has_kind u → json_Marshal (PObject u) = Ok b → is_Ok (decodeObject b) = false;
  decode_list gvk rv items b :
    json_Marshal (PList gvk rv items) = Ok b →
    ∃ objs, decodeList b = Ok objs ∧ Forall2 (λ u o, typed u → o = toObject u) items objs;
  to_gvk u : o_gvk (toObject u) = u_GVK u
}.

(** What a client sees of a response: the status of the first WriteHeader, 200
    without one, and the body. *)
Fixpoint statusOf (calls : list writerCall) : Z :=
  match calls with
  | [] => 200
  | WriteHeader code :: _ => code
  | _ :: calls => statusOf calls
  end.

Fixpoint bodyOf (calls : list writerCall) : string :=
  match calls with
  | [] => ""
  | Write b :: calls => b +:+ bodyOf calls
  | _ :: calls => bodyOf calls
  end.

(** ** The server *)

Section cluster.
Context {U : Unstructured} {O : ObjectMetaOps} {ST : SchemaText} {R : RangeOrder} {SS : SliceSort} {HL : HTTPLibs}.
Context {T FS : Type} {ML : MergeLib T FS} {G : Type} {UG : UIDGenerator G} {C : RESTClient}.
Implicit Types s : MemoryStorage G.

(** A request and its answer; [None] is a server whose process has ended. A
    request that is never answered fails with the client's timeout. *)
Definition send {A} (rq : httpRequest) (decode : string → res A) (w : option (MemoryStorage G)) :
    option (MemoryStorage G) * res A :=
  match w with
  | None => (None, Err (Errorf "connection refused"))
  | Some s =>
      match exec (ServeHTTP [] rq) s with
      | Returns s calls =>
          (Some s, if decide (statusOf calls = 200%Z) then decode (bodyOf calls) else Err (statusError (statusOf calls)))
      | Blocks s => (Some s, Err (Errorf "timeout"))
      | Fatal => (None, Err (Errorf "EOF"))
      end
  end.

#[export] Instance mock_server : Server (option (MemoryStorage G)) := {
  srv_List gvr ns selector w := send (listRequest gvr ns selector) decodeList w;
  srv_Patch gvr ns name body opts w := send (patchRequest gvr ns name body opts) decodeObject w;
  srv_Delete gvr ns name opts w :=
    let '(w, r) := send (deleteRequest gvr ns name opts) (λ _, Ok ()) w in
    (w, match r with Ok _ => None | Err e => Some e end);
  srv_Update o w := send (updateRequest o) decodeObject w
}.

(** ** Paths *)

(** The names of a request, as parts of a path. *)
Record names_ok (gvr : GroupVersionResource) (ns : string) : Prop := {
  ok_version : segment (gvr_Version gvr);
  ok_resource : segment (gvr_Resource gvr);
  ok_group : gvr_Group gvr ≠ "" → segment (gvr_Group gvr);
  ok_namespace : ns ≠ "" → segment ns;
  ok_core : gvr_Group gvr = "" → gvr_Version gvr = "v1"
}.

Lemma route_list gvr ns :
  names_ok gvr ns →
  route "GET" (tokensOf (collectionPath gvr ns))
  = (true, Some (ListResource (gvr_Group gvr) (gvr_Version gvr) (gvr_Resource gvr) ns)).
Proof using.
  intros [Hv Hr Hg Hns Hc]. unfold collectionPath. rewrite segmentsOf_tokens by (done || tauto). unfold segmentsOf.
  destruct (decide (gvr_Group gvr = "")) as [E|E], (decide (ns = "")) as [->|E']; cbn [app]; unfold route, routeLong;
    rewrite ?E, ?(Hc E); repeat (case_decide; destruct_and?; simplify_eq; try done).
Qed.

Lemma route_patch gvr ns name :
  names_ok gvr ns → segment name →
  route "PATCH" (tokensOf (objectPath gvr ns name))
  = (true, Some (PatchResource (mkBase (gvr_Group gvr) (gvr_Version gvr) (gvr_Resource gvr) ns name ""))).
Proof using.
  intros [Hv Hr Hg Hns Hc] Hn. unfold objectPath. rewrite segmentsOf_tokens by (done || tauto). unfold segmentsOf.
  rewrite (decide_False (P := name = "")) by (by destruct Hn).
  destruct (decide (gvr_Group gvr = "")) as [E|E], (decide (ns = "")) as [->|E']; cbn [app]; unfold route, routeLong;
    rewrite ?E, ?(Hc E); repeat (case_decide; destruct_and?; simplify_eq; try done).
Qed.

(** ** What a client observes *)

Context (toObject : jmap → Kube.Object) (HC : client_ok C toObject).
(** Every object and every list has a JSON text. *)
Context (objects_encodable : encodable).
Context (lists_encodable : ∀ gvk rv items, is_Ok (json_Marshal (PList gvk rv items)) = true).

(** The objects of a resource in a namespace; all of them for no namespace. *)
Definition inNamespace (ns : string) (rs : resourceStorage) : list jmap :=
  filter (λ obj, ns = "" ∨ u_GetNamespace obj = ns) (range (rs_objects rs)).*2.

Definition gr_of (gvr : GroupVersionResource) : GroupResource := mkGR (gvr_Group gvr) (gvr_Resource gvr).

(** The storage of a resource, when no request holds its lock. *)
Definition storageOf (gvr : GroupVersionResource) s (rs : resourceStorage) : Prop :=
  ∃ r, FindResource (gr_of gvr) s = Some r ∧ ms_storages s !! mi_storage r = Some rs ∧ rs_locked rs = false.

Lemma writeResponse_seen p b : json_Marshal p = Ok b →
  statusOf (writeResponse p).1 = 200%Z ∧ bodyOf (writeResponse p).1 = b ∧ (writeResponse p).2 = None.
Proof using. unfold writeResponse. intros ->. cbn. by rewrite string_app_nil_r. Qed.

(** A text that decodes is that of an object with a kind. *)
Lemma decode_Ok u b o :
  json_Marshal (PObject u) = Ok b → decodeObject b = Ok o → has_kind u ∧ o = toObject u.
Proof using HC.
  intros Eb Ed. destruct (decide (u_GetKind u = "")) as [Hk|Hk].
  - pose proof (decode_kindless C toObject HC u b ltac:(by intros Hn) Eb) as Hno. by rewrite Ed in Hno.
  - split; [done|]. rewrite (decode_object C toObject HC u b Hk Eb) in Ed. by simplify_eq.
Qed.

(** A LIST answers all objects of the namespace, whatever its selector. *)
Lemma srv_List_all gvr ns selector s rs :
  names_ok gvr ns → storageOf gvr s rs →
  ∃ objs, srv_List gvr ns selector (Some s) = (Some s, Ok objs)
    ∧ Forall2 (λ u o, typed u → o = toObject u) (inNamespace ns rs) objs.
Proof using HC lists_encodable.
  intros Hn (r & Hf & Hs & Hl). cbn [srv_List mock_server send]. unfold ServeHTTP. cbn [foldl].
  rewrite (list_method C toObject HC), (list_path C toObject HC), route_list by done. rewrite exec_bind.
  cbn [Run]. unfold listResource_Run. rewrite exec_withResource. unfold gr_of in Hf. rewrite Hf.
  rewrite (list_no_watch C toObject HC). cbn [default]. rewrite decide_False by done.
  rewrite exec_ask. cbn [perform]. unfold ListObjects, locking. rewrite Hs, Hl. fold (inNamespace ns rs).
  cbn [exec mret prog_ret]. specialize (lists_encodable (mi_listGVK r) (FormatInt (ms_resourceVersion s)) (inNamespace ns rs)).
  destruct (json_Marshal _) as [b|] eqn:Eb; [|done].
  destruct (writeResponse_seen _ b Eb) as (Hst & Hb & He). destruct (writeResponse _) as [calls err].
  cbn [fst snd] in *. subst err. cbn. rewrite Hst, decide_True, Hb by done.
  destruct (decode_list C toObject HC _ _ _ _ Eb) as (objs & -> & Hall). by exists objs.
Qed.

(** The replies of PATCH. *)
Definition objectReply (a : reply) : Prop :=
  (∃ e, a = failWith e) ∨ a = writeErrorResponse 404 ∨ ∃ v, a = writeResponse (PObject v).

Lemma answerObject_reply x : objectReply (answerObject x).
Proof using. destruct x as [v|e]; [right; right; by exists v|left; by eexists]. Qed.

Lemma ask_reply {B} (q : call B) (p : B → reply) s s' a :
  (∀ b, objectReply (p b)) → exec (b ← ask q; mret (p b)) s = Returns s' a → objectReply a.
Proof using. intros Hp. rewrite exec_ask. destruct (perform q s) as [s1 b|s1|]; [|done..]. intros [= _ <-]. apply Hp. Qed.

Lemma patch_reply c rq s s' a : exec (patchResource_Run c rq) s = Returns s' a → objectReply a.
Proof using.
  assert (∀ e, objectReply (failWith e)) as Hf by (intros e; left; by eexists).
  unfold patchResource_Run. rewrite exec_withResource. destruct (FindResource _ s) as [r|]; [|intros [= _ <-]; by right; left].
  rewrite exec_ask. cbn [perform]. destruct (GetObject r _ s) as [s1 existing|s1|]; [|done..].
  destruct (patchedBody rq) as [[bytes body]|e]; [|intros [= _ <-]; apply Hf].
  destruct existing as [existing|].
  - destruct (patchUpdate _ _ _ _ _ _) as [[updated|]|e]; [|intros [= _ <-]; right; right; by eexists|intros [= _ <-]; apply Hf].
    apply (ask_reply _ answerObject), answerObject_reply.
  - case_decide; [intros [= _ <-]; by right; left|].
    destruct (beforeObjectCreation _) as [patched|e]; [|intros [= _ <-]; apply Hf].
    apply (ask_reply _ answerObject), answerObject_reply.
Qed.

(** A GET that answers an object finds it in the storage. *)
Lemma exec_get_stored c s v b :
  json_Marshal (PObject v) = Ok b → exec (getResource_Run c) s = Returns s (writeResponse (PObject v)) →
  ∃ r rs v', FindResource (mkGR (rb_Group c) (rb_Resource c)) s = Some r ∧ ms_storages s !! mi_storage r = Some rs
    ∧ rs_locked rs = false ∧ rs_objects rs !! requestId c = Some v' ∧ json_Marshal (PObject v') = Ok b.
Proof using objects_encodable.
  intros Hb. destruct (writeResponse_seen _ b Hb) as (Hst & Hbody & He).
  unfold getResource_Run. rewrite exec_withResource. destruct (FindResource _ s) as [r|] eqn:Hf.
  2:{ intros [= HE]. rewrite <-HE in Hst. done. }
  rewrite exec_ask. cbn [perform]. unfold GetObject, locking. destruct (ms_storages s !! mi_storage r) as [rs|] eqn:Hs; [|done].
  destruct (rs_locked rs) eqn:Hl; [done|]. destruct (rs_objects rs !! requestId c) as [v'|] eqn:Ho; intros [= HE].
  2:{ rewrite <-HE in Hst. done. }
  exists r, rs, v'. do 4 (split; [done|]). specialize (objects_encodable v').
  destruct (json_Marshal (PObject v')) as [b'|] eqn:Eb'; [|done].
  destruct (writeResponse_seen _ b' Eb') as (_ & Hbody' & _). rewrite HE in Hbody'. congruence.
Qed.

(** An object that was applied is stored under the name of the request. *)
Lemma srv_Patch_stored gvr ns name body opts s w' o :
  names_ok gvr ns → segment name →
  srv_Patch gvr ns name body opts (Some s) = (w', Ok o) →
  ∃ s' rs v, w' = Some s' ∧ storageOf gvr s' rs ∧ rs_objects rs !! mkNN ns name = Some v
    ∧ has_kind v ∧ o = toObject v.
Proof using HC objects_encodable.
  intros Hn Hname. cbn [srv_Patch mock_server send]. unfold ServeHTTP. cbn [foldl].
  rewrite (patch_method C toObject HC), (patch_path C toObject HC), route_patch by done. rewrite exec_bind.
  set (c := mkBase _ _ _ _ _ _). destruct (exec (Run (PatchResource c) _) s) as [s' [calls err]|s'|] eqn:Hx; [|done..].
  pose proof Hx as Hserved. apply Run_served in Hserved; [|done]. cbn [Run] in Hx.
  apply patch_reply in Hx as [[e [= -> ->]]|[[= -> ->]|[v Hv]]]; [done|done|].
  pose proof (objects_encodable v) as Henc. destruct (json_Marshal (PObject v)) as [b|] eqn:Eb; [|done].
  destruct (writeResponse_seen _ b Eb) as (Hst & Hbody & He). destruct (writeResponse_object v objects_encodable) as [H200 _].
  rewrite <-Hv in *. cbn [fst snd] in *. subst err. cbn. rewrite Hst, decide_True, Hbody by done.
  destruct (decodeObject b) as [o'|] eqn:Ed; [|done]. intros [= <- <-].
  destruct Hserved as [Hget _]. destruct (Hget eq_refl H200) as [Hget' _]. specialize (Hget' c eq_refl). cbn [fst snd] in Hget'.
  rewrite Hv in Hget'. destruct (exec_get_stored c s' v b Eb Hget') as (r & rs & v' & Hf & Hs & Hl & Ho & Eb').
  exists s', rs, v'. split; [done|]. split; [by exists r|]. split; [done|]. by eapply decode_Ok.
Qed.

(** C20. What the library applies to the mock server it finds there: when a PATCH
    of an object in a namespace succeeds, the object it answers is among those
    that the next LIST of that resource and namespace answers, with any selector,
    if it kept the namespace it was applied to and names its version (without, the
    client gives the item of the list a version that the object does not have). *)
Theorem mock_applied_listed gvr ns name body opts selector s w' o :
  (∀ u, o_namespace (toObject u) = u_GetNamespace u) →
  names_ok gvr ns → segment name →
  srv_Patch gvr ns name body opts (Some s) = (w', Ok o) → o_namespace o = ns → gvk_Version (o_gvk o) ≠ "" →
  ∃ objs, srv_List gvr ns selector w' = (w', Ok objs) ∧ o ∈ objs.
Proof using HC objects_encodable lists_encodable.
  intros Htons Hn Hname HP Hns Hv0.
  destruct (srv_Patch_stored _ _ _ _ _ _ _ _ Hn Hname HP) as (s' & rs & v & -> & Hs & Hv & Hk & ->).
  destruct (srv_List_all gvr ns selector _ _ Hn Hs) as (objs & Hlist & Hall). exists objs. split; [done|].
  assert (v ∈ inNamespace ns rs) as [i Hi]%list_elem_of_lookup.
  { apply list_elem_of_filter. split; [right; by rewrite <-Htons|].
    apply list_elem_of_fmap. exists (mkNN ns name, v). split; [done|]. rewrite range_perm. by apply elem_of_map_to_list. }
  destruct (Forall2_lookup_l _ _ _ _ _ Hall Hi) as (o & Ho & Heq). apply list_elem_of_lookup. exists i.
  rewrite Heq in Ho; [done|]. split; [done|]. by rewrite <- (to_gvk C toObject HC).
Qed.

(** ** Pruning *)

Lemma unvisited_elem visited ns mapping items o :
  o ∈ items → o_uid o ∉ visited → kubectlapply.mkPrune (o_name o) ns mapping o
    ∈ kubectlapply.unvisited visited ns mapping items.
Proof using.
  induction items as [|x items IH]; [by intros ?%not_elem_of_nil|]. cbn [kubectlapply.unvisited].
  intros [<-|Hin]%elem_of_cons Hv.
  - unfold sets.Has. rewrite bool_decide_false by done. by left.
  - destruct (sets.Has visited (o_uid x)); [by apply IH|]. right. by apply IH.
Qed.

(** Pruning on the mock server takes in what is not the set's: the search for
    objects to prune sends the selector of the set's members, which the server
    does not look at, so that every object of the kind in the namespace that was
    not just applied is found to be pruned, whatever its labels. *)
Theorem mock_prune_ignores_labels (a : kubectlapply.ApplySet) visited ns mapping s rs events :
  names_ok (rm_Resource mapping) ns → storageOf (rm_Resource mapping) s rs →
  ∃ found e', kubectlapply.findObjectsToPrune a visited ns mapping (mkEnv (Some s) events) = (Ok found, e')
    ∧ world e' = Some s
    ∧ ∀ id v, rs_objects rs !! id = Some v → typed v → (ns = "" ∨ u_GetNamespace v = ns) →
        o_uid (toObject v) ∉ visited →
        kubectlapply.mkPrune (o_name (toObject v)) ns mapping (toObject v) ∈ found.
Proof using HC lists_encodable.
  intros Hn Hs. unfold kubectlapply.findObjectsToPrune, client_List, mbind, M_bind. cbn [world].
  destruct (srv_List_all _ _ (kubectlapply.LabelSelectorForMembers a) _ _ Hn Hs) as (objs & -> & Hall).
  eexists _, _. split; [reflexivity|]. split; [done|].
  intros id v Hv Ht Hin Hvis. apply unvisited_elem; [|done].
  assert (v ∈ inNamespace ns rs) as [i Hi]%list_elem_of_lookup.
  { apply list_elem_of_filter. split; [done|].
    apply list_elem_of_fmap. exists (id, v). split; [done|]. rewrite range_perm. by apply elem_of_map_to_list. }
  destruct (Forall2_lookup_l _ _ _ _ _ Hall Hi) as (o & Ho & Heq). apply list_elem_of_lookup. exists i.
  by rewrite (Heq Ht) in Ho.
Qed.

End cluster.

(** ** A client of the example server *)

(** A codec: the bits of a number that stands for the metadata. *)
Fixpoint bits (p : positive) : string :=
  match p with
  | xH => ""
  | xO p => String "0" (bits p)
  | xI p => String "1" (bits p)
  end.
Fixpoint fromBits (s : string) : positive :=
  match s with
  | "" => xH
  | String c s => if decide (c = "0"%char) then xO (fromBits s) else xI (fromBits s)
  end.
Lemma fromBits_bits p : fromBits (bits p) = p.
Proof. induction p as [p IH|p IH|]; cbn; rewrite ?IH; done. Qed.

Abbreviation seen := (string * string * string * string * string * string * gmap string string)%type.

Definition example_seen (m : jmap) : seen :=
  let gvk := @u_GVK server_unstructured m in
  (gvk_Group gvk, gvk_Version gvk, gvk_Kind gvk, @u_GetNamespace server_unstructured m,
   @u_GetName server_unstructured m, str_at m ["metadata"; "uid"], @u_GetLabels server_unstructured m).
Definition example_unseen (x : seen) : Kube.Object :=
  let '(g, v, k, ns, name, uid, labels) := x in mkObject (mkGVK g v k) ns name uid labels ∅ "".
Definition example_toObject (m : jmap) : Kube.Object := example_unseen (example_seen m).

Definition example_wire : HTTPLibs := {|
  json_Marshal p := Ok (match p with
    | PObject u => bits (encode (example_seen u))
    | PList _ _ items => bits (encode (example_seen <$> items))
    | _ => "" end);
  json_Unmarshal := @u_Decode server_unstructured;
  yaml_Unmarshal := @u_Decode server_unstructured;
  m_otherMetadata _ := []
|}.

Definition example_request (method path body : string) (query : gmap string string) : httpRequest :=
  mkHTTPRequest method path query "application/json" (Ok body) (λ _ _, None).

Definition example_client : RESTClient := {|
  listRequest gvr ns selector :=
    example_request "GET" (collectionPath gvr ns) "" {["labelSelector" := selector]};
  patchRequest gvr ns name body opts :=
    example_request "PATCH" (objectPath gvr ns name) body {["fieldManager" := po_FieldManager opts]};
  deleteRequest gvr ns name opts := example_request "DELETE" (objectPath gvr ns name) "" ∅;
  updateRequest o := example_request "PUT" "" "" ∅;
  decodeObject b := match decode (fromBits b) with 
                  | Some (g, v, k, ns, name, uid, labels) =>
                      if decide (k = "") then Err (Errorf "Object 'Kind' is missing")
                      else Ok (example_unseen (g, v, k, ns, name, uid, labels))
                  | None => Err (Errorf "no object") end;
  decodeList b := match decode (fromBits b) with Some xs => Ok (example_unseen <$> (xs : list seen)) | None => Err (Errorf "no list") end;
  statusError code := Errorf "the server answered an error"
|}.

Lemma example_client_ok : @client_ok server_unstructured example_wire example_client example_toObject.
Proof.
  assert (∀ u, gvk_Kind (@u_GVK server_unstructured u) = @u_GetKind server_unstructured u) as HK.
  { intros u. cbn. by destruct (strings.Cut _ _) as [[? ?] []]. }
  split; try done.
  - intros u b Hk [= <-]. cbn [decodeObject example_client]. rewrite fromBits_bits, decode_encode.
    unfold example_seen. rewrite decide_False; [done|]. by rewrite HK.
  - intros u b Hk [= <-]. cbn [decodeObject example_client]. rewrite fromBits_bits, decode_encode.
    unfold example_seen. rewrite decide_True; [done|]. rewrite HK. destruct (decide (@u_GetKind server_unstructured u = "")); [done|by destruct Hk].
  - intros gvk rv items b [= <-]. cbn [decodeList example_client]. rewrite fromBits_bits, decode_encode.
    eexists. split; [done|]. rewrite <-list_fmap_compose. apply Forall2_fmap_r, list.Forall_Forall2_diag.
    by apply list.Forall_true.
  - intros u. cbn -[strings.Cut str_at]. by destruct (strings.Cut _ _) as [[? ?] []].
Qed.

#[local] Existing Instances server_unstructured example_metaops example_text canonical_range insertion_slices
  example_wire example_merge TestUIDs example_client.

Definition example_gvr : GroupVersionResource := mkGVR "" "v1" "configmaps".
Definition example_patch : option (MemoryStorage Z) * res Kube.Object :=
  srv_Patch example_gvr "prod" "settings" "settings" (mkPatchOptions "tool" (Some true)) (Some example_storage).

Lemma example_names : names_ok example_gvr "prod".
Proof. by split. Qed.

Lemma example_segment : segment "settings".
Proof. by split. Qed.

Lemma mock_applied_listed_witness :
  match example_patch with
  | (w', Ok o) => ∃ objs, srv_List example_gvr "prod" "app=none" w' = (w', Ok objs) ∧ o ∈ objs
  | _ => False
  end.
Proof.
  assert (match example_patch with
          | (_, Ok o) => bool_decide (o_namespace o = "prod" ∧ gvk_Version (o_gvk o) ≠ "") | _ => false end = true) as HB
    by (vm_compute; reflexivity).
  destruct example_patch as [w' [o|e]] eqn:E; [|discriminate HB]. apply bool_decide_eq_true in HB as [HB HV].
  apply (mock_applied_listed example_toObject example_client_ok (λ _, eq_refl) (λ _ _ _, eq_refl) example_gvr "prod"
    "settings" "settings" (mkPatchOptions "tool" (Some true)) "app=none" example_storage w' o (λ _, eq_refl));
    [exact example_names|exact example_segment|exact E|exact HB|exact HV].
Defined.

Definition example_configmaps : RESTMapping :=
  mkMapping example_gvr (mkGVK "" "v1" "ConfigMap") RESTScopeNamespace.

(** The object has no labels, and is not one the set applied. *)
Lemma mock_prune_ignores_labels_witness :
  match example_patch with
  | (Some s, Ok o) =>
      o_labels o = ∅ ∧
      ∃ found e', kubectlapply.findObjectsToPrune kubectlapply.example_applyset ∅ "prod" example_configmaps
          (mkEnv (Some s) []) = (Ok found, e')
        ∧ kubectlapply.mkPrune "settings" "prod" example_configmaps o ∈ found
  | _ => False
  end.
Proof.
  assert (match example_patch with
          | (Some _, Ok o) => 
              bool_decide (o_namespace o = "prod" ∧ o_name o = "settings" ∧ o_labels o = ∅ ∧ gvk_Version (o_gvk o) ≠ "")
          | _ => false end = true) as HB by (vm_compute; reflexivity).
  destruct example_patch as [[s|] [o|e]] eqn:E; try discriminate HB.
  apply bool_decide_eq_true in HB as (Hns & Hname & Hl & HV). split; [exact Hl|].
  destruct (srv_Patch_stored example_toObject example_client_ok (λ _, eq_refl) example_gvr "prod" "settings" "settings"
    (mkPatchOptions "tool" (Some true)) example_storage (Some s) o example_names example_segment E)
    as (s' & rs & v & [= <-] & Hs & Hv & Hk & Ho).
  destruct (mock_prune_ignores_labels example_toObject example_client_ok (λ _ _ _, eq_refl) kubectlapply.example_applyset
    ∅ "prod" example_configmaps s rs [] example_names Hs) as (found & e' & HE & _ & Hall).
  exists found, e'. split; [exact HE|]. rewrite <-Hname, Ho. apply (Hall _ v Hv).
  - split; [exact Hk|]. rewrite <-(to_gvk _ _ example_client_ok), <-Ho. exact HV.
  - right. rewrite <-Hns, Ho. reflexivity.
  - apply not_elem_of_empty.
Defined.

End mockcluster.
