(* ===== verification/NetURL.v ===== *)
(** * Go's net/url, path, net/textproto and strconv packages

    What the HTTP recorder, the proxy of the test harness and the normaliser
    of request logs use of them: parsing a URL into its parts and writing it
    back, the values of a query, joining paths, the canonical form of the name of
    a header, and numbers in decimal. Percent encoding works byte by byte, with a set of
    bytes to escape for each part of a URL. *)

From S2P Require Import Prelude.
From stdpp Require Import pretty options.

Module url.

(** ** Bytes *)

Definition byteOf (c : ascii) : N := N_of_ascii c.
Definition between (lo hi : N) (c : ascii) : bool := (lo <=? byteOf c)%N && (byteOf c <=? hi)%N.
Definition isLower : ascii → bool := between 97 122.
Definition isUpper : ascii → bool := between 65 90.
Definition isDigit : ascii → bool := between 48 57.
Definition isAlpha (c : ascii) : bool := isLower c || isUpper c.
Definition isAlnum (c : ascii) : bool := isAlpha c || isDigit c.

(** The bytes of a text, to test membership. *)
Fixpoint among (c : ascii) (s : string) : bool :=
  match s with "" => false | String a s' => bool_decide (c = a) || among c s' end.

Fixpoint all_bytes (p : ascii → bool) (s : string) : bool :=
  match s with "" => true | String a s' => p a && all_bytes p s' end.

Definition dquote : string := String (ascii_of_N 34) "".
Definition squote : string := String (ascii_of_N 39) "".

(** ** Percent encoding *)

Inductive encoding :=
  encodePath | encodeHost | encodeZone | encodeUserPassword | encodeQueryComponent | encodeFragment.

#[export] Instance encoding_eq_dec : EqDecision encoding.
Proof. solve_decision. Defined.

Definition hostMode (mode : encoding) : bool :=
  match mode with encodeHost | encodeZone => true | _ => false end.

Definition shouldEscape (c : ascii) (mode : encoding) : bool :=
  if isAlnum c then false
  else if hostMode mode && among c ("!$&()*+,;=:[]<>" +:+ squote +:+ dquote) then false
  else if among c "-_.~" then false
  else if among c "$&+,/:;=?@" then
    match mode with
    | encodePath => bool_decide (c = "?"%char)
    | encodeUserPassword => among c "@/?:"
    | encodeQueryComponent => true
    | encodeFragment => false
    | encodeHost | encodeZone => true
    end
  else if bool_decide (mode = encodeFragment) && among c "!()*" then false
  else true.

Definition ishex (c : ascii) : bool := isDigit c || between 97 102 c || between 65 70 c.
Definition unhex (c : ascii) : N :=
  if isDigit c then byteOf c - 48
  else if between 97 102 c then byteOf c - 97 + 10
  else if between 65 70 c then byteOf c - 65 + 10 else 0.

Definition hexUpper (n : N) : ascii := if (n <? 10)%N then ascii_of_N (48 + n) else ascii_of_N (55 + n).

Fixpoint escape (s : string) (mode : encoding) : string :=
  match s with
  | "" => ""
  | String c s' =>
      if bool_decide (c = " "%char) && bool_decide (mode = encodeQueryComponent) then
        String "+" (escape s' mode)
      else if shouldEscape c mode then
        String "%" (String (hexUpper (byteOf c / 16)) (String (hexUpper (byteOf c mod 16)) (escape s' mode)))
      else String c (escape s' mode)
  end.

(** Whether [unescape] refuses the triple [%ab]. *)
Definition refusedTriple (a b : ascii) (mode : encoding) : bool :=
  let is25 := bool_decide (a = "2"%char ∧ b = "5"%char) in
  let v := ascii_of_N (unhex a * 16 + unhex b) in
  match mode with
  | encodeHost => (unhex a <? 8)%N && negb is25
  | encodeZone => negb is25 && negb (bool_decide (v = " "%char)) && shouldEscape v encodeHost
  | _ => false
  end.

Fixpoint unescape (s : string) (mode : encoding) : res string :=
  match s with
  | "" => Ok ""
  | String c s' =>
      if bool_decide (c = "%"%char) then
        match s' with
        | String a (String b rest) =>
            if ishex a && ishex b && negb (refusedTriple a b mode) then
              t ← unescape rest mode; Ok (String (ascii_of_N (unhex a * 16 + unhex b)) t)
            else Err (Errorf "invalid URL escape")
        | _ => Err (Errorf "invalid URL escape")
        end
      else if hostMode mode && (byteOf c <? 128)%N && shouldEscape c mode then
        Err (Errorf "invalid character in host name")
      else
        t ← unescape s' mode;
        Ok (String (if bool_decide (c = "+"%char) && bool_decide (mode = encodeQueryComponent)
                    then " "%char else c) t)
  end.

Definition validEncoded (s : string) (mode : encoding) : bool :=
  all_bytes (λ c, among c ("!$&()*+,;=:@[]%" +:+ squote) || negb (shouldEscape c mode)) s.

(** ** URLs *)

Record Userinfo := mkUserinfo { ui_username : string; ui_password : option string }.

#[export] Instance Userinfo_eq_dec : EqDecision Userinfo.
Proof. solve_decision. Defined.

Record URL := mkURL {
  Scheme : string;
  Opaque : string;
  User : option Userinfo;
  Host : string;
  Path : string;
  RawPath : string;
  OmitHost : bool;
  ForceQuery : bool;
  RawQuery : string;
  Fragment : string;
  RawFragment : string
}.

#[export] Instance URL_eq_dec : EqDecision URL.
Proof. solve_decision. Defined.

(** The text before and after the last occurrence of a byte. *)
Fixpoint LastCut (c : ascii) (s : string) : option (string * string) :=
  match s with
  | "" => None
  | String a s' =>
      match LastCut c s' with
      | Some (x, y) => Some (String a x, y)
      | None => if decide (a = c) then Some ("", s') else None
      end
  end.

(** getScheme: the text up to the first colon where it is a scheme. [first] is
    whether no byte was read yet. *)
Fixpoint getScheme_from (first : bool) (s : string) : res (option (string * string)) :=
  match s with
  | "" => Ok None
  | String c s' =>
      if isAlpha c then
        r ← getScheme_from false s';
        Ok (match r with Some (sc, rest) => Some (String c sc, rest) | None => None end)
      else if isDigit c || among c "+-." then
        if first then Ok None
        else
          r ← getScheme_from false s';
          Ok (match r with Some (sc, rest) => Some (String c sc, rest) | None => None end)
      else if bool_decide (c = ":"%char) then
        if first then Err (Errorf "missing protocol scheme") else Ok (Some ("", s'))
      else Ok None
  end.

Definition getScheme (rawURL : string) : res (string * string) :=
  r ← getScheme_from true rawURL;
  Ok (match r with Some p => p | None => ("", rawURL) end).

Definition isCTL (c : ascii) : bool := (byteOf c <? 32)%N || (byteOf c =? 127)%N.
Definition validUserinfo : string → bool :=
  all_bytes (λ c, isAlnum c || among c ("-._:~!$&()*+,;=%@" +:+ squote)).
Definition validOptionalPort (port : string) : bool :=
  match port with
  | "" => true
  | String c ds => bool_decide (c = ":"%char) && all_bytes isDigit ds
  end.

Definition parseHost (host : string) : res string :=
  if strings.HasPrefix host "[" then
    match LastCut "]" host with
    | None => Err (Errorf "missing ']' in host")
    | Some (inside, colonPort) =>
        if negb (validOptionalPort colonPort) then Err (Errorf "invalid port after host")
        else
          match strings.CutString inside "%25" with
          | Some (before, after) =>
              host1 ← unescape before encodeHost;
              host2 ← unescape ("%25" +:+ after) encodeZone;
              host3 ← unescape ("]" +:+ colonPort) encodeHost;
              Ok (host1 +:+ host2 +:+ host3)
          | None => unescape host encodeHost
          end
    end
  else
    match LastCut ":" host with
    | Some (_, port) =>
        if all_bytes isDigit port then unescape host encodeHost
        else Err (Errorf "invalid port after host")
    | None => unescape host encodeHost
    end.

Definition parseUser (userinfo : string) : res Userinfo :=
  if negb (validUserinfo userinfo) then Err (Errorf "net/url: invalid userinfo")
  else
    let '(username, password, found) := strings.Cut ":" userinfo in
    username ← unescape username encodeUserPassword;
    if found then
      password ← unescape password encodeUserPassword; Ok (mkUserinfo username (Some password))
    else Ok (mkUserinfo username None).

Definition parseAuthority (authority : string) : res (option Userinfo * string) :=
  match LastCut "@" authority with
  | None => host ← parseHost authority; Ok (None, host)
  | Some (userinfo, h) =>
      host ← parseHost h;
      user ← parseUser userinfo;
      Ok (Some user, host)
  end.

(** The two fields setPath and setFragment compute: the decoded text, and the
    text itself where the default encoding is another. *)
Definition rawOf (p : string) (mode : encoding) : res (string * string) :=
  path ← unescape p mode;
  Ok (path, if bool_decide (p = escape path mode) then "" else p).

(** The query of a text without fragment: ForceQuery and RawQuery. *)
Definition cutQuery (rest : string) : string * bool * string :=
  let '(before, query, found) := strings.Cut "?" rest in
  (before, found && bool_decide (query = ""), query).

(** The authority and the path of the rest of a URL; OmitHost. *)
Definition splitAuthority (scheme rest : string) : res (option Userinfo * string * string * bool) :=
  if (negb (bool_decide (scheme = "")) || negb (strings.HasPrefix rest "///")) && strings.HasPrefix rest "//"
  then
    let '(authority, path, slash) := strings.Cut "/" (strings.TrimPrefix rest "//") in
    r ← parseAuthority authority;
    Ok (r.1, r.2, if slash : bool then "/" +:+ path else "", false)
  else
    Ok (None, "", rest, negb (bool_decide (scheme = "")) && strings.HasPrefix rest "/").

(** parse(rawURL, false). *)
Definition parse (rawURL : string) : res URL :=
  if negb (all_bytes (λ c, negb (isCTL c)) rawURL) then
    Err (Errorf "net/url: invalid control character in URL")
  else if decide (rawURL = "*") then Ok (mkURL "" "" None "" "*" "" false false "" "" "")
  else
    sr ← getScheme rawURL;
    let scheme := strings.ToLower sr.1 in
    let '(rest, force, query) := cutQuery sr.2 in
    if negb (strings.HasPrefix rest "/") && negb (bool_decide (scheme = "")) then
      Ok (mkURL scheme rest None "" "" "" false force query "" "")
    else if negb (strings.HasPrefix rest "/") && strings.Contains (strings.Cut "/" rest).1.1 ":" then
      Err (Errorf "first path segment in URL cannot contain colon")
    else
      a ← splitAuthority scheme rest;
      let '(user, host, path, omit) := a in
      p ← rawOf path encodePath;
      Ok (mkURL scheme "" user host p.1 p.2 omit force query "" "").

Definition Parse (rawURL : string) : res URL :=
  let '(u, frag, _) := strings.Cut "#" rawURL in
  url ← wrapW "parse" (parse u);
  if decide (frag = "") then Ok url
  else
    f ← wrapW "parse" (rawOf frag encodeFragment);
    Ok (mkURL (Scheme url) (Opaque url) (User url) (Host url) (Path url) (RawPath url) (OmitHost url)
          (ForceQuery url) (RawQuery url) f.1 f.2).

(** EscapedPath and EscapedFragment: the raw text while it encodes the text. *)
Definition escapedOf (text raw : string) (mode : encoding) : string :=
  if negb (bool_decide (raw = "")) && validEncoded raw mode && bool_decide (unescape raw mode = Ok text)
  then raw
  else if bool_decide (text = "*") && bool_decide (mode = encodePath) then "*" else escape text mode.

Definition EscapedPath (u : URL) : string := escapedOf (Path u) (RawPath u) encodePath.
Definition EscapedFragment (u : URL) : string := escapedOf (Fragment u) (RawFragment u) encodeFragment.

Definition Userinfo_String (ui : Userinfo) : string :=
  escape (ui_username ui) encodeUserPassword +:+
  match ui_password ui with Some p => ":" +:+ escape p encodeUserPassword | None => "" end.

(** The part of [String] between the scheme and the path. *)
Definition authorityText (u : URL) : string :=
  if bool_decide (Scheme u ≠ "" ∨ Host u ≠ "" ∨ User u ≠ None) then
    if OmitHost u && bool_decide (Host u = "" ∧ User u = None) then ""
    else
      (if bool_decide (Host u ≠ "" ∨ Path u ≠ "" ∨ User u ≠ None) then "//" else "") +:+
      match User u with Some ui => Userinfo_String ui +:+ "@" | None => "" end +:+
      escape (Host u) encodeHost
  else "".

Definition queryText (u : URL) : string :=
  if ForceQuery u || bool_decide (RawQuery u ≠ "") then "?" +:+ RawQuery u else "".
Definition fragmentText (u : URL) : string :=
  if bool_decide (Fragment u ≠ "") then "#" +:+ EscapedFragment u else "".

Definition pathText (u : URL) (before : string) : string :=
  let path := EscapedPath u in
  let slash := if bool_decide (path ≠ "") && negb (strings.HasPrefix path "/") && bool_decide (Host u ≠ "")
               then "/" else "" in
  let dot := if bool_decide (before +:+ slash = "") && strings.Contains (strings.Cut "/" path).1.1 ":"
             then "./" else "" in
  slash +:+ dot +:+ path.

Definition String_ (u : URL) : string :=
  let scheme := if bool_decide (Scheme u ≠ "") then Scheme u +:+ ":" else "" in
  (if bool_decide (Opaque u ≠ "") then scheme +:+ Opaque u
   else let before := scheme +:+ authorityText u in before +:+ pathText u before) +:+
  queryText u +:+ fragmentText u.

(** ** Queries *)

Abbreviation Values := (gmap string (list string)).

Definition addValue (m : Values) (k v : string) : Values :=
  <[k := default [] (m !! k) ++ [v]]> m.

(** One setting of a query; one with a semicolon or a bad escape is dropped,
    with an error that [Query] ignores. *)
Definition parseSetting (m : Values) (setting : string) : Values :=
  if bool_decide (setting = "") || strings.Contains setting ";" then m
  else
    let '(key, value, _) := strings.Cut "=" setting in
    match unescape key encodeQueryComponent, unescape value encodeQueryComponent with
    | Ok k, Ok v => addValue m k v
    | _, _ => m
    end.

Definition Query (u : URL) : Values := foldl parseSetting ∅ (strings.Split "&" (RawQuery u)).

Definition Get (vs : Values) (k : string) : string := default "" (head (default [] (vs !! k))).
Definition Set_ (vs : Values) (k v : string) : Values := <[k := [v]]> vs.

(** [Values.Encode]: the settings, sorted by key. *)
Definition Encode (vs : Values) : string :=
  strings.Join
    (sort_Strings (map_to_list vs).*1 ≫=
       λ k, (λ v, escape k encodeQueryComponent +:+ "=" +:+ escape v encodeQueryComponent)
              <$> default [] (vs !! k)) "&".

Definition with_origin (scheme host : string) (u : URL) : URL :=
  mkURL scheme (Opaque u) (User u) host (Path u) (RawPath u) (OmitHost u) (ForceQuery u) (RawQuery u)
    (Fragment u) (RawFragment u).
Definition with_RawQuery (q : string) (u : URL) : URL :=
  mkURL (Scheme u) (Opaque u) (User u) (Host u) (Path u) (RawPath u) (OmitHost u) (ForceQuery u) q
    (Fragment u) (RawFragment u).

(** ** Paths *)

(** [path.Clean], by elements: [.] and empty elements are dropped, [..] drops
    the element before it. [out] is what was kept, innermost first. *)
Definition cleanStep (rooted : bool) (out : list string) (e : string) : list string :=
  if bool_decide (e = "" ∨ e = ".") then out
  else if bool_decide (e = "..") then
    match out with
    | [] => if rooted then [] else [".."]
    | x :: out' => if bool_decide (x = "..") then ".." :: out else out'
    end
  else e :: out.

Definition Clean (p : string) : string :=
  let rooted := strings.HasPrefix p "/" in
  let kept := reverse (foldl (cleanStep rooted) [] (strings.Split "/" p)) in
  if rooted then "/" +:+ strings.Join kept "/"
  else if bool_decide (kept = []) then "." else strings.Join kept "/".

(** [path.Join]. *)
Definition path_Join (elem : list string) : string :=
  match filter (λ e, e ≠ "") elem with
  | [] => ""
  | es => Clean (strings.Join es "/")
  end.

(** [URL.JoinPath] with one element. setPath leaves the URL as it was where it
    fails, and its error is dropped. *)
Definition JoinPath (u : URL) (elem : string) : URL :=
  let base := EscapedPath u in
  let joined :=
    if strings.HasPrefix base "/" then path_Join [base; elem]
    else strings.TrimPrefix (path_Join ["/" +:+ base; elem]) "/" in
  let p := if strings.HasSuffix elem "/" && negb (strings.HasSuffix joined "/") then joined +:+ "/" else joined in
  match rawOf p encodePath with
  | Ok (path, raw) =>
      mkURL (Scheme u) (Opaque u) (User u) (Host u) path raw (OmitHost u) (ForceQuery u) (RawQuery u)
        (Fragment u) (RawFragment u)
  | Err _ => u
  end.

End url.

(** ** The names of headers (net/textproto, net/http) *)

Module header.
Import url.

Abbreviation Header := (gmap string (list string)).

Definition validHeaderFieldByte (c : ascii) : bool :=
  isAlnum c || among c ("!#$%&*+-.^_`|~" +:+ squote).

Definition upperByte (c : ascii) : ascii := if isLower c then ascii_of_N (byteOf c - 32) else c.
Definition lowerByte (c : ascii) : ascii := if isUpper c then ascii_of_N (byteOf c + 32) else c.

Fixpoint canonicalFrom (upper : bool) (s : string) : string :=
  match s with
  | "" => ""
  | String c s' =>
      String (if upper then upperByte c else lowerByte c) (canonicalFrom (bool_decide (c = "-"%char)) s')
  end.

(** [CanonicalHeaderKey]: words of the name capitalised; a name that is not a
    token is left alone. *)
Definition CanonicalHeaderKey (s : string) : string :=
  if all_bytes validHeaderFieldByte s then canonicalFrom true s else s.

Definition Del (h : Header) (k : string) : Header := delete (CanonicalHeaderKey k) h.
Definition ValuesOf (h : Header) (k : string) : list string := default [] (h !! CanonicalHeaderKey k).
Definition SetHeader (h : Header) (k v : string) : Header := <[CanonicalHeaderKey k := [v]]> h.

End header.

(** ** Numbers in decimal (strconv) *)

Module strconv.
Import url.

(** The number a text of digits stands for, read after [acc]. *)
Fixpoint digits (acc : N) (s : string) : option N :=
  match s with
  | "" => Some acc
  | String c s' => if isDigit c then digits (acc * 10 + (byteOf c - 48)) s' else None
  end.

Definition int64 (z : Z) : bool := (- 2 ^ 63 <=? z)%Z && (z <? 2 ^ 63)%Z.

(** [strconv.Atoi] on a machine of 64 bits: a sign, digits, and no more than
    fits. *)
Definition Atoi (s : string) : res Z :=
  let '(negative, ds) :=
    match s with
    | String c s' =>
        if bool_decide (c = "-"%char) then (true, s')
        else if bool_decide (c = "+"%char) then (false, s') else (false, s)
    | "" => (false, s)
    end in
  if decide (ds = "") then Err (Errorf "invalid syntax")
  else
    match digits 0 ds with
    | None => Err (Errorf "invalid syntax")
    | Some n =>
        let z := if negative : bool then (- Z.of_N n)%Z else Z.of_N n in
        if int64 z then Ok z else Err (Errorf "value out of range")
    end.

Definition Itoa (z : Z) : string := pretty z.

Lemma isDigit_char x : (x < 10)%N →
  isDigit (pretty_N_char x) = true ∧ (byteOf (pretty_N_char x) - 48)%N = x.
Proof.
  intros H. assert (x ∈ [0; 1; 2; 3; 4; 5; 6; 7; 8; 9]%N) as Hx.
  { rewrite !elem_of_cons. lia. }
  repeat (apply elem_of_cons in Hx as [->|Hx]; [done|]). by apply not_elem_of_nil in Hx.
Qed.

Lemma digits_go x s : ∃ k, ∀ acc, digits acc (pretty_N_go x s) = digits (acc * k + x) s.
Proof.
  revert s. induction (N.lt_wf_0 x) as [x _ IH]; intros s.
  destruct (decide (x = 0)%N) as [->|Hx].
  - exists 1%N. intros acc. rewrite pretty_N_go_0. f_equal. lia.
  - rewrite pretty_N_go_step by lia.
    destruct (IH (x `div` 10)%N ltac:(apply N.div_lt; lia)
      (String (pretty_N_char (x `mod` 10)) s)) as [k Hk].
    exists (k * 10)%N. intros acc. rewrite Hk. cbn.
    destruct (isDigit_char (x `mod` 10)) as [-> ->]; [by apply N.mod_lt|]. f_equal.
    pose proof (N.div_mod x 10). lia.
Qed.

Lemma digits_pretty n : digits 0 (pretty n) = Some n.
Proof.
  unfold pretty, pretty_N. case_decide as E; [by subst|].
  destruct (digits_go n "") as [k ->]. cbn. f_equal; lia.
Qed.

Lemma pretty_N_nonempty (n : N) : pretty n ≠ "".
Proof.
  intros E. pose proof (digits_pretty n) as H. rewrite E in H. injection H as <-. discriminate E.
Qed.

(** The first byte of a number is no sign. *)
Lemma pretty_N_head (n : N) : ∃ c s, pretty n = String c s ∧ isDigit c = true.
Proof.
  destruct (pretty n) as [|c s] eqn:E; [by destruct (pretty_N_nonempty n)|].
  exists c, s. split; [done|]. pose proof (digits_pretty n) as H. rewrite E in H. cbn in H.
  by destruct (isDigit c).
Qed.

Lemma Atoi_Itoa z : int64 z = true → Atoi (Itoa z) = Ok z.
Proof.
  intros Hz. unfold Itoa, Atoi.
  assert (∀ n : N, (if decide (pretty n = "") then Err (Errorf "invalid syntax")
    else match digits 0 (pretty n) with
         | None => Err (Errorf "invalid syntax")
         | Some m => if int64 (Z.of_N m) then Ok (Z.of_N m) else Err (Errorf "value out of range")
         end) = if int64 (Z.of_N n) then Ok (Z.of_N n) else Err (Errorf "value out of range")) as Hpos.
  { intros n. rewrite decide_False by apply pretty_N_nonempty. by rewrite digits_pretty. }
  destruct z as [|p|p]; [done| |].
  - change (pretty (Zpos p)) with (pretty (Npos p)).
    destruct (pretty_N_head (Npos p)) as (c & s & E & Hc). pose proof (Hpos (Npos p)) as HE.
    rewrite E in HE |- *.
    rewrite !bool_decide_false by (by intros ->). cbv beta iota zeta.
    rewrite HE. change (Z.of_N (Npos p)) with (Zpos p). by rewrite Hz.
  - change (pretty (Zneg p)) with ("-" +:+ pretty (Npos p)). cbn [String.app bool_decide decide_rel].
    change ("-" +:+ pretty (Npos p)) with (String "-" (pretty (Npos p))). cbv beta iota zeta.
    rewrite bool_decide_true by done. rewrite decide_False by apply pretty_N_nonempty.
    rewrite digits_pretty. change (- Z.of_N (Npos p))%Z with (Zneg p). by rewrite Hz.
Qed.

End strconv.

(* ------------------------------------------------------------------ *)
(** ** Writing a URL and reading it back *)

Section roundtrip.
Import url.

Lemma HasPrefix_app p s : strings.HasPrefix (p +:+ s) p = true.
Proof. apply Is_true_true, HasPrefix_spec. by exists s. Qed.

Lemma TrimPrefix_app p s : strings.TrimPrefix (p +:+ s) p = s.
Proof. unfold strings.TrimPrefix. by rewrite (proj2 (strip_spec (p +:+ s) p s) eq_refl). Qed.

Lemma LastCut_free c s : strings.free_of c s → LastCut c s = None.
Proof.
  induction s as [|a s IH]; [done|]. cbn [strings.free_of LastCut]. intros [H1%bool_decide_unpack H2]%andb_prop_elim.
  rewrite IH by done. by rewrite decide_False.
Qed.

Lemma all_bytes_app q s t : all_bytes q (s +:+ t) = all_bytes q s && all_bytes q t.
Proof.
  induction s as [|a s IH]; [done|]. rewrite string_app_cons. cbn [all_bytes]. by rewrite IH, andb_assoc.
Qed.

Lemma all_bytes_impl (q r : ascii → bool) s :
  (∀ c, q c = true → r c = true) → all_bytes q s = true → all_bytes r s = true.
Proof.
  intros Hqr. induction s as [|a s IH]; [done|]. cbn [all_bytes]. intros [H1 H2]%andb_prop.
  by rewrite Hqr, IH.
Qed.

Lemma all_bytes_free (q : ascii → bool) c s : q c = false → all_bytes q s = true → strings.free_of c s.
Proof.
  intros Hc. induction s as [|a s IH]; [done|]. cbn [all_bytes strings.free_of]. intros [H1 H2]%andb_prop.
  apply andb_prop_intro. split; [|by apply IH]. apply bool_decide_pack. intros ->. congruence.
Qed.

(** Bytes that stand for themselves in a host and in a path. *)
Definition hostByte (c : ascii) : bool := isAlnum c || among c "-._:[]".
Definition pathByte (c : ascii) : bool := isAlnum c || among c "-._~:/".
Definition queryByte (c : ascii) : bool := negb (isCTL c) && negb (bool_decide (c = "#"%char)).

Definition all_ascii : list ascii := ascii_of_nat <$> seq 0 256.
Lemma all_ascii_complete c : c ∈ all_ascii.
Proof.
  apply list_elem_of_fmap. exists (nat_of_ascii c). rewrite ascii_nat_embedding. split; [done|].
  apply elem_of_seq. pose proof (nat_ascii_bounded c). lia.
Qed.
(** A property of bytes that is checked for each of them. *)
Lemma ascii_check (q : ascii → bool) : forallb q all_ascii = true → ∀ c, q c = true.
Proof. rewrite forallb_forall. intros H c. apply H, list_elem_of_In, all_ascii_complete. Qed.

Lemma hostByte_ok c : hostByte c = true → shouldEscape c encodeHost = false ∧ isCTL c = false.
Proof.
  intros H. pose proof (ascii_check
    (λ c, negb (hostByte c) || (negb (shouldEscape c encodeHost) && negb (isCTL c))) eq_refl c) as HC.
  cbv beta in HC. rewrite H in HC. by destruct (shouldEscape c encodeHost), (isCTL c).
Qed.
Lemma pathByte_ok c : pathByte c = true →
  shouldEscape c encodePath = false ∧ c ≠ "%"%char ∧ c ≠ " "%char ∧ isCTL c = false.
Proof.
  intros H. pose proof (ascii_check
    (λ c, negb (pathByte c) || (negb (shouldEscape c encodePath) && negb (bool_decide (c = "%"%char))
       && negb (bool_decide (c = " "%char)) && negb (isCTL c))) eq_refl c) as HC.
  cbv beta in HC. rewrite H in HC.
  destruct (shouldEscape c encodePath), (isCTL c), (bool_decide_reflect (c = "%"%char)),
    (bool_decide_reflect (c = " "%char)); done.
Qed.

Lemma escape_host s : all_bytes hostByte s = true → escape s encodeHost = s.
Proof.
  induction s as [|c s IH]; [done|]. cbn [all_bytes escape]. intros [[H1 _]%hostByte_ok H2]%andb_prop.
  rewrite (bool_decide_false (encodeHost = _)), andb_false_r, H1 by done. by rewrite IH.
Qed.
Lemma escape_path s : all_bytes pathByte s = true → escape s encodePath = s.
Proof.
  induction s as [|c s IH]; [done|]. cbn [all_bytes escape]. intros [[H1 _]%pathByte_ok H2]%andb_prop.
  rewrite (bool_decide_false (encodePath = _)), andb_false_r, H1 by done. by rewrite IH.
Qed.
Lemma unescape_path s : all_bytes pathByte s = true → unescape s encodePath = Ok s.
Proof.
  induction s as [|c s IH]; [done|]. cbn [all_bytes unescape]. intros [(H1 & Hp & _)%pathByte_ok H2]%andb_prop.
  rewrite (bool_decide_false (c = _)) by done. cbn [hostMode andb]. rewrite IH by done. cbn.
  by rewrite andb_false_r.
Qed.
Lemma rawOf_path s : all_bytes pathByte s = true → rawOf s encodePath = Ok (s, "").
Proof. intros H. unfold rawOf. rewrite unescape_path by done. cbn. by rewrite escape_path, bool_decide_true. Qed.

(** The text of a URL with a plain host and a plain path. *)
Definition hierText (host path : string) : string := "//" +:+ host +:+ String "/" path.
Definition askText (query : string) : string := if bool_decide (query ≠ "") then "?" +:+ query else "".
Definition plainText (scheme host path query : string) : string :=
  scheme +:+ ":" +:+ hierText host path +:+ askText query.
Definition plainURL (scheme host path query : string) : URL :=
  mkURL scheme "" None host (String "/" path) "" false false query "" "".
Definition webScheme (scheme : string) : Prop := scheme = "http" ∨ scheme = "https".

Lemma hierText_free c host path :
  all_bytes hostByte host = true → all_bytes pathByte path = true →
  hostByte c = false → pathByte c = false → strings.free_of c (hierText host path).
Proof.
  intros Hh Hp H1 H2. assert (c ≠ "/"%char) as Hc by (by intros ->).
  unfold hierText. rewrite !free_of_app, !andb_True. split_and!.
  - cbn. by rewrite !bool_decide_true by done.
  - by apply (all_bytes_free hostByte).
  - cbn [strings.free_of]. rewrite bool_decide_true by done. by apply (all_bytes_free pathByte).
Qed.

Lemma askText_free query : all_bytes queryByte query = true → strings.free_of "#" (askText query).
Proof.
  intros Hq. unfold askText. case_bool_decide; [|done]. rewrite free_of_app. apply andb_prop_intro.
  split; [done|]. by apply (all_bytes_free queryByte).
Qed.

Lemma plainText_noCTL scheme host path query :
  webScheme scheme → all_bytes hostByte host = true → all_bytes pathByte path = true → all_bytes queryByte query = true →
  all_bytes (λ c, negb (isCTL c)) (plainText scheme host path query) = true.
Proof.
  intros Hs Hh Hp Hq. unfold plainText, hierText, askText. rewrite !all_bytes_app.
  repeat (apply andb_true_intro; split); try done.
  - by destruct Hs as [-> | ->].
  - eapply all_bytes_impl; [|exact Hh]. intros c [_ ->]%hostByte_ok. done.
  - apply (all_bytes_impl pathByte (λ c, negb (isCTL c)) path); [|exact Hp].
    intros c (_ & _ & _ & ->)%pathByte_ok. done.
  - case_bool_decide; [|done]. rewrite all_bytes_app. apply andb_true_intro. split; [done|].
    eapply all_bytes_impl; [|exact Hq]. by intros c [Hc _]%andb_prop.
Qed.

Lemma cutQuery_plain host path query :
  all_bytes hostByte host = true → all_bytes pathByte path = true →
  cutQuery (hierText host path +:+ askText query) = (hierText host path, false, query).
Proof.
  intros Hh Hp. unfold cutQuery, askText.
  assert (strings.free_of "?" (hierText host path)) as Hf by by apply hierText_free.
  case_bool_decide as Hq.
  - change ("?" +:+ query) with (String "?" query). rewrite Cut_app by done. by rewrite bool_decide_false.
  - rewrite string_app_nil_r, Cut_free by done. by destruct (decide (query = "")) as [->|].
Qed.

Lemma splitAuthority_plain scheme host path :
  webScheme scheme → parseHost host = Ok host → all_bytes hostByte host = true →
  splitAuthority scheme (hierText host path) = Ok (None, host, String "/" path, false).
Proof.
  intros Hs Hh Hb. unfold splitAuthority, hierText.
  rewrite HasPrefix_app, TrimPrefix_app.
  rewrite (bool_decide_false (scheme = "")) by (by destruct Hs as [-> | ->]). cbn [negb orb andb].
  rewrite Cut_app by by apply (all_bytes_free hostByte). unfold parseAuthority.
  rewrite LastCut_free by by apply (all_bytes_free hostByte). by rewrite Hh.
Qed.

Lemma getScheme_web scheme rest : webScheme scheme → getScheme (scheme +:+ ":" +:+ rest) = Ok (scheme, rest).
Proof. by intros [-> | ->]. Qed.

Lemma Parse_plain scheme host path query :
  webScheme scheme → parseHost host = Ok host → all_bytes hostByte host = true → all_bytes pathByte path = true →
  all_bytes queryByte query = true →
  Parse (plainText scheme host path query) = Ok (plainURL scheme host path query).
Proof.
  intros Hs Hh Hhb Hpb Hqb. unfold Parse.
  assert (strings.free_of "#" (plainText scheme host path query)) as Hhash.
  { unfold plainText. rewrite !free_of_app, !andb_True.
    split_and!; [by destruct Hs as [-> | ->]|done|by apply hierText_free|by apply askText_free]. }
  rewrite (Cut_free _ _ Hhash).
  enough (parse (plainText scheme host path query) = Ok (plainURL scheme host path query)) as -> by done.
  unfold parse. rewrite plainText_noCTL by done. cbn [negb].
  rewrite decide_False by (unfold plainText; by destruct Hs as [-> | ->]). unfold plainText at 1.
  rewrite getScheme_web by done. cbn [mbind res_bind fst snd]. rewrite cutQuery_plain by done. cbn [fst snd].
  change (hierText host path) with ("/" +:+ ("/" +:+ host +:+ String "/" path)) at 1 2. rewrite HasPrefix_app.
  cbn [negb andb]. assert (strings.ToLower scheme = scheme) as -> by (by destruct Hs as [-> | ->]).
  rewrite splitAuthority_plain by done. cbn [mbind res_bind fst snd]. rewrite rawOf_path; [done|].
  cbn [all_bytes]. by rewrite Hpb.
Qed.

(** *** Joining a plain path *)

(** An element of a path that stands for itself. *)
Definition plainSegment (s : string) : Prop :=
  all_bytes pathByte s = true ∧ strings.free_of "/" s ∧ s ≠ "" ∧ s ≠ "." ∧ s ≠ "..".

Lemma foldl_cleanStep rooted out segs :
  Forall plainSegment segs → foldl (cleanStep rooted) out segs = reverse segs ++ out.
Proof.
  intros Hs. revert out. induction Hs as [|s segs (_ & _ & H1 & H2 & H3) _ IH]; intros out; [done|].
  cbn [foldl]. rewrite IH, reverse_cons, <-app_assoc. f_equal. unfold cleanStep.
  rewrite !bool_decide_false by naive_solver. done.
Qed.

Lemma Split_slash s : strings.Split "/" (String "/" s) = "" :: strings.Split "/" s.
Proof. cbn [strings.Split]. by rewrite decide_True. Qed.

Lemma Clean_plain segs : segs ≠ [] → Forall plainSegment segs →
  Clean ("///" +:+ strings.Join segs "/") = String "/" (strings.Join segs "/").
Proof.
  intros Hne Hs. unfold Clean. set (t := strings.Join segs "/").
  change ("///" +:+ t) with ("/" +:+ String "/" (String "/" t)). rewrite HasPrefix_app.
  change ("/" +:+ String "/" (String "/" t)) with (String "/" (String "/" (String "/" t))).
  rewrite !Split_slash. unfold t at 1. rewrite Split_Join.
  - cbn [foldl]. unfold cleanStep at 2 3 4. rewrite !bool_decide_true by by left.
    rewrite foldl_cleanStep, app_nil_r, reverse_involutive by done. done.
  - done.
  - eapply list.Forall_impl; [exact Hs|]. by intros s (_ & Hf & _).
Qed.

Lemma all_bytes_Join segs : Forall plainSegment segs → all_bytes pathByte (strings.Join segs "/") = true.
Proof.
  induction 1 as [|s segs [H _] _ IH]; [done|]. destruct segs as [|s' segs]; [done|].
  rewrite Join_cons by done. rewrite !all_bytes_app, H, IH. done.
Qed.

Lemma rev_acc s acc : strings.rev_string s acc = strings.rev_string s "" +:+ acc.
Proof.
  revert acc. induction s as [|c s IH]; intros acc; [done|]. cbn [strings.rev_string].
  rewrite IH, (IH (String c "")). by rewrite string_app_assoc.
Qed.

Lemma HasSuffix_byte a s c : s ≠ "" → strings.HasSuffix (String a s) (String c "") = strings.HasSuffix s (String c "").
Proof.
  intros Hs. unfold strings.HasSuffix. cbn [strings.rev_string]. rewrite rev_acc.
  destruct (strings.rev_string s "") as [|x r] eqn:E.
  - destruct s as [|y s]; [done|]. cbn [strings.rev_string] in E. rewrite rev_acc in E.
    by destruct (strings.rev_string s "").
  - rewrite string_app_cons. cbn [strings.HasPrefix]. by destruct r.
Qed.

Lemma Join_segments_nonempty segs : segs ≠ [] → Forall plainSegment segs → strings.Join segs "/" ≠ "".
Proof.
  intros Hne Hs E. apply Hne. apply (Join_empty segs "/"); [|done].
  eapply list.Forall_impl; [exact Hs|]. by intros s (_ & _ & H & _).
Qed.

(** On a server without a path of its own. *)
Lemma JoinPath_plain u segs : Path u = "" → RawPath u = "" → segs ≠ [] → Forall plainSegment segs →
  JoinPath u (String "/" (strings.Join segs "/")) =
  mkURL (Scheme u) (Opaque u) (User u) (Host u) (strings.Join segs "/") "" (OmitHost u) (ForceQuery u) (RawQuery u)
    (Fragment u) (RawFragment u).
Proof.
  intros Hp Hr Hne Hs. unfold JoinPath, EscapedPath. rewrite Hp, Hr.
  change (escapedOf "" "" encodePath) with "". set (t := strings.Join segs "/").
  change (strings.HasPrefix "" "/") with false. cbv beta iota zeta. unfold path_Join.
  change (filter (λ e, e ≠ "") ["/" +:+ ""; String "/" t]) with ["/"; String "/" t].
  cbv iota. change (strings.Join ["/"; String "/" t] "/") with ("///" +:+ t).
  assert (Clean ("///" +:+ t) = String "/" t) as -> by by apply Clean_plain.
  assert (strings.TrimPrefix (String "/" t) "/" = t) as -> by apply (TrimPrefix_app "/").
  assert (strings.HasSuffix (String "/" t) "/" = strings.HasSuffix t "/") as ->
    by (apply HasSuffix_byte, Join_segments_nonempty; done).
  rewrite andb_negb_r, rawOf_path by by apply all_bytes_Join. done.
Qed.

(** The text of a URL with a plain host and path; [path] has no slash in front. *)
Lemma String_web scheme host path slash query :
  webScheme scheme → host ≠ "" → all_bytes hostByte host = true → all_bytes pathByte path = true →
  path ≠ "" → path ≠ "*" → slash = (if strings.HasPrefix path "/" then "" else "/") →
  String_ (mkURL scheme "" None host path "" false false query "" "") =
  scheme +:+ ":" +:+ ("//" +:+ host +:+ slash +:+ path) +:+ askText query.
Proof.
  intros Hs Hh Hb Hp Ht Hstar ->. set (u := mkURL _ _ _ _ _ _ _ _ _ _ _).
  assert (scheme ≠ "") as Hs0 by (by destruct Hs as [-> | ->]).
  assert (EscapedPath u = path) as HE.
  { unfold EscapedPath, escapedOf. cbn [u Path RawPath]. rewrite (bool_decide_true ("" = "")) by done.
    rewrite (bool_decide_false (path = "*")) by done. cbn [negb andb]. by apply escape_path. }
  unfold String_, authorityText, pathText, queryText, fragmentText. rewrite HE.
  cbn [u Scheme Opaque User Host Path OmitHost ForceQuery RawQuery Fragment].
  rewrite escape_host by done. rewrite (bool_decide_true (path ≠ "")) by done.
  rewrite (bool_decide_true (host ≠ "")) by done. rewrite (bool_decide_true (host ≠ "" ∨ _)) by by left.
  rewrite (bool_decide_true (_ ∨ host ≠ "" ∨ _)) by by left.
  rewrite (bool_decide_false ("" ≠ "")) by naive_solver. rewrite (bool_decide_true (scheme ≠ "")) by done.
  rewrite (bool_decide_false (_ = "")) by (by destruct Hs as [-> | ->]). cbn [andb orb negb].
  unfold askText. destruct (strings.HasPrefix path "/"); cbn [andb negb];
    by rewrite ?string_app_nil_r, ?string_app_nil_l, ?string_app_assoc, ?string_app_nil_l.
Qed.

Lemma String_plain scheme host path query :
  webScheme scheme → host ≠ "" → all_bytes hostByte host = true → all_bytes pathByte path = true →
  String_ (plainURL scheme host path query) = plainText scheme host path query.
Proof.
  intros Hs Hh Hb Hp. unfold plainURL. rewrite (String_web _ _ _ "") by (done || (symmetry; apply (f_equal (λ b : bool, if b then "" else "/") (HasPrefix_app "/" path)))).
  done.
Qed.

(** The text of the joined URL is plain. *)
Lemma String_joined host segs query :
  host ≠ "" → all_bytes hostByte host = true → segs ≠ [] → Forall plainSegment segs →
  String_ (mkURL "http" "" None host (strings.Join segs "/") "" false false query "" "") =
  plainText "http" host (strings.Join segs "/") query.
Proof.
  intros Hh Hb Hne Hs. set (t := strings.Join segs "/").
  assert (t ≠ "") as Ht by by apply Join_segments_nonempty.
  assert (all_bytes pathByte t = true) as Hp by by apply all_bytes_Join.
  assert (t ≠ "*") as Hstar by (intros E; by rewrite E in Hp).
  assert (strings.HasPrefix t "/" = false) as Hslash.
  { unfold t. destruct Hs as [|s segs' (_ & Hf & Hs0 & _) _]; [done|]. destruct s as [|c s]; [done|].
    cbn [strings.free_of] in Hf. apply andb_prop_elim in Hf as [Hc%bool_decide_unpack _].
    destruct segs' as [|s' segs']; [|rewrite Join_cons by done; rewrite string_app_cons];
      cbn [strings.Join strings.HasPrefix]; by rewrite bool_decide_false. }
  rewrite (String_web "http" host t "/"); [done|by left|done..|]. by rewrite Hslash.
Qed.

(** *** The text of a query *)

Lemma escape_query s : all_bytes queryByte (escape s encodeQueryComponent) = true.
Proof.
  assert (∀ c, queryByte (hexUpper (byteOf c / 16)) && queryByte (hexUpper (byteOf c mod 16))
    && (shouldEscape c encodeQueryComponent || queryByte c) = true) as Hc by by apply ascii_check.
  induction s as [|c s IH]; [done|]. specialize (Hc c). cbn [escape].
  destruct (bool_decide (c = " "%char) && _); [by cbn [all_bytes]; rewrite IH|].
  apply andb_prop in Hc as [[H1 H2]%andb_prop H3].
  destruct (shouldEscape c _); cbn [all_bytes]; rewrite ?H1, ?H2, IH; [done|]. by cbn in H3; rewrite H3.
Qed.

Lemma all_bytes_strings_Join q segs sep :
  all_bytes q sep = true → Forall (λ s, all_bytes q s = true) segs → all_bytes q (strings.Join segs sep) = true.
Proof.
  intros Hsep. induction 1 as [|s segs H Hs IH]; [done|]. destruct segs as [|s' segs]; [done|].
  rewrite Join_cons by done. by rewrite !all_bytes_app, H, Hsep, IH.
Qed.

(** What [Values.Encode] writes can be the query of a URL. *)
Lemma Encode_query vs : all_bytes queryByte (Encode vs) = true.
Proof.
  apply all_bytes_strings_Join; [done|]. apply list.Forall_forall. intros s Hs.
  apply list_elem_of_bind in Hs as (k & Hs & _). apply list_elem_of_fmap in Hs as (v & -> & _).
  rewrite !all_bytes_app, !escape_query. done.
Qed.

End roundtrip.

(** Concrete URLs. *)
Import url header.

Example parse_apiserver :
  Parse "http://127.0.0.1:8080/apis/apps/v1?timeout=32s#f" =
  Ok (mkURL "http" "" None "127.0.0.1:8080" "/apis/apps/v1" "" false false "timeout=32s" "f" "").
Proof. vm_compute. reflexivity. Qed.
Example parse_escaped :
  Parse "https://u:p@[fe80::1%25en0]:443/a%2Fb/c%20d?" =
  Ok (mkURL "https" "" (Some (mkUserinfo "u" (Some "p"))) "[fe80::1%en0]:443" "/a/b/c d" "/a%2Fb/c%20d" false
        true "" "" "").
Proof. vm_compute. reflexivity. Qed.
Example string_escaped :
  (String_ <$> Parse "https://u:p@[fe80::1%25en0]:443/a%2Fb/c%20d?") =
  Ok "https://u:p@[fe80::1%25en0]:443/a%2Fb/c%20d?".
Proof. vm_compute. reflexivity. Qed.
Example parse_rejected :
  is_Ok (Parse "http://a b/") = false ∧ is_Ok (Parse ":8080") = false
  ∧ is_Ok (Parse "127.0.0.1:8080/x") = false ∧ is_Ok (Parse "http://h/%zz") = false.
Proof. vm_compute. done. Qed.
Example canonical_names :
  CanonicalHeaderKey <$> ["user-agent"; "ETag"; "X-KUBERNETES-pf"; "a b"] =
  ["User-Agent"; "Etag"; "X-Kubernetes-Pf"; "a b"].
Proof. vm_compute. reflexivity. Qed.
Example clean_paths :
  Clean <$> ["/a/./b//c/../d/"; "../../x"; "/../x"; ""; "a/.."] = ["/a/b/d"; "../../x"; "/x"; "."; "."].
Proof. vm_compute. reflexivity. Qed.
