(* ===== verification/HTTPRecorder.v ===== *)
(** * The HTTP recorder (ktest/httprecorder)

    The log of HTTP requests that golden tests compare, the transport that
    fills it, and the operations that rewrite it (http_recorder.go,
    request_log.go).

    A [RequestLog] is a slice of pointers: the transport appends the entry
    before the request is sent and fills in the response afterwards, and the
    rewriting operations write through the same pointers. Entries and header
    maps therefore live in a store, and the header map of a logged request is
    the map of the request itself. *)

From S2P Require Import Prelude Manifest NetURL GoLib.
From stdpp Require Import options.
Import manifest url header slices.

Module httprecorder.

(** ** Entries and the store *)

(** A header map is a reference; [None] is the nil map. *)
Record Request := mkRequest {
  rq_Method : string;
  rq_URL : string;
  rq_Header : option nat;
  rq_Body : string
}.

Record Response := mkResponse {
  rs_Status : string;
  rs_StatusCode : Z;
  rs_Header : option nat;
  rs_Body : string
}.

Record LogEntry := mkLogEntry {
  le_Request : Request;
  le_Response : Response;
  le_Error : string
}.

Definition emptyResponse : Response := mkResponse "" 0 None "".
Definition emptyEntry : LogEntry := mkLogEntry (mkRequest "" "" None "") emptyResponse "".

(** The memory: the entries and header maps allocated so far, and the entries
    of the log. *)
Record RequestLog := mkRequestLog {
  heap : gmap nat LogEntry;
  headers : gmap nat Header;
  entries : list nat
}.

Definition with_heap (l : RequestLog) (h : gmap nat LogEntry) : RequestLog :=
  mkRequestLog h (headers l) (entries l).
Definition with_headers (l : RequestLog) (h : gmap nat Header) : RequestLog :=
  mkRequestLog (heap l) h (entries l).
Definition with_entries (l : RequestLog) (es : list nat) : RequestLog :=
  mkRequestLog (heap l) (headers l) es.

Definition entryAt (l : RequestLog) (p : nat) : LogEntry := default emptyEntry (heap l !! p).
Definition headerAt (l : RequestLog) (h : option nat) : Header :=
  match h with Some r => default ∅ (headers l !! r) | None => ∅ end.

Definition setRequestURL (u : string) (e : LogEntry) : LogEntry :=
  let r := le_Request e in
  mkLogEntry (mkRequest (rq_Method r) u (rq_Header r) (rq_Body r)) (le_Response e) (le_Error e).
Definition setRequestBody (b : string) (e : LogEntry) : LogEntry :=
  let r := le_Request e in
  mkLogEntry (mkRequest (rq_Method r) (rq_URL r) (rq_Header r) b) (le_Response e) (le_Error e).
Definition setResponse (r : Response) (e : LogEntry) : LogEntry :=
  mkLogEntry (le_Request e) r (le_Error e).
Definition setResponseBody (b : string) (e : LogEntry) : LogEntry :=
  let r := le_Response e in
  setResponse (mkResponse (rs_Status r) (rs_StatusCode r) (rs_Header r) b) e.

(** ** Formatting *)

(** The encoding/json and sigs.k8s.io/yaml functions in use: values of any
    type, and objects. *)
Class RecorderLibs := {
  json_UnmarshalAny : string → res json;
  json_MarshalIndent : json → res string;
  yaml_UnmarshalObject : string → res (option jmap);
  json_MarshalObject : jmap → res string
}.

Definition newline : string := String (ascii_of_N 10) "".

Definition writeBody `{RecorderLibs} (body : string) (pretty : bool) : string :=
  if decide (body = "") then ""
  else
    let body :=
      if pretty then
        match json_UnmarshalAny body with
        | Ok obj => match json_MarshalIndent obj with Ok b => b | Err _ => body end
        | Err _ => body
        end
      else body in
    body +:+ newline.

(** The lines of a header: its keys in order, a line for each value. *)
Definition headerLines `{RangeOrder} (h : Header) : string :=
  strings.Join
    (sort_Strings (range h).*1 ≫= λ k, (λ v, k +:+ ": " +:+ v +:+ newline) <$> default [] (h !! k)) "".

Definition Request_FormatHTTP `{RangeOrder, RecorderLibs} (l : RequestLog) (pretty : bool) (r : Request) : string :=
  rq_Method r +:+ " " +:+ rq_URL r +:+ newline +:+
  headerLines (headerAt l (rq_Header r)) +:+ newline +:+ writeBody (rq_Body r) pretty.

Definition Response_FormatHTTP `{RangeOrder, RecorderLibs} (l : RequestLog) (pretty : bool) (r : Response) :
    string :=
  if decide (rs_Status r = "" ∧ rs_StatusCode r = 0%Z ∧ rs_Body r = "") then ""
  else
    rs_Status r +:+ newline +:+
    headerLines (headerAt l (rs_Header r)) +:+ newline +:+ writeBody (rs_Body r) pretty.

Definition LogEntry_FormatHTTP `{RangeOrder, RecorderLibs} (l : RequestLog) (pretty : bool) (e : LogEntry) :
    string :=
  Request_FormatHTTP l pretty (le_Request e) +:+ newline +:+ Response_FormatHTTP l pretty (le_Response e).

Definition FormatHTTP `{RangeOrder, RecorderLibs} (l : RequestLog) (pretty : bool) : string :=
  strings.Join ((λ p, LogEntry_FormatHTTP l pretty (entryAt l p)) <$> entries l)
    (newline +:+ "---" +:+ newline +:+ newline).

(** ** Rewriting *)

Definition AddEntry (p : nat) (l : RequestLog) : RequestLog := with_entries l (entries l ++ [p]).

(** A write through a pointer to an entry, or to a header map. *)
Definition updateEntry (f : LogEntry → LogEntry) (p : nat) (l : RequestLog) : RequestLog :=
  with_heap l (alter f p (heap l)).
Definition updateHeader (f : Header → Header) (h : option nat) (l : RequestLog) : RequestLog :=
  match h with Some r => with_headers l (alter f r (headers l)) | None => l end.

(** [for i := range l.entries]. *)
Definition forEntries {S} (f : nat → RequestLog → S → RequestLog * S) (l : RequestLog) (s : S) :
    RequestLog * S :=
  foldl (λ '(l, s) p, f p l s) (l, s) (entries l).
Definition forEntries_ (f : nat → RequestLog → RequestLog) (l : RequestLog) : RequestLog :=
  foldl (λ l p, f p l) l (entries l).

(** Writes through both header maps of an entry. *)
Definition updateHeaders (f : Header → Header) (p : nat) (l : RequestLog) : RequestLog :=
  let l := updateHeader f (rq_Header (le_Request (entryAt l p))) l in
  updateHeader f (rs_Header (le_Response (entryAt l p))) l.

Definition ReplaceURLPrefix (old new : string) : RequestLog → RequestLog :=
  forEntries_ (updateEntry (λ e,
    let u := rq_URL (le_Request e) in
    if strings.HasPrefix u old then setRequestURL (new +:+ strings.TrimPrefix u old) e else e)).

Definition RemoveHeader (k : string) : RequestLog → RequestLog :=
  forEntries_ (updateHeaders (λ h, Del h k)).

Definition ReplaceHeader (k v : string) : RequestLog → RequestLog :=
  forEntries_ (updateHeaders (λ h,
    if decide (length (ValuesOf h k) ≠ 0%nat) then SetHeader h k v else h)).

Definition RemoveUserAgent : RequestLog → RequestLog := RemoveHeader "user-agent".

(** [None] is the failure of the test where the expression does not compile. *)
Definition RegexReplaceURL (Compile : string → option (string → string → string)) (find replace : string)
    (l : RequestLog) : option RequestLog :=
  match Compile find with
  | None => None
  | Some ReplaceAllString =>
      Some (forEntries_ (updateEntry (λ e,
        setRequestURL (ReplaceAllString (rq_URL (le_Request e)) replace) e)) l)
  end.

(** A callback may write variables of its own, of type [S]; [report] is
    [t.Errorf]. *)
Definition RewriteEntries {S} (fn : LogEntry → S → LogEntry * S) (l : RequestLog) (s : S) : RequestLog * S :=
  forEntries (λ p l s, let '(e, s) := fn (entryAt l p) s in (updateEntry (λ _, e) p l, s)) l s.

Definition rewriteBody `{RecorderLibs} {S} (report : error → S → S) (body : string)
    (fn : jmap → S → jmap * S) (s : S) : string * S :=
  if decide (body = "") then (body, s)
  else if strings.HasPrefix body "// " then (body, s)
  else
    match json_UnmarshalAny body with
    | Err err => (body, report (WrapV "failed to unmarshal body" err) s)
    | Ok (JObj m) =>
        let '(m, s) := fn m s in
        match json_MarshalIndent (JObj m) with
        | Err err => (body, report (WrapV "failed to marshal body" err) s)
        | Ok b => (b, s)
        end
    | Ok _ => (body, s)
    end.

Definition RewriteBodies `{RecorderLibs} {S} (report : error → S → S) (fn : jmap → S → jmap * S) :
    RequestLog → S → RequestLog * S :=
  RewriteEntries (λ e s,
    let '(b, s) := rewriteBody report (rq_Body (le_Request e)) fn s in
    let e := setRequestBody b e in
    let '(b, s) := rewriteBody report (rs_Body (le_Response e)) fn s in
    (setResponseBody b e, s)).

(** ** Timestamps *)

Definition fixedTime : string := "2022-01-01T00:00:00Z".

(** The loop over the conditions; [None] is a failed type assertion. *)
Fixpoint resetConditions (conditions : list json) : option (list json) :=
  match conditions with
  | [] => Some []
  | JObj cond :: rest =>
      rest ← resetConditions rest; Some (JObj (<["lastTransitionTime" := JStr fixedTime]> cond) :: rest)
  | _ => None
  end.

(** [m[k] == nil] for a map of values. *)
Definition isNil (v : option json) : bool :=
  match v with None | Some JNull => true | _ => false end.

(** resetTimestamp; [None] is a panic: a nil object, a status that is not a map,
    conditions that are no list of maps. *)
Definition resetTimestamp `{RecorderLibs} (body : string) : option string :=
  if decide (body = "") then Some body
  else
    match yaml_UnmarshalObject body with
    | Err _ => Some body
    | Ok None => None
    | Ok (Some u) =>
        if isNil (u !! "status") then Some body
        else
          match u !! "status" with
          | Some (JObj status) =>
              if isNil (status !! "conditions") then Some body
              else
                match status !! "conditions" with
                | Some (JArr conditions) =>
                    conditions ← resetConditions conditions;
                    let u := <["status" := JObj (<["conditions" := JArr conditions]> status)]> u in
                    Some (match json_MarshalObject u with Ok b => b | Err _ => "" end)
                | _ => None
                end
          | _ => None
          end
    end.

(** ReplaceTimestamp; [None] is a panic. *)
Definition ReplaceTimestamp `{RecorderLibs} (l : RequestLog) : option RequestLog :=
  foldl (λ ol p,
    l ← ol;
    let e := entryAt l p in
    req ← resetTimestamp (rq_Body (le_Request e));
    let l := updateEntry (setRequestBody req) p l in
    resp ← resetTimestamp (rs_Body (le_Response (entryAt l p)));
    Some (updateEntry (setResponseBody resp) p l)) (Some l) (entries l).

(** ** Sorting *)

(** isSwappable: the path of a discovery request. *)
Definition isSwappable (urlString : string) : option string :=
  match Parse urlString with
  | Err _ => None
  | Ok u =>
      if decide (Path u ∈ ["/apis"; "/api/v1"; "/apis/v1"]) then Some (Path u)
      else
        match strings.Split "/" (strings.TrimPrefix (Path u) "/") with
        | [t0; _; _] => if decide (t0 = "apis") then Some (Path u) else None
        | _ => None
        end
  end.

(** Whether the entries [a] and [b], in this order, are exchanged. *)
Definition exchanged (l : RequestLog) (a b : nat) : bool :=
  let ra := le_Request (entryAt l a) in
  let rb := le_Request (entryAt l b) in
  bool_decide (rq_Method ra = "GET" ∧ rq_Method rb = "GET") &&
  match isSwappable (rq_URL ra), isSwappable (rq_URL rb) with
  | Some aKey, Some bKey => string_lt bKey aKey
  | _, _ => false
  end.

(** One round of the loop, from the entry [a] on: the new slice, and [changed]. *)
Fixpoint sortRound {A} (swap : A → A → bool) (a : A) (rest : list A) : list A * bool :=
  match rest with
  | [] => ([a], false)
  | b :: rest =>
      if swap a b then let '(es, _) := sortRound swap a rest in (b :: es, true)
      else let '(es, changed) := sortRound swap b rest in (a :: es, changed)
  end.

(** [doAgain], with fuel. *)
Fixpoint doAgain {A} (fuel : nat) (swap : A → A → bool) (es : list A) : option (list A) :=
  match fuel with
  | O => None
  | Datatypes.S fuel =>
      match es with
      | [] => Some []
      | a :: rest =>
          let '(es, changed) := sortRound swap a rest in
          if changed then doAgain fuel swap es else Some es
      end
  end.

(** The rounds a slice of this length can take. *)
Definition sortFuel {A} (es : list A) : nat := Datatypes.S (length es * length es).

Definition SortGETs (l : RequestLog) : option RequestLog :=
  es ← doAgain (sortFuel (entries l)) (exchanged l) (entries l); Some (with_entries l es).

(** ** http_recorder.go *)

(** A body is text that is read, or the text of the error that reading gives. *)
Abbreviation body := (string + string)%type.

Record httpRequest := mkHTTPRequest {
  hq_Method : string;
  hq_URL : URL;
  hq_Header : option nat;
  hq_Body : option body
}.

Record httpResponse := mkHTTPResponse {
  hp_Status : string;
  hp_StatusCode : Z;
  hp_Header : Header;
  hp_Body : option body
}.

Definition isStreaming (request : httpRequest) : bool :=
  bool_decide (Get (Query (hq_URL request)) "watch" = "true").

(** The first half of RoundTrip, up to the call of the inner transport: the
    entry, and the request that is sent. *)
Definition logRequest (request : httpRequest) (l : RequestLog) : res (nat * httpRequest * RequestLog) :=
  match hq_Body request with
  | Some (inr _) => Err (Errorf "HTTPRecorder failed to read request body")
  | b =>
      let requestBody := match b with Some (inl t) => t | _ => "" end in
      let entry :=
        mkLogEntry (mkRequest (hq_Method request) (String_ (hq_URL request)) (hq_Header request) requestBody)
          emptyResponse "" in
      let p := fresh (dom (heap l)) in
      Ok (p, request, AddEntry p (with_heap l (<[p := entry]> (heap l))))
  end.

(** The header of the response as it is logged. *)
Definition redact (h : Header) : Header :=
  map_imap (λ k values, Some (if decide (strings.ToLower k = "authorization") then ["(redacted)"] else values)) h.

Definition loggedBody (streaming : bool) (b : option body) : string :=
  if streaming then "<streaming response not included>"
  else
    match b with
    | None => ""
    | Some (inl t) => t
    | Some (inr err) => "<error reading response:" +:+ err +:+ ">"
    end.

(** The second half: the response, if there is one, is written to the entry. *)
Definition logResponse (p : nat) (streaming : bool) (response : option httpResponse) (l : RequestLog) :
    RequestLog :=
  match response with
  | None => l
  | Some r =>
      let h := fresh (dom (headers l)) in
      let l := with_headers l (<[h := redact (hp_Header r)]> (headers l)) in
      updateEntry (setResponse
        (mkResponse (hp_Status r) (hp_StatusCode r) (Some h) (loggedBody streaming (hp_Body r)))) p l
  end.

(** RoundTrip on its own: what the client gets, and the log. *)
Definition RoundTrip (inner : httpRequest → option httpResponse * option error) (request : httpRequest)
    (l : RequestLog) : (option httpResponse * option error) * RequestLog :=
  match logRequest request l with
  | Err err => ((None, Some err), l)
  | Ok (p, request, l) =>
      let '(response, err) := inner request in
      ((response, err), logResponse p (isStreaming request) response l)
  end.

(** Several requests at once: the two halves of a RoundTrip are apart, and
    the transport answers in any order. [inFlight] has the entries of the
    requests sent and not answered. *)
Record session := mkSession { ss_log : RequestLog; inFlight : gmap nat bool }.

(** What happens in a session: a request is given to RoundTrip, with the header
    it has then, and forwarded to the transport under a ticket; one is refused;
    the request of a ticket is answered, or fails; a header map is made. *)
Inductive recEvent :=
  | Sent (t : nat) (request forwarded : httpRequest) (h : Header)
  | Refused
  | Answered (t : nat) (response : option httpResponse)
  | Allocated.

Inductive step : session → recEvent → session → Prop :=
  | step_send s request p request' l :
      logRequest request (ss_log s) = Ok (p, request', l) →
      (∀ h, hq_Header request = Some h → h ∈ dom (headers (ss_log s))) →
      step s (Sent p request request' (headerAt (ss_log s) (hq_Header request)))
        (mkSession l (<[p := isStreaming request']> (inFlight s)))
  | step_reject s request err :
      logRequest request (ss_log s) = Err err → step s Refused s
  | step_answer s p streaming response :
      inFlight s !! p = Some streaming →
      step s (Answered p response)
        (mkSession (logResponse p streaming response (ss_log s)) (delete p (inFlight s)))
  | step_alloc s h m : headers (ss_log s) !! h = None →
      step s Allocated (mkSession (with_headers (ss_log s) (<[h := m]> (headers (ss_log s)))) (inFlight s)).

(** A session that goes on, with its events. *)
Inductive recorded : session → list recEvent → session → Prop :=
  | recorded_nil s : recorded s [] s
  | recorded_cons s e s1 evs s' : step s e s1 → recorded s1 evs s' → recorded s (e :: evs) s'.

(* ------------------------------------------------------------------ *)
(** ** Sorting: the loop against a reference *)

(** Stable insertion that stops at an entry that is not to be exchanged, and
    the sort it gives: each run of discovery requests sorted on its own. *)
Fixpoint insert_run {A} (swap : A → A → bool) (x : A) (l : list A) : list A :=
  match l with
  | [] => [x]
  | y :: l => if swap x y then y :: insert_run swap x l else x :: y :: l
  end.
Definition sort_runs {A} (swap : A → A → bool) : list A → list A := foldr (insert_run swap) [].

(** The comparison a partial key gives. *)
Definition by_key {A} (key : A → option string) (x y : A) : bool :=
  match key x, key y with Some a, Some b => string_lt b a | _, _ => false end.

(** The pairs out of order. *)
Fixpoint after {A} (swap : A → A → bool) (x : A) (l : list A) : nat :=
  match l with [] => 0 | y :: l => (if swap x y then 1 else 0) + after swap x l end.
Fixpoint inversions {A} (swap : A → A → bool) (l : list A) : nat :=
  match l with [] => 0 | x :: l => after swap x l + inversions swap l end.

Section sorting.
Context {A : Type} (key : A → option string).
Abbreviation swap := (by_key key).
Implicit Types (a b x y : A) (l r : list A).

Lemma by_key_asym x y : swap x y = true → swap y x = false.
Proof.
  unfold by_key. destruct (key x) as [a|], (key y) as [b|]; try done.
  exact (strict_weak_asym _ b a (strict_weak_string id)).
Qed.

Lemma by_key_some x y : swap x y = true → is_Some (key x) ∧ is_Some (key y).
Proof. unfold by_key. destruct (key x), (key y); naive_solver. Qed.

Lemma by_key_trans x y z : swap x y = true → swap y z = true → swap x z = true.
Proof.
  unfold by_key. destruct (key x) as [a|], (key y) as [b|], (key z) as [c|]; try done.
  intros H1 H2. exact (sw_trans _ (strict_weak_string id) c b a H2 H1).
Qed.

(** Insertions of entries in the wrong order commute. *)
Lemma insert_run_comm a b l :
  swap a b = true → insert_run swap a (insert_run swap b l) = insert_run swap b (insert_run swap a l).
Proof.
  intros Hab. pose proof (by_key_asym _ _ Hab) as Hba.
  induction l as [|y l IH]; cbn; [by rewrite Hab, Hba|].
  destruct (swap b y) eqn:Eb; cbn.
  - rewrite (by_key_trans _ _ _ Hab Eb). cbn. by rewrite Eb, IH.
  - rewrite Hab. destruct (swap a y) eqn:Ea; cbn; [by rewrite Eb|by rewrite Hba].
Qed.

Lemma sortRound_sort a l : sort_runs swap (sortRound swap a l).1 = sort_runs swap (a :: l).
Proof.
  revert a. induction l as [|b l IH]; intros a; [done|]. cbn.
  destruct (swap a b) eqn:E.
  - pose proof (IH a) as IHa. destruct (sortRound swap a l) as [es c]. cbn in *.
    rewrite IHa. symmetry. by apply insert_run_comm.
  - pose proof (IH b) as IHb. destruct (sortRound swap b l) as [es c]. cbn in *. by rewrite IHb.
Qed.

Lemma sortRound_perm a l : (sortRound swap a l).1 ≡ₚ a :: l.
Proof.
  revert a. induction l as [|b l IH]; intros a; [done|]. cbn. destruct (swap a b).
  - pose proof (IH a). destruct (sortRound swap a l). cbn in *. rewrite H. constructor.
  - pose proof (IH b). destruct (sortRound swap b l). cbn in *. by rewrite H.
Qed.

Lemma sortRound_done a l :
  (sortRound swap a l).2 = false →
  (sortRound swap a l).1 = a :: l ∧ sort_runs swap (a :: l) = a :: l.
Proof.
  revert a. induction l as [|b l IH]; intros a; [done|]. cbn. destruct (swap a b) eqn:E.
  { by destruct (sortRound swap a l). }
  pose proof (IH b). destruct (sortRound swap b l) as [es c]. cbn in *. intros Hc.
  destruct (H Hc) as [-> ->]. cbn. by rewrite E.
Qed.

Lemma after_perm x l r : l ≡ₚ r → after swap x l = after swap x r.
Proof. induction 1; cbn; lia. Qed.

Lemma sortRound_inversions a l :
  let r := sortRound swap a l in
  (inversions swap r.1 ≤ inversions swap (a :: l))%nat
  ∧ (r.2 = true → (inversions swap r.1 < inversions swap (a :: l))%nat).
Proof.
  revert a. induction l as [|b l IH]; intros a; [cbn; naive_solver lia|]. cbn.
  destruct (swap a b) eqn:E.
  - pose proof (IH a) as [IHa _]. pose proof (sortRound_perm a l) as Hp.
    destruct (sortRound swap a l) as [es c]. cbn in *. rewrite (after_perm b _ _ Hp). cbn.
    rewrite (by_key_asym _ _ E). lia.
  - pose proof (IH b) as [IHb IHb']. pose proof (sortRound_perm b l) as Hp.
    destruct (sortRound swap b l) as [es c]. cbn in *. rewrite (after_perm a _ _ Hp). cbn.
    rewrite E. split; [lia|]. intros Hc. specialize (IHb' Hc). lia.
Qed.

Lemma inversions_bound l : (inversions swap l ≤ length l * length l)%nat.
Proof.
  assert (∀ x l, (after swap x l ≤ length l)%nat) as Ha.
  { intros x k. induction k; cbn; [lia|]. destruct (swap x a); lia. }
  induction l as [|x l IH]; cbn; [lia|]. specialize (Ha x l). lia.
Qed.

(** The loop ends within the inversions of the slice, and sorts. *)
Lemma doAgain_sort fuel l : (inversions swap l < fuel)%nat → doAgain fuel swap l = Some (sort_runs swap l).
Proof.
  revert l. induction fuel as [|fuel IH]; intros l Hf; [lia|]. cbn.
  destruct l as [|a l]; [done|].
  pose proof (sortRound_sort a l) as Hs. pose proof (sortRound_inversions a l) as [_ Hi].
  pose proof (sortRound_done a l) as Hd.
  destruct (sortRound swap a l) as [es [|]]; cbn [fst snd] in *.
  - rewrite IH by (specialize (Hi eq_refl); lia). by rewrite Hs.
  - destruct (Hd eq_refl) as [-> ->]. done.
Qed.

Lemma doAgain_fuel l : doAgain (sortFuel l) swap l = Some (sort_runs swap l).
Proof. apply doAgain_sort. pose proof (inversions_bound l). unfold sortFuel. lia. Qed.

Lemma insert_run_perm x l : insert_run swap x l ≡ₚ x :: l.
Proof. induction l as [|y l IH]; [done|]. cbn. destruct (swap x y); [|done]. rewrite IH. constructor. Qed.

Lemma sort_runs_perm l : sort_runs swap l ≡ₚ l.
Proof. induction l as [|x l IH]; [done|]. cbn. by rewrite insert_run_perm, IH. Qed.

(** Neighbours are in order in the result. *)
Lemma sort_runs_sorted l : Sorted (λ x y, swap x y = false) (sort_runs swap l).
Proof.
  assert (∀ x l, Sorted (λ x y, swap x y = false) l → Sorted (λ x y, swap x y = false) (insert_run swap x l)) as Hi.
  { intros x k Hk. induction Hk as [|y k Hk IH Hy]; cbn; [repeat constructor|].
    destruct (swap x y) eqn:E; [|by repeat constructor].
    constructor; [done|]. destruct k as [|z k]; cbn; [constructor; by apply by_key_asym|].
    apply HdRel_inv in Hy. destruct (swap x z); constructor; [done|by apply by_key_asym]. }
  induction l as [|x l IH]; [constructor|]. by apply Hi.
Qed.

(** Entries without a key stay where they are. *)
Lemma insert_run_fixed x l i p :
  key p = None → l !! i = Some p → insert_run swap x l !! Datatypes.S i = Some p.
Proof.
  intros Hp. revert i. induction l as [|y l IH]; intros i Hi; [done|]. cbn.
  destruct (swap x y) eqn:E; [|done]. destruct i as [|i]; cbn in *; [|by apply IH].
  injection Hi as ->. apply by_key_some in E as [_ [? ?]]. congruence.
Qed.

Lemma insert_run_none x l : key x = None → insert_run swap x l = x :: l.
Proof. intros Hx. destruct l as [|y l]; [done|]. cbn. unfold by_key. by rewrite Hx. Qed.

Lemma sort_runs_fixed l i p :
  key p = None → l !! i = Some p → sort_runs swap l !! i = Some p.
Proof.
  intros Hp. revert i. induction l as [|x l IH]; intros i Hi; [done|]. cbn.
  destruct i as [|i]; cbn in Hi; [injection Hi as ->; by rewrite insert_run_none|].
  by apply insert_run_fixed, IH.
Qed.

(** Entries of the same key stay in their order. *)
Lemma insert_run_filter x l k :
  filter (λ y, key y = Some k) (insert_run swap x l) = filter (λ y, key y = Some k) (x :: l).
Proof.
  induction l as [|y l IH]; [done|]. cbn. destruct (swap x y) eqn:E; [|done].
  rewrite filter_cons, IH, !filter_cons. do 2 case_decide; try done. exfalso.
  pose proof (by_key_asym _ _ E) as Hs. unfold by_key in E, Hs.
  repeat match goal with H : key _ = Some k |- _ => rewrite H in E, Hs; clear H end. congruence.
Qed.

Lemma sort_runs_filter l k :
  filter (λ y, key y = Some k) (sort_runs swap l) = filter (λ y, key y = Some k) l.
Proof.
  induction l as [|x l IH]; [done|]. cbn. by rewrite insert_run_filter, !filter_cons, IH.
Qed.

(** An exchange of two neighbours whose keys differ. *)
Inductive parallel1 : list A → list A → Prop :=
  parallel1_swap l r a b : is_Some (key a) → is_Some (key b) → key a ≠ key b →
    parallel1 (l ++ a :: b :: r) (l ++ b :: a :: r).

Lemma sort_runs_parallel l r : rtsc parallel1 l r → sort_runs swap l = sort_runs swap r.
Proof.
  assert (∀ l r, parallel1 l r → sort_runs swap l = sort_runs swap r) as H1.
  { intros ? ? [k t a b [ka Ha] [kb Hb] Hne]. unfold sort_runs. rewrite !foldr_app. f_equal. cbn.
    destruct (swap a b) eqn:E; [by apply insert_run_comm|].
    symmetry. apply insert_run_comm. unfold by_key in *. rewrite Ha, Hb in *.
    apply string_lt_ge in E. apply string_lt_le. intros Hle. apply Hne. f_equal.
    by apply (anti_symm String.le). }
  induction 1 as [|x y z [H|H] _ IH]; [done|by rewrite (H1 _ _ H)|by rewrite <-(H1 _ _ H)].
Qed.

End sorting.

(** Sorting commutes with maps that keep the keys. *)
Lemma sort_runs_fmap {A B} (f : A → B) (s : A → A → bool) (t : B → B → bool) (l : list A) :
  (∀ x y, x ∈ l → y ∈ l → t (f x) (f y) = s x y) → f <$> sort_runs s l = sort_runs t (f <$> l).
Proof.
  assert (∀ x k, (∀ y, y ∈ k → t (f x) (f y) = s x y) →
    f <$> insert_run s x k = insert_run t (f x) (f <$> k)) as Hi.
  { intros x k. induction k as [|y k IH]; intros Hk; [done|]. cbn. rewrite (Hk y) by left.
    destruct (s x y); [|done]. cbn. rewrite IH; [done|]. intros z Hz. apply Hk. by right. }
  induction l as [|x l IH]; intros Hl; [done|]. cbn.
  rewrite Hi, IH; [done| |].
  - intros y z Hy Hz. apply Hl; by right.
  - intros y Hy. apply Hl; [by left|]. right.
    assert (∀ k, (∀ z, z ∈ sort_runs s k → z ∈ k)) as Hin.
    { clear. intros k. induction k as [|x k IH]; intros z Hz; [done|].
      assert (∀ k', z ∈ insert_run s x k' → z = x ∨ z ∈ k') as Hx.
      { clear. intros k'. induction k' as [|y k' IH]; cbn; [set_solver|].
        destruct (s x y); set_solver. }
      cbn in Hz. apply Hx in Hz as [->|Hz]; [by left|right; by apply IH]. }
    by apply Hin.
Qed.

(* ------------------------------------------------------------------ *)
(** ** The log as its readers see it *)

(** An entry with its header maps read. *)
Record entryView := mkView {
  v_Method : string;
  v_URL : string;
  v_reqHeader : Header;
  v_reqBody : string;
  v_Status : string;
  v_StatusCode : Z;
  v_respHeader : Header;
  v_respBody : string;
  v_Error : string
}.

Definition viewOf (l : RequestLog) (e : LogEntry) : entryView :=
  let q := le_Request e in
  let r := le_Response e in
  mkView (rq_Method q) (rq_URL q) (headerAt l (rq_Header q)) (rq_Body q)
    (rs_Status r) (rs_StatusCode r) (headerAt l (rs_Header r)) (rs_Body r) (le_Error e).
Definition view (l : RequestLog) : list entryView := (λ p, viewOf l (entryAt l p)) <$> entries l.

(** The references of an entry, and that they are to maps that exist. *)
Definition refs (e : LogEntry) : option nat * option nat := (rq_Header (le_Request e), rs_Header (le_Response e)).
Definition ref_ok (l : RequestLog) (h : option nat) : Prop := ∀ r, h = Some r → r ∈ dom (headers l).

(** A log whose entries are distinct and whose pointers are to something. *)
Record wf (l : RequestLog) : Prop := {
  wf_nodup : NoDup (entries l);
  wf_entries p : p ∈ entries l → p ∈ dom (heap l);
  wf_request p e : heap l !! p = Some e → ref_ok l (refs e).1;
  wf_response p e : heap l !! p = Some e → ref_ok l (refs e).2
}.

(** Threading a state through a list. *)
Fixpoint mapAccum {A B S} (f : A → S → B * S) (l : list A) (s : S) : list B * S :=
  match l with
  | [] => ([], s)
  | a :: l => let '(b, s) := f a s in let '(bs, s) := mapAccum f l s in (b :: bs, s)
  end.

Lemma mapAccum_map {A B C S} (f : A → S → B * S) (g : A → C) (h : B → C) l s :
  (∀ a s, h (f a s).1 = g a) → h <$> (mapAccum f l s).1 = g <$> l.
Proof.
  intros Hg. revert s. induction l as [|a l IH]; intros s; [done|]. cbn.
  specialize (Hg a s). destruct (f a s) as [b s'].
  specialize (IH s'). destruct (mapAccum f l s') as [bs s'']. cbn in *. by rewrite Hg, IH.
Qed.

Lemma entryAt_alter f p q l :
  p ∈ dom (heap l) → entryAt (updateEntry f p l) q = if decide (q = p) then f (entryAt l q) else entryAt l q.
Proof.
  intros [e He]%elem_of_dom. unfold entryAt, updateEntry. cbn [heap with_heap].
  destruct (decide (q = p)) as [->|Hne]; [|by rewrite lookup_alter_ne].
  by rewrite lookup_alter_eq, He.
Qed.

(** The entries a loop does not reach, and the rest of the memory. *)
Definition frame (es : list nat) (l l' : RequestLog) : Prop :=
  entries l' = entries l ∧ headers l' = headers l ∧ dom (heap l') = dom (heap l)
  ∧ ∀ p, p ∉ es → heap l' !! p = heap l !! p.

Lemma frame_refl es l : frame es l l.
Proof. done. Qed.

Lemma frame_cons p es f l l' : frame es (updateEntry f p l) l' → frame (p :: es) l l'.
Proof.
  intros (H1 & H2 & H3 & H4). split_and!; [done|done| |].
  - rewrite H3. unfold updateEntry. cbn. by rewrite dom_alter_L.
  - intros q Hq. apply not_elem_of_cons in Hq as [Hne Hq]. rewrite H4 by done.
    unfold updateEntry. cbn. by rewrite lookup_alter_ne.
Qed.

(** The loop over the entries, when they are distinct: a pass over their
    values. *)
Lemma foldl_entries {S} (fn : LogEntry → S → LogEntry * S) es l s :
  NoDup es → (∀ p, p ∈ es → p ∈ dom (heap l)) →
  let r := foldl (λ '(l, s) p, let '(e, s) := fn (entryAt l p) s in (updateEntry (λ _, e) p l, s)) (l, s) es in
  (entryAt r.1 <$> es, r.2) = mapAccum fn (entryAt l <$> es) s ∧ frame es l r.1.
Proof.
  revert l s. induction es as [|p es IH]; intros l s Hnd Hdom; [done|].
  apply list.NoDup_cons in Hnd as [Hp Hnd]. cbn.
  destruct (fn (entryAt l p) s) as [e s'] eqn:E.
  destruct (IH (updateEntry (λ _, e) p l) s' Hnd) as [HI HF].
  { intros q Hq. unfold updateEntry. cbn. rewrite dom_alter_L. apply Hdom. by right. }
  destruct (foldl _ _ es) as [l' s''] eqn:EF. cbn [fst snd] in *. split; [|by eapply frame_cons].
  rewrite (list_fmap_ext (entryAt (updateEntry (λ _, e) p l)) (entryAt l)) in HI.
  - destruct (mapAccum fn (entryAt l <$> es) s') as [bs s3]. injection HI as HI ->.
    rewrite HI. do 2 f_equal.
    unfold entryAt. destruct HF as (_ & _ & _ & HF). rewrite (HF p Hp).
    change (default emptyEntry (heap (updateEntry (λ _, e) p l) !! p))
      with (entryAt (updateEntry (λ _, e) p l) p).
    rewrite entryAt_alter by (apply Hdom; by left). by rewrite decide_True.
  - intros i q Hq. apply list_elem_of_lookup_2 in Hq.
    rewrite entryAt_alter by (apply Hdom; by left). rewrite decide_False; [done|]. by intros ->.
Qed.

Lemma RewriteEntries_spec {S} (fn : LogEntry → S → LogEntry * S) l s :
  wf l →
  let r := RewriteEntries fn l s in
  (entryAt r.1 <$> entries l, r.2) = mapAccum fn (entryAt l <$> entries l) s ∧ frame (entries l) l r.1.
Proof. intros Hw. apply foldl_entries; apply Hw. Qed.

(** A loop of plain writes is one without a state. *)
Lemma forEntries_Rewrite f l :
  wf l → forEntries_ (updateEntry f) l = (RewriteEntries (λ e (_ : ()), (f e, ())) l ()).1.
Proof.
  intros Hw. assert (Forall (λ p, p ∈ dom (heap l)) (entries l)) as Hd.
  { apply list.Forall_forall. intros p. apply Hw. }
  clear Hw. unfold forEntries_, RewriteEntries, forEntries. revert Hd. generalize (entries l) as es. intros es.
  revert l. induction es as [|p es IH]; intros l Hd; [done|]. cbn.
  apply list.Forall_cons in Hd as [[e He]%elem_of_dom Hd].
  assert (updateEntry f p l = updateEntry (λ _, f (entryAt l p)) p l) as ->.
  { unfold updateEntry, entryAt. rewrite He. f_equal. apply map_eq. intros q.
    destruct (decide (q = p)) as [->|Hne]; [|by rewrite !lookup_alter_ne].
    by rewrite !lookup_alter_eq, He. }
  apply IH. eapply list.Forall_impl; [exact Hd|]. intros q Hq. unfold updateEntry. cbn. by rewrite dom_alter_L.
Qed.

Lemma fmap_entry {B} (g : LogEntry → B) l l' (es : list nat) p :
  g <$> (entryAt l' <$> es) = g <$> (entryAt l <$> es) → p ∈ es → g (entryAt l' p) = g (entryAt l p).
Proof.
  intros H [i Hi]%list_elem_of_lookup. apply (f_equal (.!! i)) in H.
  rewrite !list_lookup_fmap, Hi in H. cbn in H. by injection H.
Qed.

Lemma headerAt_headers l l' h : headers l' = headers l → headerAt l' h = headerAt l h.
Proof. intros E. destruct h; [|done]. cbn. by rewrite E. Qed.
Lemma viewOf_headers l l' e : headers l' = headers l → viewOf l' e = viewOf l e.
Proof. intros E. unfold viewOf. by rewrite !(headerAt_headers l l') by done. Qed.

(** Rewriting entries that keep their header maps. *)
Lemma RewriteEntries_wf {S} (fn : LogEntry → S → LogEntry * S) l s :
  wf l → (∀ e s, refs (fn e s).1 = refs e) → wf (RewriteEntries fn l s).1.
Proof.
  intros Hw Hrefs. destruct (RewriteEntries_spec fn l s Hw) as [HA (HE & HH & HD & HF)].
  set (l' := (RewriteEntries fn l s).1) in *. apply (f_equal fst) in HA. cbn in HA.
  assert (∀ p e, heap l' !! p = Some e → ∃ e0, heap l !! p = Some e0 ∧ refs e = refs e0) as Hr.
  { intros p e He. destruct (decide (p ∈ entries l)) as [Hp|Hp].
    - assert (p ∈ dom (heap l)) as [e0 He0]%elem_of_dom by by apply Hw. exists e0. split; [done|].
      assert (refs (entryAt l' p) = refs (entryAt l p)) as H.
      { apply (fmap_entry refs _ _ (entries l)); [|done]. rewrite HA. by apply mapAccum_map. }
      unfold entryAt in H. by rewrite He, He0 in H.
    - exists e. by rewrite <-(HF p Hp). }
  split; unfold ref_ok; rewrite ?HE, ?HH, ?HD.
  - apply Hw.
  - apply Hw.
  - intros p e He r. destruct (Hr p e He) as (e0 & He0 & ->). by apply (wf_request _ Hw p e0).
  - intros p e He r. destruct (Hr p e He) as (e0 & He0 & ->). by apply (wf_response _ Hw p e0).
Qed.

Lemma RewriteEntries_view {S} (fn : LogEntry → S → LogEntry * S) (g : entryView → entryView) l s :
  wf l → (∀ e s, viewOf l (fn e s).1 = g (viewOf l e)) → view (RewriteEntries fn l s).1 = g <$> view l.
Proof.
  intros Hw Hg. destruct (RewriteEntries_spec fn l s Hw) as [HA (HE & HH & _)].
  apply (f_equal fst) in HA. cbn in HA. unfold view. rewrite HE.
  trans (viewOf l <$> (entryAt (RewriteEntries fn l s).1 <$> entries l)).
  - rewrite <-list_fmap_compose. apply list_fmap_ext. intros. by apply viewOf_headers.
  - rewrite HA, <-list_fmap_compose, (list_fmap_compose (entryAt l) (g ∘ viewOf l)).
    by apply mapAccum_map.
Qed.

(** *** Writes through header maps *)

Definition map_headers (f : Header → Header) (v : entryView) : entryView :=
  mkView (v_Method v) (v_URL v) (f (v_reqHeader v)) (v_reqBody v) (v_Status v) (v_StatusCode v)
    (f (v_respHeader v)) (v_respBody v) (v_Error v).

(** The references a loop writes through, in order, with repetitions: the same
    map may be behind several entries. *)
Definition refsOf (l : RequestLog) (es : list nat) : list nat :=
  es ≫= λ p, option_list (refs (entryAt l p)).1 ++ option_list (refs (entryAt l p)).2.

Lemma updateHeader_list f h l :
  updateHeader f h l = with_headers l (foldl (λ hs r, alter f r hs) (headers l) (option_list h)).
Proof. destruct h; [done|]. by destruct l. Qed.

Lemma foldl_updateHeaders f es l :
  foldl (λ l p, updateHeaders f p l) l es =
  with_headers l (foldl (λ hs r, alter f r hs) (headers l) (refsOf l es)).
Proof.
  revert l. induction es as [|p es IH]; intros l; [by destruct l|]. cbn. rewrite IH.
  unfold updateHeaders. rewrite !updateHeader_list. cbn.
  rewrite !foldl_app. done.
Qed.

(** Writing twice through the same reference is writing once. *)
Lemma foldl_alter_lookup (f : Header → Header) (rs : list nat) (hs : gmap nat Header) r :
  (∀ h, f (f h) = f h) →
  foldl (λ hs r, alter f r hs) hs rs !! r = if decide (r ∈ rs) then f <$> hs !! r else hs !! r.
Proof.
  intros Hf. revert hs. induction rs as [|q rs IH]; intros hs; [done|]. cbn. rewrite IH.
  destruct (decide (r = q)) as [->|Hne].
  - rewrite lookup_alter_eq, (decide_True (P := q ∈ q :: rs)) by left.
    case_decide; [|done]. destruct (hs !! q); cbn; by rewrite ?Hf.
  - rewrite lookup_alter_ne by done. apply decide_ext. rewrite elem_of_cons. naive_solver.
Qed.

Lemma foldl_alter_dom (f : Header → Header) (rs : list nat) (hs : gmap nat Header) :
  dom (foldl (λ hs r, alter f r hs) hs rs) = dom hs.
Proof. revert hs. induction rs as [|r rs IH]; intros hs; [done|]. cbn. by rewrite IH, dom_alter_L. Qed.

Lemma updateHeaders_wf f l : wf l → wf (forEntries_ (updateHeaders f) l).
Proof.
  intros [H1 H2 H3 H4]. unfold forEntries_. rewrite foldl_updateHeaders.
  split; unfold ref_ok; cbn; rewrite ?foldl_alter_dom; auto.
Qed.

Lemma updateHeaders_view f l :
  wf l → (∀ h, f (f h) = f h) → f ∅ = ∅ → view (forEntries_ (updateHeaders f) l) = map_headers f <$> view l.
Proof.
  intros Hw Hf He. unfold forEntries_. rewrite foldl_updateHeaders. unfold view. cbn [entries with_headers].
  rewrite <-list_fmap_compose. apply list_fmap_ext. intros i p Hp%list_elem_of_lookup_2.
  assert (∀ h, h = (refs (entryAt l p)).1 ∨ h = (refs (entryAt l p)).2 →
    headerAt (with_headers l (foldl (λ hs r, alter f r hs) (headers l) (refsOf l (entries l)))) h
    = f (headerAt l h)) as Hh.
  { intros [r|] Hr; [|by cbn]. cbn. rewrite foldl_alter_lookup by done. rewrite decide_True.
    - destruct (headers l !! r); cbn; by rewrite ?He.
    - apply list_elem_of_bind. exists p. split; [|done]. apply elem_of_app.
      destruct Hr as [<- | <-]; [left|right]; by left. }
  match goal with |- viewOf ?l' _ = _ => change (entryAt l' p) with (entryAt l p) end.
  unfold viewOf, map_headers. cbn [compose v_Method v_URL v_reqHeader v_reqBody v_Status v_StatusCode
    v_respHeader v_respBody v_Error]. 
  rewrite (Hh (rq_Header (le_Request (entryAt l p)))) by by left.
  by rewrite (Hh (rs_Header (le_Response (entryAt l p)))) by by right.
Qed.

(** *** The operations of the log *)

Lemma forEntries_wf f l : wf l → (∀ e, refs (f e) = refs e) → wf (forEntries_ (updateEntry f) l).
Proof. intros Hw Hf. rewrite forEntries_Rewrite by done. apply RewriteEntries_wf; [done|]. intros; apply Hf. Qed.

Lemma forEntries_view f g l :
  wf l → (∀ e, viewOf l (f e) = g (viewOf l e)) → view (forEntries_ (updateEntry f) l) = g <$> view l.
Proof. intros Hw Hf. rewrite forEntries_Rewrite by done. apply RewriteEntries_view; [done|]. intros; apply Hf. Qed.

Lemma RewriteBodies_wf `{RecorderLibs} {S} (report : error → S → S) fn l s :
  wf l → wf (RewriteBodies report fn l s).1.
Proof.
  intros Hw. apply RewriteEntries_wf; [done|]. intros e s'.
  destruct (rewriteBody report (rq_Body (le_Request e)) fn s') as [b s1].
  cbv beta iota zeta. by destruct (rewriteBody _ _ fn s1).
Qed.

Lemma RemoveHeader_view k l : wf l → view (RemoveHeader k l) = map_headers (λ h, Del h k) <$> view l.
Proof.
  intros Hw. apply updateHeaders_view; [done| |]; unfold Del.
  - intros h. apply delete_delete_eq.
  - apply delete_empty.
Qed.

Definition replaceIn (k v : string) (h : Header) : Header :=
  if decide (length (ValuesOf h k) ≠ 0%nat) then SetHeader h k v else h.

Lemma ReplaceHeader_view k v l : wf l → view (ReplaceHeader k v l) = map_headers (replaceIn k v) <$> view l.
Proof.
  intros Hw. apply updateHeaders_view; [done| |]; unfold replaceIn.
  - intros h. destruct (decide (length (ValuesOf h k) ≠ 0%nat)) as [Hl|Hl]; [|by rewrite decide_False].
    rewrite decide_True; unfold SetHeader, ValuesOf; [by rewrite insert_insert_eq|by rewrite lookup_insert_eq].
  - unfold ValuesOf. by rewrite lookup_empty.
Qed.

(** The key of a view, and of an entry. *)
Definition discoveryPath (v : entryView) : option string :=
  if decide (v_Method v = "GET") then isSwappable (v_URL v) else None.

Lemma exchanged_key l a b :
  exchanged l a b = by_key (λ p, discoveryPath (viewOf l (entryAt l p))) a b.
Proof.
  unfold exchanged, by_key, discoveryPath. cbn.
  repeat case_decide; repeat case_bool_decide; try tauto; cbn; by repeat case_match.
Qed.

Lemma doAgain_ext {A} fuel (s t : A → A → bool) l : (∀ a b, s a b = t a b) → doAgain fuel s l = doAgain fuel t l.
Proof.
  intros Hst. assert (∀ a l, sortRound s a l = sortRound t a l) as Hr.
  { intros a k. revert a. induction k as [|b k IH]; intros a; [done|]. cbn. by rewrite Hst, !IH. }
  revert l. induction fuel as [|fuel IH]; intros [|a l]; [done..|]. cbn. rewrite Hr.
  destruct (sortRound t a l) as [es [|]]; [apply IH|done].
Qed.

Definition entryKey (l : RequestLog) (p : nat) : option string := discoveryPath (viewOf l (entryAt l p)).

Lemma SortGETs_runs l : SortGETs l = Some (with_entries l (sort_runs (by_key (entryKey l)) (entries l))).
Proof.
  unfold SortGETs. rewrite (doAgain_ext _ _ (by_key (entryKey l))) by apply exchanged_key.
  by rewrite doAgain_fuel.
Qed.

(** C36. SortGETs terminates on every log, whatever its length, with the same
    entries in another order: a request that is not a GET stays at its index; of
    two neighbouring GETs of discovery paths (/apis, /api/v1, /apis/v1 or
    /apis/group/version, which are those it recognises) the one with the smaller
    path comes first; and the GETs of one such path stay in their order. *)
Theorem SortGETs_sorts l :
  ∃ es, SortGETs l = Some (with_entries l es)
  ∧ es ≡ₚ entries l
  ∧ (∀ i p, entries l !! i = Some p → rq_Method (le_Request (entryAt l p)) ≠ "GET" → es !! i = Some p)
  ∧ Sorted (λ a b, ∀ path path', entryKey l a = Some path → entryKey l b = Some path' →
      string_lt path' path = false) es
  ∧ ∀ path, filter (λ p, entryKey l p = Some path) es = filter (λ p, entryKey l p = Some path) (entries l).
Proof.
  eexists. split; [apply SortGETs_runs|]. split; [apply sort_runs_perm|].
  split; [|split; [|intros path; apply sort_runs_filter]].
  - intros i p Hi Hm. apply sort_runs_fixed; [|done]. unfold entryKey, discoveryPath. by rewrite decide_False.
  - induction (sort_runs_sorted (entryKey l) (entries l)) as [|a es _ IH Ha]; constructor; [done|].
    destruct Ha as [|b es Hab]; constructor. intros path path' Ha Hb.
    unfold by_key in Hab. by rewrite Ha, Hb in Hab.
Qed.

(* ------------------------------------------------------------------ *)
(** ** The recorder *)

(** An entry as it is sent, and as it is answered. *)
Definition sentView (method u : string) (h : Header) (b : string) : entryView :=
  mkView method u h b "" 0 ∅ "" "".
Definition answerView (r : httpResponse) (streaming : bool) (v : entryView) : entryView :=
  mkView (v_Method v) (v_URL v) (v_reqHeader v) (v_reqBody v) (hp_Status r) (hp_StatusCode r)
    (redact (hp_Header r)) (loggedBody streaming (hp_Body r)) (v_Error v).
Definition bodyText (b : option body) : string := match b with Some (inl t) => t | _ => "" end.
Definition requestView (l : RequestLog) (request : httpRequest) : entryView :=
  sentView (hq_Method request) (String_ (hq_URL request)) (headerAt l (hq_Header request))
    (bodyText (hq_Body request)).

Lemma logRequest_Ok request l p request' l' :
  logRequest request l = Ok (p, request', l') ↔
  (∀ err, hq_Body request ≠ Some (inr err)) ∧ request' = request ∧ p = fresh (dom (heap l)) ∧
  l' = mkRequestLog (<[p := mkLogEntry (mkRequest (hq_Method request) (String_ (hq_URL request))
                             (hq_Header request) (bodyText (hq_Body request))) emptyResponse ""]> (heap l))
         (headers l) (entries l ++ [p]).
Proof.
  unfold logRequest, AddEntry, with_heap, with_entries, bodyText.
  destruct (hq_Body request) as [[t|err]|]; cbn; naive_solver.
Qed.

Lemma view_ext l l' (es : list nat) :
  (∀ p, p ∈ es → viewOf l' (entryAt l' p) = viewOf l (entryAt l p)) →
  (λ p, viewOf l' (entryAt l' p)) <$> es = (λ p, viewOf l (entryAt l p)) <$> es.
Proof. intros H. apply list_fmap_ext. intros i p Hp. apply H. by eapply list_elem_of_lookup_2. Qed.

Lemma entryAt_ne l l' p q e : heap l' = <[q := e]> (heap l) → p ≠ q → entryAt l' p = entryAt l p.
Proof. intros E Hne. unfold entryAt. by rewrite E, lookup_insert_ne. Qed.

Lemma wf_entryAt l p : wf l → p ∈ entries l → heap l !! p = Some (entryAt l p).
Proof. intros Hw Hp. apply Hw in Hp as [e He]%elem_of_dom. unfold entryAt. by rewrite He. Qed.

Lemma logRequest_ok request l p request' l' :
  wf l → ref_ok l (hq_Header request) → logRequest request l = Ok (p, request', l') →
  wf l' ∧ view l' = view l ++ [requestView l request] ∧ p ∉ entries l.
Proof.
  intros Hw Hr (_ & _ & Hp & ->)%logRequest_Ok.
  assert (p ∉ dom (heap l)) as Hfresh by (rewrite Hp; apply is_fresh).
  assert (p ∉ entries l) as Hnew by (intros ?; by apply Hfresh, Hw).
  split_and!; [| |done].
  - split; cbn.
    + apply list.NoDup_app. split_and!; [apply Hw|set_solver|apply NoDup_singleton].
    + intros q [Hq|Hq%list_elem_of_singleton]%elem_of_app; rewrite dom_insert_L; [|set_solver].
      apply elem_of_union_r. by apply Hw.
    + intros q e. rewrite lookup_insert_Some. intros [[<- <-]|[_ He]]; [done|]. by apply (wf_request _ Hw q).
    + intros q e. rewrite lookup_insert_Some. intros [[<- <-]|[_ He]]; [done|]. by apply (wf_response _ Hw q).
  - unfold view. cbn [entries]. rewrite fmap_app. f_equal.
    + apply view_ext. intros q Hq. erewrite (entryAt_ne l _ q p); [|reflexivity|by intros ->].
      by apply viewOf_headers.
    + cbn [fmap list_fmap]. unfold entryAt. cbn [heap]. by rewrite lookup_insert_eq.
Qed.

Lemma headerAt_insert l l' r m h :
  headers l' = <[r := m]> (headers l) → r ∉ dom (headers l) → ref_ok l h → headerAt l' h = headerAt l h.
Proof.
  intros E Hr Hok. destruct h as [q|]; [|done]. cbn. rewrite E, lookup_insert_ne; [done|].
  intros ->. by apply Hr, Hok.
Qed.

Lemma viewOf_insert l l' r m p :
  wf l → headers l' = <[r := m]> (headers l) → r ∉ dom (headers l) → p ∈ entries l →
  viewOf l' (entryAt l p) = viewOf l (entryAt l p).
Proof.
  intros Hw E Hr Hp%(wf_entryAt _ _ Hw). unfold viewOf.
  rewrite (headerAt_insert l l' r m (rq_Header (le_Request (entryAt l p))) E Hr (wf_request _ Hw p _ Hp)).
  by rewrite (headerAt_insert l l' r m (rs_Header (le_Response (entryAt l p))) E Hr (wf_response _ Hw p _ Hp)).
Qed.

Lemma alloc_ok l r m : wf l → r ∉ dom (headers l) →
  wf (with_headers l (<[r := m]> (headers l))) ∧ view (with_headers l (<[r := m]> (headers l))) = view l.
Proof.
  intros Hw Hr. split.
  - split; unfold ref_ok; cbn; [apply Hw|apply Hw| |]; intros p e He q Hq; rewrite dom_insert_L;
      apply elem_of_union_r; [by apply (wf_request _ Hw p e)|by apply (wf_response _ Hw p e)].
  - apply view_ext. intros p Hp. change (entryAt (with_headers l _) p) with (entryAt l p).
    by eapply viewOf_insert.
Qed.

(** The memory after an answer. *)
Lemma logResponse_lookup p streaming r l :
  wf l → p ∈ entries l →
  let h := fresh (dom (headers l)) in
  let l' := logResponse p streaming (Some r) l in
  entries l' = entries l ∧ headers l' = <[h := redact (hp_Header r)]> (headers l)
  ∧ (h ∉ dom (headers l))
  ∧ ∀ q, heap l' !! q =
      (if decide (q = p) then
        Some (setResponse (mkResponse (hp_Status r) (hp_StatusCode r) (Some h) (loggedBody streaming (hp_Body r)))
                (entryAt l p))
      else heap l !! q).
Proof.
  intros Hw Hp h l'. split_and!; [done|done|apply is_fresh|]. intros q.
  unfold l', logResponse, updateEntry. cbn [heap with_heap with_headers]. case_decide as E.
  - subst q. by rewrite lookup_alter_eq, (wf_entryAt l p).
  - by rewrite lookup_alter_ne.
Qed.

Lemma logResponse_wf p streaming r l : wf l → p ∈ entries l → wf (logResponse p streaming (Some r) l).
Proof.
  intros Hw Hp. destruct (logResponse_lookup p streaming r l Hw Hp) as (HE & HH & Hh & HL).
  pose proof (wf_entryAt _ _ Hw Hp) as He.
  split; unfold ref_ok; rewrite ?HE, ?HH, ?dom_insert_L.
  - apply Hw.
  - intros q Hq. apply elem_of_dom. rewrite HL. case_decide; [done|]. apply elem_of_dom. by apply Hw.
  - intros q e Hqe k Hk. apply elem_of_union_r. rewrite HL in Hqe. case_decide as Eq.
    + injection Hqe as <-. by apply (wf_request _ Hw p _ He).
    + by apply (wf_request _ Hw q e).
  - intros q e Hqe k Hk. rewrite HL in Hqe. case_decide as Eq.
    + injection Hqe as <-. injection Hk as <-. set_solver.
    + apply elem_of_union_r. by apply (wf_response _ Hw q e).
Qed.

Lemma logResponse_view p i streaming r l v :
  wf l → entries l !! i = Some p → view l !! i = Some v →
  view (logResponse p streaming (Some r) l) = <[i := answerView r streaming v]> (view l).
Proof.
  intros Hw Hi Hv. pose proof (list_elem_of_lookup_2 _ _ _ Hi) as Hp.
  destruct (logResponse_lookup p streaming r l Hw Hp) as (HE & HH & Hh & HL).
  set (l' := logResponse p streaming (Some r) l) in *. pose proof (wf_entryAt _ _ Hw Hp) as He.
  assert (headerAt l' (Some (fresh (dom (headers l)))) = redact (hp_Header r)) as Hnew.
  { unfold headerAt. by rewrite HH, lookup_insert_eq. }
  apply list_eq. intros j. unfold view in *. rewrite HE, list_lookup_fmap.
  rewrite list_lookup_fmap, Hi in Hv. injection Hv as <-. destruct (decide (j = i)) as [->|Hji].
  - rewrite list_lookup_insert_eq by (rewrite length_fmap; by eapply lookup_lt_Some).
    rewrite Hi. cbn [fmap option_fmap option_map]. f_equal.
    unfold entryAt at 1. rewrite HL, decide_True by done. unfold viewOf, answerView.
    cbn [id default setResponse le_Request le_Response rs_Header rs_Status rs_StatusCode rs_Body le_Error
      v_Method v_URL v_reqHeader v_reqBody v_Error]. rewrite Hnew. f_equal.
    apply (headerAt_insert l l' _ _ _ HH Hh (wf_request _ Hw p _ He)).
  - rewrite list_lookup_insert_ne, list_lookup_fmap by done.
    destruct (entries l !! j) as [q|] eqn:Ej; [|done]. cbn. f_equal.
    assert (q ≠ p) as Hqp. { intros ->. apply Hji. by eapply NoDup_lookup; [apply Hw|..]. }
    unfold entryAt at 1. rewrite HL, decide_False by done. change (default emptyEntry (heap l !! q)) with (entryAt l q).
    eapply viewOf_insert; [done|exact HH|done|by eapply list_elem_of_lookup_2].
Qed.

(** RoundTrip is transparent and records everything once: a request whose
    body can be read reaches the inner transport as it was, its client gets what
    the transport answered, and the log has one more entry, with the request, its
    headers and body and the answer (a response header named authorization
    redacted, the body of a watch left out). A body that cannot be read is an
    error, with nothing sent or logged. *)
Theorem RoundTrip_transparent inner request l :
  wf l → ref_ok l (hq_Header request) →
  match hq_Body request with
  | Some (inr _) =>
      RoundTrip inner request l = ((None, Some (Errorf "HTTPRecorder failed to read request body")), l)
  | _ =>
      let '(answer, l') := RoundTrip inner request l in
      answer = inner request ∧ wf l' ∧
      view l' = view l ++ [match (inner request).1 with
                           | Some r => answerView r (isStreaming request) (requestView l request)
                           | None => requestView l request
                           end]
  end.
Proof.
  intros Hw Hr. unfold RoundTrip.
  destruct (logRequest request l) as [[[p request'] l1]|err] eqn:E.
  2:{ unfold logRequest in E. by destruct (hq_Body request) as [[|]|]; cbn in E; simplify_eq. }
  pose proof (logRequest_ok _ _ _ _ _ Hw Hr E) as (Hw1 & Hv1 & Hnew).
  apply logRequest_Ok in E as (Hb & -> & Hp & El).
  assert (entries l1 !! length (entries l) = Some p) as Hi.
  { rewrite El. cbn. by rewrite lookup_app_r, Nat.sub_diag by lia. }
  assert (length (view l) = length (entries l)) as Hlen by apply length_fmap.
  assert (view l1 !! length (entries l) = Some (requestView l request)) as Hvi.
  { rewrite Hv1, lookup_app_r by lia. by rewrite Hlen, Nat.sub_diag. }
  assert (let '(answer, l') := (let '(response, err) := inner request in
            ((response, err), logResponse p (isStreaming request) response l1)) in
      answer = inner request ∧ wf l' ∧
      view l' = view l ++ [match (inner request).1 with
                           | Some r => answerView r (isStreaming request) (requestView l request)
                           | None => requestView l request
                           end]) as HG.
  { destruct (inner request) as [[r|] err]; cbn [fst]; split_and!; try done.
    - apply logResponse_wf; [done|]. by eapply list_elem_of_lookup_2.
    - rewrite (logResponse_view _ _ _ _ _ _ Hw1 Hi Hvi), Hv1, <-Hlen. by rewrite insert_app_r_alt, Nat.sub_diag by lia. }
  destruct (hq_Body request) as [[t|e]|]; [exact HG|by destruct (Hb e)|exact HG].
Qed.

(** *** Requests in parallel *)

(** The specification. What is to be recorded of a request and of its answer:
    method, URL, header and body of the request; status, header and body of the
    answer, with what an Authorization header says hidden, and without the body
    of a watch. *)
Record roundtrip := mkRoundtrip {
  rt_Request : httpRequest;
  rt_Header : Header;
  rt_Response : option httpResponse
}.

Definition bodyOf (b : option body) : string :=
  match b with
  | None => ""
  | Some (inl text) => text
  | Some (inr err) => "<error reading response:" +:+ err +:+ ">"
  end.

Definition hidden (h : Header) : Header :=
  list_to_map ((λ kv, (kv.1, if decide (strings.ToLower kv.1 = "authorization") then ["(redacted)"] else kv.2))
    <$> map_to_list h).

Definition render (x : roundtrip) : entryView :=
  let q := rt_Request x in
  let watching := bool_decide (Get (Query (hq_URL q)) "watch" = "true") in
  match rt_Response x with
  | None => mkView (hq_Method q) (String_ (hq_URL q)) (rt_Header x) (bodyOf (hq_Body q)) "" 0 ∅ "" ""
  | Some r =>
      mkView (hq_Method q) (String_ (hq_URL q)) (rt_Header x) (bodyOf (hq_Body q)) (hp_Status r)
        (hp_StatusCode r) (hidden (hp_Header r))
        (if watching then "<streaming response not included>" else bodyOf (hp_Body r)) ""
  end.

(** The log to be: the round trips in the order they began, and which of them
    each open ticket stands for. *)
Record specLog := mkSpecLog { sl_trips : list roundtrip; sl_open : gmap nat nat }.

Definition specEvent (σ : specLog) (e : recEvent) : specLog :=
  match e with
  | Sent t request _ h =>
      mkSpecLog (sl_trips σ ++ [mkRoundtrip request h None]) (<[t := length (sl_trips σ)]> (sl_open σ))
  | Answered t response =>
      match sl_open σ !! t with
      | None => σ
      | Some i =>
          mkSpecLog (alter (λ x, mkRoundtrip (rt_Request x) (rt_Header x) response) i (sl_trips σ))
            (delete t (sl_open σ))
      end
  | Refused | Allocated => σ
  end.

(** How one step of the recorder changes the log. *)
Definition unanswered (v : entryView) : Prop :=
  v_Status v = "" ∧ v_StatusCode v = 0%Z ∧ v_respHeader v = ∅ ∧ v_respBody v = "".

Inductive log_change : list entryView → list entryView → Prop :=
  | change_none vs : log_change vs vs
  | change_send vs method u h b : log_change vs (vs ++ [sentView method u h b])
  | change_answer vs i v r streaming : vs !! i = Some v → unanswered v →
      log_change vs (<[i := answerView r streaming v]> vs).

(** A session in which every request in flight has its entry in the log, and
    no response there. *)
Record session_ok (s : session) : Prop := {
  so_wf : wf (ss_log s);
  so_flight p streaming : inFlight s !! p = Some streaming →
    p ∈ entries (ss_log s) ∧ le_Response (entryAt (ss_log s) p) = emptyResponse
}.

Lemma view_lookup l i p : entries l !! i = Some p → view l !! i = Some (viewOf l (entryAt l p)).
Proof. intros Hi. unfold view. by rewrite list_lookup_fmap, Hi. Qed.

Lemma entryAt_heap l l' p : heap l' !! p = heap l !! p → entryAt l' p = entryAt l p.
Proof. unfold entryAt. by intros ->. Qed.

Lemma step_ok s e s' : session_ok s → step s e s' → session_ok s'.
Proof.
  intros [Hw Hf]. destruct 1 as [s request p request' l Hlog Hh|s request err Hlog|s p streaming resp Hp|s h m Hh].
  - destruct (logRequest_ok _ _ _ _ _ Hw Hh Hlog) as (Hw' & _ & Hnew).
    apply logRequest_Ok in Hlog as (_ & _ & _ & ->). split; [done|]. cbn. intros q st.
    rewrite lookup_insert_Some. intros [[<- _]|[Hne Hq]].
    + split; [set_solver|]. unfold entryAt. cbn. by rewrite lookup_insert_eq.
    + destruct (Hf q st Hq) as [Hin Hr]. split; [set_solver|]. rewrite <-Hr. f_equal.
      apply entryAt_heap. cbn. by rewrite lookup_insert_ne.
  - done.
  - destruct (Hf _ _ Hp) as [Hin _]. destruct resp as [r|]; split; cbn [ss_log inFlight].
    + by apply logResponse_wf.
    + intros q st. rewrite lookup_delete_Some. intros [Hne Hq]. destruct (Hf q st Hq) as [Hq1 Hq2].
      destruct (logResponse_lookup p streaming r _ Hw Hin) as (-> & _ & _ & HL). split; [done|].
      rewrite <-Hq2. f_equal. apply entryAt_heap. by rewrite HL, decide_False.
    + done.
    + intros q st. rewrite lookup_delete_Some. intros [Hne Hq]. by apply (Hf q st).
  - split; cbn; [|done]. apply alloc_ok; [done|]. by apply not_elem_of_dom.
Qed.

Lemma step_change s e s' :
  session_ok s → step s e s' → log_change (view (ss_log s)) (view (ss_log s')).
Proof.
  intros [Hw Hf]. destruct 1 as [s request p request' l Hlog Hh|s request err Hlog|s p streaming resp Hp|s h m Hh].
  - cbn [ss_log]. destruct (logRequest_ok _ _ _ _ _ Hw Hh Hlog) as (_ & -> & _). constructor.
  - constructor.
  - destruct (Hf _ _ Hp) as [Hin He]. destruct resp as [r|]; [|constructor]. cbn [ss_log].
    destruct (list_elem_of_lookup_1 _ _ Hin) as [i Hi]. pose proof (view_lookup _ _ _ Hi) as Hv.
    rewrite (logResponse_view _ _ _ _ _ _ Hw Hi Hv). constructor; [done|].
    unfold unanswered, viewOf. cbn. by rewrite He.
  - cbn [ss_log]. destruct (alloc_ok (ss_log s) h m Hw) as [_ ->]; [by apply not_elem_of_dom|constructor].
Qed.

(** The header as it is logged is the header with the secret hidden. *)
Lemma redact_hidden h : redact h = hidden h.
Proof.
  apply map_eq. intros k. unfold redact, hidden. rewrite map_lookup_imap.
  destruct (h !! k) as [vs|] eqn:E; cbn [mbind option_bind].
  - symmetry. apply elem_of_list_to_map_1.
    + rewrite <-list_fmap_compose. apply NoDup_fst_map_to_list.
    + apply list_elem_of_fmap. exists (k, vs). split; [done|]. by apply elem_of_map_to_list.
  - symmetry. apply not_elem_of_list_to_map_1. rewrite <-list_fmap_compose.
    intros (kv & -> & Hkv)%list_elem_of_fmap. destruct kv as [k vs]. apply elem_of_map_to_list in Hkv.
    cbn in E. congruence.
Qed.

Lemma answer_render q h r :
  answerView r (isStreaming q) (render (mkRoundtrip q h None)) = render (mkRoundtrip q h (Some r)).
Proof. unfold render, answerView. cbn. rewrite redact_hidden. unfold loggedBody, isStreaming. by destruct (bool_decide _), (hp_Body r) as [[]|]. Qed.

(** The recorder shows the log to be, and each request in flight is one of its
    round trips, without an answer, by the ticket it has. *)
Record represents (s : session) (σ : specLog) : Prop := {
  rp_view : view (ss_log s) = render <$> sl_trips σ;
  rp_open t streaming : inFlight s !! t = Some streaming →
    ∃ i x, sl_open σ !! t = Some i ∧ entries (ss_log s) !! i = Some t ∧ sl_trips σ !! i = Some x
      ∧ rt_Response x = None ∧ streaming = isStreaming (rt_Request x)
}.

Lemma represents_send s σ request p request' l :
  session_ok s → represents s σ → logRequest request (ss_log s) = Ok (p, request', l) →
  ref_ok (ss_log s) (hq_Header request) →
  request' = request ∧
  represents (mkSession l (<[p := isStreaming request']> (inFlight s)))
    (specEvent σ (Sent p request request' (headerAt (ss_log s) (hq_Header request)))).
Proof.
  intros [Hw _] [Hv Ho] Hlog Hh. destruct (logRequest_ok _ _ _ _ _ Hw Hh Hlog) as (_ & Hv' & Hnew).
  apply logRequest_Ok in Hlog as (Hb & -> & _ & ->). split; [done|].
  assert (length (entries (ss_log s)) = length (sl_trips σ)) as Hlen.
  { apply (f_equal length) in Hv. unfold view in Hv. by rewrite !length_fmap in Hv. }
  split; cbn [ss_log inFlight specEvent sl_trips sl_open entries].
  - rewrite Hv', Hv, fmap_app. do 2 f_equal. unfold requestView, sentView, render. cbn. f_equal.
    unfold bodyText, bodyOf. destruct (hq_Body request) as [[|e]|]; [done|by destruct (Hb e)|done].
  - intros t st. rewrite lookup_insert_Some. intros [[<- <-]|[Hne Ht]].
    + exists (length (sl_trips σ)), (mkRoundtrip request (headerAt (ss_log s) (hq_Header request)) None).
      split; [by rewrite lookup_insert_eq|].
      split; [|split; [|done]]; [rewrite <-Hlen|]; by rewrite lookup_app_r, Nat.sub_diag.
    + destruct (Ho _ _ Ht) as (i & x & Hi & He & Hx & Hr & Hs). exists i, x.
      rewrite lookup_insert_ne by done.
      split_and!; [done|by apply lookup_app_l_Some|by apply lookup_app_l_Some|done|done].
Qed.

Lemma alter_insert {A} (f : A → A) (l : list A) i x : l !! i = Some x → alter f i l = <[i := f x]> l.
Proof.
  intros Hi. apply list_eq. intros j. destruct (decide (i = j)) as [<-|Hne].
  - rewrite list_lookup_alter_eq, list_lookup_insert_eq, Hi; [done|]. by eapply lookup_lt_Some.
  - by rewrite list_lookup_alter_ne, list_lookup_insert_ne.
Qed.

Lemma represents_answer s σ p streaming response :
  session_ok s → represents s σ → inFlight s !! p = Some streaming →
  represents (mkSession (logResponse p streaming response (ss_log s)) (delete p (inFlight s)))
    (specEvent σ (Answered p response)).
Proof.
  intros [Hw Hf] [Hv Ho] Hp. destruct (Hf _ _ Hp) as [Hin _].
  destruct (Ho _ _ Hp) as (i & x & Hi & He & Hx & Hr & ->). destruct x as [q h [|]]; [done|].
  assert (entries (logResponse p (isStreaming q) response (ss_log s)) = entries (ss_log s)) as Hents
    by by destruct response.
  cbn [specEvent rt_Request]. rewrite Hi.
  split; cbn [ss_log inFlight sl_trips sl_open].
  - pose proof (view_lookup _ _ _ He) as Hvi.
    assert (view (ss_log s) !! i = Some (render (mkRoundtrip q h None))) as Hvx
      by by rewrite Hv, list_lookup_fmap, Hx.
    rewrite (alter_insert _ _ _ _ Hx). destruct response as [r|]; cbn [rt_Request rt_Header].
    + rewrite (logResponse_view _ _ _ _ _ _ Hw He Hvx), answer_render, list_fmap_insert. by rewrite Hv.
    + rewrite list_insert_id by done. done.
  - intros t st. rewrite lookup_delete_Some. intros [Hne Ht].
    destruct (Ho _ _ Ht) as (j & y & Hj & Hej & Hy & Hry & Hst). exists j, y.
    rewrite lookup_delete_ne by done. rewrite Hents. split_and!; [done|done| |done|done].
    rewrite list_lookup_alter_ne; [done|]. intros ->. congruence.
Qed.

Lemma represents_step s e s' σ :
  session_ok s → represents s σ → step s e s' →
  represents s' (specEvent σ e) ∧ match e with Sent _ request forwarded _ => forwarded = request | _ => True end.
Proof.
  intros Hs Hr. destruct 1 as [s request p request' l Hlog Hh|s request err Hlog|s p streaming resp Hp|s h m Hh].
  - destruct (represents_send s σ request p request' l) as [E Hr']; done.
  - done.
  - split; [by apply represents_answer|done].
  - split; [|done]. destruct Hs as [Hw _], Hr as [Hv Ho].
    destruct (alloc_ok (ss_log s) h m Hw) as [_ E]; [by apply not_elem_of_dom|].
    split; cbn [ss_log inFlight specEvent]; [by rewrite E|exact Ho].
Qed.

Lemma represents_start hs : represents (mkSession (mkRequestLog ∅ hs []) ∅) (mkSpecLog [] ∅).
Proof. by split. Qed.

Lemma session_start hs : session_ok (mkSession (mkRequestLog ∅ hs []) ∅).
Proof. split; [|done]. split; cbn; [constructor|by intros ? ?%not_elem_of_nil|done|done]. Qed.

(** C24. With any number of requests in flight, whatever the order in which the
    transport answers them, the recorder implements the log its events call for:
    each request reaches the transport unchanged, and the log shows, in the order
    the requests were sent, the method, URL, header and body of each, and the
    status, header and body of the very answer that came for it, if one has come
    (what an Authorization header says is hidden, and the body of a watch left
    out). *)
Theorem recorder_refines hs evs s :
  recorded (mkSession (mkRequestLog ∅ hs []) ∅) evs s →
  view (ss_log s) = render <$> sl_trips (foldl specEvent (mkSpecLog [] ∅) evs)
  ∧ Forall (λ e, match e with Sent _ request forwarded _ => forwarded = request | _ => True end) evs.
Proof.
  generalize (session_start hs), (represents_start hs).
  generalize (mkSession (mkRequestLog ∅ hs []) ∅) (mkSpecLog [] ∅). intros s0 σ Hs Hr Hrun. revert σ Hr.
  induction Hrun as [s0|s0 e s1 evs s Hstep _ IH]; intros σ Hr; [split; [apply Hr|constructor]|].
  destruct (represents_step _ _ _ _ Hs Hr Hstep) as [Hr1 He].
  destruct (IH (step_ok _ _ _ Hs Hstep) _ Hr1) as [Hv Hall]. split; [done|by constructor].
Qed.

(** The half of an entry that is written when the request is sent. *)
Definition requestHalf (v : entryView) : string * string * Header * string :=
  (v_Method v, v_URL v, v_reqHeader v, v_reqBody v).

(** Nothing recorded is lost or reordered while a session goes on: the
    requests of the log are a prefix of those it has later, and an entry that has
    its response keeps it, at its index. *)
Theorem recorder_keeps s evs s' :
  session_ok s → recorded s evs s' →
  (requestHalf <$> view (ss_log s)) `prefix_of` (requestHalf <$> view (ss_log s'))
  ∧ ∀ i v, view (ss_log s) !! i = Some v → ¬ unanswered v → view (ss_log s') !! i = Some v.
Proof.
  intros Hs Hr. induction Hr as [s|s e s1 evs s' Hstep _ IH]; [done|].
  destruct (IH (step_ok _ _ _ Hs Hstep)) as [IHp IHv]. pose proof (step_change _ _ _ Hs Hstep) as Hc.
  clear Hstep IH Hs. revert Hc IHp IHv. generalize (view (ss_log s)) (view (ss_log s1)).
  intros vs vs1 Hc IHp IHv. destruct Hc as [vs|vs method u h b|vs j v r streaming Hj Hun]; [done| |].
  - split; [|intros i v Hi; by apply IHv, lookup_app_l_Some].
    rewrite fmap_app in IHp. etrans; [|exact IHp]. apply prefix_app_r. done.
  - split.
    + rewrite list_fmap_insert in IHp. change (requestHalf (answerView r streaming v)) with (requestHalf v) in IHp.
      rewrite list_insert_id in IHp; [done|]. by rewrite list_lookup_fmap, Hj.
    + intros i w Hi Hans. apply IHv; [|done]. rewrite list_lookup_insert_ne; [done|].
      intros ->. by simplify_eq.
Qed.

(** *** The operations keep a log well formed *)

Lemma updateEntry_wf f p l : wf l → (∀ e, refs (f e) = refs e) → wf (updateEntry f p l).
Proof.
  intros Hw Hf. split; unfold ref_ok, updateEntry; cbn [heap headers entries with_heap].
  - apply Hw.
  - intros q Hq. rewrite dom_alter_L. by apply Hw.
  - intros q e He r Hr. apply lookup_alter_Some in He as [(<- & e0 & He0 & ->)|[_ He]].
    + rewrite Hf in Hr. by apply (wf_request _ Hw p e0).
    + by apply (wf_request _ Hw q e).
  - intros q e He r Hr. apply lookup_alter_Some in He as [(<- & e0 & He0 & ->)|[_ He]].
    + rewrite Hf in Hr. by apply (wf_response _ Hw p e0).
    + by apply (wf_response _ Hw q e).
Qed.

Lemma ReplaceTimestamp_wf `{RecorderLibs} l l' :
  wf l → ReplaceTimestamp l = Some l' → wf l' ∧ entries l' = entries l.
Proof.
  intros Hw. unfold ReplaceTimestamp. generalize (entries l) at 1 as es. intros es.
  revert l Hw. induction es as [|p es IH]; intros l Hw; cbn; [by intros [= <-]|].
  destruct (resetTimestamp (rq_Body _)) as [q|]; cbn.
  2:{ clear IH. by induction es. }
  destruct (resetTimestamp (rs_Body _)) as [r|]; cbn.
  2:{ clear IH. by induction es. }
  intros Hl. assert (wf (updateEntry (setResponseBody r) p (updateEntry (setRequestBody q) p l))) as Hw2.
  { apply updateEntry_wf; [|done]. by apply updateEntry_wf. }
  destruct (IH _ Hw2 Hl) as [? ->]. done.
Qed.

(** What the tests do to a log. *)
Inductive logOp `{RecorderLibs} : RequestLog → RequestLog → Prop :=
  | op_ReplaceURLPrefix old new l : logOp l (ReplaceURLPrefix old new l)
  | op_RemoveHeader k l : logOp l (RemoveHeader k l)
  | op_ReplaceHeader k v l : logOp l (ReplaceHeader k v l)
  | op_RegexReplaceURL Compile find replace l l' :
      RegexReplaceURL Compile find replace l = Some l' → logOp l l'
  | op_ReplaceTimestamp l l' : ReplaceTimestamp l = Some l' → logOp l l'
  | op_SortGETs l l' : SortGETs l = Some l' → logOp l l'
  | op_RewriteEntries S (fn : LogEntry → S → LogEntry * S) l s :
      (∀ e s, refs (fn e s).1 = refs e) → logOp l (RewriteEntries fn l s).1
  | op_RewriteBodies S (report : error → S → S) fn l s : logOp l (RewriteBodies report fn l s).1.

Lemma with_entries_wf l es : wf l → es ≡ₚ entries l → wf (with_entries l es).
Proof.
  intros [H1 H2 H3 H4] Hp. split; cbn; [by rewrite Hp| |done|done]. intros p. rewrite Hp. auto.
Qed.

(** The sessions that recording and rewriting reach. *)
Inductive reached `{RecorderLibs} : session → Prop :=
  | reached_init hs : reached (mkSession (mkRequestLog ∅ hs []) ∅)
  | reached_step s e s' : reached s → step s e s' → reached s'
  | reached_op s l : reached s → logOp (ss_log s) l → reached (mkSession l (inFlight s)).

Lemma RewriteEntries_ok {S} (fn : LogEntry → S → LogEntry * S) l s :
  wf l → (∀ e s, refs (fn e s).1 = refs e) →
  wf (RewriteEntries fn l s).1 ∧ entries (RewriteEntries fn l s).1 ≡ₚ entries l.
Proof.
  intros Hw Hfn. split; [by apply RewriteEntries_wf|].
  by destruct (RewriteEntries_spec fn l s Hw) as (_ & -> & _).
Qed.

Lemma forEntries_ok f l :
  wf l → (∀ e, refs (f e) = refs e) →
  wf (forEntries_ (updateEntry f) l) ∧ entries (forEntries_ (updateEntry f) l) ≡ₚ entries l.
Proof. intros Hw Hf. rewrite forEntries_Rewrite by done. apply RewriteEntries_ok; [done|]. intros; apply Hf. Qed.

Lemma updateHeaders_ok f l :
  wf l → wf (forEntries_ (updateHeaders f) l) ∧ entries (forEntries_ (updateHeaders f) l) ≡ₚ entries l.
Proof.
  intros Hw. split; [by apply updateHeaders_wf|]. unfold forEntries_. by rewrite foldl_updateHeaders.
Qed.

Lemma logOp_ok `{RecorderLibs} l l' : wf l → logOp l l' → wf l' ∧ entries l' ≡ₚ entries l.
Proof.
  intros Hw. destruct 1 as [old new l|k l|k v l|Compile find replace l l' Hop|l l' Hop|l l' Hop|S fn l s Hfn
    |S report fn l s].
  - apply forEntries_ok; [done|]. intros e. cbv beta zeta.
    by destruct (strings.HasPrefix (rq_URL (le_Request e)) old).
  - by apply updateHeaders_ok.
  - by apply updateHeaders_ok.
  - unfold RegexReplaceURL in Hop. destruct (Compile find); [|done]. injection Hop as <-. by apply forEntries_ok.
  - by destruct (ReplaceTimestamp_wf _ _ Hw Hop) as [? ->].
  - rewrite SortGETs_runs in Hop. injection Hop as <-.
    split; [apply with_entries_wf; [done|]|]; apply sort_runs_perm.
  - by apply RewriteEntries_ok.
  - split; [by apply RewriteBodies_wf|]. unfold RewriteBodies.
    match goal with |- entries (RewriteEntries ?f ?l ?s).1 ≡ₚ _ => destruct (RewriteEntries_spec f l s Hw) as (_ & -> & _) end.
    done.
Qed.

(** C25. Typing of the memory: in every state that recording and rewriting reach
    in any order, the entries of the log are distinct pointers to entries that
    exist, their headers are nil or maps that exist, and every request in flight
    still has its entry in the log, for the answer to be written to. *)
Theorem reached_typed `{RecorderLibs} s :
  reached s → wf (ss_log s) ∧ ∀ p streaming, inFlight s !! p = Some streaming → p ∈ entries (ss_log s).
Proof.
  induction 1 as [hs|s e s' _ [Hw Hf] Hstep|s l _ [Hw Hf] Hop].
  - split; [|done]. split; cbn; [constructor|by intros ? ?%not_elem_of_nil|done|done].
  - destruct Hstep as [s request p request' l Hlog Hh|s request err Hlog|s p streaming [r|] Hp|s h m Hh];
      cbn [ss_log inFlight] in *.
    + destruct (logRequest_ok _ _ _ _ _ Hw Hh Hlog) as (Hw' & _ & _). split; [done|].
      apply logRequest_Ok in Hlog as (_ & _ & _ & ->). cbn. intros q st. rewrite lookup_insert_Some.
      intros [[<- _]|[_ Hq]]; [set_solver|]. apply elem_of_app. left. by eapply Hf.
    + done.
    + split; [by eapply logResponse_wf, Hf|].
      destruct (logResponse_lookup p streaming r _ Hw (Hf _ _ Hp)) as (-> & _).
      intros q st. rewrite lookup_delete_Some. intros [_ Hq]. by eapply Hf.
    + split; [done|]. intros q st. rewrite lookup_delete_Some. intros [_ Hq]. by eapply Hf.
    + split; [|done]. apply alloc_ok; [done|]. by apply not_elem_of_dom.
  - destruct (logOp_ok _ _ Hw Hop) as [Hw' Hp]. split; [done|]. cbn. intros p st Hq. rewrite Hp. by eapply Hf.
Qed.

(** *** The text of a log *)

Lemma headerLines_order `{R1 : RangeOrder, R2 : RangeOrder} (h : Header) :
  @headerLines R1 h = @headerLines R2 h.
Proof.
  unfold headerLines.
  rewrite (sort_Strings_proper (@range R1 _ _ _ _ h).*1 (@range R2 _ _ _ _ h).*1); [done|].
  by rewrite !range_perm.
Qed.

(** The text depends on what the entries hold, and not on the addresses of the
    maps nor on the order in which the maps are iterated. *)
Lemma FormatHTTP_view `{R1 : RangeOrder, R2 : RangeOrder, L : RecorderLibs} l1 l2 pretty :
  view l1 = view l2 → @FormatHTTP R1 L l1 pretty = @FormatHTTP R2 L l2 pretty.
Proof.
  intros Hv. unfold FormatHTTP. f_equal.
  set (text := λ v, (v_Method v +:+ " " +:+ v_URL v +:+ newline +:+ @headerLines R1 (v_reqHeader v) +:+ newline
      +:+ writeBody (v_reqBody v) pretty) +:+ newline +:+
    (if decide (v_Status v = "" ∧ v_StatusCode v = 0%Z ∧ v_respBody v = "") then ""
     else v_Status v +:+ newline +:+ @headerLines R1 (v_respHeader v) +:+ newline
      +:+ writeBody (v_respBody v) pretty)).
  trans (text <$> view l1).
  - unfold view. rewrite <-list_fmap_compose. by apply list_fmap_ext.
  - rewrite Hv. unfold view. rewrite <-list_fmap_compose. apply list_fmap_ext. intros i p _.
    unfold text, compose, LogEntry_FormatHTTP, Request_FormatHTTP, Response_FormatHTTP, viewOf.
    cbn [v_Method v_URL v_reqHeader v_reqBody v_Status v_StatusCode v_respHeader v_respBody].
    by rewrite !(headerLines_order (R1 := R1) (R2 := R2)).
Qed.

(* ------------------------------------------------------------------ *)
(** ** Examples *)

Definition example_URL (host path : string) : URL := mkURL "http" "" None host path "" false false "" "" "".
Definition example_get (path : string) : httpRequest :=
  mkHTTPRequest "GET" (example_URL "10.0.0.1:443" path) (Some 0) None.
Definition example_answer (status : string) (code : Z) : httpResponse :=
  mkHTTPResponse status code {["Authorization" := ["Bearer secret"]; "Date" := ["today"]]} (Some (inl "{}")).
Definition example_start : session :=
  mkSession (mkRequestLog ∅ {[0 := {["User-Agent" := ["kubectl"]]}]} []) ∅.

(** A request that is sent, and an answer that comes. *)
Definition send (request : httpRequest) (s : session) : session :=
  match logRequest request (ss_log s) with
  | Ok (p, request', l) => mkSession l (<[p := isStreaming request']> (inFlight s))
  | Err _ => s
  end.
Definition answer (p : nat) (response : option httpResponse) (s : session) : session :=
  match inFlight s !! p with
  | Some streaming => mkSession (logResponse p streaming response (ss_log s)) (delete p (inFlight s))
  | None => s
  end.

Lemma send_step request s p request' l :
  ref_ok (ss_log s) (hq_Header request) → logRequest request (ss_log s) = Ok (p, request', l) →
  step s (Sent p request request' (headerAt (ss_log s) (hq_Header request))) (send request s).
Proof. intros Hr E. unfold send. rewrite E. by constructor. Qed.
Lemma answer_step p response s :
  is_Some (inFlight s !! p) → step s (Answered p response) (answer p response s).
Proof. intros [st E]. unfold answer. rewrite E. by constructor. Qed.

Lemma ref_ok_dec l h :
  (match h with Some r => bool_decide (r ∈ dom (headers l)) | None => true end) = true → ref_ok l h.
Proof. intros H r ->. by apply bool_decide_eq_true in H. Qed.

Definition example_sent : session :=
  send (example_get "/apis/apps/v1") (send (example_get "/api/v1") example_start).
Definition example_half : session := answer 1 (Some (example_answer "200 OK" 200)) example_sent.
Definition example_full : session := answer 0 (Some (example_answer "404 Not Found" 404)) example_half.

Example example_full_log :
  (λ v, (v_URL v, v_Status v, v_respHeader v !! "Authorization")) <$> view (ss_log example_full) =
  [("http://10.0.0.1:443/api/v1", "404 Not Found", Some ["(redacted)"]);
   ("http://10.0.0.1:443/apis/apps/v1", "200 OK", Some ["(redacted)"])].
Proof. vm_compute. reflexivity. Qed.

(** Two requests, the second answered first. *)
Definition example_events : list recEvent :=
  [Sent 0 (example_get "/api/v1") (example_get "/api/v1") {["User-Agent" := ["kubectl"]]};
   Sent 1 (example_get "/apis/apps/v1") (example_get "/apis/apps/v1") {["User-Agent" := ["kubectl"]]};
   Answered 1 (Some (example_answer "200 OK" 200))].
Definition example_last : list recEvent := [Answered 0 (Some (example_answer "404 Not Found" 404))].

Lemma example_run :
  recorded example_start example_events example_half ∧ recorded example_half example_last example_full.
Proof.
  split.
  - eapply recorded_cons; [|eapply recorded_cons; [|eapply recorded_cons; [|apply recorded_nil]]].
    + eapply (send_step (example_get "/api/v1")); [apply ref_ok_dec|]; vm_compute; reflexivity.
    + eapply (send_step (example_get "/apis/apps/v1")); [apply ref_ok_dec|]; vm_compute; reflexivity.
    + apply answer_step. exists false. vm_compute. reflexivity.
  - eapply recorded_cons; [|apply recorded_nil]. apply answer_step. exists false. vm_compute. reflexivity.
Qed.

Lemma recorded_app s evs s1 evs' s' :
  recorded s evs s1 → recorded s1 evs' s' → recorded s (evs ++ evs') s'.
Proof. induction 1; [done|]. intros H'. econstructor; eauto. Qed.

Lemma recorder_refines_witness :
  (λ v, (v_URL v, v_Status v)) <$> view (ss_log example_full) =
    [("http://10.0.0.1:443/api/v1", "404 Not Found"); ("http://10.0.0.1:443/apis/apps/v1", "200 OK")]
  ∧ view (ss_log example_full)
    = render <$> sl_trips (foldl specEvent (mkSpecLog [] ∅) (example_events ++ example_last)).
Proof.
  split; [vm_compute; reflexivity|].
  refine (proj1 (recorder_refines {[0 := {["User-Agent" := ["kubectl"]]}]} (example_events ++ example_last)
    example_full _)).
  exact (recorded_app _ _ _ _ _ (proj1 example_run) (proj2 example_run)).
Defined.

Lemma recorded_ok s evs s' : session_ok s → recorded s evs s' → session_ok s'.
Proof. intros Hs H. induction H as [s|s e s1 evs s' Hstep _ IH]; [done|]. apply IH. by eapply step_ok. Qed.

Lemma recorder_keeps_witness :
  (requestHalf <$> view (ss_log example_half)) `prefix_of` (requestHalf <$> view (ss_log example_full)).
Proof.
  refine (proj1 (recorder_keeps example_half example_last example_full _ (proj2 example_run))).
  exact (recorded_ok _ _ _ (session_start _) (proj1 example_run)).
Defined.

Definition example_libs : RecorderLibs := {|
  json_UnmarshalAny b := if decide (b = "{}") then Ok (JObj ∅) else Err (Errorf "invalid");
  json_MarshalIndent v := match v with JObj _ => Ok "{}" | _ => Err (Errorf "unsupported") end;
  yaml_UnmarshalObject b := if decide (b = "{}") then Ok (Some ∅) else Err (Errorf "invalid");
  json_MarshalObject _ := Ok "{}"
|}.

Lemma reached_typed_witness :
  wf (RemoveUserAgent (ss_log example_half)).
Proof.
  assert (reached (H := example_libs) example_half) as Hr.
  { destruct example_run as [H _]. assert (reached (H := example_libs) example_start) as H0 by constructor.
    induction H as [s|s e s1 evs s' Hstep _ IH]; [done|]. apply IH. by eapply reached_step. }
  refine (proj1 (reached_typed (H := example_libs) (mkSession (RemoveUserAgent (ss_log example_half)) _)
    (reached_op _ _ Hr _))).
  apply op_RemoveHeader.
Defined.

End httprecorder.
