(* ===== verification/KubeNormalize.v ===== *)
(** * Normalising a log of Kubernetes requests (ktest/httprecorder/kube_normalize.go)

    What differs between two runs of the same test is replaced: the address of
    the server, hashes in URLs, discovery documents, headers, identities, times
    and resource versions; then the discovery requests are sorted. That two runs
    are of the same test is said of what was recorded ([entry_similar], in terms of
    URLs that net/url parses, names of headers and decoded objects), and the
    passes are shown to make them equal. *)

From S2P Require Import Prelude Manifest MemoryStorage GoLib NetURL HTTPRecorder.
From stdpp Require Import pretty options.
Import manifest memorystorage jsoneq url header strconv httprecorder.

Module normalize.

(** The accessors of apimachinery that only the normaliser uses. *)
Class EphemeralMeta := {
  u_GetUID : jmap → string;
  managedFieldsEntry : Type;
  u_GetManagedFields : jmap → option (list managedFieldsEntry);
  u_SetManagedFields : list managedFieldsEntry → jmap → jmap;
  mf_setTime : string → managedFieldsEntry → managedFieldsEntry
}.

(** ** NormalizeKubeRequestLog *)

(** What the callbacks write: the errors reported to the test, and the set of
    resource versions. *)
Record normState := mkNormState { ns_errors : list error; ns_versions : gset Z }.
Definition reportTo (err : error) (s : normState) : normState :=
  mkNormState (ns_errors s ++ [err]) (ns_versions s).

Definition placeholderTime : string := "2025-04-01T00:00:00Z".
Definition removedBody : string := "// discovery response removed for length".

Definition rewriteOrigin (e : LogEntry) (s : normState) : LogEntry * normState :=
  match Parse (rq_URL (le_Request e)) with
  | Err err => (e, reportTo (WrapV "error parsing url" err) s)
  | Ok u => (setRequestURL (String_ (with_origin "https" "kube-apiserver" u)) e, s)
  end.

Definition rewriteHash (e : LogEntry) (s : normState) : LogEntry * normState :=
  match Parse (rq_URL (le_Request e)) with
  | Err err => (e, reportTo (WrapV "error parsing url" err) s)
  | Ok u =>
      let q := Query u in
      if decide (Get q "hash" ≠ "") then
        (setRequestURL (String_ (with_RawQuery (Encode (Set_ q "hash" "some-hash")) u)) e, s)
      else (e, s)
  end.

Definition discoveryURLs : list string :=
  ["https://kube-apiserver/openapi/v3"; "https://kube-apiserver/openapi/v3/api/v1";
   "https://kube-apiserver/api/v1"; "https://kube-apiserver/api"; "https://kube-apiserver/apis"].

Definition removeDiscovery (e : LogEntry) (s : normState) : LogEntry * normState :=
  let '(u, _, _) := strings.Cut "?" (rq_URL (le_Request e)) in
  if decide (u ∈ discoveryURLs) then (setResponseBody removedBody e, s) else (e, s).

(** replaceIfPresent: an error is reported, and the error of the write is
    dropped. *)
Definition replaceIfPresent `{Unstructured} (replace : string) (path : list string) (body : jmap)
    (s : normState) : jmap * normState :=
  match nestedFieldNoCopy body path with
  | Err err => (body, reportTo (WrapV "error getting nested field" err) s)
  | Ok (Some _) => ((u_SetNestedField body (JStr replace) path).1, s)
  | Ok None => (body, s)
  end.

(** The identity of the object and its times. *)
Definition rewriteMetadata `{Unstructured, ObjectMetaOps, EphemeralMeta} (body : jmap) (s : normState) :
    jmap * normState :=
  let body := if decide (u_GetUID body ≠ "") then m_SetUID "fake-uid" body else body in
  let '(body, s) := replaceIfPresent placeholderTime ["metadata"; "creationTimestamp"] body s in
  (match u_GetManagedFields body with
   | Some managedFields => u_SetManagedFields (mf_setTime placeholderTime <$> managedFields) body
   | None => body
   end, s).

Definition collectVersion `{ObjectMetaOps} (body : jmap) (s : normState) : jmap * normState :=
  let rv := m_GetResourceVersion body in
  if decide (rv = "") then (body, s)
  else
    match Atoi rv with
    | Err err => (body, reportTo (WrapV "error converting resource version to int" err) s)
    | Ok rvInt => (body, mkNormState (ns_errors s) ({[rvInt]} ∪ ns_versions s))
    end.

(** [sort.Ints] on the elements of the set. *)
Definition sortedVersions `{RangeOrder} (vs : gset Z) : list Z := merge_sort Z.le (range_set vs).

(** rewriteResourceVersion: the i-th version becomes 1000 + i. *)
Fixpoint renumber (i : Z) (vs : list Z) (m : gmap string string) : gmap string string :=
  match vs with
  | [] => m
  | rv :: vs => renumber (i + 1) vs (<[Itoa rv := Itoa (1000 + i)]> m)
  end.

Definition rewriteVersion `{ObjectMetaOps} (rewrite : gmap string string) (body : jmap) (s : normState) :
    jmap * normState :=
  (m_SetResourceVersion (default "" (rewrite !! m_GetResourceVersion body)) body, s).

Definition removedHeaders : list string :=
  ["X-Kubernetes-Pf-Flowschema-Uid"; "X-Kubernetes-Pf-Prioritylevel-Uid"; "Audit-Id"; "Kubectl-Session";
   "Content-Length"; "Date"].
Definition replacedHeaders : list string := ["ETag"; "Expires"; "Last-Modified"].

Definition normalizeHeaders (l : RequestLog) : RequestLog :=
  let l := RemoveUserAgent l in
  let l := foldl (λ l k, RemoveHeader k l) l removedHeaders in
  foldl (λ l k, ReplaceHeader k "(removed)" l) l replacedHeaders.

(** The whole of NormalizeKubeRequestLog: the log and the errors reported. *)
Definition NormalizeKubeRequestLog `{RangeOrder, Unstructured, ObjectMetaOps, EphemeralMeta, RecorderLibs} (l : RequestLog) :
    option (RequestLog * list error) :=
  let s := mkNormState [] ∅ in
  let '(l, s) := RewriteEntries rewriteOrigin l s in
  let '(l, s) := RewriteEntries rewriteHash l s in
  let '(l, s) := RewriteEntries removeDiscovery l s in
  let l := normalizeHeaders l in
  let '(l, s) := RewriteBodies reportTo rewriteMetadata l s in
  let '(l, s) := RewriteBodies reportTo collectVersion l s in
  let rewrite := renumber 0 (sortedVersions (ns_versions s)) ∅ in
  let '(l, s) := RewriteBodies reportTo (rewriteVersion rewrite) l s in
  l ← SortGETs l;
  Some (l, ns_errors s).

(* ------------------------------------------------------------------ *)
(** ** What becomes of an entry *)

Definition originURL (u : string) : string :=
  match Parse u with Ok x => String_ (with_origin "https" "kube-apiserver" x) | Err _ => u end.
Definition hashURL (u : string) : string :=
  match Parse u with
  | Ok x => if decide (Get (Query x) "hash" ≠ "") then
              String_ (with_RawQuery (Encode (Set_ (Query x) "hash" "some-hash")) x)
            else u
  | Err _ => u
  end.
Definition normURL (u : string) : string := hashURL (originURL u).

Definition isDiscovery (u : string) : bool := bool_decide ((strings.Cut "?" u).1.1 ∈ discoveryURLs).

Definition normHeader (h : Header) : Header :=
  foldl (λ h k, replaceIn k "(removed)" h)
    (foldl Del (Del h "user-agent") removedHeaders) replacedHeaders.

(** The text of a body that is an object. *)
Definition objectText `{RecorderLibs} (b : string) : option jmap :=
  if decide (b = "") then None
  else if strings.HasPrefix b "// " then None
  else match json_UnmarshalAny b with Ok (JObj m) => Some m | _ => None end.

Definition mapBody `{RecorderLibs} (g : jmap → jmap) (b : string) : string :=
  match objectText b with
  | Some m => match json_MarshalIndent (JObj (g m)) with Ok b' => b' | Err _ => b end
  | None => b
  end.

Definition freshState : normState := mkNormState [] ∅.

Section entry.
Context `{U : Unstructured, O : ObjectMetaOps, X : EphemeralMeta, L : RecorderLibs}.

Definition metaOf (m : jmap) : jmap := (rewriteMetadata m freshState).1.
Definition versionOf (rewrite : gmap string string) (m : jmap) : jmap := (rewriteVersion rewrite m freshState).1.

Definition map_bodies (f : string → string) (v : entryView) : entryView :=
  mkView (v_Method v) (v_URL v) (v_reqHeader v) (f (v_reqBody v)) (v_Status v) (v_StatusCode v)
    (v_respHeader v) (f (v_respBody v)) (v_Error v).

(** The entry when the resource versions are collected. *)
Definition preEntry (v : entryView) : entryView :=
  let u := normURL (v_URL v) in
  map_bodies (mapBody metaOf)
    (mkView (v_Method v) u (normHeader (v_reqHeader v)) (v_reqBody v) (v_Status v) (v_StatusCode v)
       (normHeader (v_respHeader v)) (if isDiscovery u then removedBody else v_respBody v) (v_Error v)).

(** The entry at the end. *)
Definition normEntry (rewrite : gmap string string) (v : entryView) : entryView :=
  map_bodies (mapBody (versionOf rewrite) ∘ mapBody id) (preEntry v).

(** The resource version in a body. *)
Definition bodyVersion (b : string) : option Z :=
  m ← objectText b;
  if decide (m_GetResourceVersion m = "") then None
  else match Atoi (m_GetResourceVersion m) with Ok z => Some z | Err _ => None end.
Definition entryVersions (v : entryView) : gset Z :=
  list_to_set (omap bodyVersion [v_reqBody v; v_respBody v]).
Definition versionsOf (vs : list entryView) : gset Z := ⋃ (entryVersions <$> vs).

Lemma rewriteBody_map {S} (report : error → S → S) fn g b s :
  (∀ m s, (fn m s).1 = g m) → (rewriteBody report b fn s).1 = mapBody g b.
Proof using.
  intros Hg. unfold rewriteBody, mapBody, objectText.
  destruct (decide (b = "")); [done|]. destruct (strings.HasPrefix b "// "); [done|].
  destruct (json_UnmarshalAny b) as [[]|]; try done.
  specialize (Hg m s). destruct (fn m s) as [m' s']. cbn in Hg. subst m'.
  by destruct (json_MarshalIndent _).
Qed.

Lemma RewriteBodies_view {S} (report : error → S → S) fn g l s :
  wf l → (∀ m s, (fn m s).1 = g m) → view (RewriteBodies report fn l s).1 = map_bodies (mapBody g) <$> view l.
Proof using.
  intros Hw Hg. apply RewriteEntries_view; [done|]. intros e s'.
  pose proof (rewriteBody_map report fn g (rq_Body (le_Request e)) s' Hg) as H1.
  destruct (rewriteBody report (rq_Body (le_Request e)) fn s') as [b s1]. cbn [fst] in H1. cbv beta iota zeta.
  pose proof (rewriteBody_map report fn g (rs_Body (le_Response e)) s1 Hg) as H2.
  change (rs_Body (le_Response (setRequestBody b e))) with (rs_Body (le_Response e)).
  destruct (rewriteBody report (rs_Body (le_Response e)) fn s1) as [b' s2]. cbn [fst] in H2. cbn [fst].
  subst b b'. done.
Qed.

Lemma rewriteMetadata_fst m s : (rewriteMetadata m s).1 = metaOf m.
Proof using.
  unfold metaOf, rewriteMetadata, replaceIfPresent. cbv zeta.
  destruct (nestedFieldNoCopy _ _) as [[|]|]; by destruct (u_GetManagedFields _).
Qed.
Lemma collectVersion_fst m s : (collectVersion m s).1 = m.
Proof using. unfold collectVersion. case_decide; [done|]. by destruct (Atoi _). Qed.

(** *** The set of versions *)

Lemma mapAccum_snd {A B S T} (f : A → S → B * S) (k : S → T) l s :
  (∀ a s, k (f a s).2 = k s) → k (mapAccum f l s).2 = k s.
Proof using.
  intros Hk. revert s. induction l as [|a l IH]; intros s; [done|]. cbn.
  specialize (Hk a s). destruct (f a s) as [b s']. specialize (IH s').
  destruct (mapAccum f l s') as [bs s'']. cbn in *. by rewrite IH.
Qed.

Lemma RewriteEntries_snd {S T} (fn : LogEntry → S → LogEntry * S) (k : S → T) l s :
  wf l → (∀ e s, k (fn e s).2 = k s) → k (RewriteEntries fn l s).2 = k s.
Proof using.
  intros Hw Hk. destruct (RewriteEntries_spec fn l s Hw) as [HA _]. apply (f_equal snd) in HA.
  cbn in HA. rewrite HA. by apply mapAccum_snd.
Qed.

Lemma rewriteMetadata_versions m s : ns_versions (rewriteMetadata m s).2 = ns_versions s.
Proof using.
  unfold rewriteMetadata, replaceIfPresent. cbv zeta.
  destruct (nestedFieldNoCopy _ _) as [[|]|]; by destruct (u_GetManagedFields _).
Qed.

Lemma rewriteBody_versions fn b s :
  (∀ m s, ns_versions (fn m s).2 = ns_versions s) →
  ns_versions (rewriteBody reportTo b fn s).2 = ns_versions s.
Proof using.
  intros Hf. unfold rewriteBody. destruct (decide (b = "")); [done|].
  destruct (strings.HasPrefix b "// "); [done|]. destruct (json_UnmarshalAny b) as [[]|]; try done.
  specialize (Hf m s). destruct (fn m s) as [m' s']. by destruct (json_MarshalIndent _).
Qed.

Lemma RewriteBodies_versions fn l s :
  wf l → (∀ m s, ns_versions (fn m s).2 = ns_versions s) →
  ns_versions (RewriteBodies reportTo fn l s).2 = ns_versions s.
Proof using.
  intros Hw Hf. apply (RewriteEntries_snd _ ns_versions); [done|]. intros e s'.
  pose proof (rewriteBody_versions fn (rq_Body (le_Request e)) s' Hf) as H1.
  destruct (rewriteBody reportTo (rq_Body (le_Request e)) fn s') as [b s1]. cbn [snd] in H1. cbv beta iota zeta.
  pose proof (rewriteBody_versions fn (rs_Body (le_Response (setRequestBody b e))) s1 Hf) as H2.
  destruct (rewriteBody reportTo _ fn s1) as [b' s2]. cbn [snd] in *. by rewrite H2.
Qed.

Lemma collect_body b s :
  ns_versions (rewriteBody reportTo b collectVersion s).2
  = list_to_set (option_list (bodyVersion b)) ∪ ns_versions s.
Proof using.
  unfold rewriteBody, bodyVersion, objectText. destruct (decide (b = "")); [set_solver|].
  destruct (strings.HasPrefix b "// "); [set_solver|].
  destruct (json_UnmarshalAny b) as [[]|]; try set_solver. cbn. unfold collectVersion.
  case_decide; [destruct (json_MarshalIndent _); set_solver|].
  destruct (Atoi _); destruct (json_MarshalIndent _); cbn; set_solver.
Qed.

Lemma collect_log l s :
  wf l → ns_versions (RewriteBodies reportTo collectVersion l s).2 = versionsOf (view l) ∪ ns_versions s.
Proof using.
  intros Hw. unfold RewriteBodies. set (fn := λ (e : LogEntry) (s : normState), _).
  destruct (RewriteEntries_spec fn l s Hw) as [HA _]. apply (f_equal snd) in HA. cbn in HA. rewrite HA. clear HA.
  unfold versionsOf, view. rewrite (list_fmap_compose (entryAt l) (viewOf l)).
  generalize (entryAt l <$> entries l) as es. intros es. revert s. induction es as [|e es IH]; intros s; [set_solver|].
  cbn [mapAccum].
  assert (ns_versions (fn e s).2 = entryVersions (viewOf l e) ∪ ns_versions s) as Hfn.
  { unfold fn. pose proof (collect_body (rq_Body (le_Request e)) s) as H1.
    destruct (rewriteBody reportTo (rq_Body (le_Request e)) collectVersion s) as [b s1]. cbn [snd] in H1.
    cbv beta iota zeta. change (rs_Body (le_Response (setRequestBody b e))) with (rs_Body (le_Response e)).
    pose proof (collect_body (rs_Body (le_Response e)) s1) as H2.
    destruct (rewriteBody reportTo _ collectVersion s1) as [b' s2]. cbn [snd] in *. rewrite H2, H1.
    unfold entryVersions, viewOf. cbn [v_reqBody v_respBody omap list_omap].
    destruct (bodyVersion _), (bodyVersion _); set_solver. }
  destruct (fn e s) as [e' s1]. specialize (IH s1). destruct (mapAccum fn es s1) as [bs s2].
  cbn [snd] in *. rewrite IH, Hfn. cbn. set_solver.
Qed.

End entry.

(* ------------------------------------------------------------------ *)
(** ** The whole pipeline *)

(** The renumbering of the versions of a log. *)
Definition renumbering `{RangeOrder, Unstructured, ObjectMetaOps, EphemeralMeta, RecorderLibs}
    (vs : list entryView) : gmap string string :=
  renumber 0 (sortedVersions (versionsOf (preEntry <$> vs))) ∅.

Section pipeline.
Context `{U : Unstructured, O : ObjectMetaOps, X : EphemeralMeta, L : RecorderLibs}.

(** What a pass does: the log stays well formed, the entries are mapped, and
    the versions collected are kept. *)
Definition passed (g : entryView → entryView) (l : RequestLog) (s : normState) (r : RequestLog * normState) : Prop :=
  wf r.1 ∧ view r.1 = g <$> view l ∧ ns_versions r.2 = ns_versions s.

Lemma entries_pass fn g l s :
  wf l → (∀ e s, refs (fn e s).1 = refs e) → (∀ e s, viewOf l (fn e s).1 = g (viewOf l e)) →
  (∀ e s, ns_versions (fn e s).2 = ns_versions s) → passed g l s (RewriteEntries fn l s).
Proof using.
  intros Hw H1 H2 H3. split_and!; [by apply RewriteEntries_wf|by apply RewriteEntries_view|].
  by apply (RewriteEntries_snd _ ns_versions).
Qed.

Definition set_URL (f : string → string) (v : entryView) : entryView :=
  mkView (v_Method v) (f (v_URL v)) (v_reqHeader v) (v_reqBody v) (v_Status v) (v_StatusCode v)
    (v_respHeader v) (v_respBody v) (v_Error v).
Definition drop_discovery (v : entryView) : entryView :=
  mkView (v_Method v) (v_URL v) (v_reqHeader v) (v_reqBody v) (v_Status v) (v_StatusCode v)
    (v_respHeader v) (if isDiscovery (v_URL v) then removedBody else v_respBody v) (v_Error v).

Lemma origin_pass l s : wf l → passed (set_URL originURL) l s (RewriteEntries rewriteOrigin l s).
Proof using.
  intros Hw. apply entries_pass; [done|..]; intros e s'; unfold rewriteOrigin;
    [| unfold set_URL, viewOf, originURL; cbn [v_URL v_Method]|]; by destruct (Parse _).
Qed.

Lemma hash_pass l s : wf l → passed (set_URL hashURL) l s (RewriteEntries rewriteHash l s).
Proof using.
  intros Hw. apply entries_pass; [done|..]; intros e s'; unfold rewriteHash;
    [| unfold set_URL, viewOf, hashURL; cbn [v_URL v_Method]|]; destruct (Parse _); try done;
    cbv zeta; by case_decide.
Qed.

Lemma discovery_pass l s : wf l → passed drop_discovery l s (RewriteEntries removeDiscovery l s).
Proof using.
  intros Hw. apply entries_pass; [done|..]; intros e s'; unfold removeDiscovery;
    [| unfold drop_discovery, isDiscovery; cbn [v_URL viewOf]|];
    destruct (strings.Cut "?" _) as [[a b] c]; cbn [fst]; try (by case_decide).
  case_decide; [by rewrite bool_decide_true|by rewrite bool_decide_false].
Qed.

Lemma metadata_pass l s :
  wf l → passed (map_bodies (mapBody metaOf)) l s (RewriteBodies reportTo rewriteMetadata l s).
Proof using.
  intros Hw. split_and!; [by apply RewriteBodies_wf| |].
  - apply RewriteBodies_view; [done|]. apply rewriteMetadata_fst.
  - apply RewriteBodies_versions; [done|]. apply rewriteMetadata_versions.
Qed.

Lemma version_pass rewrite l s :
  wf l → passed (map_bodies (mapBody (versionOf rewrite))) l s (RewriteBodies reportTo (rewriteVersion rewrite) l s).
Proof using.
  intros Hw. split_and!; [by apply RewriteBodies_wf| |].
  - by apply RewriteBodies_view.
  - by apply RewriteBodies_versions.
Qed.

Lemma foldl_headers {A} (op : A → RequestLog → RequestLog) (f : Header → A → Header) ks l :
  (∀ k l, wf l → wf (op k l) ∧ view (op k l) = map_headers (λ h, f h k) <$> view l) → wf l →
  wf (foldl (λ l k, op k l) l ks)
  ∧ view (foldl (λ l k, op k l) l ks) = map_headers (λ h, foldl f h ks) <$> view l.
Proof using.
  intros Hop. revert l. induction ks as [|k ks IH]; intros l Hw; cbn.
  - split; [done|]. symmetry. etrans; [|apply list_fmap_id]. apply list_fmap_ext. by intros i [] _.
  - destruct (Hop k l Hw) as [Hw1 Hv1]. destruct (IH _ Hw1) as [Hw2 ->]. split; [done|].
    rewrite Hv1, <-list_fmap_compose. by apply list_fmap_ext.
Qed.

Lemma headers_pass l : wf l → wf (normalizeHeaders l) ∧ view (normalizeHeaders l) = map_headers normHeader <$> view l.
Proof using.
  intros Hw. unfold normalizeHeaders, RemoveUserAgent.
  assert (∀ k l, wf l → wf (RemoveHeader k l) ∧ view (RemoveHeader k l) = map_headers (λ h, Del h k) <$> view l) as HR.
  { intros k l0 Hw0. split; [by apply updateHeaders_wf|by apply RemoveHeader_view]. }
  destruct (HR "user-agent" l Hw) as [Hw1 Hv1].
  destruct (foldl_headers RemoveHeader Del removedHeaders _ HR Hw1) as [Hw2 Hv2].
  destruct (foldl_headers (λ k, ReplaceHeader k "(removed)") (λ h k, replaceIn k "(removed)" h) replacedHeaders
    (foldl (λ l k, RemoveHeader k l) (RemoveHeader "user-agent" l) removedHeaders)) as [Hw3 Hv3]; [|done|].
  { intros k l0 Hw0. split; [by apply updateHeaders_wf|by apply ReplaceHeader_view]. }
  split; [done|]. rewrite Hv3, Hv2, Hv1, <-!list_fmap_compose. by apply list_fmap_ext.
Qed.

Lemma SortGETs_view l l' : SortGETs l = Some l' → view l' = sort_runs (by_key discoveryPath) (view l).
Proof using.
  rewrite SortGETs_runs. intros [= <-]. unfold view at 1. cbn [entries with_entries].
  rewrite (list_fmap_ext _ (λ p, viewOf l (entryAt l p))) by done.
  by apply sort_runs_fmap.
Qed.

(** NormalizeKubeRequestLog always returns, and what it leaves of a log is each
    entry mapped on its own, with one renumbering of the resource versions
    for the whole log, and then the runs of discovery requests sorted. *)
Lemma NormalizeKubeRequestLog_maps `{RangeOrder} l :
  wf l →
  ∃ l' errs, NormalizeKubeRequestLog l = Some (l', errs) ∧ wf l'
    ∧ view l' = sort_runs (by_key discoveryPath) (normEntry (renumbering (view l)) <$> view l).
Proof using.
  intros Hw. unfold NormalizeKubeRequestLog.
  destruct (origin_pass l freshState Hw) as (Hw1 & Hv1 & Hs1). fold freshState.
  destruct (RewriteEntries rewriteOrigin l freshState) as [l1 s1]. cbn [fst snd] in *.
  destruct (hash_pass l1 s1 Hw1) as (Hw2 & Hv2 & Hs2).
  destruct (RewriteEntries rewriteHash l1 s1) as [l2 s2]. cbn [fst snd] in *.
  destruct (discovery_pass l2 s2 Hw2) as (Hw3 & Hv3 & Hs3).
  destruct (RewriteEntries removeDiscovery l2 s2) as [l3 s3]. cbn [fst snd] in *.
  destruct (headers_pass l3 Hw3) as [Hw4 Hv4]. set (l4 := normalizeHeaders l3) in *. clearbody l4.
  destruct (metadata_pass l4 s3 Hw4) as (Hw5 & Hv5 & Hs5).
  destruct (RewriteBodies reportTo rewriteMetadata l4 s3) as [l5 s5]. cbn [fst snd] in *.
  pose proof (RewriteBodies_wf reportTo collectVersion l5 s5 Hw5) as Hw6.
  pose proof (RewriteBodies_view reportTo collectVersion id l5 s5 Hw5 collectVersion_fst) as Hv6.
  pose proof (collect_log l5 s5 Hw5) as Hs6.
  destruct (RewriteBodies reportTo collectVersion l5 s5) as [l6 s6]. cbn [fst snd] in *.
  assert (view l5 = preEntry <$> view l) as Hpre.
  { rewrite Hv5, Hv4, Hv3, Hv2, Hv1, <-!list_fmap_compose. by apply list_fmap_ext. }
  assert (renumber 0 (sortedVersions (ns_versions s6)) ∅ = renumbering (view l)) as ->.
  { unfold renumbering. do 2 f_equal. rewrite Hs6, Hpre, Hs5, Hs3, Hs2, Hs1. cbn. apply (right_id_L ∅ (∪)). }
  destruct (version_pass (renumbering (view l)) l6 s6 Hw6) as (Hw7 & Hv7 & _).
  destruct (RewriteBodies reportTo (rewriteVersion _) l6 s6) as [l7 s7]. cbn [fst snd] in *.
  destruct (SortGETs l7) as [l8|] eqn:E; [|by rewrite SortGETs_runs in E].
  exists l8, (ns_errors s7). split; [done|]. rewrite (SortGETs_view _ _ E). split.
  - rewrite SortGETs_runs in E. injection E as <-. apply with_entries_wf; [done|]. apply sort_runs_perm.
  - f_equal. rewrite Hv7, Hv6, Hpre, <-!list_fmap_compose. by apply list_fmap_ext.
Qed.

End pipeline.

(* ------------------------------------------------------------------ *)
(** ** Renumbering *)

Lemma Itoa_inj x y : Itoa x = Itoa y → x = y.
Proof. apply (inj pretty). Qed.
Lemma Itoa_nonempty z : Itoa z ≠ "".
Proof.
  unfold Itoa. destruct z as [|p|p]; [done| |done].
  apply (pretty_N_nonempty (Npos p)).
Qed.

Lemma sortedVersions_perm `{RangeOrder} vs : sortedVersions vs ≡ₚ elements vs.
Proof. unfold sortedVersions. by rewrite merge_sort_Permutation, range_set_perm. Qed.
Lemma sortedVersions_sorted `{RangeOrder} vs : StronglySorted Z.le (sortedVersions vs).
Proof. apply StronglySorted_merge_sort; apply _. Qed.
Lemma sortedVersions_NoDup `{RangeOrder} vs : NoDup (sortedVersions vs).
Proof. rewrite sortedVersions_perm. apply NoDup_elements. Qed.
Lemma elem_of_sortedVersions `{RangeOrder} vs z : z ∈ sortedVersions vs ↔ z ∈ vs.
Proof. by rewrite sortedVersions_perm, elem_of_elements. Qed.

(** A sorted list of the elements is the list of versions. *)
Lemma sortedVersions_unique `{RangeOrder} vs l :
  l ≡ₚ elements vs → StronglySorted Z.le l → sortedVersions vs = l.
Proof.
  intros Hp Hs. apply (StronglySorted_unique Z.le); [apply sortedVersions_sorted|done|].
  by rewrite sortedVersions_perm.
Qed.

(** The sorted versions of an order-preserving image. *)
Lemma sortedVersions_image `{R1 : RangeOrder, R2 : RangeOrder} (φ : Z → Z) (vs : gset Z) :
  (∀ x y, x ∈ vs → y ∈ vs → (x < y)%Z → (φ x < φ y)%Z) →
  @sortedVersions R2 (set_map φ vs) = φ <$> @sortedVersions R1 vs.
Proof.
  intros Hφ. apply sortedVersions_unique.
  - apply NoDup_Permutation; [|apply NoDup_elements|].
    + apply NoDup_fmap_2_strong; [|apply sortedVersions_NoDup].
      intros x y Hx%elem_of_sortedVersions Hy%elem_of_sortedVersions E.
      destruct (Z.lt_trichotomy x y) as [Hl|[->|Hl]]; [|done|]; apply Hφ in Hl; try done; lia.
    + intros z. rewrite list_elem_of_fmap, elem_of_elements, elem_of_map.
      setoid_rewrite elem_of_sortedVersions. naive_solver.
  - pose proof (sortedVersions_sorted (H := R1) vs) as Hs.
    assert (Forall (.∈ vs) (@sortedVersions R1 vs)) as Hin.
    { apply list.Forall_forall. intros x. by rewrite elem_of_sortedVersions. }
    induction Hs as [|x l Hs IH Hx]; [constructor|].
    apply list.Forall_cons in Hin as [Hxin Hin]. cbn. constructor; [by apply IH|].
    apply list.Forall_fmap, list.Forall_forall. intros y Hy. cbn.
    rewrite list.Forall_forall in Hx, Hin. specialize (Hx y Hy). specialize (Hin y Hy).
    destruct (decide (x = y)) as [->|Hne]; [done|]. apply Z.lt_le_incl, Hφ; [done|done|lia].
Qed.

Lemma renumber_other i l m k : (∀ z, z ∈ l → k ≠ Itoa z) → renumber i l m !! k = m !! k.
Proof.
  revert i m. induction l as [|z l IH]; intros i m Hk; [done|]. cbn.
  rewrite IH by (intros; apply Hk; by right). apply lookup_insert_ne.
  intros E. apply (Hk z); [by left|done].
Qed.

Lemma renumber_lookup i l m z n :
  NoDup l → l !! n = Some z → renumber i l m !! Itoa z = Some (Itoa (1000 + (i + Z.of_nat n))).
Proof.
  revert i m n. induction l as [|x l IH]; intros i m n Hnd Hn; [done|].
  apply list.NoDup_cons in Hnd as [Hx Hnd]. cbn. destruct n as [|n]; cbn in Hn.
  - injection Hn as ->. rewrite renumber_other; [rewrite lookup_insert_eq; do 2 f_equal; lia|].
    intros y Hy E%Itoa_inj. by subst.
  - rewrite (IH _ _ n) by done. do 2 f_equal. lia.
Qed.

Lemma StronglySorted_at {A} (R : A → A → Prop) l n m x y :
  StronglySorted R l → l !! n = Some x → l !! m = Some y → (n < m)%nat → R x y.
Proof.
  intros Hs. revert n m. induction Hs as [|z l _ IH Hz]; intros n m Hn Hm Hlt; [done|].
  destruct m as [|m]; [lia|]. destruct n as [|n]; cbn in *.
  - injection Hn as ->. rewrite list.Forall_forall in Hz. apply Hz. by eapply list_elem_of_lookup_2.
  - apply (IH n m); [done..|lia].
Qed.

Lemma sortedVersions_lt `{RangeOrder} vs n m x y :
  sortedVersions vs !! n = Some x → sortedVersions vs !! m = Some y → (n < m)%nat ↔ (x < y)%Z.
Proof.
  pose proof (sortedVersions_NoDup vs) as Hnd.
  assert (∀ n m x y, sortedVersions vs !! n = Some x → sortedVersions vs !! m = Some y →
    (n < m)%nat → (x < y)%Z) as Hlt.
  { clear -Hnd. intros n m x y Hn Hm Hlt.
    pose proof (StronglySorted_at Z.le _ n m x y (sortedVersions_sorted vs) Hn Hm Hlt).
    assert (x ≠ y); [|lia]. intros ->. assert (n = m) by (by eapply NoDup_lookup). lia. }
  intros Hn Hm. split; [by eapply Hlt|]. intros Hl.
  destruct (Nat.lt_trichotomy n m) as [?|[->|Hgt]]; [done| |].
  - simplify_eq. lia.
  - pose proof (Hlt _ _ _ _ Hm Hn Hgt). lia.
Qed.

(** The renumbering of resource versions keeps their order and loses none:
    every version of a log is renamed, the names run from 1000 without gaps, and
    of two versions the smaller has the smaller name, in every order in which
    the set is iterated. *)
Theorem renumber_keeps_order `{RangeOrder} (vs : gset Z) :
  ∃ rank : Z → nat,
    (∀ z, z ∈ vs → (rank z < size vs)%nat
       ∧ renumber 0 (sortedVersions vs) ∅ !! Itoa z = Some (Itoa (1000 + Z.of_nat (rank z))))
    ∧ (∀ x y, x ∈ vs → y ∈ vs → (x < y)%Z ↔ (rank x < rank y)%nat)
    ∧ (∀ n, (n < size vs)%nat → ∃ z, z ∈ vs ∧ rank z = n).
Proof.
  exists (λ z, default 0%nat (fst <$> list_find (z =.) (sortedVersions vs))).
  pose proof (sortedVersions_NoDup vs) as Hnd.
  assert (length (sortedVersions vs) = size vs) as Hlen by by rewrite sortedVersions_perm.
  assert (∀ n z, sortedVersions vs !! n = Some z →
    default 0%nat (fst <$> list_find (z =.) (sortedVersions vs)) = n) as Hrank.
  { intros n z Hn. destruct (list_find_elem_of (z =.) (sortedVersions vs) z) as [[m y] Hf]; [|done|].
    { by eapply list_elem_of_lookup_2. }
    rewrite Hf. cbn. apply list_find_Some in Hf as (Hm & <- & _). by eapply NoDup_lookup. }
  assert (∀ z, z ∈ vs → ∃ n, sortedVersions vs !! n = Some z) as Hidx.
  { intros z Hz. by apply list_elem_of_lookup_1, elem_of_sortedVersions. }
  split_and!.
  - intros z [n Hn]%Hidx. rewrite (Hrank n z Hn). split; [rewrite <-Hlen; by eapply lookup_lt_Some|].
    rewrite (renumber_lookup _ _ _ _ n Hnd Hn). do 2 f_equal.
  - intros x y [n Hn]%Hidx [m Hm]%Hidx. rewrite (Hrank n x Hn), (Hrank m y Hm).
    symmetry. by eapply sortedVersions_lt.
  - intros n Hn. rewrite <-Hlen in Hn. apply lookup_lt_is_Some in Hn as [z Hz]. exists z.
    split; [|by apply Hrank]. apply elem_of_sortedVersions. by eapply list_elem_of_lookup_2.
Qed.

(* ------------------------------------------------------------------ *)
(** ** Two runs of the same test *)

(** *** Addresses and headers *)

(** Where a server was. The address: two URLs that parse to the same but for
    scheme and host. And the hash of a discovery document: two URLs with the same
    path and the same query but for the value of [hash]. *)
Definition plain (u scheme host path query : string) : Prop :=
  Parse u = Ok (plainURL scheme host path query)
  ∧ all_bytes pathByte path = true ∧ all_bytes queryByte query = true.
Definition queryValues (query : string) : Values := Query (plainURL "" "" "" query).

Inductive url_similar : string → string → Prop :=
  | us_server u1 u2 x scheme host :
      Parse u1 = Ok x → Parse u2 = Ok (with_origin scheme host x) → url_similar u1 u2
  | us_hash u1 u2 s1 h1 s2 h2 path q1 q2 :
      plain u1 s1 h1 path q1 → plain u2 s2 h2 path q2 →
      Get (queryValues q1) "hash" ≠ "" → Get (queryValues q2) "hash" ≠ "" →
      delete "hash" (queryValues q1) = delete "hash" (queryValues q2) →
      url_similar u1 u2.

(** The headers of one client, one server and one moment, and those that tell the
    version of a document, in the form that net/http keeps them. *)
Definition ephemeralHeaders : list string :=
  ["User-Agent"; "X-Kubernetes-Pf-Flowschema-Uid"; "X-Kubernetes-Pf-Prioritylevel-Uid"; "Audit-Id";
   "Kubectl-Session"; "Content-Length"; "Date"].
Definition versionHeaders : list string := ["Etag"; "Expires"; "Last-Modified"].

Record header_similar (h1 h2 : Header) : Prop := {
  hs_same k : k ∉ ephemeralHeaders → k ∉ versionHeaders → h1 !! k = h2 !! k;
  hs_version k : k ∈ versionHeaders →
    h1 !! k = h2 !! k ∨ default [] (h1 !! k) ≠ [] ∧ default [] (h2 !! k) ≠ []
}.

(** The long documents whose text is not kept. *)
Definition longDocument (u : string) : Prop :=
  ∃ scheme host path query, plain u scheme host path query
    ∧ String "/" path ∈ ["/openapi/v3"; "/openapi/v3/api/v1"; "/api/v1"; "/api"; "/apis"].

(** Discovery requests are sent in parallel: two neighbours for different
    documents may come in either order. *)
Definition discoveryGET (v : entryView) (path : string) : Prop :=
  v_Method v = "GET" ∧ (∃ scheme host p query, plain (v_URL v) scheme host p query ∧ path = String "/" p)
  ∧ (path ∈ ["/apis"; "/api/v1"; "/apis/v1"]
     ∨ ∃ group version, path = "/apis/" +:+ group +:+ "/" +:+ version
       ∧ strings.free_of "/" group ∧ strings.free_of "/" version).

Inductive exchange : list entryView → list entryView → Prop :=
  exchange_swap l r a b pa pb : discoveryGET a pa → discoveryGET b pb → pa ≠ pb →
    exchange (l ++ a :: b :: r) (l ++ b :: a :: r).

(** The path by which the entry will be sorted. *)
Definition finalKey (v : entryView) : option string :=
  if decide (v_Method v = "GET") then isSwappable (normURL (v_URL v)) else None.

(** *** What the passes make of them *)

Lemma originURL_plain u scheme host path query :
  plain u scheme host path query → originURL u = plainText "https" "kube-apiserver" path query.
Proof.
  intros (Hu & Hp & _). unfold originURL. rewrite Hu.
  change (with_origin "https" "kube-apiserver" (plainURL scheme host path query))
    with (plainURL "https" "kube-apiserver" path query).
  apply String_plain; [by right|done..].
Qed.

Lemma Parse_apiserver path query : all_bytes pathByte path = true → all_bytes queryByte query = true →
  Parse (plainText "https" "kube-apiserver" path query) = Ok (plainURL "https" "kube-apiserver" path query).
Proof. intros. apply Parse_plain; [by right|done..]. Qed.

(** The query that is left. *)
Definition hashQuery (query : string) : string :=
  if decide (Get (queryValues query) "hash" ≠ "")
  then Encode (Set_ (queryValues query) "hash" "some-hash") else query.

Lemma hashQuery_bytes query : all_bytes queryByte query = true → all_bytes queryByte (hashQuery query) = true.
Proof. intros Hq. unfold hashQuery. case_decide; [apply Encode_query|done]. Qed.

Lemma normURL_plain u scheme host path query :
  plain u scheme host path query → normURL u = plainText "https" "kube-apiserver" path (hashQuery query).
Proof.
  intros Hu. unfold normURL. rewrite (originURL_plain _ _ _ _ _ Hu). destruct Hu as (_ & Hp & Hq).
  unfold hashURL. rewrite Parse_apiserver by done.
  change (Query (plainURL "https" "kube-apiserver" path query)) with (queryValues query).
  unfold hashQuery. case_decide; [|done].
  change (with_RawQuery ?q (plainURL ?s ?h path query)) with (plainURL s h path q).
  apply String_plain; [by right|done..].
Qed.

Lemma normURL_similar u1 u2 : url_similar u1 u2 → normURL u1 = normURL u2.
Proof.
  destruct 1 as [u1 u2 x s h H1 H2|u1 u2 s1 h1 s2 h2 path q1 q2 H1 H2 E1 E2 Hd].
  - unfold normURL. f_equal. unfold originURL. by rewrite H1, H2.
  - rewrite (normURL_plain _ _ _ _ _ H1), (normURL_plain _ _ _ _ _ H2). f_equal.
    unfold hashQuery. rewrite !decide_True by done. f_equal. unfold Set_.
    by rewrite <-(insert_delete_eq (queryValues q1)), <-(insert_delete_eq (queryValues q2)), Hd.
Qed.

Lemma longDocument_discovery u : longDocument u → isDiscovery (normURL u) = true.
Proof.
  intros (s & h & path & q & Hu & Hin). unfold isDiscovery. rewrite (normURL_plain _ _ _ _ _ Hu).
  destruct Hu as (_ & Hp & _). apply bool_decide_eq_true.
  assert (strings.free_of "?" ("https:" +:+ hierText "kube-apiserver" path)) as Hf.
  { rewrite free_of_app. apply andb_prop_intro. split; [done|]. by apply hierText_free. }
  assert ((strings.Cut "?" (plainText "https" "kube-apiserver" path (hashQuery q))).1.1
    = "https://kube-apiserver" +:+ String "/" path) as ->.
  { change (plainText "https" "kube-apiserver" path (hashQuery q))
      with (("https:" +:+ hierText "kube-apiserver" path) +:+ askText (hashQuery q)).
    unfold askText. case_bool_decide.
    - change ("?" +:+ hashQuery q) with (String "?" (hashQuery q)). by rewrite Cut_app.
    - by rewrite string_app_nil_r, Cut_free. }
  generalize dependent (String "/" path). intros p Hin.
  repeat (apply elem_of_cons in Hin as [->|Hin]; [apply (bool_decide_unpack _); vm_compute; exact I|]). by apply not_elem_of_nil in Hin.
Qed.

Lemma discoveryGET_key v path : discoveryGET v path → finalKey v = Some path.
Proof.
  intros (Hm & (s & h & p & q & Hu & ->) & Hpath). unfold finalKey. rewrite decide_True by done.
  rewrite (normURL_plain _ _ _ _ _ Hu). destruct Hu as (_ & Hp & Hq). unfold isSwappable.
  rewrite Parse_apiserver by (done || by apply hashQuery_bytes). cbn [plainURL Path].
  case_decide as Hd; [done|]. destruct Hpath as [|(g & v' & -> & Hg & Hv)]; [done|].
  change ("/apis/" +:+ g +:+ "/" +:+ v') with ("/" +:+ strings.Join ["apis"; g; v'] "/").
  rewrite TrimPrefix_app, Split_Join; [done|done|]. by repeat constructor.
Qed.

Lemma exchange_parallel vs ws : rtsc exchange vs ws → rtsc (parallel1 finalKey) vs ws.
Proof.
  assert (∀ vs ws, exchange vs ws → parallel1 finalKey vs ws) as H1.
  { intros ? ? [l r a b pa pb Ha%discoveryGET_key Hb%discoveryGET_key Hne].
    constructor; rewrite ?Ha, ?Hb; [done..|]. by intros [= ?]. }
  induction 1 as [|x y z [H|H] _ IH]; [done| |]; (etrans; [|exact IH]); apply rtc_once; [left|right]; auto.
Qed.

(** Headers. *)
Lemma foldl_Del_lookup ks h k :
  foldl Del h ks !! k = if decide (k ∈ CanonicalHeaderKey <$> ks) then None else h !! k.
Proof.
  revert h. induction ks as [|k' ks IH]; intros h; [done|]. cbn [foldl fmap list_fmap]. rewrite IH. unfold Del.
  destruct (decide (k = CanonicalHeaderKey k')) as [->|Hne].
  - rewrite lookup_delete_eq. rewrite (decide_True (P := _ ∈ _ :: _)) by by left. by case_decide.
  - rewrite lookup_delete_ne by done. repeat case_decide; set_solver.
Qed.

Definition replacedAt (v : string) (o : option (list string)) : option (list string) :=
  if decide (default [] o = []) then o else Some [v].

Lemma foldl_replaceIn_lookup v ks h k :
  foldl (λ h k, replaceIn k v h) h ks !! k
  = if decide (k ∈ CanonicalHeaderKey <$> ks) then replacedAt v (h !! k) else h !! k.
Proof.
  revert h. induction ks as [|k' ks IH]; intros h; [done|]. cbn [foldl fmap list_fmap]. rewrite IH.
  destruct (decide (k = CanonicalHeaderKey k')) as [->|Hne].
  - rewrite (decide_True (P := _ ∈ _ :: _)) by by left.
    assert (replaceIn k' v h !! CanonicalHeaderKey k' = replacedAt v (h !! CanonicalHeaderKey k')) as ->.
    { unfold replaceIn, replacedAt, ValuesOf, SetHeader. destruct (default [] _) as [|x l] eqn:E; cbn [length].
      - rewrite decide_False by lia. by rewrite decide_True.
      - rewrite decide_True by lia. rewrite decide_False by done. by rewrite lookup_insert_eq. }
    case_decide; [|done]. unfold replacedAt. by repeat case_decide.
  - assert (replaceIn k' v h !! k = h !! k) as ->.
    { unfold replaceIn. destruct (decide (length (ValuesOf h k') ≠ 0%nat)); [|done].
      unfold SetHeader. by rewrite lookup_insert_ne. }
    repeat case_decide; set_solver.
Qed.

Lemma normHeader_similar h1 h2 : header_similar h1 h2 → normHeader h1 = normHeader h2.
Proof.
  intros [Hsame Hversion]. apply map_eq. intros k. unfold normHeader.
  rewrite !foldl_replaceIn_lookup.
  change (foldl Del (Del ?h "user-agent") removedHeaders) with (foldl Del h ("user-agent" :: removedHeaders)).
  rewrite !foldl_Del_lookup.
  assert (CanonicalHeaderKey <$> "user-agent" :: removedHeaders = ephemeralHeaders) as -> by (vm_compute; reflexivity).
  assert (CanonicalHeaderKey <$> replacedHeaders = versionHeaders) as -> by (vm_compute; reflexivity).
  destruct (decide (k ∈ ephemeralHeaders)); [done|]. case_decide as Hk; [|by apply Hsame].
  destruct (Hversion k Hk) as [-> |[H1 H2]]; [done|]. unfold replacedAt. by rewrite !decide_False.
Qed.

(** *** Objects *)

(** The metadata of an object. *)
Definition has_meta (m : jmap) : Prop := ∃ x, m !! "metadata" = Some (JObj x).
Definition meta (m : jmap) : jmap := match m !! "metadata" with Some (JObj x) => x | _ => ∅ end.

(** A setter writes one field of the metadata: a value, or none, that does not
    depend on the object. *)
Definition field_writer (f : string) (g : jmap → jmap) : Prop :=
  ∃ o : option json, ∀ m x, m !! "metadata" = Some (JObj x) →
    g m = <["metadata" := JObj (partial_alter (λ _, o) f x)]> m.

Lemma str_at_meta m f : has_meta m → str_at m ["metadata"; f] = default "" (meta m !! f ≫= jstr).
Proof.
  intros [x Hx]. unfold str_at, meta, nestedFieldNoCopy. cbn [nestedField]. rewrite Hx. cbn.
  by destruct (x !! f) as [[]|].
Qed.
Lemma str_at_no_meta m f : ¬ has_meta m → str_at m ["metadata"; f] = "".
Proof.
  intros Hx. unfold str_at, nestedFieldNoCopy. cbn [nestedField].
  destruct (m !! "metadata") as [[]|] eqn:E; try done. destruct Hx. by eexists.
Qed.

(** Two objects that agree but for some fields of the metadata. *)
Definition agree_but (ks : list string) (m1 m2 : jmap) : Prop :=
  has_meta m1 ∧ has_meta m2 ∧ delete "metadata" m1 = delete "metadata" m2
  ∧ ∀ k, k ∉ ks → meta m1 !! k = meta m2 !! k.

Lemma agree_nothing m1 m2 : agree_but [] m1 m2 → m1 = m2.
Proof.
  intros ([x1 E1] & [x2 E2] & Hd & Hk). unfold meta in Hk. rewrite E1, E2 in Hk.
  assert (x1 = x2) as -> by (apply map_eq; intros k; apply Hk, not_elem_of_nil).
  by rewrite <-(insert_delete_id _ _ _ E1), <-(insert_delete_id _ _ _ E2), Hd.
Qed.

Lemma agree_but_field f ks m1 m2 :
  agree_but (f :: ks) m1 m2 → meta m1 !! f = meta m2 !! f → agree_but ks m1 m2.
Proof.
  intros (H1 & H2 & Hd & Hk) Hf. split_and!; [done..|]. intros k Hin.
  destruct (decide (k = f)) as [->|]; [done|]. apply Hk. set_solver.
Qed.

Section writer.
Context (f : string) (g : jmap → jmap) (Hg : field_writer f g).

Lemma write_meta m : has_meta m → has_meta (g m) ∧ ∀ k, k ≠ f → meta (g m) !! k = meta m !! k.
Proof using Hg.
  destruct Hg as [o Ho]. intros [x Hx]. unfold has_meta, meta. rewrite (Ho m x Hx), Hx, lookup_insert_eq.
  split; [eauto|]. intros k Hk. by apply lookup_partial_alter_ne.
Qed.

Lemma write_both ks m1 m2 : agree_but (f :: ks) m1 m2 → agree_but ks (g m1) (g m2).
Proof using Hg.
  destruct Hg as [o Ho]. intros ([x1 E1] & [x2 E2] & Hd & Hk). unfold agree_but, has_meta, meta in *.
  rewrite (Ho _ _ E1), (Ho _ _ E2), !lookup_insert_eq, !delete_insert_eq. rewrite E1, E2 in Hk.
  split_and!; [by eexists|by eexists|done|]. intros k Hin. destruct (decide (k = f)) as [->|Hne].
  - by rewrite !lookup_partial_alter_eq.
  - rewrite !lookup_partial_alter_ne by done. apply Hk. set_solver.
Qed.
End writer.

Section determinism.
Context `{U : Unstructured, O : ObjectMetaOps, X : EphemeralMeta, L : RecorderLibs}.

(** A value that encoding/json returns. *)
Definition decoded (v : json) : Prop := ∃ b, json_UnmarshalAny b = Ok v.

(** What the JSON package and the accessors document. A text that decodes is not
    empty and does not begin with a comment; a value that was decoded encodes, to a
    text that decodes to it; the text of an object begins with a brace; an object
    whose metadata were set encodes too. The getters read one field of the
    metadata, and the setters write one. *)
Record codec_ok : Prop := {
  co_text b v : json_UnmarshalAny b = Ok v → b ≠ "" ∧ strings.HasPrefix b "// " = false;
  co_round v : decoded v → ∃ b, json_MarshalIndent v = Ok b ∧ json_UnmarshalAny b = Ok v;
  co_object m b : json_MarshalIndent (JObj m) = Ok b → strings.HasPrefix b "{" = true;
  co_uid m : decoded (JObj m) → decoded (JObj (m_SetUID "fake-uid" m));
  co_time m : decoded (JObj m) →
    decoded (JObj (u_SetNestedField m (JStr placeholderTime) ["metadata"; "creationTimestamp"]).1);
  co_managed m fs : decoded (JObj m) → u_GetManagedFields m = Some fs →
    decoded (JObj (u_SetManagedFields (mf_setTime placeholderTime <$> fs) m));
  co_version m s : s = "" ∨ (∃ z, s = Itoa z) → decoded (JObj m) → decoded (JObj (m_SetResourceVersion s m));
  co_get_uid m : u_GetUID m = str_at m ["metadata"; "uid"];
  co_get_version m : m_GetResourceVersion m = str_at m ["metadata"; "resourceVersion"];
  co_get_managed m1 m2 : has_meta m1 → has_meta m2 → meta m1 !! "managedFields" = meta m2 !! "managedFields" →
    u_GetManagedFields m1 = u_GetManagedFields m2;
  co_no_managed m fs : u_GetManagedFields m = Some fs → has_meta m;
  co_set_uid : field_writer "uid" (m_SetUID "fake-uid");
  co_set_time : field_writer "creationTimestamp"
    (λ m, (u_SetNestedField m (JStr placeholderTime) ["metadata"; "creationTimestamp"]).1);
  co_set_managed m fs : u_GetManagedFields m = Some fs →
    field_writer "managedFields" (u_SetManagedFields (mf_setTime placeholderTime <$> fs));
  co_set_version s : field_writer "resourceVersion" (m_SetResourceVersion s)
}.

(** The resource versions of two servers, that [φ] relates. *)
Inductive version_similar (φ : Z → Z) : option json → option json → Prop :=
  | vs_none : version_similar φ None None
  | vs_some z : int64 z = true → int64 (φ z) = true →
      version_similar φ (Some (JStr (Itoa z))) (Some (JStr (Itoa (φ z)))).

(** The same object, created in two runs: it differs in its identity, its time of
    creation, the times of its managers and its resource version. *)
Record object_similar (φ : Z → Z) (m1 m2 : jmap) : Prop := {
  os_meta : has_meta m1 ∧ has_meta m2;
  os_outside : delete "metadata" m1 = delete "metadata" m2;
  os_inside k : k ∉ ["uid"; "creationTimestamp"; "managedFields"; "resourceVersion"] → meta m1 !! k = meta m2 !! k;
  os_uid : meta m1 !! "uid" = meta m2 !! "uid"
    ∨ ∃ s1 s2, meta m1 !! "uid" = Some (JStr s1) ∧ meta m2 !! "uid" = Some (JStr s2) ∧ s1 ≠ "" ∧ s2 ≠ "";
  os_created : is_Some (meta m1 !! "creationTimestamp") ↔ is_Some (meta m2 !! "creationTimestamp");
  os_managed : meta m1 !! "managedFields" = meta m2 !! "managedFields"
    ∨ ∃ fs1 fs2, u_GetManagedFields m1 = Some fs1 ∧ u_GetManagedFields m2 = Some fs2
      ∧ ∀ t, mf_setTime t <$> fs1 = mf_setTime t <$> fs2;
  os_version : version_similar φ (meta m1 !! "resourceVersion") (meta m2 !! "resourceVersion")
}.

(** Two bodies: one text, without a resource version, or the texts of the same
    object. *)
Inductive body_similar (φ : Z → Z) : string → string → Prop :=
  | bs_same b : (∀ m, json_UnmarshalAny b = Ok (JObj m) → ¬ has_meta m) → body_similar φ b b
  | bs_object b1 b2 m1 m2 :
      json_UnmarshalAny b1 = Ok (JObj m1) → json_UnmarshalAny b2 = Ok (JObj m2) →
      object_similar φ m1 m2 → body_similar φ b1 b2.

(** Two entries of the same request in two runs. *)
Record entry_similar (φ : Z → Z) (v1 v2 : entryView) : Prop := {
  es_method : v_Method v1 = v_Method v2;
  es_url : url_similar (v_URL v1) (v_URL v2);
  es_reqHeader : header_similar (v_reqHeader v1) (v_reqHeader v2);
  es_reqBody : body_similar φ (v_reqBody v1) (v_reqBody v2);
  es_status : v_Status v1 = v_Status v2;
  es_code : v_StatusCode v1 = v_StatusCode v2;
  es_respHeader : header_similar (v_respHeader v1) (v_respHeader v2);
  es_respBody : longDocument (v_URL v1) ∨ body_similar φ (v_respBody v1) (v_respBody v2);
  es_error : v_Error v1 = v_Error v2
}.

(** A resource version that some body of a log has. *)
Definition occurs (z : Z) (vs : list entryView) : Prop :=
  ∃ v b m, v ∈ vs ∧ (b = v_reqBody v ∨ b = v_respBody v)
    ∧ json_UnmarshalAny b = Ok (JObj m) ∧ Atoi (str_at m ["metadata"; "resourceVersion"]) = Ok z.

(** *** What the passes make equal *)

(** The response body that is kept. *)
Definition keptBody (v : entryView) : string :=
  if isDiscovery (normURL (v_URL v)) then removedBody else v_respBody v.

(** Two bodies that agree when identity and times are replaced, and the resource
    version is set. *)
Inductive body_alike (φ : Z → Z) : string → string → Prop :=
  | ba_text b : objectText b = None → body_alike φ b b
  | ba_object b1 b2 m1 m2 : objectText b1 = Some m1 → objectText b2 = Some m2 →
      (∀ s, m_SetResourceVersion s (metaOf m1) = m_SetResourceVersion s (metaOf m2)) →
      (m_GetResourceVersion (metaOf m1) = "" ∧ m_GetResourceVersion (metaOf m2) = ""
       ∨ ∃ z, m_GetResourceVersion (metaOf m1) = Itoa z ∧ m_GetResourceVersion (metaOf m2) = Itoa (φ z)
           ∧ int64 z = true ∧ int64 (φ z) = true) →
      body_alike φ b1 b2.

Record entry_alike (φ : Z → Z) (v1 v2 : entryView) : Prop := {
  ea_method : v_Method v1 = v_Method v2;
  ea_url : normURL (v_URL v1) = normURL (v_URL v2);
  ea_reqHeader : normHeader (v_reqHeader v1) = normHeader (v_reqHeader v2);
  ea_reqBody : body_alike φ (v_reqBody v1) (v_reqBody v2);
  ea_status : v_Status v1 = v_Status v2;
  ea_code : v_StatusCode v1 = v_StatusCode v2;
  ea_respHeader : normHeader (v_respHeader v1) = normHeader (v_respHeader v2);
  ea_respBody : body_alike φ (keptBody v1) (keptBody v2);
  ea_error : v_Error v1 = v_Error v2
}.

Hypothesis codec : codec_ok.

Lemma metaOf_decoded m : decoded (JObj m) → decoded (JObj (metaOf m)).
Proof using codec.
  intros Hm. unfold metaOf, rewriteMetadata, replaceIfPresent. cbv zeta.
  set (m1 := if decide (u_GetUID m ≠ "") then _ else _).
  assert (decoded (JObj m1)) as H1 by (unfold m1; case_decide; [by apply co_uid|done]).
  assert (∀ m, decoded (JObj m) → decoded (JObj (match u_GetManagedFields m with
    | Some fs => u_SetManagedFields (mf_setTime placeholderTime <$> fs) m | None => m end))) as HM.
  { intros m0 H0. destruct (u_GetManagedFields m0) eqn:E; [by apply co_managed|done]. }
  destruct (nestedFieldNoCopy m1 _) as [[j|]|]; cbn [fst]; apply HM; [by apply co_time|done..].
Qed.

Lemma object_decoded b m : objectText b = Some m → decoded (JObj m).
Proof using.
  unfold objectText. intros H. exists b. repeat case_match; simplify_eq; done.
Qed.

(** Rewriting an object rewrites its text. *)
Lemma mapBody_object g b m :
  objectText b = Some m → decoded (JObj (g m)) →
  json_MarshalIndent (JObj (g m)) = Ok (mapBody g b) ∧ objectText (mapBody g b) = Some (g m).
Proof using codec.
  intros Hb Hd. unfold mapBody. rewrite Hb. destruct (co_round codec _ Hd) as (t & Ht & Hu).
  rewrite Ht. split; [done|]. pose proof (co_object codec _ _ Ht) as Hp. unfold objectText. rewrite Hu.
  destruct t as [|c t]; [done|]. apply andb_prop in Hp as [Hp%bool_decide_eq_true _]. subst c.
  by rewrite decide_False.
Qed.

Lemma mapBody_text g b : objectText b = None → mapBody g b = b.
Proof using. unfold mapBody. by intros ->. Qed.

Lemma body_versions φ b1 b2 :
  body_alike φ b1 b2 → bodyVersion (mapBody metaOf b2) = φ <$> bodyVersion (mapBody metaOf b1).
Proof using codec.
  destruct 1 as [b Hb|b1 b2 m1 m2 H1 H2 _ Hv].
  - rewrite mapBody_text by done. unfold bodyVersion. by rewrite Hb.
  - destruct (mapBody_object metaOf b1 m1 H1) as [_ E1]; [by eapply metaOf_decoded, object_decoded|].
    destruct (mapBody_object metaOf b2 m2 H2) as [_ E2]; [by eapply metaOf_decoded, object_decoded|].
    unfold bodyVersion. rewrite E1, E2. cbn. destruct Hv as [[-> ->]|(z & -> & -> & Hz1 & Hz2)]; [done|].
    rewrite !decide_False by apply Itoa_nonempty. by rewrite !Atoi_Itoa.
Qed.

(** The renumberings of two runs agree. *)
Definition agree (φ : Z → Z) (vs : gset Z) (rw1 rw2 : gmap string string) : Prop :=
  rw1 !! "" = None ∧ rw2 !! "" = None
  ∧ ∀ z, z ∈ vs → ∃ n, rw1 !! Itoa z = Some (Itoa n) ∧ rw2 !! Itoa (φ z) = Some (Itoa n).

Lemma body_final φ vs rw1 rw2 b1 b2 :
  agree φ vs rw1 rw2 → body_alike φ b1 b2 →
  (∀ z, bodyVersion (mapBody metaOf b1) = Some z → z ∈ vs) →
  mapBody (versionOf rw1) (mapBody id (mapBody metaOf b1)) = mapBody (versionOf rw2) (mapBody id (mapBody metaOf b2)).
Proof using codec.
  intros (Hn1 & Hn2 & Hag). destruct 1 as [b Hb|b1 b2 m1 m2 H1 H2 Heq Hv]; intros Hin.
  { by rewrite (mapBody_text metaOf), (mapBody_text id), !mapBody_text by done. }
  assert (decoded (JObj (metaOf m1))) as D1 by by eapply metaOf_decoded, object_decoded.
  assert (decoded (JObj (metaOf m2))) as D2 by by eapply metaOf_decoded, object_decoded.
  destruct (mapBody_object metaOf b1 m1 H1 D1) as [_ E1]. destruct (mapBody_object metaOf b2 m2 H2 D2) as [_ E2].
  destruct (mapBody_object id _ _ E1 D1) as [_ F1]. destruct (mapBody_object id _ _ E2 D2) as [_ F2].
  assert (∃ s, (s = "" ∨ ∃ z, s = Itoa z)
    ∧ versionOf rw1 (metaOf m1) = m_SetResourceVersion s (metaOf m1)
    ∧ versionOf rw2 (metaOf m2) = m_SetResourceVersion s (metaOf m2)) as (s & Hs & G1 & G2).
  { unfold versionOf, rewriteVersion. cbn [fst].
    destruct Hv as [[E E']|(z & E & E' & Hz1 & Hz2)]; rewrite E, E'.
    - rewrite Hn1, Hn2. exists "". by split; [left|].
    - destruct (Hag z) as (n & Hn & Hz).
      { apply Hin. unfold bodyVersion. rewrite E1. cbn. rewrite E.
        rewrite decide_False by apply Itoa_nonempty. by rewrite Atoi_Itoa. }
      rewrite Hz, Hn. exists (Itoa n). split; [by right; eexists|done]. }
  assert (versionOf rw1 (metaOf m1) = versionOf rw2 (metaOf m2)) as HE.
  { by rewrite G1, G2. }
  assert (decoded (JObj (versionOf rw1 (metaOf m1)))) as D by (rewrite G1; by apply co_version).
  destruct (mapBody_object (versionOf rw1) _ _ F1 D) as [M1 _]. rewrite HE in D.
  destruct (mapBody_object (versionOf rw2) _ _ F2 D) as [M2 _]. cbn [id] in M1, M2.
  rewrite HE, M2 in M1. by injection M1.
Qed.

Lemma renumbering_agree `{R1 : RangeOrder, R2 : RangeOrder} φ vs :
  (∀ x y, x ∈ vs → y ∈ vs → (x < y)%Z → (φ x < φ y)%Z) →
  agree φ vs (renumber 0 (@sortedVersions R1 vs) ∅) (renumber 0 (@sortedVersions R2 (set_map φ vs)) ∅).
Proof using.
  intros Hφ. split_and!.
  - apply renumber_other. intros z _ E. by destruct (Itoa_nonempty z).
  - apply renumber_other. intros z _ E. by destruct (Itoa_nonempty z).
  - intros z [n Hn]%(elem_of_sortedVersions (H := R1))%list_elem_of_lookup_1.
    exists (1000 + (0 + Z.of_nat n))%Z. split; [apply renumber_lookup; [apply sortedVersions_NoDup|done]|].
    apply renumber_lookup; [apply sortedVersions_NoDup|].
    rewrite (sortedVersions_image (R1 := R1)) by done. by rewrite list_lookup_fmap, Hn.
Qed.

Lemma preEntry_versions φ v1 v2 :
  entry_alike φ v1 v2 → entryVersions (preEntry v2) = set_map φ (entryVersions (preEntry v1)).
Proof using codec.
  intros Hs. unfold entryVersions, preEntry. cbn [v_reqBody v_respBody map_bodies omap list_omap].
  pose proof (body_versions φ _ _ (ea_reqBody _ _ _ Hs)) as E1.
  pose proof (body_versions φ _ _ (ea_respBody _ _ _ Hs)) as E2. unfold keptBody in E2.
  rewrite E1, E2. clear E1 E2. destruct (bodyVersion _), (bodyVersion _); cbn;
    rewrite ?set_map_union_L, ?set_map_singleton_L, ?set_map_empty; done.
Qed.

Lemma versionsOf_similar φ vs1 vs2 :
  Forall2 (entry_alike φ) vs1 vs2 →
  versionsOf (preEntry <$> vs2) = set_map φ (versionsOf (preEntry <$> vs1)).
Proof using codec.
  unfold versionsOf. induction 1 as [|v1 v2 vs1 vs2 Hv _ IH]; [cbn; by rewrite set_map_empty|].
  rewrite !fmap_cons, !union_list_cons.
  by rewrite set_map_union_L, <-(preEntry_versions φ v1 v2 Hv), <-IH.
Qed.

Lemma versionsOf_perm vs1 vs2 : vs1 ≡ₚ vs2 → versionsOf vs1 = versionsOf vs2.
Proof using.
  intros Hp. apply set_eq. intros z. unfold versionsOf. rewrite !elem_of_union_list.
  by setoid_rewrite Hp.
Qed.

Lemma entryVersions_in vs v z : v ∈ vs → z ∈ entryVersions (preEntry v) → z ∈ versionsOf (preEntry <$> vs).
Proof using.
  intros Hv Hz. apply elem_of_union_list. exists (entryVersions (preEntry v)). split; [|done].
  apply list_elem_of_fmap. exists (preEntry v). split; [done|]. by apply list_elem_of_fmap_2.
Qed.

Lemma entry_final φ vs rw1 rw2 v1 v2 :
  agree φ vs rw1 rw2 → entry_alike φ v1 v2 → entryVersions (preEntry v1) ⊆ vs →
  normEntry rw1 v1 = normEntry rw2 v2.
Proof using codec.
  intros Hag Hs Hin. unfold normEntry, preEntry, map_bodies.
  cbn [v_Method v_URL v_reqHeader v_reqBody v_Status v_StatusCode v_respHeader v_respBody v_Error compose].
  assert (∀ b z, b = v_reqBody v1 ∨ b = keptBody v1 → bodyVersion (mapBody metaOf b) = Some z → z ∈ vs) as Hb.
  { intros b z Hb Hz. apply Hin. unfold entryVersions. apply elem_of_list_to_set, list_elem_of_omap.
    exists (mapBody metaOf b). split; [|done]. destruct Hb as [-> | ->]; [left|right; left]. }
  pose proof (body_final φ vs rw1 rw2 _ _ Hag (ea_reqBody _ _ _ Hs) (λ z, Hb _ z (or_introl eq_refl))) as ->.
  pose proof (body_final φ vs rw1 rw2 _ _ Hag (ea_respBody _ _ _ Hs) (λ z, Hb _ z (or_intror eq_refl))) as E.
  unfold keptBody in E. rewrite E. destruct Hs as [-> -> -> _ -> -> -> _ ->]. done.
Qed.

Lemma normEntry_key rw v : discoveryPath (normEntry rw v) = finalKey v.
Proof using. done. Qed.

Lemma parallel_norm rw vs ws :
  rtsc (parallel1 finalKey) vs ws → rtsc (parallel1 discoveryPath) (normEntry rw <$> vs) (normEntry rw <$> ws).
Proof using.
  assert (∀ vs ws, parallel1 finalKey vs ws → parallel1 discoveryPath (normEntry rw <$> vs) (normEntry rw <$> ws)) as H1.
  { intros ? ? [l r a b Ha Hb Hab]. rewrite !fmap_app. by constructor. }
  induction 1 as [|x y z [H|H] _ IH]; [done| |]; (etrans; [|exact IH]); apply rtc_once; [left|right]; auto.
Qed.

Lemma parallel_perm vs ws : rtsc (parallel1 finalKey) vs ws → vs ≡ₚ ws.
Proof using.
  assert (∀ vs ws, parallel1 finalKey vs ws → vs ≡ₚ ws) as H1.
  { intros ? ? [l r a b _ _ _]. apply Permutation_app_head. constructor. }
  induction 1 as [|x y z [H|H] _ IH]; [done|by rewrite (H1 _ _ H)|by rewrite <-(H1 _ _ H)].
Qed.

Lemma normEntries_similar φ rw1 rw2 vs1 vs2 :
  agree φ (versionsOf (preEntry <$> vs1)) rw1 rw2 → Forall2 (entry_alike φ) vs1 vs2 →
  normEntry rw1 <$> vs1 = normEntry rw2 <$> vs2.
Proof using codec.
  intros Hag Hs. assert (∀ v z, v ∈ vs1 → z ∈ entryVersions (preEntry v) → z ∈ versionsOf (preEntry <$> vs1)) as Hin
    by eauto using entryVersions_in.
  revert Hag Hin. generalize (versionsOf (preEntry <$> vs1)) as V. intros V Hag Hin.
  induction Hs as [|v1 v2 vs1 vs2 Hv _ IH]; [done|]. cbn. f_equal.
  - eapply entry_final; [done|done|]. intros z. apply Hin. by left.
  - apply IH. intros v z Hv'. apply Hin. by right.
Qed.

(** The three steps of rewriteMetadata. *)
Definition fakeUID (m : jmap) : jmap := if decide (u_GetUID m ≠ "") then m_SetUID "fake-uid" m else m.
Definition fakeCreation (m : jmap) : jmap := (replaceIfPresent placeholderTime ["metadata"; "creationTimestamp"] m freshState).1.
Definition fakeManaged (m : jmap) : jmap :=
  match u_GetManagedFields m with
  | Some fs => u_SetManagedFields (mf_setTime placeholderTime <$> fs) m
  | None => m
  end.
Lemma metaOf_steps m : metaOf m = fakeManaged (fakeCreation (fakeUID m)).
Proof using.
  unfold metaOf, rewriteMetadata. fold (fakeUID m). unfold fakeCreation.
  by destruct (replaceIfPresent _ _ _ _) as [m' s'].
Qed.

Lemma fakeCreation_meta m : has_meta m →
  fakeCreation m = (if meta m !! "creationTimestamp" is Some _ then
    (u_SetNestedField m (JStr placeholderTime) ["metadata"; "creationTimestamp"]).1 else m).
Proof using.
  intros [x Hx]. unfold fakeCreation, replaceIfPresent, nestedFieldNoCopy, meta. cbn [nestedField]. rewrite Hx.
  by destruct (x !! "creationTimestamp").
Qed.

(** What a step leaves alone. *)
Definition keeps (f : string) (m m' : jmap) : Prop := has_meta m' ∧ ∀ k, k ≠ f → meta m' !! k = meta m !! k.

Lemma fakeUID_keeps m : has_meta m → keeps "uid" m (fakeUID m).
Proof using codec. intros Hm. unfold fakeUID. case_decide; [|done]. by apply write_meta, Hm; apply co_set_uid. Qed.
Lemma fakeCreation_keeps m : has_meta m → keeps "creationTimestamp" m (fakeCreation m).
Proof using codec.
  intros Hm. rewrite fakeCreation_meta by done. destruct (meta m !! _); [|done].
  by apply (write_meta _ _ (co_set_time codec)).
Qed.
Lemma fakeManaged_keeps m : has_meta m → keeps "managedFields" m (fakeManaged m).
Proof using codec.
  intros Hm. unfold fakeManaged. destruct (u_GetManagedFields m) as [fs|] eqn:E; [|done].
  by apply (write_meta _ _ (co_set_managed codec m fs E)).
Qed.

(** The resource version is not one of them. *)
Lemma metaOf_version m : m_GetResourceVersion (metaOf m) = str_at m ["metadata"; "resourceVersion"].
Proof using codec.
  rewrite (co_get_version codec), metaOf_steps.
  assert (has_meta m ∨ ¬ has_meta m ∧ fakeCreation m = m) as [Hm|[Hm HC]].
  { unfold has_meta, fakeCreation, replaceIfPresent, nestedFieldNoCopy. cbn [nestedField].
    destruct (m !! "metadata") as [[]|]; [right..|left; eauto|right]; (split; [by intros [? ?]|done]). }
  - destruct (fakeUID_keeps m Hm) as [H1 K1], (fakeCreation_keeps _ H1) as [H2 K2], (fakeManaged_keeps _ H2) as [H3 K3].
    by rewrite !str_at_meta, K3, K2, K1 by done.
  - assert (fakeUID m = m) as -> by (unfold fakeUID; by rewrite (co_get_uid codec), (str_at_no_meta _ _ Hm)).
    rewrite HC. unfold fakeManaged. destruct (u_GetManagedFields m) as [fs|] eqn:E; [|done].
    by destruct Hm; apply (co_no_managed codec m fs).
Qed.

Lemma fakeUID_agree ks m1 m2 :
  agree_but ("uid" :: ks) m1 m2 →
  meta m1 !! "uid" = meta m2 !! "uid"
    ∨ (∃ s1 s2, meta m1 !! "uid" = Some (JStr s1) ∧ meta m2 !! "uid" = Some (JStr s2) ∧ s1 ≠ "" ∧ s2 ≠ "") →
  agree_but ks (fakeUID m1) (fakeUID m2).
Proof using codec.
  intros Ha Hu. pose proof Ha as (H1 & H2 & _). unfold fakeUID. rewrite !(co_get_uid codec), !str_at_meta by done.
  destruct Hu as [Hu|(s1 & s2 & -> & -> & Hs1 & Hs2)].
  - rewrite Hu. case_decide; [by apply (write_both _ _ (co_set_uid codec))|by apply (agree_but_field "uid")].
  - rewrite !decide_True by done. by apply (write_both _ _ (co_set_uid codec)).
Qed.

Lemma fakeCreation_agree ks m1 m2 :
  agree_but ("creationTimestamp" :: ks) m1 m2 →
  (is_Some (meta m1 !! "creationTimestamp") ↔ is_Some (meta m2 !! "creationTimestamp")) →
  agree_but ks (fakeCreation m1) (fakeCreation m2).
Proof using codec.
  intros Ha Hc. pose proof Ha as (H1 & H2 & _). rewrite !fakeCreation_meta by done.
  destruct (meta m1 !! "creationTimestamp") eqn:E1, (meta m2 !! "creationTimestamp") eqn:E2.
  - by apply (write_both _ _ (co_set_time codec)).
  - by destruct Hc as [[? ?] _]; [eexists|].
  - by destruct Hc as [_ [? ?]]; [eexists|].
  - apply (agree_but_field "creationTimestamp"); [done|]. by rewrite E1, E2.
Qed.

Lemma fakeManaged_agree ks m1 m2 :
  agree_but ("managedFields" :: ks) m1 m2 →
  meta m1 !! "managedFields" = meta m2 !! "managedFields"
    ∨ (∃ fs1 fs2, u_GetManagedFields m1 = Some fs1 ∧ u_GetManagedFields m2 = Some fs2
        ∧ ∀ t, mf_setTime t <$> fs1 = mf_setTime t <$> fs2) →
  agree_but ks (fakeManaged m1) (fakeManaged m2).
Proof using codec.
  intros Ha Hf. pose proof Ha as (H1 & H2 & _). unfold fakeManaged. destruct Hf as [Hf|(fs1 & fs2 & E1 & E2 & Ht)].
  - rewrite (co_get_managed codec m1 m2) by done. destruct (u_GetManagedFields m2) as [fs|] eqn:E.
    + by apply (write_both _ _ (co_set_managed codec m2 fs E)).
    + by apply (agree_but_field "managedFields").
  - rewrite E1, E2, Ht. by apply (write_both _ _ (co_set_managed codec m2 fs2 E2)).
Qed.

Lemma metaOf_agree φ m1 m2 : object_similar φ m1 m2 → agree_but ["resourceVersion"] (metaOf m1) (metaOf m2).
Proof using codec.
  intros [[H1 H2] Hout Hin Huid Hcr Hman _]. rewrite !metaOf_steps.
  destruct (fakeUID_keeps m1 H1) as [U1 KU1], (fakeUID_keeps m2 H2) as [U2 KU2].
  destruct (fakeCreation_keeps _ U1) as [C1 KC1], (fakeCreation_keeps _ U2) as [C2 KC2].
  apply fakeManaged_agree; [apply fakeCreation_agree; [apply fakeUID_agree|]|].
  - split_and!; [done..|]. intros k Hk. apply Hin. set_solver.
  - done.
  - by rewrite KU1, KU2.
  - rewrite KC1, KC2, KU1, KU2 by done. destruct Hman as [|(fs1 & fs2 & E1 & E2 & Ht)]; [by left|right].
    exists fs1, fs2. split_and!; [..|done].
    + rewrite <-E1. apply (co_get_managed codec); [done..|]. by rewrite KC1, KU1.
    + rewrite <-E2. apply (co_get_managed codec); [done..|]. by rewrite KC2, KU2.
Qed.

Lemma objectText_object b m : json_UnmarshalAny b = Ok (JObj m) → objectText b = Some m.
Proof using codec.
  intros Hb. destruct (co_text codec _ _ Hb) as [H1 H2]. unfold objectText.
  by rewrite decide_False, H2, Hb.
Qed.

Lemma body_alike_similar φ b1 b2 : body_similar φ b1 b2 → body_alike φ b1 b2.
Proof using codec.
  destruct 1 as [b Hb|b1 b2 m1 m2 H1 H2 Hs].
  - destruct (objectText b) as [m|] eqn:E; [|by apply ba_text].
    apply (ba_object φ b b m m); [done..|]. left. rewrite metaOf_version.
    rewrite str_at_no_meta; [done|]. apply Hb. unfold objectText in E. repeat case_match; simplify_eq; done.
  - apply (ba_object φ b1 b2 m1 m2); [by apply objectText_object..| |].
    + intros s. apply agree_nothing, (write_both _ _ (co_set_version codec s)), (metaOf_agree φ), Hs.
    + rewrite !metaOf_version. destruct Hs as [[M1 M2] _ _ _ _ _ Hv]. rewrite !str_at_meta by done.
      destruct Hv as [|z Hz1 Hz2]; [by left|right]. by exists z.
Qed.

Lemma entry_alike_similar φ v1 v2 : entry_similar φ v1 v2 → entry_alike φ v1 v2.
Proof using codec.
  intros [Hm Hu Hq Hb Hs Hc Hr Hrb He]. pose proof (normURL_similar _ _ Hu) as HN.
  split; [done..|by apply normHeader_similar|by apply body_alike_similar|done|done|by apply normHeader_similar| |done].
  unfold keptBody. rewrite <-HN. destruct (isDiscovery _) eqn:E; [by apply ba_text|].
  destruct Hrb as [Hl|Hrb]; [|by apply body_alike_similar].
  by rewrite (longDocument_discovery _ Hl) in E.
Qed.

Lemma bodyVersion_occurs b z :
  bodyVersion (mapBody metaOf b) = Some z →
  ∃ m, json_UnmarshalAny b = Ok (JObj m) ∧ Atoi (str_at m ["metadata"; "resourceVersion"]) = Ok z.
Proof using codec.
  destruct (objectText b) as [m|] eqn:E; [|rewrite mapBody_text by done; unfold bodyVersion; by rewrite E].
  destruct (mapBody_object metaOf b m E) as [_ E1]; [by eapply metaOf_decoded, object_decoded|].
  unfold bodyVersion. rewrite E1. cbn. rewrite metaOf_version. case_decide; [done|].
  destruct (Atoi _) as [z'|] eqn:EA; [|done]. intros [= <-]. exists m. split; [|done].
  unfold objectText in E. repeat case_match; simplify_eq; done.
Qed.

Lemma versionsOf_occurs vs z : z ∈ versionsOf (preEntry <$> vs) → occurs z vs.
Proof using codec.
  intros (V & HV & Hz)%elem_of_union_list. apply list_elem_of_fmap in HV as (v' & -> & Hv).
  apply list_elem_of_fmap in Hv as (v & -> & Hv).
  apply elem_of_list_to_set, list_elem_of_omap in Hz as (b & Hb & Hbz).
  unfold preEntry in Hb. cbn [map_bodies v_reqBody v_respBody v_URL] in Hb.
  assert (∀ b, bodyVersion (mapBody metaOf b) = Some z → b = v_reqBody v ∨ b = v_respBody v → occurs z vs) as Hocc.
  { intros b' (m & Hm & Ha)%bodyVersion_occurs Hb'. by exists v, b', m. }
  repeat (apply elem_of_cons in Hb as [->|Hb]); [by eapply Hocc; [|left]| |by apply not_elem_of_nil in Hb].
  destruct (isDiscovery _); [|by eapply Hocc; [|right]].
  by rewrite mapBody_text in Hbz.
Qed.

Lemma NormalizeKubeRequestLog_alike `{R1 : RangeOrder, R2 : RangeOrder} φ l1 l2 vs :
  wf l1 → wf l2 →
  Forall2 (entry_alike φ) (view l1) vs → rtsc (parallel1 finalKey) vs (view l2) →
  (∀ x y, x ∈ versionsOf (preEntry <$> view l1) → y ∈ versionsOf (preEntry <$> view l1) →
     (x < y)%Z → (φ x < φ y)%Z) →
  ∃ l1' errs1 l2' errs2,
    @NormalizeKubeRequestLog R1 _ _ _ _ l1 = Some (l1', errs1)
    ∧ @NormalizeKubeRequestLog R2 _ _ _ _ l2 = Some (l2', errs2)
    ∧ view l1' = view l2'.
Proof using codec.
  intros Hw1 Hw2 Hs Hp Hφ.
  destruct (NormalizeKubeRequestLog_maps (H := R1) l1 Hw1) as (l1' & e1 & E1 & _ & V1).
  destruct (NormalizeKubeRequestLog_maps (H := R2) l2 Hw2) as (l2' & e2 & E2 & _ & V2).
  exists l1', e1, l2', e2. split_and!; [done..|].
  rewrite V1, V2; unfold renumbering.
  rewrite <-(versionsOf_perm (preEntry <$> vs) (preEntry <$> view l2)) by (by rewrite (parallel_perm _ _ Hp)).
  rewrite (versionsOf_similar φ _ _ Hs).
  rewrite (normEntries_similar φ _ _ _ _ (renumbering_agree (R1 := R1) (R2 := R2) φ _ Hφ) Hs).
  apply sort_runs_parallel, parallel_norm, Hp.
Qed.

(** C23. Golden logs do not depend on the run. Take two logs of one test that
    differ in what a run chooses: where the server is; the hashes in discovery
    URLs; the text of the long discovery documents; the headers of the client,
    the server and the moment; the identity, creation time and managers' times of
    objects; and resource versions, which another server counts differently but in
    the same order; and let neighbouring parallel discovery requests come in any
    order. Both logs normalise, to the same entries and the same text, whatever
    order maps are iterated in. *)
Theorem NormalizeKubeRequestLog_deterministic `{R1 : RangeOrder, R2 : RangeOrder} φ l1 l2 vs :
  wf l1 → wf l2 →
  Forall2 (entry_similar φ) (view l1) vs → rtsc exchange vs (view l2) →
  (∀ x y, occurs x (view l1) → occurs y (view l1) → (x < y)%Z → (φ x < φ y)%Z) →
  ∃ l1' errs1 l2' errs2,
    @NormalizeKubeRequestLog R1 _ _ _ _ l1 = Some (l1', errs1)
    ∧ @NormalizeKubeRequestLog R2 _ _ _ _ l2 = Some (l2', errs2)
    ∧ view l1' = view l2'
    ∧ ∀ pretty, @FormatHTTP R1 _ l1' pretty = @FormatHTTP R2 _ l2' pretty.
Proof using codec.
  intros Hw1 Hw2 Hs Hp Hφ.
  destruct (NormalizeKubeRequestLog_alike (R1 := R1) (R2 := R2) φ l1 l2 vs) as (l1' & e1 & l2' & e2 & E1 & E2 & HV).
  - done.
  - done.
  - eapply list.Forall2_impl; [exact Hs|]. apply entry_alike_similar.
  - by apply exchange_parallel.
  - intros x y Hx Hy. by apply Hφ; apply versionsOf_occurs.
  - exists l1', e1, l2', e2. split_and!; [done..|]. intros pretty. by apply FormatHTTP_view.
Qed.

End determinism.

(* ------------------------------------------------------------------ *)
(** ** Examples *)

(** A codec for objects with nothing but metadata whose fields are strings: the
    text is a brace and a number. *)
Definition metadataOnly (x : gmap string string) : jmap := {["metadata" := JObj (JStr <$> x)]}.
Definition stringsOf (m : jmap) : gmap string string :=
  match m !! "metadata" with Some (JObj x) => omap jstr x | _ => ∅ end.
Definition example_text (x : gmap string string) : string := "{" +:+ pretty (Npos (encode x)).
Definition example_decode (b : string) : res json :=
  match strings.strip b "{" with
  | Some ds =>
      match digits 0 ds with
      | Some (Npos p) =>
          match decode p : option (gmap string string) with
          | Some x => Ok (JObj (metadataOnly x))
          | None => Err (Errorf "invalid")
          end
      | _ => Err (Errorf "invalid")
      end
  | None => Err (Errorf "invalid")
  end.
Definition example_encode (v : json) : res string :=
  match v with
  | JObj m => if DeepEqual (JObj m) (JObj (metadataOnly (stringsOf m))) then Ok (example_text (stringsOf m))
              else Err (Errorf "unsupported")
  | _ => Err (Errorf "unsupported")
  end.

Definition example_codec : RecorderLibs := {|
  json_UnmarshalAny := example_decode;
  json_MarshalIndent := example_encode;
  yaml_UnmarshalObject _ := Err (Errorf "unsupported");
  json_MarshalObject _ := Err (Errorf "unsupported")
|}.
(** The managers of an object are one text, manager@time. *)
Definition example_ephemeral : EphemeralMeta := {|
  u_GetUID m := str_at m ["metadata"; "uid"];
  managedFieldsEntry := string;
  u_GetManagedFields m :=
    match m !! "metadata" with
    | Some (JObj x) => match x !! "managedFields" with Some (JStr s) => Some [s] | _ => None end
    | _ => None
    end;
  u_SetManagedFields fs m := set_meta "managedFields" (JStr (default "" (head fs))) m;
  mf_setTime t e := (strings.Cut "@" e).1.1 +:+ "@" +:+ t
|}.
#[local] Existing Instances example_unstructured example_metaops example_codec example_ephemeral.

Lemma stringsOf_metadataOnly x : stringsOf (metadataOnly x) = x.
Proof.
  unfold stringsOf, metadataOnly. rewrite lookup_singleton_eq.
  apply map_eq. intros k. rewrite lookup_omap, lookup_fmap. by destruct (x !! k).
Qed.

Lemma example_decode_text x : example_decode (example_text x) = Ok (JObj (metadataOnly x)).
Proof.
  unfold example_decode, example_text.
  change (strings.strip ("{" +:+ pretty (Npos (encode x))) "{") with (strings.strip (pretty (Npos (encode x))) "").
  assert (∀ t, strings.strip t "" = Some t) as -> by (by intros []).
  by rewrite digits_pretty, decode_encode.
Qed.

Lemma example_decoded v : decoded v → ∃ x, v = JObj (metadataOnly x).
Proof.
  intros [b Hb]. cbn in Hb. unfold example_decode in Hb. repeat case_match; try done. injection Hb as <-. eauto.
Qed.
Lemma decoded_metadataOnly x : decoded (JObj (metadataOnly x)).
Proof. exists (example_text x). apply example_decode_text. Qed.

Lemma set_meta_metadataOnly f v x : set_meta f (JStr v) (metadataOnly x) = metadataOnly (<[f := v]> x).
Proof.
  unfold set_meta, metadataOnly. rewrite lookup_singleton_eq, insert_singleton_eq. by rewrite fmap_insert.
Qed.

Lemma set_meta_writer f v : field_writer f (set_meta f v).
Proof. exists (Some v). intros m x E. unfold set_meta. by rewrite E. Qed.

Lemma example_codec_ok : codec_ok.
Proof.
  split; cbn [json_MarshalIndent json_UnmarshalAny example_codec m_SetUID m_SetResourceVersion m_GetResourceVersion
    example_metaops u_SetNestedField example_unstructured u_GetUID u_GetManagedFields u_SetManagedFields
    example_ephemeral mf_setTime].
  - intros b v. unfold example_decode. destruct (strings.strip b "{") as [ds|] eqn:E; [|done].
    apply strip_spec in E. subst b. by split.
  - intros v [x ->]%example_decoded. exists (example_text x). split; [|apply example_decode_text].
    cbn [example_encode]. rewrite stringsOf_metadataOnly. by rewrite (proj2 (DeepEqual_eq _ _) eq_refl).
  - intros m b. cbn [example_encode]. destruct (DeepEqual _ _); [|done]. intros [= <-].
    unfold example_text. by destruct (pretty _).
  - intros m [x [= ->]]%example_decoded. rewrite set_meta_metadataOnly. apply decoded_metadataOnly.
  - intros m [x [= ->]]%example_decoded. unfold metadataOnly. cbn [setNestedField].
    rewrite lookup_singleton_eq. cbn [fst]. rewrite insert_singleton_eq, <-fmap_insert. apply decoded_metadataOnly.
  - intros m fs [x [= ->]]%example_decoded _. rewrite set_meta_metadataOnly. apply decoded_metadataOnly.
  - intros m s _ [x [= ->]]%example_decoded. rewrite set_meta_metadataOnly. apply decoded_metadataOnly.
  - done.
  - done.
  - intros m1 m2 [x1 E1] [x2 E2]. unfold meta. rewrite E1, E2. by intros ->.
  - intros m fs. destruct (m !! "metadata") as [[]|] eqn:E; try done. intros _. by eexists.
  - apply set_meta_writer.
  - exists (Some (JStr placeholderTime)). intros m x E. cbn [setNestedField]. by rewrite E.
  - intros m fs _. apply set_meta_writer.
  - intros s. apply set_meta_writer.
Qed.

(** Two runs: discovery in parallel, a document asked for by its hash, and a POST,
    against servers at different addresses that number versions differently. *)
Definition example_fields (uid created manager version : string) : gmap string string :=
  {["name" := "web"; "uid" := uid; "creationTimestamp" := created; "managedFields" := manager;
    "resourceVersion" := version]}.
Definition example_entry (method url : string) (req resp : nat) (reqBody status : string) (code : Z) (body : string) :
    LogEntry :=
  mkLogEntry (mkRequest method url (Some req) reqBody) (mkResponse status code (Some resp) body) "".
Definition example_log (host : string) (paths : list (string * string)) (hash date body : string) : RequestLog :=
  let get p := example_entry "GET" ("http://" +:+ host +:+ p.1) 0 1 "" "200 OK" 200 p.2 in
  let post := example_entry "POST" ("http://" +:+ host +:+ "/api/v1/namespaces/prod/configmaps") 0 1 body
                "201 Created" 201 body in
  let es := (get <$> paths) ++ [get ("/openapi/v3/apis/apps/v1?hash=" +:+ hash +:+ "&timeout=32s", "a document"); post] in
  mkRequestLog (list_to_map (imap pair es))
    {[0%nat := {["User-Agent" := ["test/" +:+ date]; "Accept" := ["json"]]};
      1%nat := {["Date" := [date]; "Etag" := [hash]; "Content-Type" := ["json"]]}]}
    (seq 0 (length es)).

Definition example_body1 : string := example_text (example_fields "a" "then" "kubectl@monday" "17").
Definition example_body2 : string := example_text (example_fields "b" "now" "kubectl@friday" "5").
Definition example_log1 : RequestLog :=
  example_log "127.0.0.1:8080" [("/apis", "long"); ("/api/v1", "longer")] "C0FFEE" "monday" example_body1.
Definition example_log2 : RequestLog :=
  example_log "10.0.0.9:443" [("/api/v1", "longest"); ("/apis", "short")] "BEEF" "friday" example_body2.
Definition example_mid : RequestLog :=
  example_log "10.0.0.9:443" [("/apis", "short"); ("/api/v1", "longest")] "BEEF" "friday" example_body2.

Lemma wf_check l :
  bool_decide (NoDup (entries l)) && bool_decide (Forall (λ p, p ∈ dom (heap l)) (entries l))
  && bool_decide (Forall (λ e, Forall (λ r, r ∈ dom (headers l)) (option_list e.2.1 ++ option_list e.2.2))
       (prod_map id refs <$> map_to_list (heap l))) = true → wf l.
Proof.
  intros H. bsimpl. rewrite list.Forall_fmap in H0.
  assert (∀ p e r, heap l !! p = Some e → (refs e).1 = Some r ∨ (refs e).2 = Some r → r ∈ dom (headers l)) as Hr.
  { intros p e r He Hr. rewrite list.Forall_forall in H0.
    specialize (H0 (p, e) (proj2 (elem_of_map_to_list _ _ _) He)). unfold compose, prod_map in H0. cbn [fst snd] in H0.
    rewrite list.Forall_forall in H0.
    apply H0, elem_of_app. destruct Hr as [-> | ->]; [left|right]; by left. }
  split; unfold ref_ok; [done| |eauto|eauto]. by rewrite list.Forall_forall in H1.
Qed.

(** What is checked by computing. *)
Lemma same_outside {V} `{EqDecision V} (ks : list string) (m1 m2 : gmap string V) :
  bool_decide (filter (λ kv, kv.1 ∉ ks) m1 = filter (λ kv, kv.1 ∉ ks) m2) = true →
  ∀ k, k ∉ ks → m1 !! k = m2 !! k.
Proof.
  intros E%bool_decide_eq_true k Hk. apply option_eq. intros v.
  pose proof (f_equal (λ m : gmap string V, m !! k = Some v) E) as H. cbv beta in H.
  assert (∀ m : gmap string V, filter (λ kv, kv.1 ∉ ks) m !! k = Some v ↔ m !! k = Some v) as Hf.
  { intros m. rewrite map_lookup_filter_Some. naive_solver. }
  by rewrite <-(Hf m1), <-(Hf m2), H.
Qed.

Lemma header_check h1 h2 :
  bool_decide (filter (λ kv, kv.1 ∉ ephemeralHeaders ++ versionHeaders) h1
               = filter (λ kv, kv.1 ∉ ephemeralHeaders ++ versionHeaders) h2)
  && forallb (λ k, bool_decide (h1 !! k = h2 !! k ∨ default [] (h1 !! k) ≠ [] ∧ default [] (h2 !! k) ≠ [])) versionHeaders
  = true → header_similar h1 h2.
Proof.
  intros [H1 H2]%andb_prop. split.
  - intros k Hk1 Hk2. apply (same_outside _ _ _ H1). rewrite elem_of_app. tauto.
  - intros k Hk. rewrite forallb_forall in H2. apply (bool_decide_eq_true_1 _), H2. by apply list_elem_of_In.
Qed.

Lemma example_objects :
  object_similar (λ z, z - 12)%Z (metadataOnly (example_fields "a" "then" "kubectl@monday" "17"))
    (metadataOnly (example_fields "b" "now" "kubectl@friday" "5")).
Proof.
  assert (∀ x, meta (metadataOnly x) = JStr <$> x) as Hmeta
    by (intros x; unfold meta, metadataOnly; by rewrite lookup_singleton_eq).
  split; rewrite ?Hmeta.
  - split; eexists; apply lookup_singleton_eq.
  - done.
  - intros k Hk. rewrite !lookup_fmap. f_equal. revert k Hk. apply same_outside. vm_compute. reflexivity.
  - right. exists "a", "b". split_and!; try done; vm_compute; reflexivity.
  - split; intros _; vm_compute; eauto.
  - right. exists ["kubectl@monday"], ["kubectl@friday"]. split_and!; [vm_compute; reflexivity..|done].
  - pose proof (vs_some (λ z, z - 12)%Z 17 eq_refl eq_refl) as H. vm_compute in H |- *. exact H.
Qed.

Lemma example_bodies : body_similar (λ z, z - 12)%Z example_body1 example_body2.
Proof. eapply bs_object; [apply example_decode_text..|apply example_objects]. Qed.

(** A text that is not JSON. *)
Ltac no_json := apply bs_same; let m := fresh in intros m; vm_compute; discriminate.
Ltac long_document path := left; exists "http", "127.0.0.1:8080", path, ""; split; [by vm_compute|set_solver].

Lemma example_entries body1 body2 :
  body_similar (λ z, z - 12)%Z body1 body2 →
  Forall2 (entry_similar (λ z, z - 12)%Z)
    (view (example_log "127.0.0.1:8080" [("/apis", "long"); ("/api/v1", "longer")] "C0FFEE" "monday" body1))
    (view (example_log "10.0.0.9:443" [("/apis", "short"); ("/api/v1", "longest")] "BEEF" "friday" body2)).
Proof.
  intros Hb. repeat first [apply list.Forall2_nil_2|apply list.Forall2_cons; split].
  all: split; [reflexivity| |apply header_check; vm_compute; reflexivity| |reflexivity|reflexivity
    |apply header_check; vm_compute; reflexivity| |reflexivity].
  1, 4, 10: eapply (us_server _ _ _ "http" "10.0.0.9:443"); vm_compute; reflexivity.
  1, 3, 6: no_json.
  1: long_document "apis".
  1: long_document "api/v1".
  - apply (us_hash _ _ "http" "127.0.0.1:8080" "http" "10.0.0.9:443" "openapi/v3/apis/apps/v1"
      "hash=C0FFEE&timeout=32s" "hash=BEEF&timeout=32s"); by vm_compute.
  - right. no_json.
  - exact Hb.
  - right. exact Hb.
Qed.

Lemma example_exchange body :
  rtsc exchange
    (view (example_log "10.0.0.9:443" [("/apis", "short"); ("/api/v1", "longest")] "BEEF" "friday" body))
    (view (example_log "10.0.0.9:443" [("/api/v1", "longest"); ("/apis", "short")] "BEEF" "friday" body)).
Proof.
  apply rtc_once. left. apply (exchange_swap [] _ _ _ "/apis" "/api/v1"); [| |done].
  - split; [reflexivity|]. split; [|left; set_solver]. exists "http", "10.0.0.9:443", "apis", "". by vm_compute.
  - split; [reflexivity|]. split; [|left; set_solver]. exists "http", "10.0.0.9:443", "api/v1", "". by vm_compute.
Qed.

Lemma NormalizeKubeRequestLog_deterministic_witness :
  ∃ l1' errs1 l2' errs2,
    @NormalizeKubeRequestLog canonical_range _ _ _ _ example_log1 = Some (l1', errs1)
    ∧ @NormalizeKubeRequestLog reversed_range _ _ _ _ example_log2 = Some (l2', errs2)
    ∧ view l1' = view l2'
    ∧ ∀ pretty, @FormatHTTP canonical_range _ l1' pretty = @FormatHTTP reversed_range _ l2' pretty.
Proof.
  apply (NormalizeKubeRequestLog_deterministic example_codec_ok (λ z, z - 12)%Z example_log1 example_log2
    (view example_mid)).
  - apply wf_check. vm_compute. reflexivity.
  - apply wf_check. vm_compute. reflexivity.
  - apply example_entries, example_bodies.
  - apply example_exchange.
  - intros x y _ _ ?. lia.
Defined.

End normalize.
