(* ===== verification/Utils.v ===== *)
(** * DNS addresses of a cluster (utils/utils.go)

    The address of the DNS service is the ninth after the address of the
    kubernetes Service. Addresses are parsed and written by Go's net package,
    as sixteen bytes. *)

From S2P Require Import Prelude Kube NetURL.
From stdpp Require Import pretty options.
Import url strconv.

Module utils.

(** ** Addresses (net, net/netip) *)

(** The field of an IPv4 address: one to three digits, no leading zero, at most
    255. *)
Definition ipv4Field (s : string) : option Z :=
  match s with
  | "" => None
  | String c s' =>
      if (3 <? String.length s)%nat then None
      else if bool_decide (c = "0"%char) && negb (bool_decide (s' = "")) then None
      else
        match digits 0 s with
        | Some n => if (n <=? 255)%N then Some (Z.of_N n) else None
        | None => None
        end
  end.

(** parseIPv4Fields. *)
Definition parseIPv4 (s : string) : option (list Z) :=
  match strings.Split "." s with
  | [a; b; c; d] =>
      a ← ipv4Field a; b ← ipv4Field b; c ← ipv4Field c; d ← ipv4Field d; Some [a; b; c; d]
  | _ => None
  end.

(** The hexadecimal digits a text begins with, their value, and what follows. *)
Fixpoint hexPrefix (acc : Z) (off : nat) (s : string) : Z * nat * string :=
  match s with
  | String c s' => if ishex c then hexPrefix (acc * 16 + Z.of_N (unhex c)) (S off) s' else (acc, off, s)
  | "" => (acc, off, s)
  end.

(** The loop of parseIPv6 on the rest [s], after the bytes [ip]; [ellipsis] is
    where the double colon was. Every round reads two bytes or ends. *)
Fixpoint ipv6Loop (fuel : nat) (s : string) (ip : list Z) (ellipsis : option nat) :
    option (string * list Z * option nat) :=
  match fuel with
  | O => Some (s, ip, ellipsis)
  | S fuel =>
      let '(acc, off, rest) := hexPrefix 0 0 s in
      if (4 <? off)%nat || (off =? 0)%nat then None
      else if strings.HasPrefix rest "." then
        if bool_decide (ellipsis = None) && negb (length ip =? 12)%nat then None
        else if (16 <? length ip + 4)%nat then None
        else v4 ← parseIPv4 s; Some ("", ip ++ v4, ellipsis)
      else
        let ip := ip ++ [acc / 256; acc mod 256]%Z in
        match rest with
        | "" => Some ("", ip, ellipsis)
        | String c s' =>
            if negb (bool_decide (c = ":"%char)) || bool_decide (s' = "") then None
            else if strings.HasPrefix s' ":" then
              if bool_decide (ellipsis = None) then
                let s'' := strings.TrimPrefix s' ":" in
                if decide (s'' = "") then Some ("", ip, Some (length ip))
                else ipv6Loop fuel s'' ip (Some (length ip))
              else None
            else ipv6Loop fuel s' ip ellipsis
        end
  end.

Definition parseIPv6 (s : string) : option (list Z) :=
  let start := strings.HasPrefix s "::" in
  let body := if start then strings.TrimPrefix s "::" else s in
  if start && bool_decide (body = "") then Some (replicate 16 0%Z)
  else
    r ← ipv6Loop 8 body [] (if start then Some 0%nat else None);
    let '(rest, ip, ellipsis) := r in
    if negb (bool_decide (rest = "")) then None
    else if (length ip <? 16)%nat then
      match ellipsis with
      | None => None
      | Some e => Some (take e ip ++ replicate (16 - length ip) 0%Z ++ drop e ip)
      end
    else if bool_decide (ellipsis = None) then Some ip else None.

Definition v4InV6Prefix : list Z := [0; 0; 0; 0; 0; 0; 0; 0; 0; 0; 255; 255]%Z.

(** Which of the two forms the first dot or colon announces. *)
Fixpoint addressForm (s : string) : option bool :=
  match s with
  | "" => None
  | String c s' =>
      if bool_decide (c = "."%char) then Some true
      else if bool_decide (c = ":"%char) then Some false
      else if bool_decide (c = "%"%char) then None
      else addressForm s'
  end.

(** [net.ParseIP]: sixteen bytes, or nil; an address with a zone is refused. *)
Definition ParseIP (s : string) : option (list Z) :=
  if strings.Contains s "%" then None
  else
    match addressForm s with
    | Some true => v4 ← parseIPv4 s; Some (v4InV6Prefix ++ v4)
    | Some false => parseIPv6 s
    | None => None
    end.

(** The groups of sixteen bits of an address. *)
Fixpoint groups (ip : list Z) : list Z :=
  match ip with
  | hi :: lo :: ip => (hi * 256 + lo)%Z :: groups ip
  | _ => []
  end.

(** The zeros a list of groups begins with. *)
Fixpoint zeros (gs : list Z) : nat :=
  match gs with
  | g :: gs => if (g =? 0)%Z then S (zeros gs) else 0
  | [] => 0
  end.

(** The longest run of zeros: where it begins and its length; the first of the
    longest. *)
Fixpoint longestZeros (i : nat) (gs : list Z) (best : nat * nat) : nat * nat :=
  match gs with
  | [] => best
  | _ :: gs' => longestZeros (S i) gs' (if (best.2 <? zeros gs)%nat then (i, zeros gs) else best)
  end.

Fixpoint hexOf (fuel : nat) (v : Z) (acc : string) : string :=
  match fuel with
  | O => acc
  | S fuel =>
      let d := Z.to_N (v mod 16) in
      let acc := String (if (d <? 10)%N then ascii_of_N (48 + d) else ascii_of_N (87 + d)) acc in
      if (v / 16 =? 0)%Z then acc else hexOf fuel (v / 16) acc
  end.

Definition hexGroups (gs : list Z) : string := strings.Join ((λ g, hexOf 4 g "") <$> gs) ":".

Definition IP_String (ip : list Z) : string :=
  if decide (take 12 ip = v4InV6Prefix) then strings.Join (pretty <$> drop 12 ip) "."
  else
    let gs := groups ip in
    let '(start, len) := longestZeros 0 gs (0, 0)%nat in
    if (len <? 2)%nat then hexGroups gs
    else hexGroups (take start gs) +:+ "::" +:+ hexGroups (drop (start + len) gs).

(** ** utils.go *)

Definition dnsDomain : string := "cluster.local".
Definition dnsIP : string := "10.96.0.10".

(** The answers of the client to a Get of a Service: its ClusterIP, or an
    error. *)
Inductive getError := NotFound | OtherError (e : error).

(** getKubernetesService. *)
Definition getKubernetesService (Get : NamespacedName → string + getError) : string + getError :=
  Get (mkNN "default" "kubernetes").

(** [ip[len(ip)-1] += 9] on bytes. *)
Definition addNine (ip : list Z) : list Z :=
  alter (λ b, (b + 9) mod 256)%Z (length ip - 1)%nat ip.

Definition FindDNSClusterIP (Get : NamespacedName → string + getError) : res string :=
  match getKubernetesService Get with
  | inr (OtherError err) => Err err
  | inr NotFound => Ok dnsIP
  | inl clusterIP =>
      match ParseIP clusterIP with
      | None => Err (Errorf ("cannot parse kubernetes ClusterIP " +:+ clusterIP))
      | Some ip => Ok (IP_String (addNine ip))
      end
  end.

Definition GetDNSDomain (LookupCNAME : string → res string) : string :=
  let svc := "kubernetes.default.svc" in
  match LookupCNAME svc with
  | Err _ => dnsDomain
  | Ok cname => strings.TrimSuffix (strings.TrimPrefix (strings.TrimPrefix cname svc) ".") "."
  end.

(* ------------------------------------------------------------------ *)
(** ** Correctness *)

Definition octet (z : Z) : Prop := (0 <= z < 256)%Z.
Definition dotted (a b c d : Z) : string := pretty a +:+ "." +:+ pretty b +:+ "." +:+ pretty c +:+ "." +:+ pretty d.

(** An address of four bytes as a number. *)
Definition number (a b c d : Z) : Z := (((a * 256 + b) * 256 + c) * 256 + d)%Z.

Example addresses :
  (λ s, IP_String <$> ParseIP s) <$>
    ["10.96.0.1"; "::1"; "fd00:0:0:1::1"; "2001:db8::"; "::ffff:10.0.0.1"; "1:2:3:4:5:6:7:8"; "::";
     "10.0.0.01"; "10.0.0.256"; "1.2.3"; "1::2::3"; "fe80::1%eth0"; "None"; ""; "1:2:3:4:5:6:7:8:9"; "::1.2.3.4"] =
    [Some "10.96.0.1"; Some "::1"; Some "fd00:0:0:1::1"; Some "2001:db8::"; Some "10.0.0.1"; Some "1:2:3:4:5:6:7:8";
     Some "::"; None; None; None; None; None; None; None; None; Some "::102:304"].
Proof. vm_compute. reflexivity. Qed.

(** *** Texts of bytes *)

Definition octetText (z : Z) : bool :=
  bool_decide (ipv4Field (pretty z) = Some z) && strings.free_of "." (pretty z)
  && strings.free_of ":" (pretty z) && strings.free_of "%" (pretty z).

Lemma octet_text z : octet z → octetText z = true.
Proof.
  intros Hz. assert (forallb octetText (seqZ 0 256) = true) as H by (vm_compute; reflexivity).
  rewrite forallb_forall in H. apply H, list_elem_of_In, elem_of_seqZ. unfold octet in Hz. lia.
Qed.

Lemma octet_spec z : octet z →
  ipv4Field (pretty z) = Some z ∧ strings.free_of "." (pretty z) ∧ strings.free_of ":" (pretty z)
  ∧ strings.free_of "%" (pretty z).
Proof.
  intros H%octet_text. unfold octetText in H. bsimpl. split_and!; [done|by rewrite H2|by rewrite H1|by rewrite H0].
Qed.

Lemma Contains_free c s : strings.free_of c s → strings.Contains s (String c "") = false.
Proof.
  induction s as [|a s IH]; [done|]. cbn [strings.free_of]. intros [H1 H2]%andb_prop_elim.
  cbn [strings.Contains strings.HasPrefix]. rewrite IH by done.
  apply bool_decide_unpack in H1. rewrite bool_decide_false by congruence. done.
Qed.

Lemma addressForm_dot s t :
  strings.free_of "." s → strings.free_of ":" s → strings.free_of "%" s → addressForm (s +:+ "." +:+ t) = Some true.
Proof.
  induction s as [|a s IH]; [done|]. cbn [strings.free_of].
  intros [H1%bool_decide_unpack H1']%andb_prop_elim [H2%bool_decide_unpack H2']%andb_prop_elim
    [H3%bool_decide_unpack H3']%andb_prop_elim.
  rewrite string_app_cons. cbn [addressForm]. rewrite !bool_decide_false by done. by apply IH.
Qed.

Lemma Split_dot s t : strings.free_of "." s → strings.Split "." (s +:+ "." +:+ t) = s :: strings.Split "." t.
Proof. apply (Split_app "."). Qed.

Lemma parseIPv4_dotted a b c d :
  octet a → octet b → octet c → octet d → parseIPv4 (dotted a b c d) = Some [a; b; c; d].
Proof.
  intros (Ea & Fa & _)%octet_spec (Eb & Fb & _)%octet_spec (Ec & Fc & _)%octet_spec (Ed & Fd & _)%octet_spec.
  unfold parseIPv4, dotted. rewrite !Split_dot by done. rewrite Split_free by done. cbn.
  rewrite Ea, Eb, Ec, Ed. done.
Qed.

Lemma ParseIP_dotted a b c d :
  octet a → octet b → octet c → octet d → ParseIP (dotted a b c d) = Some (v4InV6Prefix ++ [a; b; c; d]).
Proof.
  intros Ha Hb Hc Hd. unfold ParseIP.
  assert (strings.free_of "%" (dotted a b c d)) as Hp.
  { unfold dotted. rewrite !free_of_app.
    destruct (octet_spec a Ha) as (_ & _ & _ & ?), (octet_spec b Hb) as (_ & _ & _ & ?),
      (octet_spec c Hc) as (_ & _ & _ & ?), (octet_spec d Hd) as (_ & _ & _ & ?).
    repeat (apply andb_prop_intro; split; [done|]). done. }
  rewrite (Contains_free _ _ Hp). unfold dotted at 1.
  destruct (octet_spec a Ha) as (_ & F1 & F2 & F3). rewrite addressForm_dot by done.
  by rewrite parseIPv4_dotted.
Qed.

(** *** Every address is sixteen bytes *)

Lemma ipv4Field_octet s z : ipv4Field s = Some z → octet z.
Proof.
  unfold ipv4Field, octet. destruct s as [|c s]; [done|].
  destruct (3 <? _)%nat; [done|]. destruct (_ && _); [done|]. destruct (digits 0 _) as [n|]; [|done].
  destruct (n <=? 255)%N eqn:E; [|done]. intros [= <-]. apply N.leb_le in E. lia.
Qed.

Lemma parseIPv4_octets s ip : parseIPv4 s = Some ip → length ip = 4%nat ∧ Forall octet ip.
Proof.
  unfold parseIPv4. intros H. repeat case_match; try done. apply bind_Some in H as (a & Ha & H).
  apply bind_Some in H as (b & Hb & H). apply bind_Some in H as (c & Hc & H). apply bind_Some in H as (d & Hd & H).
  injection H as <-. split; [done|]. repeat constructor; by eapply ipv4Field_octet.
Qed.

Lemma unhex_bound c : ishex c = true → (unhex c < 16)%N.
Proof.
  unfold ishex, unhex, isDigit, between. intros H.
  destruct ((48 <=? byteOf c)%N && (byteOf c <=? 57)%N) eqn:E1.
  { apply andb_prop in E1 as [?%N.leb_le ?%N.leb_le]. lia. }
  destruct ((97 <=? byteOf c)%N && (byteOf c <=? 102)%N) eqn:E2.
  { apply andb_prop in E2 as [?%N.leb_le ?%N.leb_le]. lia. }
  destruct ((65 <=? byteOf c)%N && (byteOf c <=? 70)%N) eqn:E3; [|done].
  apply andb_prop in E3 as [?%N.leb_le ?%N.leb_le]. lia.
Qed.

Lemma hexPrefix_bound s acc off v off' rest :
  (0 <= acc < 16 ^ Z.of_nat off)%Z → hexPrefix acc off s = (v, off', rest) → (0 <= v < 16 ^ Z.of_nat off')%Z.
Proof.
  revert acc off. induction s as [|c s IH]; intros acc off Hacc; cbn; [by intros [= <- <- _]|].
  destruct (ishex c) eqn:E; [|by intros [= <- <- _]]. apply IH.
  pose proof (unhex_bound c E). rewrite Nat2Z.inj_succ, Z.pow_succ_r by lia. lia.
Qed.

Lemma group_octets v off : (off <= 4)%nat → (0 <= v < 16 ^ Z.of_nat off)%Z → Forall octet [v / 256; v mod 256]%Z.
Proof.
  intros Hoff Hv. assert (v < 65536)%Z.
  { assert (16 ^ Z.of_nat off <= 16 ^ 4)%Z by (apply Z.pow_le_mono_r; lia). lia. }
  repeat constructor; unfold octet.
  - apply Z.div_pos; lia.
  - apply Z.div_lt_upper_bound; lia.
  - apply Z.mod_pos_bound. lia.
  - apply Z.mod_pos_bound. lia.
Qed.

Lemma ipv6Loop_octets fuel s ip e rest ip' e' :
  Forall octet ip → (length ip + 2 * fuel <= 16)%nat → (∀ i, e = Some i → (i <= length ip)%nat) →
  ipv6Loop fuel s ip e = Some (rest, ip', e') →
  Forall octet ip' ∧ (length ip' <= 16)%nat ∧ ∀ i, e' = Some i → (i <= length ip')%nat.
Proof.
  revert s ip e. induction fuel as [|fuel IH]; intros s ip e Hip Hlen He; cbn [ipv6Loop].
  { intros [= <- <- <-]. split_and!; [done|lia|done]. }
  destruct (hexPrefix 0 0 s) as [[v off] r] eqn:Eh.
  apply hexPrefix_bound in Eh; [|cbn; lia].
  destruct ((4 <? off)%nat || (off =? 0)%nat) eqn:Eoff; [done|].
  apply orb_false_elim in Eoff as [Eoff%Nat.ltb_ge _].
  destruct (strings.HasPrefix r ".").
  { destruct (_ && _); [done|]. destruct (16 <? _)%nat eqn:E16; [done|]. apply Nat.ltb_ge in E16.
    intros (v4 & [Hl Hv]%parseIPv4_octets & H)%bind_Some. injection H as <- <- <-.
    split_and!; [by apply list.Forall_app|rewrite length_app; lia|]. intros i Hi%He. rewrite length_app. lia. }
  assert (Forall octet (ip ++ [v / 256; v mod 256]%Z)) as Hip'.
  { apply list.Forall_app. split; [done|]. by eapply group_octets. }
  assert (length (ip ++ [v / 256; v mod 256]%Z) = length ip + 2)%nat as Hlen' by by rewrite length_app.
  cbv zeta. set (ip2 := ip ++ _) in *. clearbody ip2.
  assert (∀ i, e = Some i → (i <= length ip2)%nat) as He2 by (intros i Hi%He; lia).
  destruct r as [|c s'].
  { intros [= <- <- <-]. split_and!; [done|lia|done]. }
  destruct (_ || _); [done|]. destruct (strings.HasPrefix s' ":").
  - destruct (bool_decide (e = None)); [|done]. destruct (decide _).
    + intros [= <- <- <-]. split_and!; [done|lia|]. by intros i [= <-].
    + apply IH; [done|lia|]. by intros i [= <-].
  - apply IH; [done|lia|done].
Qed.

(** net.ParseIP gives nothing or sixteen bytes, whatever the text: the last
    byte that FindDNSClusterIP increments is there. *)
Lemma ParseIP_bytes s ip : ParseIP s = Some ip → length ip = 16%nat ∧ Forall octet ip.
Proof.
  unfold ParseIP. destruct (strings.Contains s "%"); [done|].
  destruct (addressForm s) as [[|]|]; [| |done].
  - intros (v4 & [Hl Hv]%parseIPv4_octets & H)%bind_Some. injection H as <-. cbn. rewrite Hl. split; [done|].
    repeat (constructor; [unfold octet; lia|]). done.
  - unfold parseIPv6. destruct (_ && _).
    { intros [= <-]. split; [done|]. apply (list.Forall_replicate octet 16). unfold octet. lia. }
    intros ([[rest ip'] e] & H & H')%bind_Some.
    apply ipv6Loop_octets in H as (Ho & Hl & He); [|constructor|cbn; lia|].
    2:{ intros i. destruct (strings.HasPrefix s "::"); [|done]. intros [= <-]. cbn. lia. }
    destruct (negb _); [done|]. destruct (length ip' <? 16)%nat eqn:E.
    + destruct e as [i|]; [|done]. specialize (He i eq_refl). apply Nat.ltb_lt in E. injection H' as <-. split.
      * rewrite !length_app, length_replicate, length_take, length_drop. lia.
      * rewrite !list.Forall_app. split_and!; [by apply list.Forall_take| |by apply list.Forall_drop].
        apply list.Forall_replicate. unfold octet. lia.
    + apply Nat.ltb_ge in E. destruct (bool_decide _); [|done]. injection H' as <-. split; [lia|done].
Qed.

(** *** The address of the DNS service *)

Lemma addNine_v4 a b c d :
  IP_String (addNine (v4InV6Prefix ++ [a; b; c; d])) = dotted a b c ((d + 9) mod 256).
Proof. reflexivity. Qed.

(** C38. For a kubernetes Service with an IPv4 address, FindDNSClusterIP answers
    the address nine further on, as long as the last byte is at most 246; above,
    the byte wraps around and the address is 247 below the Service, outside a
    subnet that begins there. *)
Theorem FindDNSClusterIP_ipv4 Get a b c d :
  octet a → octet b → octet c → octet d → Get (mkNN "default" "kubernetes") = inl (dotted a b c d) →
  ∃ d', FindDNSClusterIP Get = Ok (dotted a b c d') ∧ octet d'
    ∧ number a b c d' = (number a b c d + if decide (d <= 246)%Z then 9 else - 247)%Z.
Proof.
  intros Ha Hb Hc Hd HG. exists ((d + 9) mod 256)%Z. split_and!.
  - unfold FindDNSClusterIP, getKubernetesService. rewrite HG, ParseIP_dotted by done. by rewrite addNine_v4.
  - apply Z.mod_pos_bound. lia.
  - unfold number, octet in *. case_decide.
    + rewrite Z.mod_small by lia. lia.
    + replace ((d + 9) mod 256)%Z with (d - 247)%Z; [lia|].
      apply (Z.mod_unique _ _ 1); lia.
Qed.

(** FindDNSClusterIP on every answer of the client: an error other than not
    found is returned, a missing Service gives the default address, a ClusterIP
    that is no address (a headless Service has None) is an error, and any other
    address comes back with its last byte, which exists, advanced by nine. *)
Theorem FindDNSClusterIP_cases Get :
  match Get (mkNN "default" "kubernetes") with
  | inr (OtherError err) => FindDNSClusterIP Get = Err err
  | inr NotFound => FindDNSClusterIP Get = Ok "10.96.0.10"
  | inl clusterIP =>
      match ParseIP clusterIP with
      | None => is_Ok (FindDNSClusterIP Get) = false
      | Some ip => ∃ front last, ip = front ++ [last] ∧ length front = 15%nat
          ∧ FindDNSClusterIP Get = Ok (IP_String (front ++ [(last + 9) mod 256]%Z))
      end
  end.
Proof.
  unfold FindDNSClusterIP, getKubernetesService.
  destruct (Get (mkNN "default" "kubernetes")) as [clusterIP|[|err]]; [|done|done].
  destruct (ParseIP clusterIP) as [ip|] eqn:E; [|done].
  apply ParseIP_bytes in E as [Hl _].
  destruct (exists_last (l := ip)) as (front & b & ->); [by destruct ip|].
  rewrite length_app in Hl. cbn in Hl. exists front, b. split_and!; [done|lia|].
  unfold addNine. rewrite length_app. cbn [length]. replace (length front + 1 - 1)%nat with (length front + 0)%nat by lia.
  by rewrite alter_app_r.
Qed.


Lemma rev_snoc s c acc : strings.rev_string (s +:+ String c "") acc = String c (strings.rev_string s acc).
Proof. revert acc. induction s as [|a s IH]; intros acc; [done|]. cbn. apply IH. Qed.

Lemma substring_app s t : substring 0 (String.length s) (s +:+ t) = s.
Proof. induction s as [|a s IH]; [by destruct t|]. rewrite string_app_cons.
  cbn [String.length substring]. by rewrite IH. Qed.

Lemma TrimSuffix_snoc s c : strings.TrimSuffix (s +:+ String c "") (String c "") = s.
Proof.
  unfold strings.TrimSuffix, strings.HasSuffix. rewrite rev_snoc. cbn [strings.rev_string strings.HasPrefix].
  rewrite bool_decide_true by done. destruct (strings.HasPrefix (strings.rev_string s "") "") eqn:E.
  - rewrite string_length_app. cbn [String.length andb].
    replace (String.length s + 1 - 1)%nat with (String.length s) by lia. apply substring_app.
  - by destruct (strings.rev_string s "").
Qed.

(** GetDNSDomain: the domain that the canonical name of the kubernetes
    Service has, with the default where the name does not resolve. *)
Theorem GetDNSDomain_spec LookupCNAME :
  match LookupCNAME "kubernetes.default.svc" with
  | Err _ => GetDNSDomain LookupCNAME = "cluster.local"
  | Ok cname => ∀ domain, cname = "kubernetes.default.svc." +:+ domain +:+ "." → GetDNSDomain LookupCNAME = domain
  end.
Proof.
  unfold GetDNSDomain. destruct (LookupCNAME "kubernetes.default.svc") as [cname|]; [|done].
  intros domain ->.
  change ("kubernetes.default.svc." +:+ domain +:+ ".") with ("kubernetes.default.svc" +:+ ("." +:+ domain +:+ ".")).
  rewrite !TrimPrefix_app. apply TrimSuffix_snoc.
Qed.

Lemma FindDNSClusterIP_ipv4_witness :
  FindDNSClusterIP (λ _, inl "10.96.0.1") = Ok "10.96.0.10" ∧ FindDNSClusterIP (λ _, inl "10.0.0.249") = Ok "10.0.0.2".
Proof.
  destruct (FindDNSClusterIP_ipv4 (λ _, inl "10.96.0.1") 10 96 0 1) as (d & E & _ & Hd);
    [unfold octet; lia..|reflexivity|].
  destruct (FindDNSClusterIP_ipv4 (λ _, inl "10.0.0.249") 10 0 0 249) as (d' & E' & _ & Hd');
    [unfold octet; lia..|reflexivity|].
  unfold number in *. rewrite decide_True in Hd by lia. rewrite decide_False in Hd' by lia.
  assert (d = 10)%Z as -> by lia. assert (d' = 2)%Z as -> by lia. split; [exact E|exact E'].
Defined.

End utils.
