(* ===== verification/Typeinfo.v ===== *)
(** * The built-in schema and the tool that generates its metadata

    mockkubeapiserver/schemas/kubernetes_builtin_schema.go caches the schema
    of the built-in types; mockkubeapiserver/tools/generate-typeinfo/main.go
    derives the metadata file (the resource and the scope of every kind) from
    an OpenAPI document. The tool iterates over Go maps and its output is
    checked in, so the output must not depend on the order of iteration. *)

From S2P Require Import Prelude Kube GoLib NetURL.
From stdpp Require Import options.
Import slices url.

(** ** schemas *)

Module schemas.

Record SchemaMetaResource := mkResource {
  sr_Key : string;
  sr_Group : string;
  sr_Version : string;
  sr_Kind : string;
  sr_Resource : string;
  sr_Scope : string
}.

#[export] Instance SchemaMetaResource_eq_dec : EqDecision SchemaMetaResource.
Proof. solve_decision. Defined.

Record SchemaMeta := mkMeta { sm_Resources : list SchemaMetaResource }.

(** A schema: the parser of structured-merge-diff, and the metadata. *)
Record Schema (Parser : Type) := mkSchema { sc_Parser : Parser; sc_Meta : SchemaMeta }.
Arguments mkSchema {Parser} _ _.
Arguments sc_Parser {Parser} _.
Arguments sc_Meta {Parser} _.

Definition BuiltinKey : string := "kubernetes_builtin_schema".

Section cache.
Context {Parser : Type} (NewParser : string → res Parser) (Unmarshal : string → res SchemaMeta).
Context (kubernetesBuiltinSchemaYAML kubernetesBuiltinSchemaMetaYAML : string).

(** schemaCache.Get, on the map of the cache. *)
Definition Get (key : string) (schemas : gmap string (Schema Parser)) :
    res (Schema Parser) * gmap string (Schema Parser) :=
  match schemas !! key with
  | Some schema => (Ok schema, schemas)
  | None =>
      if decide (key ≠ BuiltinKey) then (Err (Errorf ("schema " +:+ key +:+ " not known")), schemas)
      else
        match wrapW "error parsing schema" (NewParser kubernetesBuiltinSchemaYAML) with
        | Err err => (Err err, schemas)
        | Ok parser =>
            match wrapW "error parsing schema metadata" (Unmarshal kubernetesBuiltinSchemaMetaYAML) with
            | Err err => (Err err, schemas)
            | Ok meta => let schema := mkSchema parser meta in (Ok schema, <[key := schema]> schemas)
            end
        end
  end.

Definition KubernetesBuiltInSchema : gmap string (Schema Parser) →
    res (Schema Parser) * gmap string (Schema Parser) := Get BuiltinKey.

(** A state of the cache that calls of [Get] reach. *)
Inductive cached : gmap string (Schema Parser) → Prop :=
  | cached_empty : cached ∅
  | cached_get key schemas : cached schemas → cached (Get key schemas).2.

Lemma cached_parsed schemas key schema : cached schemas → schemas !! key = Some schema →
  key = BuiltinKey ∧ NewParser kubernetesBuiltinSchemaYAML = Ok (sc_Parser schema)
  ∧ Unmarshal kubernetesBuiltinSchemaMetaYAML = Ok (sc_Meta schema).
Proof using.
  intros Hc. revert key schema. induction Hc as [|k schemas Hc IH]; intros key schema; [done|].
  unfold Get. destruct (schemas !! k) eqn:Ek; [apply IH|]. case_decide as Hk; [apply IH|].
  destruct (wrapW "error parsing schema" _) as [p|] eqn:Ep; [|apply IH].
  destruct (wrapW "error parsing schema metadata" _) as [m|] eqn:Em; [|apply IH]. cbn.
  rewrite lookup_insert_Some. intros [[<- <-]|[_ H]]; [|by apply IH].
  apply wrapW_Ok in Ep, Em. done.
Qed.

(** The cache of schemas: in every state it reaches, a call that succeeds
    answers the parser and the metadata of the embedded files, and every later
    call answers the same; only the built-in schema is known. *)
Theorem Get_stable schemas key schema schemas' key' :
  cached schemas → Get key schemas = (Ok schema, schemas') →
  key = BuiltinKey ∧ NewParser kubernetesBuiltinSchemaYAML = Ok (sc_Parser schema)
  ∧ Unmarshal kubernetesBuiltinSchemaMetaYAML = Ok (sc_Meta schema)
  ∧ Get key (Get key' schemas').2 = (Ok schema, (Get key' schemas').2).
Proof using.
  intros Hc HG. assert (schemas' !! key = Some schema) as Hl.
  { unfold Get in HG. destruct (schemas !! key) eqn:E; [by simplify_eq|]. case_decide; [done|].
    repeat case_match; simplify_eq. by rewrite lookup_insert_eq. }
  assert (cached schemas') as Hc' by (change schemas' with (Ok schema, schemas').2; rewrite <-HG; by constructor).
  destruct (cached_parsed _ _ _ Hc' Hl) as (-> & HP & HM). split_and!; [done..|].
  assert ((Get key' schemas').2 !! BuiltinKey = Some schema) as Hl'.
  { unfold Get. destruct (schemas' !! key') eqn:E; [done|]. case_decide as Hk; [done|].
    congruence. }
  unfold Get at 1. by rewrite Hl'.
Qed.

End cache.

Lemma Get_stable_witness :
  Get (λ _, Ok 1%nat) (λ _, Ok (mkMeta [])) "types" "meta" BuiltinKey
    {[BuiltinKey := mkSchema 1%nat (mkMeta [])]}
  = (Ok (mkSchema 1%nat (mkMeta [])), {[BuiltinKey := mkSchema 1%nat (mkMeta [])]}).
Proof.
  refine (proj2 (proj2 (proj2 (Get_stable (λ _, Ok 1%nat) (λ _, Ok (mkMeta [])) "types" "meta" ∅ BuiltinKey
    (mkSchema 1%nat (mkMeta [])) {[BuiltinKey := mkSchema 1%nat (mkMeta [])]} BuiltinKey _ _)))).
  - constructor.
  - reflexivity.
Defined.

End schemas.

(** ** generate-typeinfo *)

Module typeinfo.
Import schemas.

Record openapiGVK := mkOpenapiGVK { og_Group : string; og_Version : string; og_Kind : string }.

#[export] Instance openapiGVK_eq_dec : EqDecision openapiGVK.
Proof. solve_decision. Defined.
#[export] Instance openapiGVK_countable : Countable openapiGVK.
Proof.
  refine (inj_countable' (λ g, (og_Group g, og_Version g, og_Kind g)) (λ '(g, v, k), mkOpenapiGVK g v k) _).
  by intros [].
Defined.

Record openapiPathMethod := mkMethod {
  XKubernetesAction : string;
  pm_GroupVersionKind : option openapiGVK
}.
Record openapiPath := mkPath { path_Get : option openapiPathMethod }.
Record openapiDefinition := mkDefinition {
  def_Type : string;
  def_Properties : gmap string string;
  def_GroupVersionKind : list openapiGVK
}.
Record minOpenAPI := mkOpenAPI {
  Definitions : gmap string openapiDefinition;
  Paths : gmap string openapiPath
}.

(** [s[strings.LastIndex(s, "/")+1:]]. *)
Definition lastComponent (s : string) : string :=
  match LastCut "/" s with Some (_, t) => t | None => s end.

Definition RESTScopeNameNamespace : string := "namespace".
Definition RESTScopeNameRoot : string := "root".

(** The kind a path lists. *)
Definition listedKind (path : openapiPath) : option openapiGVK :=
  match path_Get path with
  | None => None
  | Some get => if decide (XKubernetesAction get ≠ "list") then None else pm_GroupVersionKind get
  end.

(** One round of the loop over the paths. *)
Definition addPath (pathInfo : gmap openapiGVK SchemaMetaResource) (p : string * openapiPath) :
    gmap openapiGVK SchemaMetaResource :=
  let '(u, path) := p in
  match listedKind path with
  | None => pathInfo
  | Some gvk =>
      let resource :=
        match pathInfo !! gvk with
        | Some resource => resource
        | None => mkResource "" "" "" "" (lastComponent u) RESTScopeNameRoot
        end in
      let resource :=
        if strings.Contains u "{namespace}" then
          mkResource (sr_Key resource) (sr_Group resource) (sr_Version resource) (sr_Kind resource)
            (sr_Resource resource) RESTScopeNameNamespace
        else resource in
      <[gvk := resource]> pathInfo
  end.

(** The definitions that are skipped. *)
Definition irregular : list string :=
  ["io.k8s.apimachinery.pkg.apis.meta.v1.APIResourceList"; "io.k8s.apimachinery.pkg.apis.meta.v1.APIGroup";
   "io.k8s.apimachinery.pkg.apis.meta.v1.APIVersions"; "io.k8s.apimachinery.pkg.apis.meta.v1.APIGroupList";
   "io.k8s.api.authorization.v1.LocalSubjectAccessReview"; "io.k8s.api.authorization.v1.SubjectAccessReview";
   "io.k8s.api.authorization.v1.SelfSubjectRulesReview"; "io.k8s.api.authorization.v1.SelfSubjectAccessReview";
   "io.k8s.api.authentication.v1.TokenReview"; "io.k8s.api.authentication.v1.TokenRequest";
   "io.k8s.apimachinery.pkg.apis.meta.v1.DeleteOptions"; "io.k8s.api.autoscaling.v1.Scale";
   "io.k8s.api.policy.v1.Eviction"; "io.k8s.apimachinery.pkg.apis.meta.v1.Status";
   "io.k8s.apimachinery.pkg.apis.meta.v1.WatchEvent"; "io.k8s.api.core.v1.Binding"].

(** The loop over the kinds of a definition. *)
Fixpoint definitionResources (pathInfo : gmap openapiGVK SchemaMetaResource) (k : string)
    (gvks : list openapiGVK) : res (list SchemaMetaResource) :=
  match gvks with
  | [] => Ok []
  | gvk :: gvks =>
      match pathInfo !! gvk with
      | None =>
          let withoutList :=
            mkOpenapiGVK (og_Group gvk) (og_Version gvk) (strings.TrimSuffix (og_Kind gvk) "List") in
          if decide (is_Some (pathInfo !! withoutList)) then definitionResources pathInfo k gvks
          else Err (Errorf ("key " +:+ k +:+ " not found in paths"))
      | Some fromPaths =>
          rest ← definitionResources pathInfo k gvks;
          Ok (mkResource k (og_Group gvk) (og_Version gvk) (og_Kind gvk) (sr_Resource fromPaths) (sr_Scope fromPaths)
                :: rest)
      end
  end.

Definition ofDefinition (pathInfo : gmap openapiGVK SchemaMetaResource) (d : string * openapiDefinition) :
    res (list SchemaMetaResource) :=
  if decide (d.1 ∈ irregular) then Ok []
  else definitionResources pathInfo d.1 (def_GroupVersionKind d.2).

Section run.
Context `{RangeOrder, SliceSort}.

Definition pathInfoOf (schema : minOpenAPI) : gmap openapiGVK SchemaMetaResource :=
  foldl addPath ∅ (range (Paths schema)).

(** The resources, sorted by key; the first definition that fails ends the
    loop. *)
Definition resourcesOf (schema : minOpenAPI) : res (list SchemaMetaResource) :=
  rs ← res_mapM (ofDefinition (pathInfoOf schema)) (range (Definitions schema));
  Ok (sort_Slice (λ x y, string_lt (sr_Key x) (sr_Key y)) (concat rs)).

Definition newline : string := String (ascii_of_N 10) "".
Definition header : string := "# Generated by generate-typeinfo" +:+ newline +:+ newline.

(** run: the text that is written, on the files of the tool. *)
Definition run (readFile : string → res string) (json_Unmarshal : string → res minOpenAPI)
    (yaml_Marshal : SchemaMeta → res string) (writeFile : string → string → res ()) : res () :=
  b ← wrapW "error reading openapi.json" (readFile "openapi.json");
  schema ← wrapW "error parsing openapi.json" (json_Unmarshal b);
  resources ← resourcesOf schema;
  outBytes ← wrapW "error converting meta to yaml" (yaml_Marshal (mkMeta resources));
  wrapW "error writing file" (writeFile "../../kubernetes_builtin_schema.meta.yaml" (header +:+ outBytes)).

End run.

(* ------------------------------------------------------------------ *)
(** ** What the maps hold, whatever the order *)

(** The list paths of a kind, in the order visited. *)
Definition listPaths (gvk : openapiGVK) (ps : list (string * openapiPath)) : list string :=
  omap (λ p, if decide (listedKind p.2 = Some gvk) then Some p.1 else None) ps.

Definition scopeOf (us : list string) : string :=
  if existsb (λ u, strings.Contains u "{namespace}") us then RESTScopeNameNamespace else RESTScopeNameRoot.

Lemma listPaths_app gvk ps qs : listPaths gvk (ps ++ qs) = listPaths gvk ps ++ listPaths gvk qs.
Proof. apply omap_app. Qed.

(** The information about a kind: the resource of the first path, and the scope
    of all of them. *)
Lemma foldl_addPath ps gvk :
  foldl addPath ∅ ps !! gvk =
  match listPaths gvk ps with
  | [] => None
  | u :: us => Some (mkResource "" "" "" "" (lastComponent u) (scopeOf (u :: us)))
  end.
Proof.
  induction ps as [|[u path] ps IH] using rev_ind; [done|].
  rewrite foldl_app, listPaths_app. cbn [foldl]. set (m := foldl addPath ∅ ps) in *.
  unfold addPath, listPaths at 2. cbn [omap list_omap fst snd].
  destruct (listedKind path) as [g|] eqn:Eg; [|by rewrite decide_False, app_nil_r].
  destruct (decide (g = gvk)) as [->|Hne].
  2:{ rewrite decide_False by congruence. rewrite app_nil_r, lookup_insert_ne by done. done. }
  rewrite decide_True, lookup_insert_eq by done. rewrite IH. unfold scopeOf.
  destruct (listPaths gvk ps) as [|u0 us]; cbn.
  - destruct (strings.Contains u "{namespace}"); done.
  - rewrite existsb_app. cbn. destruct (strings.Contains u0 _), (existsb _ us), (strings.Contains u "{namespace}"); done.
Qed.

(** The scope generate-typeinfo finds for a kind does not depend on the
    order in which the paths are visited: a kind has information exactly when
    some path lists it, its scope is namespace exactly when one of those paths
    has a namespace in it, and its resource is the last component of one of
    them. *)
Theorem pathInfo_scope `{RangeOrder} schema gvk :
  match pathInfoOf schema !! gvk with
  | None => ∀ u path, Paths schema !! u = Some path → listedKind path ≠ Some gvk
  | Some r =>
      (∃ u path, Paths schema !! u = Some path ∧ listedKind path = Some gvk ∧ sr_Resource r = lastComponent u)
      ∧ (sr_Scope r = RESTScopeNameNamespace ↔
           ∃ u path, Paths schema !! u = Some path ∧ listedKind path = Some gvk
             ∧ strings.Contains u "{namespace}" = true)
      ∧ (sr_Scope r = RESTScopeNameNamespace ∨ sr_Scope r = RESTScopeNameRoot)
  end.
Proof.
  assert (∀ u, u ∈ listPaths gvk (range (Paths schema)) ↔
    ∃ path, Paths schema !! u = Some path ∧ listedKind path = Some gvk) as Hin.
  { intros u. unfold listPaths. rewrite list_elem_of_omap. split.
    - intros ([u' path] & Hp%elem_of_range & Hd). case_decide; [|done]. simplify_eq. eauto.
    - intros (path & Hp & Hk). exists (u, path). split; [by apply elem_of_range|]. by rewrite decide_True. }
  unfold pathInfoOf. rewrite foldl_addPath.
  destruct (listPaths gvk (range (Paths schema))) as [|u us] eqn:E.
  - intros u path Hp Hk. assert (u ∈ []) as []%not_elem_of_nil. apply Hin. eauto.
  - cbn [sr_Resource sr_Scope]. split_and!.
    + destruct (proj1 (Hin u)) as (path & Hp & Hk); [by left|]. eauto.
    + unfold scopeOf. destruct (existsb _ (u :: us)) eqn:Ex.
      * split; [|done]. intros _. apply existsb_exists in Ex as (w & Hw%list_elem_of_In & Hc).
        destruct (proj1 (Hin w) Hw) as (path & Hp & Hk). eauto.
      * split; [done|]. intros (w & path & Hp & Hk & Hc).
        assert (existsb (λ u, strings.Contains u "{namespace}") (u :: us) = true); [|congruence].
        apply existsb_exists. exists w. split; [|done]. apply list_elem_of_In, Hin. eauto.
    + unfold scopeOf. destruct (existsb _ _); auto.
Qed.

(** *** The output is stable *)

(** A document in which the list paths of a kind end alike, and the definitions
    that are not skipped have at most one kind. *)
Record regular (schema : minOpenAPI) : Prop := {
  reg_paths u1 p1 u2 p2 gvk : Paths schema !! u1 = Some p1 → Paths schema !! u2 = Some p2 →
    listedKind p1 = Some gvk → listedKind p2 = Some gvk → lastComponent u1 = lastComponent u2;
  reg_kinds k d : Definitions schema !! k = Some d → k ∉ irregular → (length (def_GroupVersionKind d) <= 1)%nat
}.

Lemma existsb_perm {A} (f : A → bool) l k : l ≡ₚ k → existsb f l = existsb f k.
Proof. induction 1; cbn; [done|by rewrite IHPermutation|by rewrite !orb_assoc, (orb_comm (f y))|congruence]. Qed.

Lemma pathInfo_order (R1 R2 : RangeOrder) schema :
  regular schema → @pathInfoOf R1 schema = @pathInfoOf R2 schema.
Proof.
  intros Hr. apply map_eq. intros gvk. unfold pathInfoOf. rewrite !foldl_addPath.
  assert (listPaths gvk (@range R1 _ _ _ _ (Paths schema)) ≡ₚ listPaths gvk (@range R2 _ _ _ _ (Paths schema))) as Hp.
  { apply omap_Permutation. by rewrite !range_perm. }
  assert (∀ (R : RangeOrder) u, u ∈ listPaths gvk (@range R _ _ _ _ (Paths schema)) →
    ∃ path, Paths schema !! u = Some path ∧ listedKind path = Some gvk) as Hin.
  { intros R u ([u' path] & Hq%elem_of_range & Hd)%list_elem_of_omap. case_decide; [|done]. simplify_eq. eauto. }
  destruct (listPaths gvk (@range R1 _ _ _ _ (Paths schema))) as [|u us] eqn:E1.
  { apply Permutation_nil in Hp. by rewrite Hp. }
  destruct (listPaths gvk (@range R2 _ _ _ _ (Paths schema))) as [|w ws] eqn:E2.
  { symmetry in Hp. by apply Permutation_nil in Hp. }
  unfold scopeOf. rewrite (existsb_perm _ _ _ Hp). do 2 f_equal.
  destruct (Hin R1 u) as (p1 & Hp1 & Hk1); [rewrite E1; by left|].
  destruct (Hin R2 w) as (p2 & Hp2 & Hk2); [rewrite E2; by left|].
  by eapply (reg_paths _ Hr).
Qed.

Lemma definitionResources_keys pathInfo k gvks rs :
  definitionResources pathInfo k gvks = Ok rs → Forall (λ r, sr_Key r = k) rs ∧ (length rs <= length gvks)%nat.
Proof.
  revert rs. induction gvks as [|gvk gvks IH]; intros rs; cbn; [by intros [= <-]|].
  destruct (pathInfo !! gvk).
  - intros (rest & [Hk Hl]%IH & H)%bind_Ok. injection H as <-. split; [by constructor|cbn; lia].
  - case_decide; [|done]. intros [Hk Hl]%IH. split; [done|lia].
Qed.

Lemma ofDefinition_keys pathInfo d rs :
  ofDefinition pathInfo d = Ok rs → Forall (λ r, sr_Key r = d.1) rs.
Proof.
  unfold ofDefinition. case_decide; [by intros [= <-]|]. by intros [Hk _]%definitionResources_keys.
Qed.

Lemma res_mapM_Permutation {A B} (f : A → res B) l k ys :
  l ≡ₚ k → res_mapM f l = Ok ys → ∃ zs, res_mapM f k = Ok zs ∧ ys ≡ₚ zs.
Proof.
  intros Hp. rewrite res_mapM_Ok. intros HF.
  assert (∃ zs, Forall2 (λ x y, f x = Ok y) k zs ∧ ys ≡ₚ zs) as (zs & Hz & Hp').
  { revert ys HF. induction Hp as [|x l k _ IH|x y l|l k m _ IH1 _ IH2]; intros ys HF.
    - inversion HF; subst. by exists [].
    - inversion HF as [|? y' ? ys' Hx HF']; subst. destruct (IH ys' HF') as (zs & Hz & Hp).
      exists (y' :: zs). split; [by constructor|by constructor].
    - inversion HF as [|? a ? ys' Ha HF']; subst. inversion HF' as [|? b ? ys'' Hb HF'']; subst.
      exists (b :: a :: ys''). split; [by repeat constructor|constructor].
    - destruct (IH1 ys HF) as (zs & Hz & Hp1). destruct (IH2 zs Hz) as (ws & Hw & Hp2).
      exists ws. split; [done|by trans zs]. }
  exists zs. split; [by apply res_mapM_Ok|done].
Qed.

(** The keys of the resources are those of the definitions. *)
Lemma keys_of pathInfo (ds : list (string * openapiDefinition)) rs r :
  Forall2 (λ d rs, ofDefinition pathInfo d = Ok rs) ds rs → r ∈ concat rs → sr_Key r ∈ ds.*1.
Proof.
  intros HF. induction HF as [|d x ds rs Hd _ IH]; cbn; [set_solver|].
  apply ofDefinition_keys in Hd. rewrite list.Forall_forall in Hd. intros [Hx|Hx]%elem_of_app.
  - rewrite (Hd r Hx). left.
  - right. by apply IH.
Qed.

(** The resources of a regular document have distinct keys. *)
Lemma keys_unique pathInfo (ds : list (string * openapiDefinition)) rs :
  NoDup ds.*1 → Forall (λ d, d.1 ∉ irregular → (length (def_GroupVersionKind d.2) <= 1)%nat) ds →
  res_mapM (ofDefinition pathInfo) ds = Ok rs → NoDup (sr_Key <$> concat rs).
Proof.
  rewrite res_mapM_Ok. intros Hnd Hlen HF.
  induction HF as [|d r ds rs Hd HF IH]; cbn; [constructor|].
  cbn in Hnd. apply list.NoDup_cons in Hnd as [Hnot Hnd]. apply list.Forall_cons in Hlen as [Hd1 Hlen].
  rewrite fmap_app. apply list.NoDup_app. split_and!.
  - unfold ofDefinition in Hd. case_decide as Hirr; [injection Hd as <-; constructor|].
    apply definitionResources_keys in Hd as [_ Hl]. specialize (Hd1 Hirr).
    destruct r as [|a [|b r]]; cbn in *; [constructor|apply NoDup_singleton|lia].
  - intros k Hk Hk'. apply ofDefinition_keys in Hd. rewrite list.Forall_forall in Hd.
    apply list_elem_of_fmap in Hk as (x & -> & Hx). apply list_elem_of_fmap in Hk' as (y & E & Hy).
    rewrite (Hd x Hx) in E. apply Hnot. rewrite E. by eapply keys_of.
  - by apply IH.
Qed.

Lemma resources_order (R1 R2 : RangeOrder) (S1 S2 : SliceSort) schema rs :
  regular schema → @resourcesOf R1 S1 schema = Ok rs → @resourcesOf R2 S2 schema = Ok rs.
Proof.
  intros Hr. unfold resourcesOf. rewrite (pathInfo_order R2 R1 schema Hr).
  intros (xs & Hx & H)%bind_Ok. injection H as <-.
  assert (@range R1 _ _ _ _ (Definitions schema) ≡ₚ @range R2 _ _ _ _ (Definitions schema)) as Hp by by rewrite !range_perm.
  destruct (res_mapM_Permutation _ _ _ _ Hp Hx) as (ys & Hy & Hpy). rewrite Hy. cbn. f_equal.
  symmetry. apply sort_Slice_unique; [apply (strict_weak_string sr_Key)| |by rewrite Hpy].
  assert (NoDup (sr_Key <$> concat xs)) as Hnd.
  { eapply keys_unique; [| |exact Hx]; [apply NoDup_range_keys|]. apply list.Forall_forall.
    intros [k d] Hd%elem_of_range. by apply (reg_kinds _ Hr). }
  intros x y Hx1 Hy1 H1 H2. apply string_lt_ge in H1, H2.
  assert (sr_Key x = sr_Key y) as E by by apply (anti_symm String.le).
  clear -Hnd Hx1 Hy1 E. induction (concat xs) as [|z l IH]; [set_solver|]. cbn in Hnd.
  apply list.NoDup_cons in Hnd as [Hz Hnd]. apply elem_of_cons in Hx1 as [->|Hx1], Hy1 as [->|Hy1]; [done| | |by apply IH].
  - destruct Hz. rewrite E. by apply list_elem_of_fmap_2.
  - destruct Hz. rewrite <-E. by apply list_elem_of_fmap_2.
Qed.

(** The output of generate-typeinfo is stable: on a regular document the
    file it writes is the same whatever the order in which Go iterates over the
    maps of paths and of definitions, and whatever sort.Slice does. *)
Theorem run_stable (R1 R2 : RangeOrder) (S1 S2 : SliceSort) readFile json_Unmarshal yaml_Marshal writeFile :
  (∀ b schema, readFile "openapi.json" = Ok b → json_Unmarshal b = Ok schema → regular schema) →
  @run R1 S1 readFile json_Unmarshal yaml_Marshal writeFile = Ok () →
  @run R2 S2 readFile json_Unmarshal yaml_Marshal writeFile = Ok ()
  ∧ ∃ schema rs text, @resourcesOf R1 S1 schema = Ok rs ∧ @resourcesOf R2 S2 schema = Ok rs
      ∧ yaml_Marshal (mkMeta rs) = Ok text
      ∧ writeFile "../../kubernetes_builtin_schema.meta.yaml" (header +:+ text) = Ok ().
Proof.
  intros Hreg. unfold run.
  intros (b & Hb & (schema & Hs & (rs & Hr & (t & Ht & Hw)%bind_Ok)%bind_Ok)%bind_Ok)%bind_Ok.
  apply wrapW_Ok in Hb. apply wrapW_Ok in Hs. apply wrapW_Ok in Ht.
  pose proof (resources_order R1 R2 S1 S2 schema rs (Hreg b schema Hb Hs) Hr) as Hr2.
  split; [|apply wrapW_Ok in Hw; eauto 10].
  rewrite Hb. cbn. rewrite Hs. cbn. rewrite Hr2. cbn. rewrite Ht. cbn. exact Hw.
Qed.

(** ** Examples *)

(** Another sort: by insertion, from the end. *)
Definition reversed_slices : SliceSort.
Proof.
  refine {| sort_Slice A less l := insertion_sort less (reverse l) |}.
  - intros A less l. by rewrite insertion_sort_perm, reverse_Permutation.
  - intros A less l Hs. by apply insertion_sort_sorted.
Defined.

Definition example_pod : openapiGVK := mkOpenapiGVK "" "v1" "Pod".
Definition example_list (gvk : openapiGVK) : openapiPath := mkPath (Some (mkMethod "list" (Some gvk))).
Definition example_doc (kinds : list openapiGVK) : minOpenAPI :=
  mkOpenAPI {["io.k8s.api.core.v1.Pod" := mkDefinition "object" ∅ kinds]}
    {["/api/v1/pods" := example_list example_pod;
      "/api/v1/namespaces/{namespace}/pods" := example_list example_pod]}.

Example example_resources :
  @resourcesOf canonical_range insertion_slices (example_doc [example_pod; mkOpenapiGVK "" "v1" "PodList"]) =
  Ok [mkResource "io.k8s.api.core.v1.Pod" "" "v1" "Pod" "pods" "namespace"].
Proof. vm_compute. reflexivity. Qed.

(** Two kinds in one definition have the same key, and sorting by key leaves
    their order open. *)
Example key_not_unique :
  let doc := mkOpenAPI {["a" := mkDefinition "object" ∅ [mkOpenapiGVK "" "v1" "A"; mkOpenapiGVK "" "v2" "A"]]}
    {["/a" := example_list (mkOpenapiGVK "" "v1" "A"); "/b" := example_list (mkOpenapiGVK "" "v2" "A")]} in
  bool_decide (@resourcesOf canonical_range insertion_slices doc = @resourcesOf canonical_range reversed_slices doc)
  = false.
Proof. vm_compute. reflexivity. Qed.

Lemma example_regular : regular (example_doc [example_pod]).
Proof.
  split.
  - intros u1 p1 u2 p2 gvk H1 H2 _ _. cbn [Paths example_doc] in H1, H2.
    apply lookup_insert_Some in H1 as [[<- _]|[_ [<- _]%lookup_singleton_Some]];
      apply lookup_insert_Some in H2 as [[<- _]|[_ [<- _]%lookup_singleton_Some]]; reflexivity.
  - intros k d Hd _. cbn [Definitions example_doc] in Hd. apply lookup_singleton_Some in Hd as [_ <-]. cbn. lia.
Qed.

Lemma run_stable_witness :
  @run reversed_range reversed_slices (λ _, Ok "document") (λ _, Ok (example_doc [example_pod])) (λ _, Ok "resources")
    (λ _ _, Ok ()) = Ok ().
Proof.
  apply (run_stable canonical_range reversed_range insertion_slices reversed_slices (λ _, Ok "document")
    (λ _, Ok (example_doc [example_pod])) (λ _, Ok "resources") (λ _ _, Ok ())).
  - intros b schema _ [= <-]. apply example_regular.
  - vm_compute. reflexivity.
Defined.

End typeinfo.
