(* ===== verification/TestHarness.v ===== *)
(** * The test harness (ktest/testharness)

    Helpers of Go tests: golden files, temporary directories, manifests, the
    API server a test runs against, and the proxy that records requests. A
    helper is a computation on the state of the test: files, the errors
    reported, and the clean-ups registered. It returns, ends the test
    ([FailNow]), or panics. *)

From S2P Require Import Prelude Kube Manifest NetURL HTTPRecorder.
From stdpp Require Import options.
Import manifest url header httprecorder.

Module testharness.

(** ** The testing package *)

Inductive file :=
  | Content (b : string)
  | Unreadable (err : string).

#[export] Instance file_eq_dec : EqDecision file.
Proof. solve_decision. Defined.

(** What [t.Cleanup] was given. *)
Inductive cleanup :=
  | HarnessCleanup
  | RemoveAll (dir : string)
  | StopEnv
  | StopServer
  | StopProxy
  | StopManager.

Record world := mkWorld {
  w_files : gmap string file;
  w_readOnly : gset string;
  w_errors : list string;
  w_cleanups : list cleanup
}.

Inductive outcome (A : Type) :=
  | Returned (a : A)
  | FailedNow
  | Panicked.
Arguments Returned {A} _.
Arguments FailedNow {A}.
Arguments Panicked {A}.

Definition test (A : Type) : Type := world → outcome A * world.

#[export] Instance test_ret : MRet test := λ A a w, (Returned a, w).
#[export] Instance test_bind : MBind test := λ A B f m w,
  match m w with
  | (Returned a, w) => f a w
  | (FailedNow, w) => (FailedNow, w)
  | (Panicked, w) => (Panicked, w)
  end.

Definition report (msg : string) (w : world) : world :=
  mkWorld (w_files w) (w_readOnly w) (w_errors w ++ [msg]) (w_cleanups w).

Definition Errorf (msg : string) : test () := λ w, (Returned (), report msg w).
Definition Fatalf {A} (msg : string) : test A := λ w, (FailedNow, report msg w).
Definition panic {A} : test A := λ w, (Panicked, w).
Definition Cleanup (c : cleanup) : test () := λ w,
  (Returned (), mkWorld (w_files w) (w_readOnly w) (w_errors w) (c :: w_cleanups w)).

(** [t.Run]: a subtest that ends does not end its parent, a panic ends both. *)
Definition Run (sub : test ()) : test () := λ w,
  match sub w with
  | (Panicked, w) => (Panicked, w)
  | (_, w) => (Returned (), w)
  end.

(** The os package: a file that is read is there, is missing, or fails. *)
Inductive readResult := Bytes (b : string) | NotExist | ReadError (err : string).
Definition ReadFile (p : string) : test readResult := λ w,
  (Returned (match w_files w !! p with
             | Some (Content b) => Bytes b
             | Some (Unreadable err) => ReadError err
             | None => NotExist
             end), w).
Definition WriteFile (p b : string) : test bool := λ w,
  if decide (p ∈ w_readOnly w) then (Returned false, w)
  else (Returned true, mkWorld (<[p := Content b]> (w_files w)) (w_readOnly w) (w_errors w) (w_cleanups w)).

(** ** harness.go *)

(** New: the harness wraps the test and registers its own clean-up. *)
Definition New : test () := Cleanup HarnessCleanup.

Definition MustReadFile (p : string) : test string :=
  r ← ReadFile p;
  match r with
  | Bytes b => mret b
  | _ => Fatalf ("error from ReadFile(" +:+ p +:+ ")")
  end.

(** FileExists, with what os.Stat answers. *)
Inductive statResult := Exists | Missing | StatError.
Definition FileExists (Stat : string → statResult) (p : string) : test bool :=
  match Stat p with
  | Exists => mret true
  | Missing => mret false
  | StatError => Fatalf ("error from os.Stat(" +:+ p +:+ ")")
  end.

(** TempDir, with the directory that os.MkdirTemp makes, if it does. *)
Definition TempDir (MkdirTemp : res string) : test string :=
  match MkdirTemp with
  | Err _ => Fatalf "failed to make temp directory"
  | Ok tmpdir => Cleanup (RemoveAll tmpdir);; mret tmpdir
  end.

(** ** golden.go *)

(** What cmp.Diff documents: an empty diff for equal texts only. *)
Class CmpDiff := {
  Diff : string → string → string;
  Diff_empty x y : Diff x y = "" ↔ x = y
}.

Definition ShouldWriteGoldenOutput (Getenv : string → string) : bool :=
  negb (bool_decide (Getenv "WRITE_GOLDEN_OUTPUT" = "")).

Definition CompareGoldenFile `{CmpDiff} (Getenv : string → string) (p got : string) : test () :=
  if ShouldWriteGoldenOutput Getenv then
    b ← ReadFile p;
    if match b with Bytes b => bool_decide (b = got) | _ => false end then mret ()
    else
      ok ← WriteFile p got;
      if ok : bool then Errorf ("wrote output to " +:+ p)
      else Fatalf ("failed to write golden output " +:+ p)
  else
    want ← MustReadFile p;
    if decide (Diff want got = "") then mret () else Errorf ("unexpected diff in " +:+ p).

(** RunGoldenTests on the listing of the directory: the names, and whether
    their FileInfo can be read. *)
Fixpoint runSubtests (basedir : string) (fn : string → test ()) (names : list string) : test () :=
  match names with
  | [] => mret ()
  | name :: names =>
      Run (New;; fn (path_Join [basedir; name]));; runSubtests basedir fn names
  end.

Definition RunGoldenTests (ReadDir : res (list (string * bool))) (basedir : string) (fn : string → test ()) :
    test () :=
  match ReadDir with
  | Err _ => Fatalf ("ReadDir(" +:+ basedir +:+ ") failed")
  | Ok entries =>
      if forallb snd entries then
        runSubtests basedir fn entries.*1;;
        if decide (entries = []) then Errorf ("no golden tests found in " +:+ basedir) else mret ()
      else Fatalf "failed to get FileInfo"
  end.

(** ** manifest.go *)

(** ParseObjects on the documents of the reader: a document that decodes to null
    leaves a nil pointer. *)
Fixpoint ParseObjects (Unmarshal : string → res (option jmap)) (docs : list (res string)) :
    res (list (option jmap)) :=
  match docs with
  | [] => Ok []
  | doc :: docs =>
      raw ← wrapW "reading YAML doc" doc;
      u ← wrapW "parsing object to unstructured" (Unmarshal raw);
      rest ← ParseObjects Unmarshal docs;
      Ok (u :: rest)
  end.

(** ** kubeapiserver.go *)

Record restConfig := mkRestConfig { rc_Host : string; rc_TLS : option string }.

(** [strings.ReplaceAll] and [strings.Split] for a separator of several bytes;
    every round of the loop consumes text. *)
Fixpoint splitLoop (fuel : nat) (s sep : string) : list string :=
  match fuel with
  | O => [s]
  | S fuel =>
      match strings.CutString s sep with
      | Some (a, b) => a :: splitLoop fuel b sep
      | None => [s]
      end
  end.
Definition SplitString (s sep : string) : list string := splitLoop (String.length s) s sep.
Definition ReplaceAll (s old new : string) : string := strings.Join (SplitString s old) new.

(** What the harness starts: an environment of envtest if one was given, or else
    the mock server, with the types registered that the harness names; and the
    client. *)
Record backend := mkBackend {
  env_Start : option (res restConfig);
  NewMockServer : res ();
  StartServing : res string;
  client_New : restConfig → res ()
}.

Definition startServer (b : backend) : test restConfig :=
  match env_Start b with
  | Some (Err _) => Fatalf "failed to start envtest kube-apiserver"
  | Some (Ok restConfig) => Cleanup StopEnv;; mret restConfig
  | None =>
      match NewMockServer b with
      | Err _ => Fatalf "error building mock kube-apiserver"
      | Ok _ =>
          Cleanup StopServer;;
          match StartServing b with
          | Err _ => Errorf "error starting mock kube-apiserver";; panic
          | Ok addr => mret (mkRestConfig ("http://" +:+ ReplaceAll addr "[::]" "127.0.0.1") None)
          end
      end
  end.

Definition NewTestKubeAPIServer (b : backend) : test restConfig :=
  restConfig ← startServer b;
  match client_New b restConfig with
  | Err _ => Fatalf "error creating k8s client"
  | Ok _ => mret restConfig
  end.

(** RESTConfig: a copy, by value. *)
Definition RESTConfig (s : restConfig) : restConfig := mkRestConfig (rc_Host s) (rc_TLS s).

(** AddObjectsFromManifest, with the client and the store behind it; a document
    that decodes to null is an object without content. *)
Fixpoint addObjects {St} (Unmarshal : string → res jmap) (Create : jmap → St → option error * St)
    (docs : list string) (st : St) : option error * St :=
  match docs with
  | [] => (None, st)
  | obj :: docs =>
      match wrapW ("failed to unmarshal object " +:+ obj) (Unmarshal obj) with
      | Err err => (Some err, st)
      | Ok u =>
          match Create u st with
          | (Some err, st) => (Some err, st)
          | (None, st) => addObjects Unmarshal Create docs st
          end
      end
  end.

Definition newline : string := String (ascii_of_N 10) "".
Definition AddObjectsFromManifest {St} (Unmarshal : string → res jmap)
    (Create : jmap → St → option error * St) (y : string) (st : St) : option error * St :=
  addObjects Unmarshal Create (SplitString y (newline +:+ "---" +:+ newline)) st.

(** *** The proxy *)

(** The request to the upstream server for a request the proxy receives; a URL
    that does not parse ends the test. *)
Definition upstreamRequest (upstreamBaseURL : URL) (r : httpRequest) : option httpRequest :=
  let upstreamURL := with_RawQuery (RawQuery (hq_URL r)) (JoinPath upstreamBaseURL (Path (hq_URL r))) in
  match Parse (String_ upstreamURL) with
  | Err _ => None
  | Ok u => Some (mkHTTPRequest (hq_Method r) u (hq_Header r) (hq_Body r))
  end.

(** What the proxy answers its client. *)
Inductive proxied :=
  | Answered (statusCode : Z) (h : Header) (b : string)
  | ProxyFatal (msg : string)
  | ProxyPanic.

Definition forward (resp : httpResponse) : proxied :=
  match hp_Body resp with
  | None => ProxyPanic
  | Some (inl b) => Answered (hp_StatusCode resp) (hp_Header resp) b
  | Some (inr _) => ProxyFatal "error copying response body"
  end.

Definition ServeHTTP (inner : httpRequest → option httpResponse * option error) (upstreamBaseURL : URL)
    (r : httpRequest) (log : RequestLog) : proxied * RequestLog :=
  match upstreamRequest upstreamBaseURL r with
  | None => (ProxyFatal "parsing upstream URL", log)
  | Some upstreamReq =>
      let '((response, err), log) := RoundTrip inner upstreamReq log in
      match err, response with
      | Some _, _ => (ProxyFatal "proxying request", log)
      | None, None => (ProxyPanic, log)
      | None, Some resp => (forward resp, log)
      end
  end.

(** Start: the configuration of the proxy, given what it listens on. *)
Definition proxy_Start (upstream : restConfig) (HTTPClientFor : restConfig → res ()) (Listen : res string) :
    test (URL * restConfig) :=
  match Parse (rc_Host upstream) with
  | Err _ => Fatalf "parsing upstream host"
  | Ok upstreamBaseURL =>
      match HTTPClientFor upstream with
      | Err _ => Fatalf "creating upstream HTTP client"
      | Ok _ =>
          match Listen with
          | Err _ => Fatalf "starting proxy"
          | Ok addr => mret (upstreamBaseURL, mkRestConfig addr None)
          end
      end
  end.

Definition AddProxyAndRecordToLog (upstream : restConfig) (HTTPClientFor : restConfig → res ())
    (Listen : res string) : test (URL * restConfig) :=
  r ← proxy_Start upstream HTTPClientFor Listen;
  Cleanup StopProxy;; mret r.

End testharness.

(* ------------------------------------------------------------------ *)
(** ** Golden files *)

Module golden_props.
Import testharness.

Section golden.
Context `{CmpDiff}.
Context (Writing Reading : string → string).
Hypothesis writing : ShouldWriteGoldenOutput Writing = true.
Hypothesis reading : ShouldWriteGoldenOutput Reading = false.

(** Reading mode: the file decides, and nothing is written. *)
Lemma CompareGoldenFile_reads p got w :
  CompareGoldenFile Reading p got w =
  match w_files w !! p with
  | Some (Content want) =>
      if decide (want = got) then (Returned (), w) else (Returned (), report ("unexpected diff in " +:+ p) w)
  | _ => (FailedNow, report ("error from ReadFile(" +:+ p +:+ ")") w)
  end.
Proof using reading.
  unfold CompareGoldenFile. rewrite reading. unfold MustReadFile, ReadFile, mbind, test_bind.
  destruct (w_files w !! p) as [[want|]|]; try done.
  cbn. destruct (decide (Diff want got = "")) as [E|E].
  - apply (proj1 (Diff_empty _ _)) in E. by rewrite decide_True.
  - rewrite decide_False; [done|]. intros ->. by apply E, (Diff_empty got got).
Qed.

(** Writing mode, on a file that can be written. *)
Lemma CompareGoldenFile_writes p got w :
  p ∉ w_readOnly w →
  CompareGoldenFile Writing p got w =
  if decide (w_files w !! p = Some (Content got)) then (Returned (), w)
  else (Returned (), report ("wrote output to " +:+ p)
          (mkWorld (<[p := Content got]> (w_files w)) (w_readOnly w) (w_errors w) (w_cleanups w))).
Proof using writing.
  intros Hp. unfold CompareGoldenFile. rewrite writing. unfold ReadFile, WriteFile, mbind, test_bind.
  destruct (w_files w !! p) as [[b|]|]; cbn; rewrite ?(decide_False (P := p ∈ w_readOnly w)) by done.
  - destruct (decide (b = got)) as [->|Hne].
    + rewrite bool_decide_true, decide_True by done. done.
    + rewrite bool_decide_false by done. rewrite !decide_False by (done || congruence). done.
  - rewrite decide_False; [done|congruence].
  - rewrite decide_False; [done|congruence].
Qed.

(** C27. Regenerating a golden file settles it: after one run that writes, the
    file holds the output, that run failed exactly if the file had to change, and
    from then on both runs that write and runs that compare pass and change
    nothing. Files other than the golden one are never touched. *)
Theorem golden_regenerates p got w :
  p ∉ w_readOnly w →
  ∃ w', CompareGoldenFile Writing p got w = (Returned (), w')
    ∧ w_files w' = <[p := Content got]> (w_files w)
    ∧ (w_errors w' = w_errors w ↔ w_files w !! p = Some (Content got))
    ∧ CompareGoldenFile Reading p got w' = (Returned (), w')
    ∧ CompareGoldenFile Writing p got w' = (Returned (), w').
Proof using writing reading.
  intros Hp. rewrite CompareGoldenFile_writes by done. case_decide as E.
  - exists w. rewrite CompareGoldenFile_writes, CompareGoldenFile_reads by done. rewrite E, !decide_True by done.
    split_and!; [done|symmetry; by apply insert_id|done..].
  - eexists. split; [done|]. rewrite CompareGoldenFile_writes, CompareGoldenFile_reads by done. cbn.
    rewrite lookup_insert_eq, !decide_True by done. split_and!; [done| |done|done].
    split; [|done]. intros HE. apply (f_equal length) in HE. rewrite length_app in HE. cbn in HE. lia.
Qed.

End golden.

(** *** Running the tests of a directory *)

(** A subtest that does not panic, and only adds errors. *)
Definition tame (f : test ()) : Prop := ∀ w, ∃ o w' errs, f w = (o, w') ∧ o ≠ Panicked ∧ w_errors w' = w_errors w ++ errs.

Definition adds (f : test ()) (w : world) : list string := drop (length (w_errors w)) (w_errors (f w).2).

Fixpoint runs (basedir : string) (fn : string → test ()) (names : list string) (w : world) : list (string * list string) :=
  match names with
  | [] => []
  | name :: names =>
      let dir := path_Join [basedir; name] in
      let sub := New;; fn dir in
      (dir, adds sub w) :: runs basedir fn names (sub w).2
  end.

Lemma tame_New f : tame f → tame (New;; f).
Proof.
  intros Hf w. destruct (Hf (mkWorld (w_files w) (w_readOnly w) (w_errors w) (HarnessCleanup :: w_cleanups w)))
    as (o & w' & errs & E & Ho & He). exists o, w', errs. done.
Qed.

Lemma runSubtests_runs basedir fn names w :
  (∀ dir, tame (fn dir)) →
  ∃ w', runSubtests basedir fn names w = (Returned (), w')
    ∧ w_errors w' = w_errors w ++ concat (runs basedir fn names w).*2.
Proof.
  intros Hf. revert w. induction names as [|name names IH]; intros w.
  { exists w. cbn. by rewrite app_nil_r. }
  destruct (tame_New _ (Hf (path_Join [basedir; name])) w) as (o & w1 & errs & E & Ho & He).
  destruct (IH w1) as (w2 & E2 & He2).
  exists w2. cbn [runSubtests]. unfold mbind at 1, test_bind at 1, Run. rewrite E.
  split; [by destruct o|].
  cbn [runs]. rewrite E. cbn [fst snd fmap list_fmap concat]. rewrite He2, He. unfold adds. rewrite E. cbn [snd].
  rewrite He, drop_app_length. by rewrite app_assoc.
Qed.

(** RunGoldenTests calls the test once for every entry of the directory, in
    order, a failure of one leaving the others to run; it passes exactly if there
    is an entry and no test reported an error. *)
Theorem RunGoldenTests_runs basedir fn entries w :
  (∀ dir, tame (fn dir)) → forallb snd entries = true →
  ∃ w', RunGoldenTests (Ok entries) basedir fn w = (Returned (), w')
    ∧ (runs basedir fn entries.*1 w).*1 = (λ name, path_Join [basedir; name]) <$> entries.*1
    ∧ (w_errors w' = w_errors w ↔ entries ≠ [] ∧ Forall (λ r, r.2 = []) (runs basedir fn entries.*1 w)).
Proof.
  intros Hf Hall. destruct (runSubtests_runs basedir fn entries.*1 w Hf) as (w1 & E & He).
  assert (∀ names w, (runs basedir fn names w).*1 = (λ name, path_Join [basedir; name]) <$> names) as Hdirs.
  { intros names. induction names as [|n names IH]; intros w0; [done|]. cbn. by rewrite IH. }
  assert (∀ l : list (string * list string), concat l.*2 = [] ↔ Forall (λ r, r.2 = []) l) as Hc.
  { intros l. induction l as [|r l IH]; [done|]. cbn. rewrite app_nil, IH, list.Forall_cons. done. }
  unfold RunGoldenTests. rewrite Hall. unfold mbind, test_bind. rewrite E. case_decide as Hn.
  - eexists. split; [done|]. split; [apply Hdirs|]. subst entries. cbn in *. rewrite He, app_nil_r. split; [|naive_solver].
    intros HE. apply (f_equal length) in HE. rewrite length_app in HE. cbn in HE. lia.
  - exists w1. split; [done|]. split; [apply Hdirs|]. rewrite He, <-Hc. split.
    + intros HE. split; [done|]. apply (app_inv_head (w_errors w)). by rewrite app_nil_r.
    + intros [_ ->]. by rewrite app_nil_r.
Qed.

(** *** Examples *)

Definition example_diff : CmpDiff.
Proof.
  refine {| Diff x y := if decide (x = y) then "" else "different" |}.
  intros x y. case_decide; [done|]. split; [done|]. intros ->. done.
Defined.
Definition example_world : world := mkWorld {["want.txt" := Content "old"]} ∅ [] [].

Lemma golden_regenerates_witness :
  ∃ w', @CompareGoldenFile example_diff (λ _, "true") "want.txt" "new" example_world = (Returned (), w')
    ∧ @CompareGoldenFile example_diff (λ _, "") "want.txt" "new" w' = (Returned (), w').
Proof.
  destruct (@golden_regenerates example_diff (λ _, "true") (λ _, "") eq_refl eq_refl "want.txt" "new" example_world)
    as (w' & E & _ & _ & E' & _).
  - cbn. apply not_elem_of_empty.
  - exists w'. split; [exact E|exact E'].
Defined.

Definition example_subtest (dir : string) : test () :=
  if decide (dir = "tests/bad") then Fatalf "bad" else mret ().

Lemma example_subtest_tame dir : tame (example_subtest dir).
Proof.
  intros w. unfold example_subtest. case_decide.
  - by exists FailedNow, (report "bad" w), ["bad"].
  - exists (Returned ()), w, []. by rewrite app_nil_r.
Qed.

Lemma RunGoldenTests_runs_witness :
  ∃ w', RunGoldenTests (Ok [("bad", true); ("good", true)]) "tests" example_subtest example_world = (Returned (), w')
    ∧ (runs "tests" example_subtest ["bad"; "good"] example_world).*1 = ["tests/bad"; "tests/good"].
Proof.
  destruct (RunGoldenTests_runs "tests" example_subtest [("bad", true); ("good", true)] example_world)
    as (w' & E & Hd & _).
  - apply example_subtest_tame.
  - reflexivity.
  - exists w'. split; [exact E|]. refine (eq_trans Hd _). vm_compute. reflexivity.
Defined.

End golden_props.

(* ------------------------------------------------------------------ *)
(** ** The proxy *)

Module proxy_props.
Import testharness.

(** The base URL of a server without a path, and a request for a plain path. *)
Definition plainBase (host : string) : URL := mkURL "http" "" None host "" "" false false "" "" "".

Lemma upstreamRequest_plain host segs r :
  host ≠ "" → parseHost host = Ok host → all_bytes hostByte host = true →
  segs ≠ [] → Forall plainSegment segs → Path (hq_URL r) = String "/" (strings.Join segs "/") →
  all_bytes queryByte (RawQuery (hq_URL r)) = true →
  upstreamRequest (plainBase host) r =
  Some (mkHTTPRequest (hq_Method r)
          (mkURL "http" "" None host (Path (hq_URL r)) "" false false (RawQuery (hq_URL r)) "" "")
          (hq_Header r) (hq_Body r)).
Proof.
  intros Hh Hparse Hb Hne Hs Hp Hq. unfold upstreamRequest. rewrite Hp, JoinPath_plain by done.
  unfold with_RawQuery. cbn [Scheme Opaque User Host Path RawPath OmitHost ForceQuery Fragment RawFragment plainBase].
  rewrite String_joined by done. rewrite Parse_plain by (done || by left || by apply all_bytes_Join). done.
Qed.

(** The recording proxy is transparent: a request for a plain path with any
    query reaches the upstream server with its method, path, query, headers and
    body, its client gets the status, headers and body of the answer, and the
    log has exactly one more entry, of this request and this answer. *)
Theorem proxy_transparent inner host segs r log resp b :
  host ≠ "" → parseHost host = Ok host → all_bytes hostByte host = true →
  segs ≠ [] → Forall plainSegment segs → Path (hq_URL r) = String "/" (strings.Join segs "/") →
  all_bytes queryByte (RawQuery (hq_URL r)) = true →
  wf log → ref_ok log (hq_Header r) → (∀ err, hq_Body r ≠ Some (inr err)) →
  let sent := mkHTTPRequest (hq_Method r)
    (mkURL "http" "" None host (Path (hq_URL r)) "" false false (RawQuery (hq_URL r)) "" "") (hq_Header r) (hq_Body r) in
  inner sent = (Some resp, None) → hp_Body resp = Some (inl b) →
  ∃ log', ServeHTTP inner (plainBase host) r log = (Answered (hp_StatusCode resp) (hp_Header resp) b, log')
    ∧ wf log' ∧ view log' = view log ++ [answerView resp (isStreaming sent) (requestView log sent)].
Proof.
  intros Hh Hparse Hhb Hne Hs Hp Hq Hw Hr Hbody sent Hinner Hresp. unfold ServeHTTP.
  rewrite (upstreamRequest_plain host segs) by done. fold sent.
  pose proof (RoundTrip_transparent inner sent log Hw Hr) as HR. rewrite Hinner in HR.
  assert (let '(answer, l') := RoundTrip inner sent log in answer = (Some resp, None) ∧ wf l'
    ∧ view l' = view log ++ [answerView resp (isStreaming sent) (requestView log sent)]) as HR'.
  { change (hq_Body sent) with (hq_Body r) in HR. destruct (hq_Body r) as [[t|err]|]; [exact HR|by destruct (Hbody err)|exact HR]. }
  destruct (RoundTrip inner sent log) as [answer l']. destruct HR' as (-> & Hw' & Hv).
  exists l'. unfold forward. by rewrite Hresp.
Qed.

(** The proxy joins the decoded path as if it were encoded: what the client
    encoded twice arrives decoded twice. *)
Example proxy_decodes_twice :
  (λ r, Path (hq_URL r)) <$>
    upstreamRequest (plainBase "127.0.0.1:8080")
      (mkHTTPRequest "GET" (mkURL "" "" None "" "/a%2Fb" "/a%252Fb" false false "" "" "") None None)
  = Some "/a/b".
Proof. vm_compute. reflexivity. Qed.

Lemma proxy_transparent_witness :
  ∃ log', ServeHTTP (λ _, (Some (example_answer "200 OK" 200), None)) (plainBase "127.0.0.1:8080")
    (example_get "/apis/apps/v1") (ss_log example_start) =
    (Answered 200 (hp_Header (example_answer "200 OK" 200)) "{}", log').
Proof.
  destruct (proxy_transparent (λ _, (Some (example_answer "200 OK" 200), None)) "127.0.0.1:8080"
    ["apis"; "apps"; "v1"] (example_get "/apis/apps/v1") (ss_log example_start) (example_answer "200 OK" 200) "{}")
    as (log' & E & _).
  - done.
  - vm_compute. reflexivity.
  - vm_compute. reflexivity.
  - done.
  - repeat constructor; done.
  - reflexivity.
  - reflexivity.
  - exact (so_wf _ (session_start _)).
  - apply ref_ok_dec. vm_compute. reflexivity.
  - done.
  - reflexivity.
  - reflexivity.
  - exists log'. exact E.
Defined.

End proxy_props.
