(* ===== verification/Testutils.v ===== *)
(** * The harness of the applyset tests (applylib/testutils)

    A cluster with some objects in it, and clients to it; the harness is a state
    that WithObjects fills in, on the computations of the test harness. *)

From S2P Require Import Prelude Kube Manifest NetURL HTTPRecorder TestHarness.
From stdpp Require Import options.

Import manifest url header httprecorder.

Module testutils.
Import testharness.

(** The harness: the configuration and the client once WithObjects was called,
    and the REST mapper once it was asked for. *)
Record Harness := mkHarness {
  h_k8s : bool;
  h_restConfig : option restConfig;
  h_client : bool;
  h_restMapper : bool
}.

Definition NewHarness : test Harness := Cleanup StopServer;; mret (mkHarness false None false false).

(** ParseObjects on the documents of the decoder: the first that does not decode
    ends the test. *)
Fixpoint ParseObjects (Decode : string → res jmap) (docs : list (res string)) : test (list jmap) :=
  match docs with
  | [] => mret []
  | Err _ :: _ => Fatalf "error decoding yaml"
  | Ok raw :: docs =>
      match Decode raw with
      | Err _ => Fatalf "error decoding yaml"
      | Ok m => rest ← ParseObjects Decode docs; mret (m :: rest)
      end
  end.

(** The path of a kubeconfig: a leading tilde is the home directory. *)
Definition kubeconfigPath (homeDir kubeconfig : string) : string :=
  if strings.HasPrefix kubeconfig "~/" then homeDir +:+ "/" +:+ strings.TrimPrefix kubeconfig "~/" else kubeconfig.

Definition setRestConfig (h : Harness) (k8s : bool) (c : restConfig) : Harness :=
  mkHarness k8s (Some c) (h_client h) (h_restMapper h).

Definition startCluster (kubeconfig homeDir : string) (BuildConfig : string → res restConfig) (b : backend)
    (h : Harness) : test Harness :=
  if decide (kubeconfig = "") then
    match NewMockServer b with
    | Err _ => Fatalf "error building mock kube-apiserver"
    | Ok _ =>
        match StartServing b with
        | Err _ => Errorf "error starting mock kube-apiserver";; panic
        | Ok addr => mret (setRestConfig h true (mkRestConfig addr None))
        end
    end
  else
    match BuildConfig (kubeconfigPath homeDir kubeconfig) with
    | Err _ => Fatalf "error building kubeconfig"
    | Ok c => mret (setRestConfig h (h_k8s h) c)
    end.

(** Creating the objects: an error is reported, and the next one is created. *)
Fixpoint createObjects {St} (Create : jmap → St → option error * St) (objs : list jmap) (st : St) : test St :=
  match objs with
  | [] => mret st
  | obj :: objs =>
      match Create obj st with
      | (None, st) => createObjects Create objs st
      | (Some _, st) => Errorf "error creating object";; createObjects Create objs st
      end
  end.

Definition RESTConfig (h : Harness) : test restConfig :=
  match h_restConfig h with
  | None => Fatalf "cannot call RESTConfig before Start"
  | Some c => mret c
  end.

Definition WithObjects {St} (kubeconfig homeDir : string) (BuildConfig : string → res restConfig) (b : backend)
    (Create : jmap → St → option error * St) (initObjs : list jmap) (h : Harness) (st : St) : test (Harness * St) :=
  h ← startCluster kubeconfig homeDir BuildConfig b h;
  c ← RESTConfig h;
  match client_New b c with
  | Err _ => Fatalf "error building client"
  | Ok _ =>
      st ← createObjects Create initObjs st;
      mret (mkHarness (h_k8s h) (h_restConfig h) true (h_restMapper h), st)
  end.

(** Stop, given whether closing the server fails. *)
Definition Stop (h : Harness) (closes : bool) : test () :=
  if h_k8s h && negb closes then Errorf "error closing mock kube-apiserver" else mret ().

Definition Client (h : Harness) : test () :=
  if h_client h then mret () else Fatalf "must call Start() before Client()".

Definition DynamicClient (NewForConfig : restConfig → res ()) (h : Harness) : test () :=
  c ← RESTConfig h;
  match NewForConfig c with Err _ => Fatalf "error building dynamicClient" | Ok _ => mret () end.

(** RESTMapper: built on the first call. *)
Definition RESTMapper (NewDiscovery : restConfig → res ()) (h : Harness) : test Harness :=
  if h_restMapper h then mret h
  else
    c ← RESTConfig h;
    match NewDiscovery c with
    | Err _ => Fatalf "error building discovery client"
    | Ok _ => mret (mkHarness (h_k8s h) (h_restConfig h) (h_client h) true)
    end.

Definition AssertMatchesFile `{CmpDiff} (Getenv : string → string) (p got : string) : test () :=
  if negb (bool_decide (Getenv "WRITE_GOLDEN_OUTPUT" = "")) then
    b ← ReadFile p;
    if match b with Bytes b => bool_decide (b = got) | _ => false end then mret ()
    else
      ok ← WriteFile p got;
      if ok : bool then Errorf ("wrote output to " +:+ p)
      else Fatalf ("failed to write golden output " +:+ p)
  else
    want ← MustReadFile p;
    if decide (Diff want got = "") then mret () else Errorf ("unexpected diff in " +:+ p).

(* ------------------------------------------------------------------ *)
(** ** What the harness promises *)

(** The two copies of the golden comparison, in ktest/testharness and in
    applylib/testutils, agree: on every file, in both modes, they leave the same
    files and the same verdict. *)
Lemma AssertMatchesFile_same `{CmpDiff} Getenv p got w :
  AssertMatchesFile Getenv p got w = CompareGoldenFile Getenv p got w.
Proof. done. Qed.

(** Creating all objects, whatever is answered for each; the errors reported. *)
Lemma createObjects_all {St} (Create : jmap → St → option error * St) objs st w :
  ∃ errs, createObjects Create objs st w =
    (Returned (foldl (λ st obj, (Create obj st).2) st objs),
     mkWorld (w_files w) (w_readOnly w) (w_errors w ++ errs) (w_cleanups w))
  ∧ (errs = [] ↔ ∀ i obj, objs !! i = Some obj →
       (Create obj (foldl (λ st obj, (Create obj st).2) st (take i objs))).1 = None).
Proof.
  revert st w. induction objs as [|o objs IH]; intros st w.
  { exists []. rewrite app_nil_r. split; [by destruct w|]. split; [|done]. intros _ i obj [=]. }
  cbn [createObjects foldl]. destruct (Create o st) as [[e|] st1] eqn:ED.
  - destruct (IH st1 (report "error creating object" w)) as (errs & HE & _).
    exists ("error creating object" :: errs). unfold mbind, test_bind, Errorf. rewrite HE. cbn. split.
    + by rewrite <-app_assoc.
    + split; [done|]. intros Hall. specialize (Hall 0%nat o eq_refl). cbn in Hall. by rewrite ED in Hall.
  - destruct (IH st1 w) as (errs & HE & Hn). exists errs. split; [by rewrite HE|]. rewrite Hn. split.
    + intros Hall [|i] obj Hi; [injection Hi as <-; cbn; by rewrite ED|]. cbn. rewrite ED. by apply Hall.
    + intros Hall i obj Hi. specialize (Hall (Datatypes.S i) obj Hi). cbn in Hall. by rewrite ED in Hall.
Qed.

(** WithObjects makes the harness usable: with a mock server that starts, it
    offers every object to the server, in order, whatever the server answered for
    the others, reports an error for each that is refused and nothing else, and
    leaves a harness on which RESTConfig and Client succeed. *)
Theorem WithObjects_ready {St} homeDir BuildConfig b (Create : jmap → St → option error * St) objs h st w addr :
  NewMockServer b = Ok () → StartServing b = Ok addr → client_New b (mkRestConfig addr None) = Ok () →
  ∃ h' w', WithObjects "" homeDir BuildConfig b Create objs h st w
      = (Returned (h', foldl (λ st obj, (Create obj st).2) st objs), w')
    ∧ RESTConfig h' w' = (Returned (mkRestConfig addr None), w')
    ∧ Client h' w' = (Returned (), w')
    ∧ (w_errors w' = w_errors w ↔ ∀ i obj, objs !! i = Some obj →
        (Create obj (foldl (λ st obj, (Create obj st).2) st (take i objs))).1 = None).
Proof.
  intros HN HS HC. destruct (createObjects_all Create objs st w) as (errs & HE & Hn).
  eexists _, _. split_and!.
  - unfold WithObjects, startCluster, mbind, test_bind. rewrite decide_True by done. rewrite HN, HS.
    unfold RESTConfig, setRestConfig. cbn [mret test_ret h_restConfig]. unfold test_ret. rewrite HC, HE. done.
  - done.
  - done.
  - cbn. rewrite <-Hn. split; [|intros ->; by rewrite app_nil_r].
    intros Heq. apply (app_inv_head (w_errors w)). by rewrite app_nil_r.
Qed.

Lemma WithObjects_ready_witness :
  ∃ h' w', WithObjects "" "/root" (λ _, Err (Prelude.Errorf "no config"))
      (mkBackend None (Ok ()) (Ok "127.0.0.1:8080") (λ _, Ok ())) (λ _ n, (None, Datatypes.S n)) [∅; ∅]
      (mkHarness false None false false) 0%nat (mkWorld ∅ ∅ [] []) = (Returned (h', 2%nat), w')
    ∧ Client h' w' = (Returned (), w').
Proof.
  destruct (WithObjects_ready "/root" (λ _, Err (Prelude.Errorf "no config"))
    (mkBackend None (Ok ()) (Ok "127.0.0.1:8080") (λ _, Ok ())) (λ _ n, (None, Datatypes.S n)) [∅; ∅]
    (mkHarness false None false false) 0%nat (mkWorld ∅ ∅ [] []) "127.0.0.1:8080")
    as (h' & w' & HE & _ & Hc & _); [reflexivity|reflexivity|reflexivity|].
  exists h', w'. split; [exact HE|exact Hc].
Defined.

End testutils.
