(* ===== verification/Validator.v ===== *)
(** * Golden tests of operators (pkg/test/golden, pkg/test/testreconciler)

    The validator finds the tests of an operator in a directory tree, builds
    the objects of each with the operator's reconciler and compares them with
    the expected output (validator.go); it first looks for the channels
    directory in the parents of the working directory. The reconciler of the
    repository's own tests is set up by simpletest/controller.go. *)

From S2P Require Import Prelude Kube Manifest Transforms Addon Metrics Reconciler Watch NetURL TestHarness.
From stdpp Require Import options.
Import manifest transforms addon reconciler.
Import url(Clean, path_Join, LastCut).
Import testharness(test, test_ret, test_bind, world, mkWorld, w_files, w_readOnly, w_errors, w_cleanups, report, outcome,
  Returned, FailedNow, Panicked, Errorf, Fatalf, panic, Cleanup, cleanup, StopEnv, StopServer, StopProxy, StopManager, Run,
  ReadFile, WriteFile, readResult, Bytes, NotExist, ReadError, Content, Unreadable, statResult, Exists, Missing, StatError,
  restConfig, mkRestConfig, backend, mkBackend, env_Start, NewMockServer, StartServing).

#[local] Existing Instances test_ret test_bind.

(** ** The diff of a golden test (diffFiles) *)

Module goldendiff.

Definition newline : string := String (ascii_of_N 10) "".

(** How a command ends: by its exit status, or with another error of Wait. *)
Inductive waitResult := Exited (status : Z) | WaitError (e : error).

(** What the file system and the diff command answer. [CreateTemp] picks the name
    of the temporary file, given the files there are; [WriteTemp] is what comes to
    be in it, and the error of the write. *)
Record commands := mkCommands {
  CreateTemp : gmap string testharness.file → res string;
  WriteTemp : string → string * option error;
  StdoutPipe : option error;
  StartDiff : option error;
  ReadAll : res string;
  WaitDiff : waitResult;
  Abs : string → res string
}.

(** os.CreateTemp makes a new file. *)
Definition commands_ok (c : commands) : Prop :=
  ∀ files tmp, CreateTemp c files = Ok tmp → files !! tmp = None.

(** The temporary file, which nobody removes. *)
Definition writeTmp (c : commands) (content : string) : test (res string) := λ w,
  match CreateTemp c (w_files w) with
  | Err e => (Returned (Err e), w)
  | Ok tmp =>
      let '(text, err) := WriteTemp c content in
      (Returned (match err with Some e => Err e | None => Ok tmp end),
       mkWorld (<[tmp := Content text]> (w_files w)) (w_readOnly w) (w_errors w) (w_cleanups w))
  end.

(** The lines logged, and the error. *)
Definition runDiff (c : commands) (expectedPath actualTmp : string) : list string * option error :=
  match StdoutPipe c with
  | Some e => ([], Some (WrapW "set up stdout pipe from diff failed" e))
  | None =>
      match StartDiff c with
      | Some e => ([], Some (WrapW "start command failed" e))
      | None =>
          match ReadAll c with
          | Err e => ([], Some (WrapW "read from diff stdout failed" e))
          | Ok diff =>
              match WaitDiff c with
              | WaitError e => ([], Some (WrapW "wait for command to finish failed" e))
              | Exited status =>
                  let exited := if decide (status = 0%Z) then [] else ["Diff exited"] in
                  let '(expectedAbs, logged) :=
                    match Abs c expectedPath with
                    | Ok p => (p, [])
                    | Err _ => (expectedPath, ["getting absolute path failed"])
                    end in
                  (exited ++ logged ++ ["View diff: meld " +:+ expectedAbs +:+ " " +:+ actualTmp;
                                        "Diff: expected - + actual" +:+ newline +:+ diff], None)
              end
          end
      end
  end.

Definition diffFiles (c : commands) (expectedPath actual : string) : test (list string * option error) :=
  r ← writeTmp c actual;
  match r with
  | Err e => mret ([], Some (WrapW "write actual yaml to temp file failed" e))
  | Ok actualTmp =>
      let '(lines, err) := runDiff c expectedPath actualTmp in
      mret (("Wrote actual to " +:+ actualTmp) :: lines, err)
  end.

(** That the files differ, which diff tells by its exit status, is no error: the
    difference is the last line logged. *)
Lemma runDiff_differ c expectedPath tmp diff status :
  StdoutPipe c = None → StartDiff c = None → ReadAll c = Ok diff → WaitDiff c = Exited status →
  (runDiff c expectedPath tmp).2 = None
  ∧ list.last (runDiff c expectedPath tmp).1 = Some ("Diff: expected - + actual" +:+ newline +:+ diff).
Proof.
  intros H1 H2 H3 H4; unfold runDiff; rewrite H1, H2, H3, H4; destruct (Abs c expectedPath); cbn [fst snd];
    (split; [done|]); by rewrite !app_assoc, list.last_app.
Qed.

(** The files after it: one more, if it could be created. *)
Definition one_temp_more (files files' : gmap string testharness.file) : Prop :=
  files' = files ∨ ∃ tmp text, files !! tmp = None ∧ files' = <[tmp := Content text]> files.

Lemma diffFiles_files c expectedPath actual w :
  commands_ok c →
  ∃ a w', diffFiles c expectedPath actual w = (Returned a, w')
    ∧ w_errors w' = w_errors w ∧ one_temp_more (w_files w) (w_files w').
Proof.
  intros Hc. unfold diffFiles, writeTmp, mbind, test_bind. destruct (CreateTemp c (w_files w)) as [tmp|e] eqn:E.
  - apply Hc in E. destruct (WriteTemp c actual) as [text err]. cbn.
    destruct err as [e|]; [|destruct (runDiff c expectedPath tmp) as [lines err]];
      (eexists _, _; split; [done|]; split; [done|]; right; by exists tmp, text).
  - eexists _, _. split; [done|]. split; [done|]. by left.
Qed.
End goldendiff.

Module golden.

Definition newline : string := String (ascii_of_N 10) "".

(** ** findChannelsPath *)

(** [filepath.Dir]. *)
Definition Dir (p : string) : string :=
  match LastCut "/" p with
  | Some (before, _) => Clean (before +:+ "/")
  | None => "."
  end.

Definition Abs (cwd p : string) : string :=
  if strings.HasPrefix p "/" then Clean p else path_Join [cwd; p].

Inductive searchResult := Channels (c : string) | AtRoot | SearchError | StuckInLoop.

(** The loop up the directories; [fuel] counts the rounds that are left of the
    hundred. *)
Fixpoint searchUp (fuel : nat) (Stat : string → statResult) (p : string) : searchResult :=
  match fuel with
  | O => StuckInLoop
  | S fuel =>
      let c := path_Join [p; "channels"] in
      match Stat c with
      | Missing => if decide (p = Dir p) then AtRoot else searchUp fuel Stat (Dir p)
      | StatError => SearchError
      | Exists => Channels c
      end
  end.

(** findChannelsPath: the new value of loaders.FlagChannel. *)
Definition findChannelsPath (Stat : string → statResult) (Getwd : res string) (FlagChannel : string) : test string :=
  match Stat FlagChannel with
  | Exists => mret FlagChannel
  | _ =>
      match Getwd with
      | Err _ => Fatalf "error getting wd"
      | Ok cwd =>
          match searchUp 100 Stat (Dir (Abs cwd FlagChannel)) with
          | Channels c => mret c
          | AtRoot => mret FlagChannel
          | SearchError => Errorf "error finding channel directory";; mret FlagChannel
          | StuckInLoop => Errorf "stuck in loop looking for channels directory";; mret FlagChannel
          end
      end
  end.

(** NewValidator: the types of the tests are registered, the first failure ends
    the test; then the channels are found. What addon.Init sets up is modelled
    with the loaders. *)
Fixpoint addToScheme (functions : list (res ())) : test () :=
  match functions with
  | [] => mret ()
  | Ok _ :: functions => addToScheme functions
  | Err _ :: _ => Fatalf "error from AddToScheme"
  end.

Definition NewValidator (AddToSchemeFunctions : list (res ())) (Stat : string → statResult) (Getwd : res string)
    (FlagChannel : string) : test string :=
  addToScheme AddToSchemeFunctions;; findChannelsPath Stat Getwd FlagChannel.

(** WithSchema: options accumulate. *)
Definition WithSchema {A} (addToSchemeFuncs AddToSchemeFunctions : list A) : list A :=
  AddToSchemeFunctions ++ addToSchemeFuncs.

(** ** The tests of a directory *)

(** A tree of files; the children of a directory are in lexical order. *)
#[warnings="-register-all"]
Inductive node :=
  | FileNode
  | DirNode (children : list (string * node))
  | BadNode.

(** The name of a test: the path of its directory relative to the root. *)
Definition testName (rel : list string) : string :=
  if decide (rel = []) then "." else strings.Join rel "/".

(** filepath.WalkDir with the callback of Validate, on the directory at [rel]:
    the names appended. An error of the walk ends it; a directory named
    input.yaml is no test. *)
Fixpoint walkDir (rel : list string) (n : node) : res (list string) :=
  match n with
  | BadNode => Err (Prelude.Errorf "error listing tests")
  | FileNode => Ok []
  | DirNode children =>
      (fix walk (children : list (string * node)) : res (list string) :=
         match children with
         | [] => Ok []
         | (name, child) :: children =>
             here ← match child with
                    | FileNode => Ok (if decide (name = "input.yaml") then [testName rel] else [])
                    | _ => walkDir (rel ++ [name]) child
                    end;
             rest ← walk children;
             Ok (here ++ rest)
         end) children
  end.

Definition testNames (root : node) : res (list string) := walkDir [] root.

(** ** One test *)

(** ShouldWriteGoldenOutput, with the older variable. *)
Definition ShouldWriteGoldenOutput (Getenv : string → string) : bool :=
  negb (bool_decide (Getenv "HACK_AUTOFIX_EXPECTED_OUTPUT" = "")) || testharness.ShouldWriteGoldenOutput Getenv.

(** startKube: a server of its own for every test. *)
Definition startKube (b : backend) : test restConfig :=
  match env_Start b with
  | Some (Err _) => Fatalf "failed to start envtest kube-apiserver"
  | Some (Ok rc) => Cleanup StopEnv;; mret rc
  | None =>
      match NewMockServer b with
      | Err _ => Fatalf "error building mock kube-apiserver"
      | Ok _ =>
          match StartServing b with
          | Err _ => Errorf "error starting mock kube-apiserver";; Cleanup StopServer;; panic
          | Ok addr => Cleanup StopServer;; mret (mkRestConfig addr None)
          end
      end
  end.

(** startControllerRuntime, given the manager and whether its caches sync. The
    goroutine that runs the manager, and reports its error, is left out. *)
Definition startControllerRuntime (NewManager : restConfig → res ()) (WaitForCacheSync : bool) (rc : restConfig) :
    test () :=
  match NewManager rc with
  | Err _ => Fatalf "error building manager"
  | Ok _ =>
      if WaitForCacheSync then Cleanup StopManager else Fatalf "error waiting for cache sync"
  end.

(** What a test talks to: the serializers, the metadata accessor, the client and
    the server behind it, and the factory of the reconciler. *)
Record services (S W St : Type) := mkServices {
  sv_backend : backend;
  sv_NewManager : restConfig → res ();
  sv_WaitForCacheSync : bool;
  sv_documents : string → list rawDocument;
  sv_Unmarshal : string → res jmap;
  sv_Decode : string → res S;
  sv_Create : S → St → option error * St;
  sv_Delete : S → St → option error * St;
  sv_Namespace : S → res string;
  sv_Name : S → res string;
  sv_factory : res (reconcilerParams S W);
  sv_state : RState S W;
  sv_RewriteObjects : option (jmap → jmap);
  sv_Encode : jmap → res string;
  sv_diff : goldendiff.commands
}.
Arguments sv_backend {S W St} _.
Arguments sv_NewManager {S W St} _.
Arguments sv_WaitForCacheSync {S W St} _.
Arguments sv_documents {S W St} _.
Arguments sv_Unmarshal {S W St} _.
Arguments sv_Decode {S W St} _.
Arguments sv_Create {S W St} _.
Arguments sv_Delete {S W St} _.
Arguments sv_Namespace {S W St} _.
Arguments sv_Name {S W St} _.
Arguments sv_factory {S W St} _.
Arguments sv_state {S W St} _.
Arguments sv_RewriteObjects {S W St} _.
Arguments sv_Encode {S W St} _.
Arguments sv_diff {S W St} _.

Section runTest.
Context {S W St : Type} `{Unstructured, RangeOrder, Environment S W}.
Context (sv : services S W St).

(** A fallible call whose error ends the test. *)
Definition must {A} (msg : string) (r : res A) : test A :=
  match r with Ok a => mret a | Err _ => Fatalf msg end.

Definition parseObjects (text : string) : res Objects :=
  ParseObjects (sv_Unmarshal sv) (sv_documents sv text) (mkObjects [] [] "").

(** client.Create: an error is reported, and the object is cleaned up anyway. *)
Definition createObject (msg : string) (obj : S) (acc : St * list S) : test (St * list S) :=
  let '(st, created) := acc in
  match sv_Create sv obj st with
  | (None, st) => mret (st, created ++ [obj])
  | (Some _, st) => Errorf msg;; mret (st, created ++ [obj])
  end.

(** The objects of a side input. *)
Fixpoint createItems (items : list Object) (acc : St * list S) : test (St * list S) :=
  match items with
  | [] => mret acc
  | obj :: items =>
      match (JSON obj).2 with
      | Err _ => Errorf "error converting resource to json";; createItems items acc
      | Ok text =>
          match sv_Decode sv text with
          | Err _ => Errorf "error parsing resource";; createItems items acc
          | Ok decoded => acc ← createObject "error creating resource" decoded acc; createItems items acc
          end
      end
  end.

Definition sideInput (path : string) (acc : St * list S) : test (St * list S) :=
  r ← ReadFile path;
  match r with
  | NotExist => mret acc
  | ReadError _ => Errorf "Could not read side input file";; mret acc
  | Bytes text =>
      objs ← must "error parsing file" (parseObjects text);
      createItems (Items objs) acc
  end.

Fixpoint sideInputs (testDir : string) (names : list string) (acc : St * list S) : test (St * list S) :=
  match names with
  | [] => mret acc
  | name :: names => acc ← sideInput (path_Join [testDir; name]) acc; sideInputs testDir names acc
  end.

(** The resource under test: created, and what its reconciler is called for. *)
Definition inputResource (testDir : string) (acc : St * list S) : test (S * (St * list S)) :=
  r ← ReadFile (path_Join [testDir; "input.yaml"]);
  match r with
  | Bytes text =>
      objs ← must "error parsing file" (parseObjects text);
      match Items objs with
      | [item] =>
          crJSON ← must "error converting CR to json" (JSON item).2;
          cr ← must "error parsing CR" (sv_Decode sv crJSON);
          acc ← createObject "error creating resource" cr acc;
          _ ← must "error getting namespace" (sv_Namespace sv cr);
          _ ← must "error getting name" (sv_Name sv cr);
          mret (cr, acc)
      | _ => Fatalf "expected exactly one item"
      end
  | _ => Fatalf "error reading file"
  end.

(** The YAML documents of the objects, a separator before all but the first. *)
Fixpoint encodeObjects (first : bool) (items : list Object) : res string :=
  match items with
  | [] => Ok ""
  | o :: items =>
      let u := match sv_RewriteObjects sv with Some f => f (obj_object o) | None => obj_object o end in
      text ← sv_Encode sv u;
      rest ← encodeObjects false items;
      Ok ((if first then "" else "---" +:+ newline) +:+ text +:+ rest)
  end.

(** The objects of the reconciler; kustomize works in an empty file system in
    memory. *)
Definition actualYAML (cr : S) : test string :=
  p ← must "building reconcile" (sv_factory sv);
  objects ← must "error building deployment objects"
    (BuildDeploymentObjectsWithFs p cr (if IsKustomizeOptionUsed p then Some ∅ else None) (sv_state sv)).1;
  must "error encoding to yaml" (encodeObjects true (Items objects)).

(** What diffFiles logs is no part of the verdict; the temporary file it makes stays. *)
Definition compareExpected (writing : bool) (expectedPath actual : string) : test () :=
  r ← ReadFile expectedPath;
  expected ← match r with
             | Bytes b => mret b
             | NotExist => if writing then mret "" else Fatalf "error reading file"
             | ReadError _ => Fatalf "error reading file"
             end;
  if decide (actual = expected) then mret ()
  else if writing then
    ok ← WriteFile expectedPath actual;
    if ok : bool then mret () else Fatalf "error writing expected output"
  else
    _ ← goldendiff.diffFiles (sv_diff sv) expectedPath actual;
    Errorf "unexpected diff between actual and expected YAML. See previous output for details.".

Fixpoint deleteObjects (objs : list S) (st : St) : test St :=
  match objs with
  | [] => mret st
  | obj :: objs =>
      match sv_Delete sv obj st with
      | (None, st) => deleteObjects objs st
      | (Some _, st) => Errorf "error deleting object";; deleteObjects objs st
      end
  end.

(** All of a test but the comparison and the clean-up. *)
Definition prepare (testDir : string) (st : St) : test (string * (St * list S)) :=
  rc ← startKube (sv_backend sv);
  startControllerRuntime (sv_NewManager sv) (sv_WaitForCacheSync sv) rc;;
  acc ← sideInputs testDir ["side_in.yaml"; "dependencies.yaml"] (st, []);
  x ← inputResource testDir acc;
  let '(cr, acc) := x in
  actual ← actualYAML cr;
  mret (actual, acc).

Definition runTest (writing : bool) (testDir : string) (st : St) : test St :=
  x ← prepare testDir st;
  let '(actual, (st, created)) := x in
  compareExpected writing (path_Join [testDir; "_expected.yaml"]) actual;;
  deleteObjects created st.

(** Validate: every test of the tree in a subtest, with a server of its own. *)
Fixpoint runTests (writing : bool) (basedir : string) (names : list string) (st : St) : test () :=
  match names with
  | [] => mret ()
  | name :: names =>
      Run (runTest writing (path_Join [basedir; name]) st;; mret ());; runTests writing basedir names st
  end.

Definition Validate (Getenv : string → string) (TestDir : string) (tree : string → node) (st : St) : test () :=
  let basedir := if decide (TestDir ≠ "") then TestDir else "testdata/golden" in
  names ← must "error listing tests" (testNames (tree basedir));
  runTests (ShouldWriteGoldenOutput Getenv) basedir names st.

End runTest.

(* ------------------------------------------------------------------ *)
(** ** The channels directory *)

(** The absolute path of a directory, from its elements, innermost first. *)
Definition absolute (r : list string) : string := "/" +:+ strings.Join (reverse r) "/".

(** The directories from one up to the root. *)
Fixpoint ancestors (r : list string) : list (list string) :=
  r :: match r with [] => [] | _ :: r => ancestors r end.

(** The reference: the first of some directories where there is something. *)
Fixpoint nearest (Stat : string → statResult) (ds : list (list string)) : searchResult :=
  match ds with
  | [] => AtRoot
  | d :: ds =>
      let c := path_Join [absolute d; "channels"] in
      match Stat c with
      | Missing => nearest Stat ds
      | StatError => SearchError
      | Exists => Channels c
      end
  end.

Lemma LastCut_app c s t : strings.free_of c t → LastCut c (s +:+ String c t) = Some (s, t).
Proof.
  intros Hf. induction s as [|a s IH].
  - change ("" +:+ String c t) with (String c t). cbn [LastCut]. rewrite LastCut_free by done. by rewrite decide_True.
  - rewrite string_app_cons. cbn [LastCut]. by rewrite IH.
Qed.

Lemma cleanStep_empty rooted out : url.cleanStep rooted out "" = out.
Proof. unfold url.cleanStep. by rewrite bool_decide_true by by left. Qed.

(** A path cleaned from its elements and a trailing slash. *)
Lemma Clean_absolute r : r ≠ [] → Forall plainSegment r → Clean (absolute r +:+ "/") = absolute r.
Proof.
  intros Hne Hs. unfold absolute. set (segs := reverse r).
  assert (Forall plainSegment segs) as Hsegs by by apply list.Forall_reverse.
  assert (segs ≠ []) as Hsne by (unfold segs; intros E; apply Hne; by rewrite <-(reverse_involutive r), E).
  change (("/" +:+ strings.Join segs "/") +:+ "/") with ("/" +:+ (strings.Join segs "/" +:+ "/")).
  unfold Clean. rewrite HasPrefix_app.
  change ("/" +:+ (strings.Join segs "/" +:+ "/")) with (String "/" (strings.Join segs "/" +:+ String "/" "")).
  rewrite Split_slash, Split_snoc, Split_Join; [|done|..|done].
  - cbn [foldl]. rewrite foldl_app. cbn [foldl]. rewrite !cleanStep_empty, foldl_cleanStep, app_nil_r by done.
    by rewrite reverse_involutive.
  - eapply list.Forall_impl; [exact Hsegs|]. by intros s (_ & Hf & _).
Qed.

Lemma Dir_absolute s r : Forall plainSegment (s :: r) → Dir (absolute (s :: r)) = absolute r.
Proof.
  intros [(_ & Hf & _) Hr]%list.Forall_cons. unfold Dir.
  assert (absolute (s :: r) = (if decide (r = []) then "" else absolute r) +:+ String "/" s) as ->.
  { unfold absolute. rewrite reverse_cons. destruct (decide (r = [])) as [->|Hne]; [done|].
    rewrite Join_snoc by (intros E; apply Hne; by rewrite <-(reverse_involutive r), E). by rewrite !string_app_assoc. }
  rewrite LastCut_app by done. destruct (decide (r = [])) as [->|Hne]; [done|]. by apply Clean_absolute.
Qed.

Lemma absolute_shorter s r : Forall plainSegment (s :: r) → absolute (s :: r) ≠ absolute r.
Proof.
  intros [(_ & _ & Hs & _) Hr]%list.Forall_cons E. apply (f_equal String.length) in E. unfold absolute in E.
  rewrite reverse_cons in E. destruct (decide (r = [])) as [->|Hne].
  - cbn in E. by destruct s.
  - rewrite Join_snoc in E by (intros E'; apply Hne; by rewrite <-(reverse_involutive r), E').
    rewrite !string_length_app in E. cbn in E. lia.
Qed.

(** Looking for the channels directory ends, and finds the nearest: from a
    directory fewer than a hundred levels deep, the loop checks it and each of
    its parents up to the root, in this order, and stops at the first where there
    is a channels directory or where looking fails; the guard against an endless
    loop never fires. *)
Theorem searchUp_nearest Stat r :
  Forall plainSegment r → (length r < 100)%nat →
  searchUp 100 Stat (absolute r) = nearest Stat (ancestors r).
Proof.
  assert (∀ fuel r, Forall plainSegment r → (length r < fuel)%nat →
    searchUp fuel Stat (absolute r) = nearest Stat (ancestors r)) as H; [|by apply H].
  clear r. induction fuel as [|fuel IH]; intros r Hr Hl; [lia|].
  destruct r as [|s r]; cbn [searchUp ancestors nearest].
  - by destruct (Stat _).
  - destruct (Stat _); [done| |done]. rewrite Dir_absolute by done.
    rewrite decide_False by by apply absolute_shorter.
    apply IH; [by apply list.Forall_cons in Hr as [_ Hr]|cbn in Hl; lia].
Qed.

Lemma searchUp_nearest_witness :
  searchUp 100 (λ p, if decide (p = "/home/op/channels") then Exists else Missing) "/home/op/pkg/test"
  = Channels "/home/op/channels".
Proof.
  refine (eq_trans (searchUp_nearest (λ p, if decide (p = "/home/op/channels") then Exists else Missing)
    ["test"; "pkg"; "op"; "home"] _ _) _).
  - repeat constructor; done.
  - cbn. lia.
  - vm_compute. reflexivity.
Defined.

(* ------------------------------------------------------------------ *)
(** ** The tests that are found *)

Section node_induction.
Variable P : node → Prop.
Hypothesis (P_file : P FileNode) (P_bad : P BadNode).
Hypothesis P_dir : ∀ children, Forall (λ c, P c.2) children → P (DirNode children).

Fixpoint node_induction (n : node) : P n :=
  match n with
  | FileNode => P_file
  | BadNode => P_bad
  | DirNode children =>
      P_dir children
        ((fix go (cs : list (string * node)) : Forall (λ c, P c.2) cs :=
            match cs with [] => Forall_nil _ | c :: cs => Forall_cons _ c cs (node_induction c.2) (go cs) end) children)
  end.
End node_induction.

(** The node at a path. *)
Inductive inside : list string → node → node → Prop :=
  | inside_here n : inside [] n n
  | inside_child rel name child children n :
      (name, child) ∈ children → inside rel n child → inside (name :: rel) n (DirNode children).

Definition isTest (n : node) : Prop :=
  match n with DirNode children => ("input.yaml", FileNode) ∈ children | _ => False end.

Lemma inside_file rel n : inside rel n FileNode → rel = [] ∧ n = FileNode.
Proof. by inversion 1. Qed.

Lemma walkDir_spec n : ∀ rel names, walkDir rel n = Ok names →
  ∀ s, s ∈ names ↔ ∃ rel' m, inside rel' m n ∧ isTest m ∧ s = testName (rel ++ rel').
Proof.
  induction n as [| |children IH] using node_induction; intros rel names HW s.
  { injection HW as <-. split; [by intros ?%not_elem_of_nil|]. intros (rel' & m & [-> ->]%inside_file & [] & _). }
  { done. }
  assert (s ∈ names ↔ (("input.yaml", FileNode) ∈ children ∧ s = testName rel) ∨
    ∃ name child rel' m, (name, child) ∈ children ∧ inside rel' m child ∧ isTest m
      ∧ s = testName ((rel ++ [name]) ++ rel')) as ->.
  2:{ split.
      - intros [[Hin ->]|(name & child & rel' & m & Hin & Hm & Ht & ->)].
        + exists [], (DirNode children). rewrite app_nil_r. split_and!; [constructor|done|done].
        + exists (name :: rel'), m. split_and!; [by econstructor|done|by rewrite <-app_assoc].
      - intros (rel' & m & Hm & Ht & ->). inversion Hm as [|rel'' name child cs ? Hin Hm']; subst.
        + left. by rewrite app_nil_r.
        + right. exists name, child, rel'', m. by rewrite <-app_assoc. }
  revert names HW. cbn [walkDir]. induction IH as [|[name child] children Hc _ IHcs]; intros names.
  { intros [= <-]. set_solver. }
  intros (here & Hhere & (rest & Hrest & [= <-])%bind_Ok)%bind_Ok. rewrite elem_of_app, (IHcs rest Hrest).
  setoid_rewrite elem_of_cons.
  assert (s ∈ here ↔ ((name, child) = ("input.yaml", FileNode) ∧ s = testName rel) ∨
    ∃ rel' m, inside rel' m child ∧ isTest m ∧ s = testName ((rel ++ [name]) ++ rel')) as Hh.
  { destruct child as [|cs|].
    - injection Hhere as <-. split.
      + case_decide; [|by intros ?%not_elem_of_nil]. intros ->%list_elem_of_singleton. left. by subst.
      + intros [[[= ->] ->]|(rel' & m & [-> ->]%inside_file & [] & _)]. rewrite decide_True by done. by left.
    - rewrite (Hc _ _ Hhere s). naive_solver.
    - done. }
  rewrite Hh. naive_solver.
Qed.

(** Validate runs exactly the tests of the tree: when the walk succeeds, the
    names it collects are those of the directories, at any depth, that have a
    file input.yaml in them, each relative to the root. *)
Theorem testNames_complete root names s :
  testNames root = Ok names →
  s ∈ names ↔ ∃ rel children, inside rel (DirNode children) root ∧ ("input.yaml", FileNode) ∈ children
    ∧ s = testName rel.
Proof.
  intros HW. rewrite (walkDir_spec root [] names HW). split.
  - intros (rel & m & Hm & Ht & ->). destruct m as [|children|]; [done| |done]. by exists rel, children.
  - intros (rel & children & Hm & Ht & ->). by exists rel, (DirNode children).
Qed.

Definition example_tree : node :=
  DirNode [("input.yaml", FileNode); ("simple", DirNode [("input.yaml", FileNode); ("notes", FileNode)]);
    ("v2", DirNode [("input.yaml", DirNode [("a", FileNode)]); ("patch", DirNode [("input.yaml", FileNode)])])].

Lemma testNames_complete_witness : "v2/patch" ∈ ["."; "simple"; "v2/patch"].
Proof.
  refine (proj2 (testNames_complete example_tree ["."; "simple"; "v2/patch"] "v2/patch" _) _).
  - vm_compute. reflexivity.
  - exists ["v2"; "patch"], [("input.yaml", FileNode)]. split_and!; [|by left|reflexivity].
    econstructor; [right; right; by left|]. econstructor; [right; by left|]. constructor.
Defined.

(* ------------------------------------------------------------------ *)
(** ** The verdict of a test *)

(** An action that leaves the files alone. *)
Definition keepsFiles {A} (m : test A) : Prop :=
  ∀ w, w_files (m w).2 = w_files w ∧ w_readOnly (m w).2 = w_readOnly w.

Create HintDb files.

Lemma keepsFiles_ret {A} (a : A) : keepsFiles (mret a).
Proof. done. Qed.
Lemma keepsFiles_Errorf msg : keepsFiles (Errorf msg).
Proof. done. Qed.
Lemma keepsFiles_Fatalf {A} msg : keepsFiles (Fatalf (A := A) msg).
Proof. done. Qed.
Lemma keepsFiles_panic {A} : keepsFiles (panic (A := A)).
Proof. done. Qed.
Lemma keepsFiles_Cleanup c : keepsFiles (Cleanup c).
Proof. done. Qed.
Lemma keepsFiles_ReadFile p : keepsFiles (ReadFile p).
Proof. done. Qed.
Lemma keepsFiles_must {A} msg (r : res A) : keepsFiles (must msg r).
Proof. by destruct r. Qed.

Lemma keepsFiles_bind {A B} (m : test A) (f : A → test B) :
  keepsFiles m → (∀ a, keepsFiles (f a)) → keepsFiles (m ≫= f).
Proof.
  intros Hm Hf w. unfold mbind, test_bind. specialize (Hm w).
  destruct (m w) as [[a| |] w']; cbn [fst snd] in *; [|done..]. destruct (Hf a w') as [-> ->]. done.
Qed.

#[local] Hint Resolve keepsFiles_ret keepsFiles_Errorf keepsFiles_Fatalf keepsFiles_panic keepsFiles_Cleanup
  keepsFiles_ReadFile keepsFiles_must keepsFiles_bind : files.

(** The case analysis of an action, down to those of the database. *)
Ltac keeps :=
  repeat match goal with
  | |- keepsFiles (mbind _ _) => apply keepsFiles_bind; [|intros ?]
  | |- keepsFiles (match ?x with _ => _ end) => destruct x
  | |- keepsFiles _ => solve [auto with files]
  end.

Section verdict.
Context {S W St : Type} {U : Unstructured} {RO : RangeOrder} {E : Environment S W}.
Context (sv : services S W St).

Lemma createObject_keeps msg obj acc : keepsFiles (createObject sv msg obj acc).
Proof. unfold createObject. keeps. Qed.
#[local] Hint Resolve createObject_keeps : files.

Lemma createItems_keeps items acc : keepsFiles (createItems sv items acc).
Proof. revert acc. induction items as [|o items IH]; intros acc; cbn [createItems]; keeps. Qed.
#[local] Hint Resolve createItems_keeps : files.

Lemma sideInputs_keeps dir names acc : keepsFiles (sideInputs sv dir names acc).
Proof. revert acc. induction names as [|n names IH]; intros acc; cbn [sideInputs]; unfold sideInput; keeps. Qed.
#[local] Hint Resolve sideInputs_keeps : files.

Lemma prepare_keeps dir st : keepsFiles (prepare sv dir st).
Proof. unfold prepare, startKube, startControllerRuntime, inputResource, actualYAML. keeps. Qed.

(** The clean-up deletes every object that was created, in order, whatever
    deleting another answers. *)
Lemma deleteObjects_all objs st w :
  ∃ errs, deleteObjects sv objs st w =
    (Returned (foldl (λ st obj, (sv_Delete sv obj st).2) st objs),
     mkWorld (w_files w) (w_readOnly w) (w_errors w ++ errs) (w_cleanups w))
  ∧ ((∀ obj st, obj ∈ objs → (sv_Delete sv obj st).1 = None) → errs = []).
Proof.
  revert st w. induction objs as [|obj objs IH]; intros st w.
  { exists []. rewrite app_nil_r. by destruct w. }
  cbn [deleteObjects foldl]. destruct (sv_Delete sv obj st) as [[e|] st1] eqn:ED.
  - destruct (IH st1 (report "error deleting object" w)) as (errs & HE & Hn).
    exists ("error deleting object" :: errs). unfold mbind, test_bind, Errorf. rewrite HE. cbn. split.
    + by rewrite <-app_assoc.
    + intros Hall. specialize (Hall obj st (list_elem_of_here _ _)). by rewrite ED in Hall.
  - destruct (IH st1 w) as (errs & HE & Hn). exists errs. split; [by rewrite HE|].
    intros Hall. apply Hn. intros o st0 Ho. apply Hall. by right.
Qed.

(** The comparison alone. *)
Definition diffReport : string :=
  "unexpected diff between actual and expected YAML. See previous output for details.".

Lemma compareExpected_reads p actual w :
  goldendiff.commands_ok (sv_diff sv) →
  ∃ o w', compareExpected sv false p actual w = (o, w')
    ∧ match w_files w !! p with
      | Some (Content expected) =>
          o = Returned () ∧
          if decide (actual = expected) then w' = w
          else w_errors w' = w_errors w ++ [diffReport] ∧ goldendiff.one_temp_more (w_files w) (w_files w')
      | _ => o = FailedNow ∧ w' = report "error reading file" w
      end.
Proof using.
  intros Hc. unfold compareExpected, ReadFile. unfold mbind at 1 2, test_bind at 1 2.
  destruct (w_files w !! p) as [[b|]|]; cbn; [|by eexists _, _..].
  case_decide as Ed; [by eexists _, _|].
  destruct (goldendiff.diffFiles_files (sv_diff sv) p actual w Hc) as (a & w1 & HD & He & Hf).
  unfold mbind, test_bind. rewrite HD. eexists _, _. split; [done|]. split; [done|]. cbn. by rewrite He.
Qed.

Lemma compareExpected_writes p actual w :
  p ∉ w_readOnly w → (∀ err, w_files w !! p ≠ Some (Unreadable err)) →
  ∃ w', compareExpected sv true p actual w = (Returned (), w') ∧ w_errors w' = w_errors w
    ∧ (w_files w' = <[p := Content actual]> (w_files w)
       ∨ w_files w' = w_files w ∧ w_files w !! p = None ∧ actual = "").
Proof using.
  intros Hp Hr. unfold compareExpected, ReadFile, WriteFile, mbind, test_bind.
  destruct (w_files w !! p) as [[b|err]|] eqn:EF; [|by destruct (Hr err)|]; cbn; case_decide as Ed;
    cbn; rewrite ?(decide_False (P := p ∈ w_readOnly w)) by done; eexists; (split; [done|]); (split; [done|]).
  - left. subst. by rewrite insert_id.
  - by left.
  - by right.
  - by left.
Qed.

(** C26. What a golden test decides, when its set-up succeeds without a complaint
    and the deletions of its clean-up succeed. Where the expected file can be
    read, every object that was created is deleted, in order, and the test passes
    exactly if the file holds the objects the reconciler built; if it does not,
    one error is reported, and no file is changed, though the diff may leave a
    new temporary one. Where it cannot be read, or is not there, the test ends at
    once, with nothing cleaned up. Run to write, with an expected file that is
    not there or can be read and written, the test passes, every object created
    is deleted, and the expected file holds the objects (nothing is written for
    no objects), with every other file as it was. *)
Theorem runTest_verdict testDir st w actual st1 created w1 :
  let p := path_Join [testDir; "_expected.yaml"] in
  prepare sv testDir st w = (Returned (actual, (st1, created)), w1) →
  w_errors w1 = w_errors w → goldendiff.commands_ok (sv_diff sv) →
  (∀ obj st, obj ∈ created → (sv_Delete sv obj st).1 = None) →
  let st2 := foldl (λ st obj, (sv_Delete sv obj st).2) st1 created in
  (let '(o, w2) := runTest sv false testDir st w in
   match w_files w !! p with
   | Some (Content expected) =>
       o = Returned st2 ∧
       if decide (actual = expected) then w_errors w2 = w_errors w ∧ w_files w2 = w_files w
       else w_errors w2 = w_errors w ++ [diffReport]
            ∧ (w_files w2 = w_files w
               ∨ ∃ tmp text, w_files w !! tmp = None ∧ w_files w2 = <[tmp := Content text]> (w_files w))
   | _ => o = FailedNow ∧ w_errors w2 = w_errors w ++ ["error reading file"] ∧ w_files w2 = w_files w
   end)
  ∧ (p ∉ w_readOnly w → (∀ err, w_files w !! p ≠ Some (Unreadable err)) →
     ∃ w2, runTest sv true testDir st w = (Returned st2, w2) ∧ w_errors w2 = w_errors w
      ∧ (w_files w2 = <[p := Content actual]> (w_files w)
         ∨ w_files w2 = w_files w ∧ w_files w !! p = None ∧ actual = "")).
Proof using.
  intros p HP He Hc Hd st2. destruct (prepare_keeps testDir st w) as [Hf Hro]. rewrite HP in Hf, Hro. cbn in Hf, Hro.
  assert (∀ w2, ∃ w3, deleteObjects sv created st1 w2 = (Returned st2, w3)
    ∧ w_errors w3 = w_errors w2 ∧ w_files w3 = w_files w2) as Hdel.
  { intros w2. destruct (deleteObjects_all created st1 w2) as (errs & Hdel & Hn).
    rewrite (Hn Hd), app_nil_r in Hdel. by eexists. }
  unfold runTest, mbind, test_bind. rewrite HP. fold p. split.
  - destruct (compareExpected_reads p actual w1 Hc) as (o & w2 & -> & Hv). rewrite Hf in Hv.
    destruct (w_files w !! p) as [[expected|err]|].
    + destruct Hv as [-> Hv], (Hdel w2) as (w3 & -> & He3 & Hf3). split; [done|]. rewrite He3, Hf3.
      case_decide; [subst w2; by rewrite Hf|]. destruct Hv as [-> Hv]. rewrite He. split; [done|exact Hv].
    + destruct Hv as [-> ->]. cbn. by rewrite He, Hf.
    + destruct Hv as [-> ->]. cbn. by rewrite He, Hf.
  - intros Hp Hr. destruct (compareExpected_writes p actual w1) as (w2 & -> & He2 & Hf2); [by rewrite Hro|by rewrite Hf|].
    destruct (Hdel w2) as (w3 & -> & He3 & Hf3). exists w3. split; [done|]. rewrite He3, Hf3, He2, He, <-Hf. done.
Qed.

End verdict.

(** *** A test that passes *)

(** The accessors of the other examples, with a text for every object. *)
Definition example_printing : Unstructured :=
  let U := example_unstructured in
  @Build_Unstructured (@u_GVK U) (@u_GetKind U) (@u_GetName U) (@u_GetNamespace U) (@u_GetLabels U)
    (@u_SetLabels U) (@u_GetAnnotations U) (@u_SetAnnotations U) (@u_SetNestedField U) (@u_SetNestedStringMap U)
    (@u_NestedStringMap U) (@u_NestedString U) (@u_NestedMap U) (@u_NestedSlice U) (λ m, Ok (@u_GetKind U m))
    (@u_Decode U).

(** A diff that finds a difference; its temporary file has a fixed name. *)
Definition example_commands : goldendiff.commands := {|
  goldendiff.CreateTemp files := if decide (files !! "/tmp/1.yaml" = None) then Ok "/tmp/1.yaml" else Err (Prelude.Errorf "exists");
  goldendiff.WriteTemp text := (text, None);
  goldendiff.StdoutPipe := None;
  goldendiff.StartDiff := None;
  goldendiff.ReadAll := Ok "-Service";
  goldendiff.WaitDiff := goldendiff.Exited 1;
  goldendiff.Abs p := Ok ("/work/" +:+ p)
|}.

Lemma example_commands_ok : goldendiff.commands_ok example_commands.
Proof. intros files tmp. cbn. case_decide; [|done]. by intros [= <-]. Qed.

Definition example_services : services (subject exampleAddon) () nat := {|
  sv_backend := mkBackend None (Ok ()) (Ok "127.0.0.1:8080") (λ _, Ok ());
  sv_NewManager _ := Ok ();
  sv_WaitForCacheSync := true;
  sv_documents text := [RawDoc text];
  sv_Unmarshal text := Ok (example_named_kind text);
  sv_Decode _ := Ok (Common example_addon);
  sv_Create _ n := (None, Datatypes.S n);
  sv_Delete _ n := (None, pred n);
  sv_Namespace _ := Ok "prod";
  sv_Name _ := Ok "guestbook";
  sv_factory := Ok (example_params false);
  sv_state := example_state;
  sv_RewriteObjects := None;
  sv_Encode m := Ok (@u_GetKind example_unstructured m +:+ newline);
  sv_diff := example_commands
|}.

Definition example_expected : string := "ConfigMap" +:+ newline +:+ "---" +:+ newline +:+ "Service" +:+ newline.
Definition example_world : world :=
  mkWorld (<["simple/side_in.yaml" := Content "Secret"]> (<["simple/input.yaml" := Content "Guestbook"]>
    {["simple/_expected.yaml" := Content example_expected]})) ∅ [] [].

Lemma runTest_verdict_witness :
  ∃ w2, @runTest _ _ nat example_printing canonical_range example_environment example_services false
      "simple" 0%nat example_world = (Returned 0%nat, w2)
    ∧ w_files w2 = w_files example_world ∧ w_errors w2 = [].
Proof.
  destruct (@runTest_verdict _ _ nat example_printing canonical_range example_environment example_services
    "simple" 0%nat example_world example_expected 2%nat [Common example_addon; Common example_addon]
    (mkWorld (w_files example_world) ∅ [] [StopManager; StopServer])) as [Hv _];
    [vm_compute; reflexivity|reflexivity|exact example_commands_ok|done|].
  destruct (runTest _ _ _ _ _) as [o w2]. cbv zeta in Hv.
  change (path_Join ["simple"; "_expected.yaml"]) with "simple/_expected.yaml" in Hv.
  change (w_files example_world !! "simple/_expected.yaml") with (Some (Content example_expected)) in Hv.
  cbv iota in Hv. destruct Hv as [-> Hv]. rewrite decide_True in Hv by reflexivity. destruct Hv as [He Hf].
  exists w2. split; [reflexivity|]. split; [exact Hf|exact He].
Defined.

(** The same test against another expected file: it fails, the objects are
    deleted, and the temporary file of the diff is left behind. *)
Example golden_mismatch :
  let w := mkWorld (<["simple/_expected.yaml" := Content "Namespace"]> (w_files example_world)) ∅ [] [] in
  let '(o, w2) := @runTest _ _ nat example_printing canonical_range example_environment example_services false
      "simple" 0%nat w in
  o = Returned 0%nat ∧ w_errors w2 = [diffReport] ∧ w_files w2 !! "/tmp/1.yaml" = Some (Content example_expected).
Proof. vm_compute. done. Qed.

End golden.

(** ** The reconciler of the repository's own tests (simpletest/controller.go) *)

Module simpletest.
Import watch.

Section simpletest.
Context {C W Cfg HC Mgr RM DC : Type} {CO : CommonObject C} {U : Unstructured} {CV : Converter}.
Context (L : WatchLibs Cfg HC Mgr RM DC) (PL : patchLibs) (sleep : Z → W → W).

(** Fields of the reconciler that its test sets. *)
Record SimpleTestReconciler := mkSimpleTestReconciler {
  TestSuffix : string;
  r_manifestController : option (subject C → W → W * res (gmap string string));
  r_applier : ApplierOptions → subject C → W → W * (subject C * list Object * option error);
  r_status : option (Status (subject C) W)
}.

Definition labels : gmap string string := {["example-app" := "simpletest"]}.

(** AfterUpdateStatus: a tenth of a second, in milliseconds. *)
Definition sleepAfterUpdateStatusHook : Hook (subject C) W :=
  mkHook _ _ None None None (Some (λ w, (sleep 100%Z w, None))).

Definition setupReconciler (r : SimpleTestReconciler) (httpClient dynamicClient : res ()) (prototype : C)
    defaultApplier (begin_ end_ : list (ReconcilerOption (subject C) W)) defaultLoader :
    res (reconcilerParams (subject C) W * option metrics.reconcileMetrics) :=
  InitWithName httpClient dynamicClient (Common prototype) defaultApplier begin_
    [WithObjectTransform [AddLabels labels];
     WithOwner (Some SourceAsOwner);
     WithLabels (Some SourceLabel);
     WithStatus (r_status r);
     WithObjectTransform [ApplyPatches PL];
     WithManifestController (r_manifestController r);
     WithApplier (r_applier r);
     WithHook sleepAfterUpdateStatusHook] end_ defaultLoader.

(** SetupWithManager: [NewController] and [WatchKind] are controller-runtime's. *)
Definition SetupWithManager (r : SimpleTestReconciler) (mgr : Mgr) (httpClient dynamicClient : res ())
    (prototype : C) defaultApplier begin_ end_ defaultLoader (NewController : string → res ())
    (WatchKind : option error) (WatchChannel : dynamicWatch RM DC → option error) :
    res (reconcilerParams (subject C) W * (dynamicWatch RM DC * clusterWatch (subject C))) :=
  params ← setupReconciler r httpClient dynamicClient prototype defaultApplier begin_ end_ defaultLoader;
  _ ← NewController ("simpletest-controller-" +:+ TestSuffix r);
  match WatchKind with
  | Some e => Err e
  | None =>
      w ← WatchChildren L (mkWatchChildrenOptions (Some mgr) None None (Some SourceLabel) WatchChannel false);
      Ok (params.1, w)
  end.

(** The defaults applyOptions fills in are the loader and the strategy. *)
Lemma applyOptions_fields {S} defaultApplier (begin_ opts end_ : list (ReconcilerOption S W)) loader q :
  applyOptions defaultApplier begin_ opts end_ loader = Ok q →
  let p := foldl (λ p opt, opt p) (defaultParams defaultApplier) (begin_ ++ opts ++ end_) in
  objectTransformations q = objectTransformations p ∧ labelMaker q = labelMaker p ∧ hooks q = hooks p
  ∧ prune q = prune p ∧ metrics q = metrics p.
Proof using.
  intros HA p. apply bind_Ok in HA as (p' & Hp & [= <-]). fold p in Hp.
  assert (p' = p ∨ ∃ mc, p' = WithManifestController mc p) as [->|[mc ->]]; [|by case_decide..].
  destruct (manifestController p), loader as [[mc|]|]; cbn in Hp; naive_solver.
Qed.

Lemma validateOptions_controller {S} (q : reconcilerParams S W) :
  validateOptions q = None → is_Some (manifestController q).
Proof using.
  unfold validateOptions. destruct (manifestController q); [done|]. by destruct (prune q), (labelMaker q).
Qed.

(** The test reconciler watches what it labels: when SetupWithManager
    succeeds, whatever options were registered globally to run before its own,
    the labels its objects get are the labels the watch on its children selects;
    each object also gets the fixed label and then the patches of the subject, in
    this order after the global transforms; and pruning and metrics stay as the
    global options left them. *)
Theorem SetupWithManager_watches r mgr hc dc prototype defaultApplier begin_ defaultLoader NewController
    WatchKind WatchChannel params dw cw :
  SetupWithManager r mgr hc dc prototype defaultApplier begin_ [] defaultLoader NewController WatchKind WatchChannel
    = Ok (params, (dw, cw)) →
  let globals := foldl (λ p opt, opt p) (defaultParams defaultApplier) begin_ in
  labelMaker params = Some (cw_labelMaker cw)
  ∧ is_Some (manifestController params)
  ∧ objectTransformations params = objectTransformations globals ++ [AddLabels labels; ApplyPatches PL]
  ∧ hooks params = hooks globals ++ [sleepAfterUpdateStatusHook]
  ∧ prune params = prune globals ∧ metrics params = metrics globals
  ∧ dw_restMapper dw = GetRESTMapper L mgr.
Proof using.
  intros HS globals. apply bind_Ok in HS as ([p rm] & Hp & (_ & _ & HS)%bind_Ok).
  destruct WatchKind as [|]; [done|]. apply bind_Ok in HS as ([dw' cw'] & Hw & [= <- <- <-]).
  apply bind_Ok in Hw as (hc' & _ & (cfg & _ & (rm' & [= <-] & (dc' & _ & Hw)%bind_Ok)%bind_Ok)%bind_Ok).
  cbn [controller_Watch] in Hw. destruct (WatchChannel _); [done|]. injection Hw as <- <-.
  apply bind_Ok in Hp as (_ & _ & (_ & _ & (q & Hq & Hp)%bind_Ok)%bind_Ok).
  destruct (validateOptions q) eqn:Ev; [done|]. apply validateOptions_controller in Ev.
  assert (p = q) as ->.
  { destruct (CollectMetrics q); [apply bind_Ok in Hp as (? & _ & Hp)|]; by injection Hp. }
  apply applyOptions_fields in Hq as (-> & -> & -> & -> & ->). rewrite app_nil_r, foldl_app. fold globals.
  cbn [foldl]. split_and!; [done|done|cbn; by rewrite <-app_assoc|done..].
Qed.

End simpletest.

Definition example_watchLibs : WatchLibs () () () () () :=
  mkWatchLibs (λ _, Ok ()) (λ _, ()) (λ _, ()) (λ _, ()) (λ _ _, Ok ()) (λ _ _, Ok ()).
Definition example_applier (opts : ApplierOptions) (s : subject exampleAddon) (w : ()) :
    () * (subject exampleAddon * list Object * option error) := (w, (s, ao_Objects opts, None)).
Definition example_simpletest : SimpleTestReconciler :=
  mkSimpleTestReconciler "a" (Some (λ _ w, (w, Ok ∅))) example_applier None.

#[local] Abbreviation example_setup := (
  @SetupWithManager exampleAddon () () () () () () example_common example_unstructured example_converter
    example_watchLibs example_patchLibs (λ _ w, w) example_simpletest () (Ok ()) (Ok ()) example_addon example_applier
    [WithApplyPrune] [] None (λ _, Ok ()) None (λ _, None)).

Lemma SetupWithManager_watches_witness :
  match example_setup with
  | Ok (params, (dw, cw)) => labelMaker params = Some (cw_labelMaker cw) ∧ is_Some (manifestController params)
  | Err _ => False
  end.
Proof.
  assert (match example_setup with Ok _ => true | Err _ => false end = true) as HB by (vm_compute; reflexivity).
  destruct example_setup as [[params [dw cw]]|] eqn:E; [|discriminate HB].
  destruct (SetupWithManager_watches _ _ _ _ _ _ _ _ _ _ _ _ _ _ _ _ _ E) as (Hl & Hm & _).
  split; assumption.
Defined.

End simpletest.
