(* ===== verification/Smoketest.v ===== *)
(** * The smoke test of the example operators (hack/smoketest.go)

    A program that installs operators in a cluster, disturbs what they deployed
    and checks that it comes back. It runs commands and lists pods; the cluster
    answers ([Cluster]). A step returns, panics (the harness and mustExec do), or
    ends the program ([log.Fatal]). *)

From S2P Require Import Prelude NetURL.
From stdpp Require Import options.
Import url(isAlnum, path_Join).

Module smoketest.

(** ** The cluster and the clock *)

Record Pod := mkPod { pod_Name : string; pod_Conditions : list (string * string) }.

Class Cluster (W : Type) := {
  (** a command with its arguments and its standard input: what it prints, and
      whether it succeeds *)
  Run : string → list string → string → W → W * (string * bool);
  ListPods : string → W → res (list Pod);
  (** a Get of the RBAC client: a resource, a namespace and a name *)
  GetRBAC : string → string → string → W → res ();
  (** the clock, in nanoseconds, and waiting for it *)
  Now : W → Z;
  WaitUntil : Z → W → W;
  (** the choice of a select when both of its channels are ready *)
  coin : W → bool
}.

(** What the clock does: it does not run backwards, and waiting is not shorter
    than asked. *)
Class ClockLaws W `{Cluster W} := {
  Run_later cmd args stdin w : (Now w ≤ Now (Run cmd args stdin w).1)%Z;
  WaitUntil_later t w : (Z.max t (Now w) ≤ Now (WaitUntil t w))%Z
}.

Inductive outcome (A : Type) :=
  | Returned (a : A)
  | Panicked (msg : string)
  | Exited (msg : string)
  | Unfinished.
Arguments Returned {A} _.
Arguments Panicked {A} _.
Arguments Exited {A} _.
Arguments Unfinished {A}.

Definition smoke (W A : Type) : Type := W → outcome A * W.

#[export] Instance smoke_ret {W} : MRet (smoke W) := λ A a w, (Returned a, w).
#[export] Instance smoke_bind {W} : MBind (smoke W) := λ A B f m w,
  match m w with
  | (Returned a, w) => f a w
  | (Panicked msg, w) => (Panicked msg, w)
  | (Exited msg, w) => (Exited msg, w)
  | (Unfinished, w) => (Unfinished, w)
  end.

Definition newline : string := String (ascii_of_N 10) "".

(** Nanoseconds of the package's constants. *)
Definition second : Z := 1000000000.
Definition verifyTimeout : Z := 120 * second.
Definition verifyFrequency : Z := 5 * second.

Definition defaultSystemNamespace : string := "guestbook-operator-system".

(** ** Rewriting images *)

(** The text up to the last occurrence of [p] and the text after it. *)
Fixpoint cutLast (s p : string) : option (string * string) :=
  let here := match strings.strip s p with Some t => Some ("", t) | None => None end in
  match s with
  | "" => here
  | String c s' =>
      match cutLast s' p with
      | Some (a, b) => Some (String c a, b)
      | None => here
      end
  end.

(** The regular expression of kubectlApplyFile at the start of a text without
    newlines: its group and what follows. The dot of the host is any byte; the
    group, of any bytes between the repository and the tag, takes as many as it
    can. *)
Definition matchImage (s : string) : option (string * string) :=
  match strings.strip s "gcr" with
  | Some (String _ s) =>
      match strings.strip s "io/jrjohnson-gke/" with
      | Some s => cutLast s ":latest"
      | None => None
      end
  | _ => None
  end.

(** [Regexp.Expand] for the match and its one group. *)
Fixpoint nameSpan (s : string) : string * string :=
  match s with
  | String c s' =>
      if isAlnum c || bool_decide (c = "_"%char) then let '(a, b) := nameSpan s' in (String c a, b) else ("", s)
  | "" => ("", "")
  end.

Definition extract (s : string) : option (string * string) :=
  match s with
  | String "{" s' =>
      match nameSpan s' with
      | ("", _) => None
      | (name, String "}" rest) => Some (name, rest)
      | _ => None
      end
  | _ => match nameSpan s with ("", _) => None | (name, rest) => Some (name, rest) end
  end.

Definition submatch (whole group name : string) : string :=
  if decide (name = "0") then whole else if decide (name = "1") then group else "".

Fixpoint expandLoop (fuel : nat) (template whole group : string) : string :=
  match fuel with
  | O => template
  | S fuel =>
      match strings.Cut "$" template with
      | (before, after, true) =>
          before +:+
          match after with
          | String "$" after => "$" +:+ expandLoop fuel after whole group
          | _ =>
              match extract after with
              | None => "$" +:+ expandLoop fuel after whole group
              | Some (name, rest) => submatch whole group name +:+ expandLoop fuel rest whole group
              end
          end
      | _ => template
      end
  end.
(** Every round consumes a dollar sign. *)
Definition expand (template whole group : string) : string :=
  expandLoop (S (String.length template)) template whole group.

(** [ReplaceAllString] on a line: the leftmost match takes the last [:latest] of
    the line, so that there is no second one. *)
Fixpoint replaceLine (template s : string) : string :=
  match matchImage s with
  | Some (group, rest) =>
      expand template (substring 0 (String.length s - String.length rest) s) group +:+ rest
  | None => match s with "" => "" | String c s' => String c (replaceLine template s') end
  end.

Definition ReplaceAllString (template s : string) : string :=
  strings.Join (replaceLine template <$> strings.Split (ascii_of_N 10) s) newline.

(** ** Files *)

(** What [os.Stat] and [os.ReadDir] show; the entries of a directory are sorted. *)
#[warnings="-register-all"]
Inductive entry :=
  | File (content : res string)
  | Directory (children : list (string * entry))
  | BadDirectory.

Definition ignored (name : string) : bool := strings.HasSuffix name "~" || strings.HasPrefix name ".".

Record flags := mkFlags {
  imageTag : string;
  imageRepo : string;
  ignoreTests : string;
  skipCustomScenarios : bool
}.

Section program.
Context {W : Type} `{Cluster W}.
Context (fl : flags).

Definition panic {A} (msg : string) : smoke W A := λ w, (Panicked msg, w).
Definition Fatal {A} (msg : string) : smoke W A := λ w, (Exited msg, w).

(** ** Commands *)

Definition executeCommand (cmd : string) (args : list string) : smoke W (res string) := λ w,
  let '(w, (out, ok)) := Run cmd args "" w in
  (Returned (if ok : bool then Ok (strings.TrimSuffix out newline)
             else Err (Errorf ("error execing command " +:+ cmd +:+ " " +:+ strings.Join args " "))), w).

Definition mustExec (cmd : string) (args : list string) : smoke W string :=
  out ← executeCommand cmd args;
  match out with
  | Ok out => mret out
  | Err _ => panic ("error execing command " +:+ cmd +:+ " " +:+ strings.Join args " ")
  end.

(** ** Applying files *)

Definition kubectlApplyString (s : string) : smoke W () := λ w,
  let '(w, (out, ok)) := Run "kubectl" ["apply"; "-f"; "-"] s w in
  if ok : bool then (Returned (), w) else (Panicked ("error from kubectl apply: " +:+ out), w).

Definition kubectlApplyFile (content : res string) : smoke W () :=
  match content with
  | Err _ => panic "error reading file"
  | Ok b =>
      let repo := strings.TrimSuffix (imageRepo fl) "/" in
      kubectlApplyString (ReplaceAllString (repo +:+ "/$1:" +:+ imageTag fl) b)
  end.

Fixpoint applyEntry (e : entry) : smoke W () :=
  match e with
  | File content => kubectlApplyFile content
  | BadDirectory => panic "error reading directory"
  | Directory children =>
      (fix go (children : list (string * entry)) : smoke W () :=
         match children with
         | [] => mret ()
         | (name, child) :: children => (if ignored name then mret () else applyEntry child);; go children
         end) children
  end.

Definition KubectlApply (Stat : string → option entry) (p : string) : smoke W () :=
  match Stat p with
  | None => panic "error doing stat"
  | Some e => applyEntry e
  end.

Definition KubectlDelete (p : string) : smoke W () :=
  mustExec "kubectl" ["delete"; "-f"; p; "--recursive"];; mret ().

(** ** Pods *)

Definition Pods (namespace : string) : smoke W (list Pod) := λ w,
  match ListPods namespace w with
  | Err _ => (Panicked "error listing pods", w)
  | Ok pods => (Returned pods, w)
  end.

(** Where, WhereReady and Count on a PodSet. *)
Fixpoint Where (predicate : Pod → bool) (s : list Pod) : list Pod :=
  match s with
  | [] => []
  | o :: s => if predicate o then o :: Where predicate s else Where predicate s
  end.

Definition podReady (pod : Pod) : bool :=
  foldl (λ isReady cond, if decide (cond = ("Ready", "True")) then true else isReady) false (pod_Conditions pod).

Definition WhereReady (ready : bool) (s : list Pod) : list Pod :=
  Where (λ pod, bool_decide (ready = podReady pod)) s.

Definition Count (s : list Pod) : nat := length s.

Fixpoint verifyReadyPods (namespace : string) (prefixes : list string) : smoke W (option error) :=
  match prefixes with
  | [] => mret None
  | prefix :: prefixes =>
      all ← Pods namespace;
      let pods := Where (λ pod, strings.HasPrefix (pod_Name pod) prefix) all in
      if decide (Count pods = 0%nat) then mret (Some (Errorf ("no " +:+ prefix +:+ " pod found in " +:+ namespace)))
      else
        let ready := WhereReady true pods in
        if decide (length ready ≠ length pods) then mret (Some (Errorf ("pods not ready with prefix " +:+ prefix)))
        else verifyReadyPods namespace prefixes
  end.

Definition errorOf {A} (r : res A) : option error := match r with Ok _ => None | Err e => Some e end.

Definition verifyExistRole (namespace role : string) : smoke W (option error) := λ w,
  (Returned (errorOf (GetRBAC "roles" namespace role w)), w).
Definition verifyExistClusterRole (name : string) : smoke W (option error) := λ w,
  (Returned (errorOf (GetRBAC "clusterroles" "" name w)), w).
Definition verifyExistClusterRoleBinding (name : string) : smoke W (option error) := λ w,
  (Returned (errorOf (GetRBAC "clusterrolebindings" "" name w)), w).

(** verifySteps: the first error ends it. *)
Fixpoint verifySteps (steps : list ((string → list string → smoke W (option error)) * list string)) :
    smoke W (option error) :=
  match steps with
  | [] => mret None
  | (fn, prefixes) :: steps =>
      err ← fn defaultSystemNamespace prefixes;
      match err with Some e => mret (Some e) | None => verifySteps steps end
  end.

(** verifyNoWorkloadsWithLabel looks in the default namespace, whatever the
    namespace it is given. *)
Definition verifyNoWorkloadsWithLabel (label namespace : string) : smoke W (option error) :=
  out ← mustExec "kubectl" ["get"; "all"; "-l"; label; "-n"; defaultSystemNamespace];
  if decide (out ≠ "") then mret (Some (Errorf ("Unexpected resources for label " +:+ label))) else mret None.

(** ** The tests of an operator *)

Record AddonTest := mkAddonTest {
  Name : string;
  InstallCRDs : smoke W ();
  InstallOperators : smoke W ();
  DeleteOperators : smoke W ();
  InstallResources : smoke W ();
  DeleteResources : smoke W ();
  VerifyUp : smoke W (option error);
  CustomScenarios : smoke W (option error);
  VerifyDown : smoke W (option error);
  Disrupt : smoke W ()
}.

Definition CommonAddonTest (Stat : string → option entry) (Base : string) : AddonTest := {|
  Name := Base;
  InstallCRDs := mustExec "make" ["-C"; Base; "install"];; mret ();
  InstallOperators := mustExec "make" ["-C"; Base; "docker-build"; "docker-push"; "deploy"];; mret ();
  DeleteOperators := mustExec "make" ["-C"; Base; "teardown"];; mret ();
  InstallResources := KubectlApply Stat (path_Join [Base; "config"; "samples"]);
  DeleteResources := KubectlDelete (path_Join [Base; "config"; "samples"]);
  VerifyUp := mret (Some (Errorf ("VerifyUp not implemented for operator: " +:+ Base)));
  CustomScenarios := mret None;
  VerifyDown := mret (Some (Errorf ("VerifyDown not implemented for operator: " +:+ Base)));
  Disrupt := mret ()
|}.

(** NewGuestbookTest: the common test, three methods of its own. *)
Definition NewGuestbookTest (Stat : string → option entry) : AddonTest :=
  let c := CommonAddonTest Stat "../examples/guestbook-operator" in {|
  Name := Name c;
  InstallCRDs := InstallCRDs c;
  InstallOperators := InstallOperators c;
  DeleteOperators := DeleteOperators c;
  InstallResources := InstallResources c;
  DeleteResources := DeleteResources c;
  VerifyUp := verifyReadyPods defaultSystemNamespace ["guestbook-operator"];
  CustomScenarios := CustomScenarios c;
  VerifyDown := verifyNoWorkloadsWithLabel "example-app=guestbook" defaultSystemNamespace;
  Disrupt :=
    executeCommand "kubectl" ["delete"; "all"; "-l"; "example-app=guestbook"; "-n"; defaultSystemNamespace];; mret ()
|}.

(** ** Waiting *)

(** One pass over the operators: the errors. *)
Fixpoint verifyRound (operators : list AddonTest) (verify : AddonTest → smoke W (option error)) :
    smoke W (list error) :=
  match operators with
  | [] => mret []
  | op :: operators =>
      err ← verify op;
      errs ← verifyRound operators verify;
      mret (match err with Some e => e :: errs | None => errs end)
  end.

(** The select of a timer that fires at [deadline] and one that fires at [tick],
    which is in the future: whether the deadline was received. A deadline that
    has passed is received at once; a select that blocks is woken by the earlier
    timer, and by either if they fire together. *)
Definition select (deadline tick : Z) : smoke W bool := λ w,
  if decide (deadline ≤ Now w)%Z then (Returned true, w)
  else
    let w := WaitUntil (Z.min deadline tick) w in
    if decide (tick < deadline)%Z then (Returned false, w)
    else if decide (deadline < tick)%Z then (Returned true, w)
    else (Returned (coin w), w).

Fixpoint verifyLoop (fuel : nat) (operators : list AddonTest) (deadline : Z) (desc : string)
    (verify : AddonTest → smoke W (option error)) : smoke W (option error) :=
  match fuel with
  | O => λ w, (Unfinished, w)
  | S fuel =>
      errs ← verifyRound operators verify;
      match errs with
      | [] => mret None
      | _ =>
          tick ← (λ w, (Returned (Now w + verifyFrequency)%Z, w));
          timedOut ← select deadline tick;
          if timedOut : bool
          then mret (Some (Errorf ("error: failed to verify cluster (" +:+ desc +:+ ")")))
          else verifyLoop fuel operators deadline desc verify
      end
  end.

(** The rounds there is time for: one at the start and one after each tick. *)
Definition rounds (duration : Z) : nat := S (Z.to_nat (duration / verifyFrequency)).

Definition verifyOrTimeout (operators : list AddonTest) (duration : Z) (desc : string)
    (verify : AddonTest → smoke W (option error)) : smoke W (option error) := λ w,
  verifyLoop (rounds duration) operators (Now w + duration) desc verify w.

Definition verifyAllUpOrTimeout operators duration desc := verifyOrTimeout operators duration desc VerifyUp.
Definition verifyAllDownOrTimeout operators duration desc := verifyOrTimeout operators duration desc VerifyDown.

(** verifyCustomScenarios: every scenario runs; the errors are only counted. *)
Fixpoint passingScenarios (operators : list AddonTest) : smoke W nat :=
  match operators with
  | [] => mret 0%nat
  | op :: operators =>
      err ← CustomScenarios op;
      n ← passingScenarios operators;
      mret (match err with Some _ => n | None => S n end)
  end.

Definition verifyCustomScenarios (operators : list AddonTest) : smoke W (option error) :=
  passing ← passingScenarios operators;
  if decide (passing < length operators)%nat
  then mret (Some (Errorf "error: failed to verify custom scenarios for operators")) else mret None.

(** ** main *)

Fixpoint forOperators (f : AddonTest → smoke W ()) (operators : list AddonTest) : smoke W () :=
  match operators with
  | [] => mret ()
  | op :: operators => f op;; forOperators f operators
  end.

Definition selected (tests : list AddonTest) : list AddonTest :=
  let ignore := if decide (ignoreTests fl ≠ "") then strings.Split "," (ignoreTests fl) else [] in
  filter (λ test, Name test ∉ ignore) tests.

(** A verification whose error is only logged. *)
Definition logged (v : smoke W (option error)) : smoke W () := v;; mret ().
(** A verification whose error ends the program. *)
Definition required (v : smoke W (option error)) : smoke W () :=
  err ← v;
  match err with Some _ => Fatal "failed to verify" | None => mret () end.

Definition scenario (operators : list AddonTest) : smoke W () :=
  forOperators InstallCRDs operators;;
  forOperators InstallOperators operators;;
  forOperators InstallResources operators;;
  logged (verifyAllUpOrTimeout operators verifyTimeout "initial creation");;
  forOperators Disrupt operators;;
  logged (verifyAllUpOrTimeout operators verifyTimeout "disruption recovery");;
  forOperators DeleteResources operators;;
  forOperators (λ op, logged (VerifyDown op)) operators;;
  logged (verifyAllDownOrTimeout operators verifyTimeout "tear down");;
  forOperators InstallResources operators;;
  required (verifyAllUpOrTimeout operators verifyTimeout "recreation");;
  (if skipCustomScenarios fl then mret () else logged (verifyCustomScenarios operators));;
  forOperators DeleteResources operators;;
  forOperators DeleteOperators operators;;
  required (verifyAllDownOrTimeout operators verifyTimeout "clean up").

(** main, given whether the clients can be built. *)
Definition main (NewRealTestHarness : res ()) (Stat : string → option entry) : smoke W () :=
  match NewRealTestHarness with
  | Err _ => Fatal "error building test harness"
  | Ok _ => scenario (selected [NewGuestbookTest Stat])
  end.

End program.
(* ------------------------------------------------------------------ *)
(** ** Waiting ends *)

Section waiting.
Context {W : Type} {CL : Cluster W} {LAWS : ClockLaws W}.
Context (operators : list (AddonTest (W := W))) (verify : AddonTest (W := W) → smoke W (option error)).
Context (desc : string).

(** A verification that returns, and during which time does not run backwards. *)
Definition steady (op : AddonTest (W := W)) : Prop := ∀ w, ∃ err w', verify op w = (Returned err, w') ∧ (Now w ≤ Now w')%Z.

Lemma verifyRound_steady ops w :
  Forall steady ops → ∃ errs w', verifyRound ops verify w = (Returned errs, w') ∧ (Now w ≤ Now w')%Z.
Proof using.
  intros Hs. revert w. induction Hs as [|op ops Hop _ IH]; intros w.
  { exists [], w. split; [done|lia]. }
  destruct (Hop w) as (err & w1 & E1 & H1). destruct (IH w1) as (errs & w2 & E2 & H2).
  eexists _, w2. split; [|lia]. cbn [verifyRound]. unfold mbind, smoke_bind. rewrite E1, E2. done.
Qed.

Lemma verifyFrequency_pos : (0 < verifyFrequency)%Z.
Proof using. done. Qed.

Lemma rounds_enough duration : (0 ≤ duration)%Z → (duration < Z.of_nat (rounds duration) * verifyFrequency)%Z.
Proof using.
  intros Hd. unfold rounds. pose proof (Z.mul_succ_div_gt duration verifyFrequency verifyFrequency_pos).
  rewrite Nat2Z.inj_succ, Z2Nat.id by (apply (Z.div_pos _ _ Hd verifyFrequency_pos)). lia.
Qed.

(** One wait: it times out at or after the deadline, or ends a tick later with
    the tick not after the deadline. *)
Lemma select_cases deadline w :
  ∃ timedOut w', select deadline (Now w + verifyFrequency) w = (Returned timedOut, w')
    ∧ if timedOut : bool then (deadline ≤ Now w')%Z
      else (Now w + verifyFrequency ≤ Now w' ∧ Now w + verifyFrequency ≤ deadline)%Z.
Proof using LAWS.
  unfold select. pose proof verifyFrequency_pos as Hpos. case_decide as H1; [by exists true, w|].
  pose proof (WaitUntil_later (Z.min deadline (Now w + verifyFrequency)) w) as Hl.
  set (w' := WaitUntil _ w) in *. case_decide as H2; [exists false, w'; split; [done|lia]|].
  case_decide as H3; [exists true, w'; split; [done|lia]|].
  exists (coin w'), w'. split; [done|]. destruct (coin w'); lia.
Qed.

Definition settled (deadline : Z) (err : option error) (w' : W) : Prop :=
  match err with
  | None => ∃ w0, verifyRound operators verify w0 = (Returned [], w')
  | Some _ => (deadline ≤ Now w')%Z
  end.

Lemma verifyLoop_ends fuel deadline w :
  Forall steady operators → (0 < fuel)%nat → (deadline - Now w < Z.of_nat fuel * verifyFrequency)%Z →
  ∃ err w', verifyLoop fuel operators deadline desc verify w = (Returned err, w') ∧ settled deadline err w'.
Proof using LAWS.
  intros Hs. revert w. induction fuel as [|fuel IH]; intros w Hf Hd; [lia|].
  destruct (verifyRound_steady operators w Hs) as (errs & w1 & E1 & H1).
  cbn [verifyLoop]. unfold mbind, smoke_bind. rewrite E1. destruct errs as [|e errs]; [exists None, w1; split; [done|by exists w]|].
  destruct (select_cases deadline w1) as ([|] & w2 & E2 & H2); rewrite E2; [by eexists (Some _), w2|].
  pose proof verifyFrequency_pos. apply IH; [|lia]. destruct fuel; lia.
Qed.

(** C17. Waiting ends: when the single verifications do, verifyOrTimeout returns
    after at most one round for every five seconds of its duration and one more.
    It returns nil only at the end of a round in which every operator passed, and
    an error only when the duration has gone by. *)
Theorem verifyOrTimeout_ends duration w :
  Forall steady operators → (0 ≤ duration)%Z →
  ∃ err w', verifyOrTimeout operators duration desc verify w = (Returned err, w')
    ∧ settled (Now w + duration) err w'.
Proof using LAWS.
  intros Hs Hd. apply verifyLoop_ends; [done|unfold rounds; lia|].
  pose proof (rounds_enough duration Hd). lia.
Qed.

(** C18. A recovery is seen: when rounds take at most [r], and every round begun
    at time [T] or later passes, then verifyOrTimeout succeeds, provided that
    there is time for a round and a tick between [T] and the deadline; how late
    the ticks arrive does not matter. *)
Theorem verifyOrTimeout_recovers duration w T r :
  (∀ w0, ∃ errs w', verifyRound operators verify w0 = (Returned errs, w')
    ∧ (Now w0 ≤ Now w' ≤ Now w0 + r)%Z ∧ ((T ≤ Now w0)%Z → errs = [])) →
  (0 ≤ duration)%Z → (T + r + verifyFrequency ≤ Now w + duration)%Z →
  ∃ w', verifyOrTimeout operators duration desc verify w = (Returned None, w').
Proof using LAWS.
  intros Hr Hd HT. unfold verifyOrTimeout.
  assert (∀ fuel deadline w, (0 < fuel)%nat → (deadline - Now w < Z.of_nat fuel * verifyFrequency)%Z →
    (T + r + verifyFrequency ≤ deadline)%Z →
    ∃ w', verifyLoop fuel operators deadline desc verify w = (Returned None, w')) as HL.
  - clear w HT. induction fuel as [|fuel IH]; intros deadline w Hf Hdl HT; [lia|].
    destruct (Hr w) as (errs & w1 & E1 & H1 & Hp). cbn [verifyLoop]. unfold mbind, smoke_bind. rewrite E1.
    destruct errs as [|e errs]; [by exists w1|].
    assert (Now w < T)%Z as Hlt by (destruct (decide (T ≤ Now w)%Z); [by discriminate Hp|lia]).
    pose proof verifyFrequency_pos. unfold select. rewrite decide_False by lia.
    destruct (decide (Now w1 + verifyFrequency < deadline)%Z) as [|]; [|lia].
    pose proof (WaitUntil_later (Z.min deadline (Now w1 + verifyFrequency)) w1).
    set (w2 := WaitUntil _ w1) in *. apply IH; [destruct fuel; lia|lia|done].
  - apply HL; [unfold rounds; lia| |done]. pose proof (rounds_enough duration Hd). lia.
Qed.

End waiting.

(** *** Pods *)

Lemma Where_elem p s pod : pod ∈ Where p s ↔ pod ∈ s ∧ p pod = true.
Proof.
  induction s as [|o s IH]; cbn [Where]; [set_solver|]. destruct (p o) eqn:E.
  - rewrite !elem_of_cons, IH. naive_solver.
  - rewrite elem_of_cons, IH. naive_solver congruence.
Qed.

Lemma Where_length p s : (length (Where p s) ≤ length s)%nat ∧ (length (Where p s) = length s ↔ Forall (λ o, p o = true) s).
Proof.
  induction s as [|o s [IH1 IH2]]; cbn [Where]; [done|]. rewrite list.Forall_cons, <-IH2.
  destruct (p o); cbn [length]; (split; [lia|]); split; try naive_solver lia.
Qed.

Lemma podReady_spec pod : podReady pod = true ↔ ("Ready", "True") ∈ pod_Conditions pod.
Proof.
  unfold podReady. assert (∀ l b, foldl (λ isReady cond, if decide (cond = ("Ready", "True")) then true else isReady) b l
    = true ↔ b = true ∨ ("Ready", "True") ∈ l) as H; [|rewrite H; naive_solver].
  induction l as [|c l IH]; intros b; cbn [foldl]; [set_solver|]. rewrite IH, elem_of_cons. case_decide; naive_solver.
Qed.

Definition hasPrefix (prefix : string) (pod : Pod) : Prop := strings.HasPrefix (pod_Name pod) prefix = true.

(** What being up means: in a namespace whose pods can be listed,
    verifyReadyPods passes exactly if for every prefix there is a pod with that
    prefix and all pods with it have the condition Ready with status True; it
    changes nothing, and it fails rather than panics otherwise. *)
Theorem verifyReadyPods_spec {W} `{Cluster W} namespace prefixes w pods :
  ListPods namespace w = Ok pods →
  ∃ err, verifyReadyPods namespace prefixes w = (Returned err, w)
    ∧ (err = None ↔ ∀ prefix, prefix ∈ prefixes →
        (∃ pod, pod ∈ pods ∧ hasPrefix prefix pod)
        ∧ ∀ pod, pod ∈ pods → hasPrefix prefix pod → ("Ready", "True") ∈ pod_Conditions pod).
Proof.
  intros HL. induction prefixes as [|prefix prefixes (err & HE & Herr)].
  { exists None. split; [done|]. set_solver. }
  cbn [verifyReadyPods]. unfold mbind, smoke_bind, Pods. rewrite HL. cbv zeta. unfold WhereReady, Count.
  set (mine := Where _ pods). setoid_rewrite elem_of_cons.
  assert (∀ pod, pod ∈ mine ↔ pod ∈ pods ∧ hasPrefix prefix pod) as Hm by (intros; apply Where_elem).
  destruct (Where_length (λ pod, bool_decide (true = podReady pod)) mine) as [_ Hall].
  rewrite list.Forall_forall in Hall. destruct (decide (length mine = 0%nat)) as [H0|H0].
  - eexists. split; [done|]. split; [done|]. intros Hp. destruct (Hp prefix) as [(pod & Hin) _]; [by left|].
    apply Hm in Hin. apply nil_length_inv in H0. rewrite H0 in Hin. set_solver.
  - assert (∃ pod, pod ∈ mine) as (pod0 & Hpod0) by (destruct mine as [|x]; [done|exists x; by left]).
    destruct (decide (length (Where _ mine) ≠ length mine)) as [Hne|Heq].
    + eexists. split; [done|]. split; [done|]. intros Hp. destruct (Hp prefix) as [_ Hr]; [by left|].
      destruct Hne. apply Hall. intros pod [Hin Hpre]%Hm. apply bool_decide_eq_true. symmetry. by apply podReady_spec, Hr.
    + exists err. split; [done|]. rewrite Herr. split; [|naive_solver].
      intros Hrest p [->|Hp]; [|by apply Hrest]. split; [exists pod0; by apply Hm|].
      intros pod Hin Hpre. apply podReady_spec. symmetry. apply (bool_decide_eq_true (true = podReady pod)).
      apply Hall; [by apply dec_stable|]. by apply Hm.
Qed.

(** *** Files *)

Section entry_induction.
Variable P : entry → Prop.
Hypothesis (P_file : ∀ c, P (File c)) (P_bad : P BadDirectory).
Hypothesis P_dir : ∀ children, Forall (λ c, P c.2) children → P (Directory children).

Fixpoint entry_induction (e : entry) : P e :=
  match e with
  | File c => P_file c
  | BadDirectory => P_bad
  | Directory children =>
      P_dir children
        ((fix go (cs : list (string * entry)) : Forall (λ c, P c.2) cs :=
            match cs with [] => Forall_nil _ | c :: cs => Forall_cons _ c cs (entry_induction c.2) (go cs) end) children)
  end.
End entry_induction.

(** The files below an entry, in the order of the listing, with their paths. *)
Fixpoint allFiles (e : entry) : list (list string * res string) :=
  match e with
  | File c => [([], c)]
  | BadDirectory => []
  | Directory children =>
      (fix go (children : list (string * entry)) : list (list string * res string) :=
         match children with
         | [] => []
         | (name, child) :: children => (prod_map (cons name) id <$> allFiles child) ++ go children
         end) children
  end.

(** No part of a path is an editor's or a hidden file. *)
Definition visible (f : list string * res string) : Prop := Forall (λ name, ignored name = false) f.1.

#[export] Instance visible_dec f : Decision (visible f).
Proof. unfold visible. apply _. Defined.

(** Every directory that is visible can be read. *)
Fixpoint readable (e : entry) : bool :=
  match e with
  | File _ => true
  | BadDirectory => false
  | Directory children =>
      (fix go (children : list (string * entry)) : bool :=
         match children with
         | [] => true
         | (name, child) :: children => (ignored name || readable child) && go children
         end) children
  end.

Section apply.
Context {W : Type} {CL : Cluster W} (fl : flags).

Fixpoint applyFiles (contents : list (res string)) : smoke W () :=
  match contents with
  | [] => mret ()
  | c :: contents => kubectlApplyFile fl c;; applyFiles contents
  end.

Lemma applyFiles_app l1 l2 w : applyFiles (l1 ++ l2) w = (applyFiles l1;; applyFiles l2) w.
Proof using.
  revert w. induction l1 as [|c l1 IH]; intros w; [done|]. cbn [applyFiles app]. unfold mbind, smoke_bind in *.
  destruct (kubectlApplyFile fl c w) as [[] w']; [|done..]. by rewrite IH.
Qed.

Lemma filter_visible_child name fs :
  filter visible (prod_map (cons name) id <$> fs)
  = if ignored name then [] else prod_map (cons name) id <$> filter visible fs.
Proof using.
  induction fs as [|[p c] fs IH]; [by destruct (ignored name)|]. rewrite fmap_cons, !filter_cons, IH.
  assert (visible (prod_map (cons name) id (p, c)) ↔ ignored name = false ∧ visible (p, c)) as Hv
    by exact (list.Forall_cons _ _ _).
  destruct (decide (visible (p, c))), (decide (visible (prod_map (cons name) id (p, c)))), (ignored name); naive_solver.
Qed.

(** KubectlApply applies exactly the visible files: for a path whose visible
    directories can be read, it runs kubectl apply once for every file at any
    depth, in the order of the listings, of which no directory and no name on the
    way ends with a tilde or begins with a dot; the first failure ends it. *)
Theorem KubectlApply_visible Stat p e w :
  Stat p = Some e → readable e = true →
  KubectlApply fl Stat p w = applyFiles (filter visible (allFiles e)).*2 w.
Proof using.
  intros HS HR. unfold KubectlApply. rewrite HS. clear HS. revert w HR.
  induction e as [c| |children IH] using entry_induction; intros w HR; [|done|].
  { cbn. rewrite decide_True by constructor. cbn. unfold mbind, smoke_bind.
    by destruct (kubectlApplyFile fl c w) as [[[]| | |] ?]. }
  revert w HR. induction IH as [|[name child] children Hc _ IHcs]; intros w HR; [done|].
  cbn in HR. apply andb_true_iff in HR as [Hn Hr].
  cbn [applyEntry allFiles]. rewrite list.filter_app, filter_visible_child, fmap_app, applyFiles_app.
  unfold mbind, smoke_bind in *. destruct (ignored name).
  - apply (IHcs w Hr).
  - rewrite <-list_fmap_compose. change (snd ∘ prod_map (cons name) id) with (@snd (list string) (res string)).
    cbn [snd] in Hc. rewrite <-(Hc w Hn). destruct (applyEntry fl child w) as [[] w']; [|done..]. apply (IHcs w' Hr).
Qed.

End apply.

(** *** The program *)

Lemma smoke_bind_Returned {W A B} (m : smoke W A) (f : A → smoke W B) w b w' :
  (m ≫= f) w = (Returned b, w') → ∃ a w1, m w = (Returned a, w1) ∧ f a w1 = (Returned b, w').
Proof. unfold mbind, smoke_bind. destruct (m w) as [[a| | |] w1]; [by eauto|done..]. Qed.

Lemma required_Returned {W} `{Cluster W} (v : smoke W (option error)) w w' :
  required v w = (Returned (), w') → v w = (Returned None, w').
Proof. intros ([e|] & w1 & -> & [= <-])%smoke_bind_Returned. done. Qed.

(** What a smoke test that ends normally has shown: the clients were built,
    the addons came up again after they had been deleted and applied again, and
    after the final deletion of addons and operators nothing was left. The
    verifications of the first start, of the recovery and of the first tear-down
    do not decide. *)
Theorem main_passed {W} `{Cluster W} fl harness Stat w w' :
  main fl harness Stat w = (Returned (), w') →
  let operators := selected fl [NewGuestbookTest fl Stat] in
  harness = Ok ()
  ∧ ∃ w1 w2 w3, forOperators InstallResources operators w1 = (Returned (), w2)
    ∧ verifyAllUpOrTimeout operators verifyTimeout "recreation" w2 = (Returned None, w3)
    ∧ ∃ w4 w5 w6, forOperators DeleteResources operators w4 = (Returned (), w5)
    ∧ forOperators DeleteOperators operators w5 = (Returned (), w6)
    ∧ verifyAllDownOrTimeout operators verifyTimeout "clean up" w6 = (Returned None, w').
Proof.
  intros HM operators. destruct harness as [[]|e]; [|done]. split; [done|]. cbn [main] in HM. fold operators in HM.
  unfold scenario in HM. do 9 (apply smoke_bind_Returned in HM as ([] & ? & _ & HM)).
  apply smoke_bind_Returned in HM as ([] & w2 & HI & HM).
  apply smoke_bind_Returned in HM as ([] & w3 & HU%required_Returned & HM).
  apply smoke_bind_Returned in HM as ([] & w4 & _ & HM).
  apply smoke_bind_Returned in HM as ([] & w5 & HD & HM).
  apply smoke_bind_Returned in HM as ([] & w6 & HO & HM%required_Returned).
  eexists _, w2, w3. split_and!; [exact HI|done|]. by exists w4, w5, w6.
Qed.

(** *** A cluster whose pods are ready after twelve seconds *)

Definition example_pod (w : Z) : Pod :=
  mkPod "guestbook-operator-0" [("Initialized", "True"); ("Ready", if decide (12 * second ≤ w)%Z then "True" else "False")].

Definition example_cluster : Cluster Z := {|
  Run _ _ _ w := (w, ("", true));
  ListPods _ w := Ok [example_pod w];
  GetRBAC _ _ _ _ := Ok ();
  Now w := w;
  WaitUntil t w := Z.max t w;
  coin _ := true
|}.

Lemma example_clock : @ClockLaws Z example_cluster.
Proof. split; intros; cbn; lia. Qed.

Definition example_flags : flags := mkFlags "v1.2.3" "mirror.example.com/kubernetes/" "" false.
Definition example_samples : entry :=
  Directory [(".git", BadDirectory); ("a.yaml", File (Ok "image: gcr.io/jrjohnson-gke/guestbook:latest"));
    ("a.yaml~", File (Err (Errorf "unreadable"))); ("more", Directory [("b.yaml", File (Ok "kind: Guestbook"))])].
Definition example_stat (p : string) : option entry :=
  if decide (p = "../examples/guestbook-operator/config/samples") then Some example_samples else None.
Definition example_operator : @AddonTest Z := @NewGuestbookTest Z example_cluster example_flags example_stat.

Example example_rewrites :
  ReplaceAllString "mirror.example.com/kubernetes/$1:v1.2.3"
    ("image: gcr.io/jrjohnson-gke/guestbook:latest" +:+ newline +:+ "  other: gcrxio/jrjohnson-gke/a:latest # b:latest!")
  = "image: mirror.example.com/kubernetes/guestbook:v1.2.3" +:+ newline
    +:+ "  other: mirror.example.com/kubernetes/a:latest # b:v1.2.3!".
Proof. vm_compute. reflexivity. Qed.

Lemma example_up w : @VerifyUp Z example_operator w
  = (Returned (if decide (12 * second ≤ w)%Z then None else Some (Errorf "pods not ready with prefix guestbook-operator")), w).
Proof.
  unfold example_operator, NewGuestbookTest. cbn [VerifyUp verifyReadyPods]. unfold mbind, smoke_bind, Pods.
  cbn [ListPods example_cluster]. unfold example_pod. destruct (decide (12 * second ≤ w)%Z); reflexivity.
Qed.

Lemma verifyOrTimeout_ends_witness :
  ∃ err w', @verifyOrTimeout Z example_cluster [example_operator] verifyTimeout "initial creation" VerifyUp 0%Z
      = (Returned err, w') ∧ (err = None ∨ (verifyTimeout ≤ w')%Z).
Proof.
  destruct (@verifyOrTimeout_ends Z example_cluster example_clock [example_operator] VerifyUp "initial creation"
    verifyTimeout 0%Z) as (err & w' & HE & Hs).
  - constructor; [|constructor]. intros w. eexists _, w. split; [apply example_up|reflexivity].
  - discriminate.
  - exists err, w'. split; [exact HE|]. destruct err; [right; exact Hs|left; reflexivity].
Defined.

Lemma verifyOrTimeout_recovers_witness :
  ∃ w', @verifyOrTimeout Z example_cluster [example_operator] verifyTimeout "disruption recovery" VerifyUp 0%Z
    = (Returned None, w').
Proof.
  apply (@verifyOrTimeout_recovers Z example_cluster example_clock [example_operator] VerifyUp "disruption recovery"
    verifyTimeout 0%Z (12 * second) 0%Z).
  - intros w0. cbn [verifyRound]. unfold mbind, smoke_bind. rewrite example_up. eexists _, w0. split; [reflexivity|].
    split; [cbn; lia|]. intros Hle. cbn in Hle. by rewrite decide_True.
  - discriminate.
  - discriminate.
Defined.

Lemma verifyReadyPods_spec_witness :
  ∃ err, @verifyReadyPods Z example_cluster "prod" ["guestbook-operator"] (15 * second)%Z
    = (Returned err, (15 * second)%Z) ∧ err = None.
Proof.
  destruct (@verifyReadyPods_spec Z example_cluster "prod" ["guestbook-operator"] (15 * second)%Z
    [example_pod (15 * second)] eq_refl) as (err & HE & Hn).
  exists err. split; [exact HE|]. apply Hn. intros prefix ->%list_elem_of_singleton. split.
  - exists (example_pod (15 * second)). split; [by left|vm_compute; reflexivity].
  - intros pod ->%list_elem_of_singleton _. cbn. right. left.
Defined.

Lemma KubectlApply_visible_witness :
  @KubectlApply Z example_cluster example_flags example_stat "../examples/guestbook-operator/config/samples" 7%Z
  = @applyFiles Z example_cluster example_flags
      [Ok "image: gcr.io/jrjohnson-gke/guestbook:latest"; Ok "kind: Guestbook"] 7%Z.
Proof.
  refine (eq_trans (@KubectlApply_visible Z example_cluster example_flags example_stat
    "../examples/guestbook-operator/config/samples" example_samples 7%Z _ _) _); vm_compute; reflexivity.
Defined.

Lemma main_passed_witness :
  ∃ w2 w3, @verifyAllUpOrTimeout Z example_cluster [example_operator] verifyTimeout "recreation" w2
    = (Returned None, w3).
Proof.
  destruct (@main_passed Z example_cluster example_flags (Ok ()) example_stat 0%Z (15 * second)%Z)
    as (_ & w1 & w2 & w3 & _ & HU & _); [vm_compute; reflexivity|].
  exists w2, w3. exact HU.
Defined.

End smoketest.
