(* ===== verification/DeepCopy.v ===== *)
(** * The generated deep copies (zz_generated.deepcopy.go of the three API packages)

    The functions that controller-gen and deepcopy-gen wrote for the addon types,
    for the guestbook and for the test type, on a heap: a Go struct is a value, a
    pointer and the array behind a slice are locations of the heap. DeepCopyInto
    returns the heap and the struct it leaves in [out]; [None] is a panic. The
    copies of the types of other packages (ObjectMeta, ListMeta, Condition,
    RawExtension) are parameters, with the contract every DeepCopyInto has.

    [deep_read] is the value an observer sees behind a struct and [deep_reach] the
    locations it reads. A copy has the value of the original and reaches none of
    the cells that existed before, so that no write through one is seen through
    the other. *)

From S2P Require Import Prelude.
From stdpp Require Import gmap options.

Module heap.

Abbreviation loc := positive.

(** ** Observers *)

(** What can be observed of a [T] in a heap of cells. *)
Class Deep (cell T V : Type) := {
  deep_read : gmap loc cell → T → option V;
  deep_reach : gmap loc cell → T → gset loc
}.

Class DeepLaws (cell T V : Type) `{!Deep cell T V} : Prop := {
  reach_dom h (t : T) v : deep_read h t = Some v → deep_reach h t ⊆ dom h;
  read_local h h' (t : T) v : deep_read h t = Some v →
    (∀ l, l ∈ deep_reach h t → h' !! l = h !! l) →
    deep_read h' t = Some v ∧ deep_reach h' t = deep_reach h t
}.

(** The contract of a DeepCopyInto. *)
Definition copied {cell T V : Type} `{!Deep cell T V} (h : gmap loc cell) (t : T) (h' : gmap loc cell) (t' : T) : Prop :=
  h ⊆ h' ∧ deep_read h' t' = deep_read h t ∧ deep_reach h' t' ## dom h.

Class DeepCopyable (cell T V : Type) `{!Deep cell T V} := deep_copy_into : gmap loc cell → T → option (gmap loc cell * T).
Class DeepCopyLaws (cell T V : Type) `{!Deep cell T V, !DeepCopyable cell T V} : Prop :=
  deep_copied h (t : T) v : deep_read h t = Some v → ∃ h' t', deep_copy_into h t = Some (h', t') ∧ copied h t h' t'.

(** A type a cell can hold. *)
Class Storable (cell T : Type) := { inj : T → cell; proj : cell → option T }.
Class StorableLaws (cell T : Type) `{!Storable cell T} : Prop := proj_inj (t : T) : proj (inj t) = Some t.

(** The allocator gives a location that is not in use. *)
Class Allocator (cell : Type) := next_loc : gmap loc cell → loc.
Class AllocatorLaws (cell : Type) `{!Allocator cell} : Prop := next_fresh h : h !! next_loc h = None.

(** Slices and pointers: nil, or a window of an array; nil, or a location. *)
Record window := mkWindow { w_array : loc; w_off : nat; w_len : nat; w_cap : nat }.
Record slice (T : Type) := mkSlice { header : option window }.
Record ptr (T : Type) := mkPtr { addr : option loc }.
Arguments mkSlice {_} _.
Arguments header {_} _.
Arguments mkPtr {_} _.
Arguments addr {_} _.

Section observers.
Context {cell : Type}.
Implicit Types h : gmap loc cell.

(** A value without pointers; an instance is declared per type, never for all. *)
Definition flat_deep (T : Type) : Deep cell T T := {| deep_read _ t := Some t; deep_reach _ _ := ∅ |}.

#[export] Instance string_deep : Deep cell string string := flat_deep string.
#[export] Instance bool_deep : Deep cell bool bool := flat_deep bool.
#[export] Instance Z_deep : Deep cell Z Z := flat_deep Z.

#[export] Instance pair_deep {A VA B VB} `{!Deep cell A VA, !Deep cell B VB} : Deep cell (A * B) (VA * VB) := {|
  deep_read h '(a, b) := va ← deep_read h a; vb ← deep_read h b; Some (va, vb);
  deep_reach h '(a, b) := deep_reach h a ∪ deep_reach h b
|}.

(** A struct is observed through its fields. *)
Definition via_deep {R F V : Type} `{!Deep cell F V} (fields : R → F) : Deep cell R V :=
  {| deep_read h r := deep_read h (fields r); deep_reach h r := deep_reach h (fields r) |}.

Definition load {T} `{!Storable cell T} h (p : loc) : option T := c ← h !! p; proj c.
Definition store {T} `{!Storable cell T} h (p : loc) (t : T) : gmap loc cell := <[p := inj t]> h.
Definition alloc {T} `{!Storable cell T, !Allocator cell} h (t : T) : gmap loc cell * loc :=
  let p := next_loc h in (store h p t, p).

(** The elements of a slice, when its array has them. *)
Definition elements_of {T} `{!Storable cell (list T)} h (w : window) : option (list T) :=
  l ← load h (w_array w);
  guard (w_off w + w_len w ≤ length l)%nat;; Some (take (w_len w) (drop (w_off w) l)).

#[export] Instance slice_deep {T V} `{!Storable cell (list T), !Deep cell T V} : Deep cell (slice T) (option (list V)) := {|
  deep_read h s :=
    match header s with
    | None => Some None
    | Some w => l ← elements_of h w; vs ← mapM (deep_read h) l; Some (Some vs)
    end;
  deep_reach h s :=
    match header s with
    | None => ∅
    | Some w => {[ w_array w ]} ∪ ⋃ (deep_reach h <$> default [] (elements_of h w))
    end
|}.

#[export] Instance ptr_deep {T V} `{!Storable cell T, !Deep cell T V} : Deep cell (ptr T) (option V) := {|
  deep_read h p :=
    match addr p with
    | None => Some None
    | Some a => t ← load h a; v ← deep_read h t; Some (Some v)
    end;
  deep_reach h p :=
    match addr p with
    | None => ∅
    | Some a => {[ a ]} ∪ match load h a with Some t => deep_reach h t | None => ∅ end
    end
|}.

(** ** The laws of observers *)

Lemma flat_laws T : @DeepLaws cell T T (flat_deep T).
Proof. split; [set_solver | done]. Qed.

#[export] Instance string_laws : DeepLaws cell string string := flat_laws string.
#[export] Instance bool_laws : DeepLaws cell bool bool := flat_laws bool.
#[export] Instance Z_laws : DeepLaws cell Z Z := flat_laws Z.

#[export] Instance pair_laws {A VA B VB} `{!Deep cell A VA, !Deep cell B VB, !DeepLaws cell A VA, !DeepLaws cell B VB} :
  DeepLaws cell (A * B) (VA * VB).
Proof.
  split.
  - intros h [a b] v (va & Ha & (vb & Hb & _)%bind_Some)%bind_Some; cbn.
    pose proof (reach_dom _ _ _ Ha); pose proof (reach_dom _ _ _ Hb); set_solver.
  - intros h h' [a b] v (va & Ha & (vb & Hb & [= <-])%bind_Some)%bind_Some Hl; cbn in *.
    destruct (read_local h h' a va Ha) as [-> ->]; [set_solver |].
    destruct (read_local h h' b vb Hb) as [-> ->]; [set_solver | done].
Qed.

Lemma via_laws {R F V} `{!Deep cell F V, !DeepLaws cell F V} (fields : R → F) : @DeepLaws cell R V (via_deep fields).
Proof. split; [intros h r; apply (reach_dom (T := F)) | intros h h' r; apply (read_local (T := F))]. Qed.

Lemma mapM_local {T V} `{!Deep cell T V, !DeepLaws cell T V} h h' (l : list T) vs :
  mapM (deep_read h) l = Some vs →
  (∀ a, a ∈ ⋃ (deep_reach h <$> l) → h' !! a = h !! a) →
  mapM (deep_read h') l = Some vs ∧ deep_reach h' <$> l = deep_reach h <$> l.
Proof.
  revert vs; induction l as [|t l IH]; intros vs Hvs Hl; [done |].
  cbn in Hvs; apply bind_Some in Hvs as (v & Hv & (vs' & Hvs' & [= <-])%bind_Some).
  destruct (read_local h h' t v Hv) as [Hv' Hr]; [intros a Ha; apply Hl; cbn; set_solver |].
  destruct (IH vs' Hvs') as [IH1 IH2]; [intros a Ha; apply Hl; cbn; set_solver |].
  split; [cbn; rewrite Hv'; cbn; by rewrite IH1 | rewrite !fmap_cons; by f_equal].
Qed.

Lemma mapM_reach_dom {T V} `{!Deep cell T V, !DeepLaws cell T V} h (l : list T) vs :
  mapM (deep_read h) l = Some vs → ⋃ (deep_reach h <$> l) ⊆ dom h.
Proof.
  intros Hvs%mapM_Some; induction Hvs as [|t v l vs Hv _ IH]; [set_solver |].
  pose proof (reach_dom _ _ _ Hv); rewrite fmap_cons; cbn; set_solver.
Qed.

Lemma elements_of_local {T} `{!Storable cell (list T)} h h' w :
  h' !! w_array w = h !! w_array w → elements_of h' w = elements_of h w.
Proof. intros E; unfold elements_of, load; by rewrite E. Qed.

Lemma load_dom {T} `{!Storable cell T} h p (t : T) : load h p = Some t → p ∈ dom h.
Proof. intros (c & Hc & _)%bind_Some; by apply elem_of_dom_2 in Hc. Qed.

#[export] Instance slice_laws {T V} `{!Storable cell (list T), !Deep cell T V, !DeepLaws cell T V} :
  DeepLaws cell (slice T) (option (list V)).
Proof.
  split.
  - intros h [[w|]] v; cbn; [|set_solver].
    intros (l & Hl & (vs & Hvs & [= <-])%bind_Some)%bind_Some; rewrite Hl; cbn.
    pose proof (mapM_reach_dom h l vs Hvs).
    unfold elements_of in Hl; apply bind_Some in Hl as (l0 & Hl0%load_dom & _); set_solver.
  - intros h h' [[w|]] v; cbn; [|by intros [= <-] _].
    intros (l & Hl & (vs & Hvs & [= <-])%bind_Some)%bind_Some Ha.
    rewrite (elements_of_local h h' w) by (apply Ha; set_solver).
    rewrite Hl in *; cbn in *.
    destruct (mapM_local h h' l vs Hvs) as [-> ->]; [intros a Hr; apply Ha; set_solver | done].
Qed.

#[export] Instance ptr_laws {T V} `{!Storable cell T, !Deep cell T V, !DeepLaws cell T V} : DeepLaws cell (ptr T) (option V).
Proof.
  split.
  - intros h [[a|]] v; cbn; [|set_solver].
    intros (t & Ht & (vt & Hv & [= <-])%bind_Some)%bind_Some; rewrite Ht.
    pose proof (load_dom h a t Ht); pose proof (reach_dom _ _ _ Hv); set_solver.
  - intros h h' [[a|]] v; cbn; [|by intros [= <-] _].
    intros (t & Ht & (vt & Hv & [= <-])%bind_Some)%bind_Some Ha.
    assert (load h' a = Some t) as Ht' by (unfold load; rewrite Ha by set_solver; exact Ht).
    rewrite Ht', Ht in *; cbn.
    destruct (read_local h h' t vt Hv) as [-> ->]; [intros b Hb; apply Ha; set_solver | done].
Qed.

End observers.

(** ** Copies *)

Class Zero (T : Type) := zero : T.

Section copies.
Context {cell : Type} `{!Allocator cell}.
Implicit Types h : gmap loc cell.

(** [for i := range in { body(&in[i], &out[i]) }], for the indices from [i] on. *)
Fixpoint range_copy {T} `{!Storable cell (list T)} (body : gmap loc cell → T → loc → nat → option (gmap loc cell))
    h (w : window) (out : loc) (i n : nat) : option (gmap loc cell) :=
  match n with
  | O => Some h
  | Datatypes.S n =>
      l ← elements_of h w;
      x ← l !! i;
      h ← body h x out i;
      range_copy body h w out (Datatypes.S i) n
  end.

(** [if in != nil { out = make([]T, len(in)); loop }], [out] being [in] before. *)
Definition slice_copy {T} `{!Storable cell (list T), !Zero T}
    (body : gmap loc cell → T → loc → nat → option (gmap loc cell)) h (s : slice T) : option (gmap loc cell * slice T) :=
  match header s with
  | None => Some (h, s)
  | Some w =>
      let '(h, out) := alloc h (replicate (w_len w) (zero : T)) in
      h ← range_copy body h w out 0 (w_len w);
      Some (h, mkSlice (Some (mkWindow out 0 (w_len w) (w_len w))))
  end.

(** [out[i] = x]. *)
Definition store_elem {T} `{!Storable cell (list T)} h (out : loc) (i : nat) (x : T) : option (gmap loc cell) :=
  l ← load h out; Some (store h out (<[i := x]> l)).

(** [in[i].DeepCopyInto(&out[i])]. *)
Definition elem_body {T} `{!Storable cell (list T)} (into : gmap loc cell → T → option (gmap loc cell * T))
    h (x : T) (out : loc) (i : nat) : option (gmap loc cell) :=
  '(h, y) ← into h x; store_elem h out i y.

(** [if in[i] != nil { out[i] = new(T); in[i].DeepCopyInto(out[i]) }]. *)
Definition ptr_body {T} `{!Storable cell T, !Storable cell (list (ptr T)), !Zero T}
    (into : gmap loc cell → T → option (gmap loc cell * T))
    h (x : ptr T) (out : loc) (i : nat) : option (gmap loc cell) :=
  match addr x with
  | None => Some h
  | Some p =>
      let '(h, q) := alloc h (zero : T) in
      h ← store_elem h out i (mkPtr (Some q));
      t ← load h p;
      '(h, t') ← into h t;
      Some (store h q t')
  end.

(** [copy(out, in)] after [make]: the elements have no pointers. *)
Definition slice_copy_flat {T} `{!Storable cell (list T), !Zero T} h (s : slice T) : option (gmap loc cell * slice T) :=
  match header s with
  | None => Some (h, s)
  | Some w =>
      let '(h, out) := alloc h (replicate (w_len w) (zero : T)) in
      l ← elements_of h w;
      Some (store h out l, mkSlice (Some (mkWindow out 0 (w_len w) (w_len w))))
  end.

(** [func (in *T) DeepCopy() *T]: nil for nil, else a new struct. *)
Definition deep_copy {T} `{!Storable cell T, !Zero T} (into : gmap loc cell → T → option (gmap loc cell * T))
    h (p : ptr T) : option (gmap loc cell * ptr T) :=
  match addr p with
  | None => Some (h, mkPtr None)
  | Some a =>
      let '(h, q) := alloc h (zero : T) in
      t ← load h a;
      '(h, t') ← into h t;
      Some (store h q t', mkPtr (Some q))
  end.

(** ** The laws of copies *)

Lemma load_store {T} `{!Storable cell T, !StorableLaws cell T} h p (t : T) : load (store h p t) p = Some t.
Proof. unfold load, store; rewrite lookup_insert_eq; cbn; apply proj_inj. Qed.

Lemma load_weaken {T} `{!Storable cell T} h h' p (t : T) : load h p = Some t → h ⊆ h' → load h' p = Some t.
Proof.
  intros (c & Hc & Ht)%bind_Some Hs; apply bind_Some; exists c; split; [|done]; eapply lookup_weaken; eauto.
Qed.

Lemma weaken_local h h' (X : gset loc) : h ⊆ h' → X ⊆ dom h → ∀ l, l ∈ X → h' !! l = h !! l.
Proof.
  intros Hs HX l [c Hc]%HX%elem_of_dom; rewrite Hc; eapply lookup_weaken; eauto.
Qed.

Lemma read_weaken {T V} `{!Deep cell T V, !DeepLaws cell T V} h h' (t : T) v :
  deep_read h t = Some v → h ⊆ h' → deep_read h' t = Some v ∧ deep_reach h' t = deep_reach h t.
Proof. intros Hv Hs; apply read_local; [done |]; eapply weaken_local; [done | by eapply reach_dom]. Qed.

Lemma elements_weaken {T} `{!Storable cell (list T)} h h' w (l : list T) :
  elements_of h w = Some l → h ⊆ h' → elements_of h' w = Some l.
Proof.
  intros Hl Hs; rewrite <- Hl; apply elements_of_local.
  unfold elements_of in Hl; apply bind_Some in Hl as (l0 & Hl0%load_dom & _).
  apply (weaken_local h h' (dom h)); done.
Qed.

Lemma copied_pair {A VA B VB} `{!Deep cell A VA, !Deep cell B VB, !DeepLaws cell A VA, !DeepLaws cell B VB}
    h h1 h2 (a a' : A) (b b' : B) va vb :
  deep_read h a = Some va → deep_read h b = Some vb →
  copied h a h1 a' → copied h1 b h2 b' → copied h (a, b) h2 (a', b').
Proof.
  intros Ha Hb (S1 & R1 & D1) (S2 & R2 & D2); rewrite Ha in R1.
  destruct (read_weaken h h1 b vb Hb S1) as [Hb1 _]; rewrite Hb1 in R2.
  destruct (read_weaken h1 h2 a' va R1 S2) as [Ha2 Hr].
  split; [by etrans |]; split; cbn; [rewrite Ha, Hb, Ha2, R2; done |].
  rewrite Hr; apply subseteq_dom in S1; set_solver.
Qed.

Lemma copied_flat {T V} `{!Deep cell T V} h (t : T) : deep_reach h t = ∅ → copied h t h t.
Proof. intros E; split; [done |]; split; [done | rewrite E; set_solver]. Qed.

(** The element [y] of the array [out] under construction. *)
Definition built {T V} `{!Deep cell T V} (h0 : gmap loc cell) (out : loc) h (y : T) (v : V) : Prop :=
  deep_read h y = Some v ∧ (out ∉ deep_reach h y) ∧ deep_reach h y ## dom h0.

(** What a loop body does: it fills the slot [i] with a copy, and touches no
    other cell. *)
Definition body_ok {T V} `{!Deep cell T V, !Storable cell (list T), !Zero T}
    (body : gmap loc cell → T → loc → nat → option (gmap loc cell)) : Prop :=
  ∀ h x v out i lo, deep_read h x = Some v → out ∉ deep_reach h x → load h out = Some lo → lo !! i = Some zero →
    ∃ h' y, body h x out i = Some h' ∧ load h' out = Some (<[i := y]> lo) ∧
      (∀ a, a ∈ dom h → a ≠ out → h' !! a = h !! a) ∧ deep_read h' y = Some v ∧ deep_reach h' y ## dom h.

Lemma built_step {T V} `{!Deep cell T V, !DeepLaws cell T V} h0 out h h' (y : T) v :
  built h0 out h y v → (∀ a, a ∈ dom h → a ≠ out → h' !! a = h !! a) → built h0 out h' y v.
Proof.
  intros (Hv & Ho & Hd) Hl; destruct (read_local h h' y v Hv) as [Hv' Hr].
  { intros l Hin; apply Hl; [by eapply reach_dom | by intros ->]. }
  by rewrite <- Hr in Ho, Hd.
Qed.

Lemma subseteq_step h0 h h' out :
  h0 ⊆ h → h0 !! out = None → (∀ a, a ∈ dom h → a ≠ out → h' !! a = h !! a) → h0 ⊆ h'.
Proof.
  intros Hs Ho Hl; apply map_subseteq_spec; intros a c Hc.
  assert (h !! a = Some c) as Ha by (eapply lookup_weaken; eauto).
  rewrite Hl; [done | by eapply elem_of_dom_2 | intros ->; congruence].
Qed.

Context `{!AllocatorLaws cell}.

Lemma alloc_spec {T} `{!Storable cell T, !StorableLaws cell T} h (t : T) h' p :
  alloc h t = (h', p) → h ⊆ h' ∧ h !! p = None ∧ load h' p = Some t.
Proof using AllocatorLaws0.
  intros [= <- <-]; pose proof (next_fresh h) as Hf; split; [by apply insert_subseteq |]; split; [done |].
  unfold load, store; rewrite lookup_insert_eq; cbn; apply proj_inj.
Qed.


(** The loop, from index [i] on: the array has the copies made so far and the
    zero values of the rest. *)
Lemma range_copy_spec {T V} `{!Deep cell T V, !DeepLaws cell T V, !Storable cell (list T), !Zero T}
    (body : gmap loc cell → T → loc → nat → option (gmap loc cell)) h0 w out (l : list T) n :
  body_ok body → h0 !! out = None → elements_of h0 w = Some l →
  ∀ h i ys vs vs', h0 ⊆ h → length ys = i → load h out = Some (ys ++ replicate n zero) →
    Forall2 (built h0 out h) ys vs → Forall2 (λ x v, deep_read h0 x = Some v) (drop i l) vs' → length vs' = n →
    ∃ h' ys', range_copy body h w out i n = Some h' ∧ h0 ⊆ h' ∧ load h' out = Some ys' ∧
      Forall2 (built h0 out h') ys' (vs ++ vs').
Proof using AllocatorLaws0.
  intros Hbody Ho Hl; induction n as [|n IH]; intros h i ys vs vs' Hs Hi Hout Hys Hvs' Hn.
  { destruct vs'; [|done]; rewrite app_nil_r; exists h, ys; by rewrite app_nil_r in Hout. }
  destruct vs' as [|v vs']; [done |]; injection Hn as Hn.
  apply Forall2_cons_inv_r in Hvs' as (x & l' & Hx & Hvs' & Hdrop).
  assert (l !! i = Some x) as Hxi by (rewrite <- (Nat.add_0_r i), <- lookup_drop; by rewrite Hdrop).
  destruct (read_weaken h0 h x v Hx Hs) as [Hxh Hrx].
  assert (out ∉ deep_reach h x) as Hox.
  { rewrite Hrx; intros Hin; apply (reach_dom _ _ _ Hx), elem_of_dom in Hin as [c Hc]; congruence. }
  destruct (Hbody h x v out i _ Hxh Hox Hout) as (h' & y & Hb & Hout' & Hloc & Hy & Hry).
  { rewrite lookup_app_r by lia; by replace (i - length ys)%nat with 0%nat by lia. }
  assert (h0 ⊆ h') as Hs' by (eapply subseteq_step; eauto).
  cbn [replicate] in Hout'; rewrite (insert_app_r_alt _ _ i) in Hout' by lia.
  replace (i - length ys)%nat with 0%nat in Hout' by lia; cbn in Hout'.
  edestruct (IH h' (Datatypes.S i) (ys ++ [y]) (vs ++ [v]) vs') as (h'' & ys' & Hr & Hs'' & Hl'' & HF).
  - done.
  - rewrite length_app; cbn; lia.
  - by rewrite <- app_assoc.
  - apply Forall2_app.
    { eapply Forall2_impl; [exact Hys |]; intros y0 v0 Hb0; by eapply built_step. }
    repeat constructor; [done | | apply subseteq_dom in Hs; set_solver].
    apply load_dom in Hout; set_solver.
  - assert (drop (Datatypes.S i) l = l') as ->; [|done].
    replace (Datatypes.S i) with (i + 1)%nat by lia; by rewrite <- drop_drop, Hdrop.
  - done.
  - exists h'', ys'; rewrite <- app_assoc in HF; split; [|done].
    cbn [range_copy]; rewrite (elements_weaken h0 h w l Hl Hs); cbn; rewrite Hxi; cbn; by rewrite Hb; cbn.
Qed.

Lemma elements_of_full {T} `{!Storable cell (list T)} h out n (l : list T) :
  load h out = Some l → length l = n → elements_of h (mkWindow out 0 n n) = Some l.
Proof.
  intros Hl <-; unfold elements_of; cbn [w_array w_off w_len]; rewrite Hl; cbn.
  rewrite option_guard_True by lia; by rewrite drop_0, firstn_all.
Qed.

Lemma elements_of_length {T} `{!Storable cell (list T)} h w (l : list T) :
  elements_of h w = Some l → length l = w_len w.
Proof.
  intros (l0 & _ & H)%bind_Some; case_guard; [|done]; injection H as <-.
  rewrite length_take, length_drop; lia.
Qed.

(** A loop over a nil or non-nil slice copies it. *)
Lemma slice_copied {T V} `{!Deep cell T V, !DeepLaws cell T V, !Storable cell (list T), !StorableLaws cell (list T), !Zero T}
    (body : gmap loc cell → T → loc → nat → option (gmap loc cell)) h (s : slice T) v :
  body_ok body → deep_read h s = Some v → ∃ h' s', slice_copy body h s = Some (h', s') ∧ copied h s h' s'.
Proof using AllocatorLaws0.
  intros Hbody Hv; destruct s as [[w|]]; cbn in Hv.
  2:{ exists h, (mkSlice None); split; [done |]; by apply copied_flat. }
  apply bind_Some in Hv as (l & Hl & (vs & Hvs & [= <-])%bind_Some).
  pose proof (elements_of_length h w l Hl) as Hlen; pose proof (length_mapM _ _ _ Hvs) as Hlen'.
  unfold slice_copy; cbn [header]; destruct (alloc h (replicate (w_len w) (zero : T))) as [h1 out] eqn:Ea.
  destruct (alloc_spec h _ h1 out Ea) as (Hs & Ho & Hload).
  destruct (range_copy_spec body h w out l (w_len w) Hbody Ho Hl h1 0 [] [] vs) as (h' & ys & -> & Hs' & Hys & HF);
    [done | done | done | done | by apply mapM_Some | lia |].
  cbn [app] in HF; eexists _, _; split; [reflexivity |]; split; [done |].
  pose proof (Forall2_length _ _ _ HF) as Hlys.
  pose proof (elements_of_full h' out (w_len w) ys Hys ltac:(lia)) as He.
  cbn; rewrite He, Hl; cbn; rewrite Hvs; cbn.
  assert (mapM (deep_read h') ys = Some vs) as ->.
  { apply mapM_Some; eapply Forall2_impl; [exact HF |]; by intros ?? [? _]. }
  split; [done |]; apply disjoint_union_l; split; [apply not_elem_of_dom in Ho; set_solver |].
  clear -HF; induction HF as [|y v ys vs (_ & _ & Hd) _ IH]; cbn; set_solver.
Qed.

Lemma slice_flat_copied {T} `{!Deep cell T T, !Storable cell (list T), !StorableLaws cell (list T), !Zero T} h (s : slice T) v :
  (∀ h (t : T), deep_read h t = Some t ∧ deep_reach h t = ∅) →
  deep_read h s = Some v → ∃ h' s', slice_copy_flat h s = Some (h', s') ∧ copied h s h' s'.
Proof using AllocatorLaws0.
  intros Hflat Hv; destruct s as [[w|]]; cbn in Hv.
  2:{ exists h, (mkSlice None); split; [done |]; by apply copied_flat. }
  apply bind_Some in Hv as (l & Hl & (vs & Hvs & [= <-])%bind_Some).
  unfold slice_copy_flat; cbn [header]; destruct (alloc h (replicate (w_len w) (zero : T))) as [h1 out] eqn:Ea.
  destruct (alloc_spec h _ h1 out Ea) as (Hs & Ho & _).
  rewrite (elements_weaken h h1 w l Hl Hs); cbn; eexists _, _; split; [reflexivity |].
  assert (h ⊆ store h1 out l) as Hs'.
  { eapply (subseteq_step h h1); [done | done |]; intros a _ Hne; unfold store; by rewrite lookup_insert_ne. }
  assert (∀ h', mapM (deep_read h') l = Some l) as Hm.
  { intros h'; apply mapM_Some, Forall2_same_length_lookup_2; [done |].
    intros i x y -> [= <-]; apply Hflat. }
  split; [done |]; cbn; rewrite (elements_of_full _ out _ l) by (first [apply load_store | exact (elements_of_length h w l Hl)]).
  rewrite Hl; cbn; rewrite !Hm; split; [done |].
  apply disjoint_union_l; split; [apply not_elem_of_dom in Ho; set_solver |].
  generalize (store h1 out l); clear -Hflat; intros h2; induction l as [|x l IH]; cbn; [apply disjoint_empty_l |]; rewrite (proj2 (Hflat _ x)), union_empty_l_L; exact IH.
Qed.

(** A DeepCopyInto that keeps its contract. *)
Definition into_ok {T V} `{!Deep cell T V} (into : gmap loc cell → T → option (gmap loc cell * T)) : Prop :=
  ∀ h t v, deep_read h t = Some v → ∃ h' t', into h t = Some (h', t') ∧ copied h t h' t'.

Lemma store_ne {T} `{!Storable cell T} h p a (t : T) : a ≠ p → store h p t !! a = h !! a.
Proof. intros Hne; unfold store; by rewrite lookup_insert_ne. Qed.

(** A copy stored in a cell [q] that existed before it was made. *)
Lemma fill_copied {S T V} `{!Deep cell T V, !DeepLaws cell T V, !Storable cell S} h1 h2 q (t t' : T) v (x : S) :
  q ∈ dom h1 → deep_read h1 t = Some v → copied h1 t h2 t' →
  deep_read (store h2 q x) t' = Some v ∧ deep_reach (store h2 q x) t' ## dom h1 ∧
  ∀ a, a ∈ dom h1 → a ≠ q → store h2 q x !! a = h1 !! a.
Proof using AllocatorLaws0.
  intros Hq Hv (Hs & Hr & Hd); rewrite Hv in Hr.
  destruct (read_local h2 (store h2 q x) t' v Hr) as [Hv' Hr'].
  { intros l Hl; apply store_ne; intros ->; set_solver. }
  split; [done |]; split; [by rewrite Hr' |].
  intros a Ha Hne; rewrite store_ne by done; eapply weaken_local; [done | reflexivity | done].
Qed.

Lemma elem_body_ok {T V} `{!Deep cell T V, !DeepLaws cell T V, !Storable cell (list T), !StorableLaws cell (list T), !Zero T}
    (into : gmap loc cell → T → option (gmap loc cell * T)) : into_ok into → body_ok (elem_body into).
Proof using AllocatorLaws0.
  intros Hinto h x v out i lo Hx _ Hout _.
  destruct (Hinto h x v Hx) as (h1 & y & Hi & Hc).
  assert (load h1 out = Some lo) as Hout1 by (eapply load_weaken; [done | apply Hc]).
  exists (store h1 out (<[i := y]> lo)), y; unfold elem_body, store_elem; rewrite Hi; cbn; rewrite Hout1.
  split; [done |]; split; [apply load_store |].
  destruct (fill_copied h h1 out x y v (<[i := y]> lo) (load_dom _ _ _ Hout) Hx Hc) as (? & ? & ?); done.
Qed.

#[export] Instance ptr_zero {T} : Zero (ptr T) := mkPtr None.

Lemma ptr_body_ok {T V} `{!Deep cell T V, !DeepLaws cell T V, !Storable cell T, !StorableLaws cell T, !Zero T,
    !Storable cell (list (ptr T)), !StorableLaws cell (list (ptr T))}
    (into : gmap loc cell → T → option (gmap loc cell * T)) : into_ok into → body_ok (ptr_body into).
Proof using AllocatorLaws0.
  intros Hinto h [[p|]] v out i lo Hx Ho Hout Hlo; cbn in Hx, Ho.
  2:{ exists h, (mkPtr None); cbn; rewrite (list_insert_id lo i (mkPtr None) Hlo); repeat split; try done; set_solver. }
  apply bind_Some in Hx as (t & Ht & (vt & Hv & [= <-])%bind_Some); rewrite Ht in Ho.
  unfold ptr_body; cbn [addr]; destruct (alloc h (zero : T)) as [h1 q] eqn:Ea.
  destruct (alloc_spec h zero h1 q Ea) as (Hs & Hq & Hq1).
  assert (q ≠ out) as Hqo by (intros ->; apply load_dom, elem_of_dom in Hout as [c Hc]; congruence).
  unfold store_elem; rewrite (load_weaken h h1 out lo Hout Hs); cbn.
  set (h2 := store h1 out _).
  assert (∀ a, a ∈ dom h → a ≠ out → h2 !! a = h !! a) as H2.
  { intros a Ha Hne; unfold h2; rewrite store_ne by done; by eapply weaken_local; [done | reflexivity |]. }
  assert (load h2 p = Some t) as Ht2.
  { unfold load; rewrite H2; [exact Ht | exact (load_dom h p t Ht) | set_solver]. }
  destruct (read_local h h2 t vt Hv) as [Hv2 _].
  { intros l Hl; apply H2; [by eapply reach_dom | set_solver]. }
  rewrite Ht2; cbn; destruct (Hinto h2 t vt Hv2) as (h3 & t' & -> & Hc); cbn.
  assert (q ∈ dom h2) as Hq2 by (unfold h2, store; rewrite dom_insert_L; apply load_dom in Hq1; set_solver).
  destruct (fill_copied h2 h3 q t t' vt t' Hq2 Hv2 Hc) as (Hr & Hd & Hl).
  assert (dom h ⊆ dom h2) as Hdom.
  { unfold h2, store; rewrite dom_insert_L; apply subseteq_dom in Hs; set_solver. }
  assert (load h2 out = Some (<[i:=mkPtr (Some q)]> lo)) as Hout2 by apply load_store.
  eexists _, (mkPtr (Some q)); split; [reflexivity |]; split.
  { unfold load; rewrite Hl; [exact Hout2 | exact (load_dom _ _ _ Hout2) | done]. }
  split; [intros a Ha Hne; rewrite Hl; [by apply H2 | by apply Hdom |] |].
  { intros ->; apply elem_of_dom in Ha as [? ?]; congruence. }
  cbn; rewrite load_store; cbn; rewrite Hr; split; [done |]; apply not_elem_of_dom in Hq; set_solver.
Qed.

(** [DeepCopy] of a pointer. *)
Lemma deep_copied_ptr {T V} `{!Deep cell T V, !DeepLaws cell T V, !Storable cell T, !StorableLaws cell T, !Zero T}
    (into : gmap loc cell → T → option (gmap loc cell * T)) h a v :
  into_ok into → deep_read h (mkPtr (Some a) : ptr T) = Some v →
  ∃ h' q, deep_copy into h (mkPtr (Some a)) = Some (h', mkPtr (Some q)) ∧ copied h (mkPtr (Some a) : ptr T) h' (mkPtr (Some q)).
Proof using AllocatorLaws0.
  intros Hinto Hv; pose proof Hv as (t & Ht & (vt & Hvt & [= <-])%bind_Some)%bind_Some.
  unfold deep_copy; cbn [addr]; destruct (alloc h (zero : T)) as [h1 q] eqn:Ea.
  destruct (alloc_spec h zero h1 q Ea) as (Hs & Hq & Hq1).
  rewrite (load_weaken h h1 a t Ht Hs); cbn.
  destruct (read_weaken h h1 t vt Hvt Hs) as [Hvt1 _].
  destruct (Hinto h1 t vt Hvt1) as (h2 & t' & -> & Hc); cbn.
  destruct (fill_copied h1 h2 q t t' vt t' (load_dom _ _ _ Hq1) Hvt1 Hc) as (Hr & Hd & Hl).
  eexists _, q; split; [reflexivity |]; split; [by apply (subseteq_step h h1 _ q) |].
  rewrite Hv; cbn; rewrite load_store; cbn; rewrite Hr; split; [done |].
  apply not_elem_of_dom in Hq; apply subseteq_dom in Hs; set_solver.
Qed.

(** Two structs with one value, neither of which sees the writes made through the
    other. *)
Definition isolated {T V} `{!Deep cell T V} h (t t' : T) (v : V) : Prop :=
  deep_read h t = Some v ∧ deep_read h t' = Some v ∧
  (∀ h', (∀ l, l ∉ deep_reach h t' → h' !! l = h !! l) → deep_read h' t = Some v) ∧
  (∀ h', (∀ l, l ∉ deep_reach h t → h' !! l = h !! l) → deep_read h' t' = Some v).

Lemma copied_isolated {T V} `{!Deep cell T V, !DeepLaws cell T V} h (t : T) h' t' v :
  deep_read h t = Some v → copied h t h' t' → isolated h' t t' v.
Proof using AllocatorLaws0.
  intros Hv (Hs & Hr & Hd); rewrite Hv in Hr.
  destruct (read_weaken h h' t v Hv Hs) as [Hv' Hr'].
  pose proof (reach_dom _ _ _ Hv).
  split; [done |]; split; [done |]; split; intros h'' Hl; eapply read_local; eauto; set_solver.
Qed.

(** DeepCopy from its DeepCopyInto: a new pointer, isolated from the receiver. *)
Lemma deep_copy_isolated {T V} `{!Deep cell T V, !DeepLaws cell T V, !Storable cell T, !StorableLaws cell T, !Zero T}
    (into : gmap loc cell → T → option (gmap loc cell * T)) h a v :
  into_ok into → deep_read h (mkPtr (Some a) : ptr T) = Some v →
  ∃ h' q, deep_copy into h (mkPtr (Some a)) = Some (h', mkPtr (Some q)) ∧ h ⊆ h' ∧ h !! q = None ∧
    isolated h' (mkPtr (Some a) : ptr T) (mkPtr (Some q)) v.
Proof using AllocatorLaws0.
  intros Hi Hv; destruct (deep_copied_ptr into h a v Hi Hv) as (h' & q & E & C).
  exists h', q; split; [done |]; split; [apply C |]; split; [|by eapply copied_isolated].
  apply not_elem_of_dom; destruct C as (_ & _ & Hd); cbn in Hd; set_solver.
Qed.

(** Structs field by field: a flat field is assigned, the others are copied in order. *)
Definition into_flat {T} h (t : T) : option (gmap loc cell * T) := Some (h, t).
Definition into_pair {A B} (f : gmap loc cell → A → option (gmap loc cell * A)) (g : gmap loc cell → B → option (gmap loc cell * B))
    h (p : A * B) : option (gmap loc cell * (A * B)) :=
  '(h, a) ← f h p.1; '(h, b) ← g h p.2; Some (h, (a, b)).

Lemma into_flat_ok {T} : @into_ok T T (flat_deep T) into_flat.
Proof. intros h t v _; exists h, t; split; [done |]; by apply copied_flat. Qed.

Lemma into_pair_ok {A VA B VB} `{!Deep cell A VA, !Deep cell B VB, !DeepLaws cell A VA, !DeepLaws cell B VB} f g :
  into_ok (T := A) f → into_ok (T := B) g → into_ok (T := A * B) (into_pair f g).
Proof using AllocatorLaws0.
  intros Hf Hg h [a b] v (va & Ha & (vb & Hb & [= <-])%bind_Some)%bind_Some.
  destruct (Hf h a va Ha) as (h1 & a' & E1 & C1).
  destruct (read_weaken h h1 b vb Hb (proj1 C1)) as [Hb1 _].
  destruct (Hg h1 b vb Hb1) as (h2 & b' & E2 & C2).
  exists h2, (a', b'); unfold into_pair; cbn [fst snd]; rewrite E1; cbn; rewrite E2.
  split; [done | by eapply copied_pair].
Qed.

Lemma into_via_ok {R F V} `{!Deep cell F V} (fields : R → F) into into' :
  (∀ h r, prod_map id fields <$> into h r = into' h (fields r)) →
  into_ok (T := F) into' → @into_ok R V (via_deep fields) into.
Proof.
  intros E Hi h r v Hv; destruct (Hi h (fields r) v Hv) as (h' & t' & E' & C).
  rewrite <- E in E'; apply fmap_Some in E' as ([h1 r'] & Hr & [= -> ->]).
  exists h1, r'; split; [done | exact C].
Qed.

End copies.
End heap.

Module deepcopy.
Import heap.

Create HintDb deepcopy.

(** ** The types (common_types.go, status_conditions.go, types.go, guestbook_types.go) *)

Record CommonSpec := mkCommonSpec { Version : string; Channel : string }.

Record CommonStatus := mkCommonStatus {
  Healthy : bool;
  Errors : slice string;
  Phase : string;
  ObservedGeneration : Z
}.

Section types.
Context (TypeMeta ObjectMeta ListMeta Condition RawExtension : Type).

Record StatusConditions := mkStatusConditions { Conditions : slice Condition }.
Record PatchSpec := mkPatchSpec { Patches : slice (ptr RawExtension) }.

Record SimpleTestSpec := mkSimpleTestSpec { st_CommonSpec : CommonSpec; st_PatchSpec : PatchSpec }.
Record SimpleTestStatus := mkSimpleTestStatus { st_CommonStatus : CommonStatus; st_StatusConditions : StatusConditions }.
Record SimpleTest := mkSimpleTest {
  st_TypeMeta : TypeMeta;
  st_ObjectMeta : ObjectMeta;
  st_Spec : SimpleTestSpec;
  st_Status : SimpleTestStatus
}.
Record SimpleTestList := mkSimpleTestList {
  stl_TypeMeta : TypeMeta;
  stl_ListMeta : ListMeta;
  stl_Items : slice SimpleTest
}.

Record GuestbookSpec := mkGuestbookSpec { gb_CommonSpec : CommonSpec; gb_PatchSpec : PatchSpec }.
Record GuestbookStatus := mkGuestbookStatus { gb_CommonStatus : CommonStatus }.
Record Guestbook := mkGuestbook {
  gb_TypeMeta : TypeMeta;
  gb_ObjectMeta : ObjectMeta;
  gb_Spec : GuestbookSpec;
  gb_Status : GuestbookStatus
}.
Record GuestbookList := mkGuestbookList {
  gbl_TypeMeta : TypeMeta;
  gbl_ListMeta : ListMeta;
  gbl_Items : slice Guestbook
}.
End types.

Arguments mkStatusConditions {_}. Arguments Conditions {_}.
Arguments mkPatchSpec {_}. Arguments Patches {_}.
Arguments mkSimpleTestSpec {_}. Arguments st_CommonSpec {_}. Arguments st_PatchSpec {_}.
Arguments mkSimpleTestStatus {_}. Arguments st_CommonStatus {_}. Arguments st_StatusConditions {_}.
Arguments mkSimpleTest {_ _ _ _}. Arguments st_TypeMeta {_ _ _ _}. Arguments st_ObjectMeta {_ _ _ _}.
Arguments st_Spec {_ _ _ _}. Arguments st_Status {_ _ _ _}.
Arguments mkSimpleTestList {_ _ _ _ _}. Arguments stl_TypeMeta {_ _ _ _ _}. Arguments stl_ListMeta {_ _ _ _ _}.
Arguments stl_Items {_ _ _ _ _}.
Arguments mkGuestbookSpec {_}. Arguments gb_CommonSpec {_}. Arguments gb_PatchSpec {_}.
Arguments mkGuestbook {_ _ _}. Arguments gb_TypeMeta {_ _ _}. Arguments gb_ObjectMeta {_ _ _}.
Arguments gb_Spec {_ _ _}. Arguments gb_Status {_ _ _}.
Arguments mkGuestbookList {_ _ _ _}. Arguments gbl_TypeMeta {_ _ _ _}. Arguments gbl_ListMeta {_ _ _ _}.
Arguments gbl_Items {_ _ _ _}.

(** ** The copies *)

Section deepcopy.
Context {cell : Type} `{!Allocator cell}.
Context {TypeMeta ObjectMeta ObjectMetaV ListMeta ListMetaV Condition ConditionV RawExtension RawExtensionV : Type}.
Implicit Types h : gmap loc cell.

(** What the cells of the heap can hold, and the zero values. *)
Context `{!Storable cell (list string), !Storable cell (list Condition), !Storable cell (list (ptr RawExtension)),
  !Storable cell RawExtension, !Storable cell CommonStatus, !Storable cell (StatusConditions Condition),
  !Storable cell (PatchSpec RawExtension),
  !Storable cell (SimpleTestSpec RawExtension), !Storable cell (SimpleTestStatus Condition),
  !Storable cell (SimpleTest TypeMeta ObjectMeta Condition RawExtension), !Storable cell (list (SimpleTest TypeMeta ObjectMeta Condition RawExtension)),
  !Storable cell (SimpleTestList TypeMeta ObjectMeta ListMeta Condition RawExtension),
  !Storable cell (GuestbookSpec RawExtension), !Storable cell GuestbookStatus,
  !Storable cell (Guestbook TypeMeta ObjectMeta RawExtension), !Storable cell (list (Guestbook TypeMeta ObjectMeta RawExtension)),
  !Storable cell (GuestbookList TypeMeta ObjectMeta ListMeta RawExtension)}.
Context `{!Zero TypeMeta, !Zero ObjectMeta, !Zero ListMeta, !Zero Condition, !Zero RawExtension}.

(** The copies of apimachinery. *)
Context `{!Deep cell ObjectMeta ObjectMetaV, !DeepCopyable cell ObjectMeta ObjectMetaV}.
Context `{!Deep cell ListMeta ListMetaV, !DeepCopyable cell ListMeta ListMetaV}.
Context `{!Deep cell Condition ConditionV, !DeepCopyable cell Condition ConditionV}.
Context `{!Deep cell RawExtension RawExtensionV, !DeepCopyable cell RawExtension RawExtensionV}.

#[export] Instance string_zero : Zero string := EmptyString.
#[export] Instance CommonSpec_zero : Zero CommonSpec := mkCommonSpec "" "".
#[export] Instance CommonStatus_zero : Zero CommonStatus := mkCommonStatus false (mkSlice None) "" 0%Z.
#[export] Instance StatusConditions_zero : Zero (StatusConditions Condition) := mkStatusConditions (mkSlice None).
#[export] Instance PatchSpec_zero : Zero (PatchSpec RawExtension) := mkPatchSpec (mkSlice None).

Definition CommonStatus_DeepCopyInto h (in_ : CommonStatus) : option (gmap loc cell * CommonStatus) :=
  let out := in_ in
  '(h, errors) ← slice_copy_flat h (Errors in_);
  Some (h, mkCommonStatus (Healthy out) errors (Phase out) (ObservedGeneration out)).

Definition CommonStatus_DeepCopy h (in_ : ptr (CommonStatus)) : option (gmap loc cell * ptr (CommonStatus)) := deep_copy CommonStatus_DeepCopyInto h in_.

Definition StatusConditions_DeepCopyInto h (in_ : StatusConditions Condition) :
    option (gmap loc cell * StatusConditions Condition) :=
  '(h, conditions) ← slice_copy (elem_body (deep_copy_into (T := Condition))) h (Conditions in_);
  Some (h, mkStatusConditions conditions).

Definition StatusConditions_DeepCopy h (in_ : ptr (StatusConditions Condition)) : option (gmap loc cell * ptr (StatusConditions Condition)) := deep_copy StatusConditions_DeepCopyInto h in_.

Definition PatchSpec_DeepCopyInto h (in_ : PatchSpec RawExtension) : option (gmap loc cell * PatchSpec RawExtension) :=
  '(h, patches) ← slice_copy (ptr_body (deep_copy_into (T := RawExtension))) h (Patches in_);
  Some (h, mkPatchSpec patches).

Definition PatchSpec_DeepCopy h (in_ : ptr (PatchSpec RawExtension)) : option (gmap loc cell * ptr (PatchSpec RawExtension)) := deep_copy PatchSpec_DeepCopyInto h in_.

(** *** pkg/test/testreconciler/simpletest/v1alpha1 *)

#[export] Instance SimpleTestSpec_zero : Zero (SimpleTestSpec RawExtension) := mkSimpleTestSpec zero zero.
#[export] Instance SimpleTestStatus_zero : Zero (SimpleTestStatus Condition) := mkSimpleTestStatus zero zero.
#[export] Instance SimpleTest_zero : Zero (SimpleTest TypeMeta ObjectMeta Condition RawExtension) := mkSimpleTest zero zero zero zero.
#[export] Instance SimpleTestList_zero : Zero (SimpleTestList TypeMeta ObjectMeta ListMeta Condition RawExtension) := mkSimpleTestList zero zero (mkSlice None).

Definition SimpleTestSpec_DeepCopyInto h (in_ : SimpleTestSpec RawExtension) : option (gmap loc cell * SimpleTestSpec RawExtension) :=
  let out := in_ in
  let out := mkSimpleTestSpec (st_CommonSpec in_) (st_PatchSpec out) in
  '(h, patch) ← PatchSpec_DeepCopyInto h (st_PatchSpec in_);
  Some (h, mkSimpleTestSpec (st_CommonSpec out) patch).

Definition SimpleTestSpec_DeepCopy h (in_ : ptr (SimpleTestSpec RawExtension)) : option (gmap loc cell * ptr (SimpleTestSpec RawExtension)) := deep_copy SimpleTestSpec_DeepCopyInto h in_.

Definition SimpleTestStatus_DeepCopyInto h (in_ : SimpleTestStatus Condition) : option (gmap loc cell * SimpleTestStatus Condition) :=
  '(h, common) ← CommonStatus_DeepCopyInto h (st_CommonStatus in_);
  '(h, conditions) ← StatusConditions_DeepCopyInto h (st_StatusConditions in_);
  Some (h, mkSimpleTestStatus common conditions).

Definition SimpleTestStatus_DeepCopy h (in_ : ptr (SimpleTestStatus Condition)) : option (gmap loc cell * ptr (SimpleTestStatus Condition)) := deep_copy SimpleTestStatus_DeepCopyInto h in_.

Definition SimpleTest_DeepCopyInto h (in_ : SimpleTest TypeMeta ObjectMeta Condition RawExtension) : option (gmap loc cell * SimpleTest TypeMeta ObjectMeta Condition RawExtension) :=
  '(h, meta) ← deep_copy_into h (st_ObjectMeta in_);
  '(h, spec) ← SimpleTestSpec_DeepCopyInto h (st_Spec in_);
  '(h, status) ← SimpleTestStatus_DeepCopyInto h (st_Status in_);
  Some (h, mkSimpleTest (st_TypeMeta in_) meta spec status).

Definition SimpleTest_DeepCopy h (in_ : ptr (SimpleTest TypeMeta ObjectMeta Condition RawExtension)) : option (gmap loc cell * ptr (SimpleTest TypeMeta ObjectMeta Condition RawExtension)) := deep_copy SimpleTest_DeepCopyInto h in_.

Definition SimpleTestList_DeepCopyInto h (in_ : SimpleTestList TypeMeta ObjectMeta ListMeta Condition RawExtension) : option (gmap loc cell * SimpleTestList TypeMeta ObjectMeta ListMeta Condition RawExtension) :=
  '(h, meta) ← deep_copy_into h (stl_ListMeta in_);
  '(h, items) ← slice_copy (elem_body SimpleTest_DeepCopyInto) h (stl_Items in_);
  Some (h, mkSimpleTestList (stl_TypeMeta in_) meta items).

Definition SimpleTestList_DeepCopy h (in_ : ptr (SimpleTestList TypeMeta ObjectMeta ListMeta Condition RawExtension)) : option (gmap loc cell * ptr (SimpleTestList TypeMeta ObjectMeta ListMeta Condition RawExtension)) := deep_copy SimpleTestList_DeepCopyInto h in_.

(** *** examples/guestbook-operator/api/v1alpha1 *)

#[export] Instance GuestbookSpec_zero : Zero (GuestbookSpec RawExtension) := mkGuestbookSpec zero zero.
#[export] Instance GuestbookStatus_zero : Zero (GuestbookStatus) := mkGuestbookStatus zero.
#[export] Instance Guestbook_zero : Zero (Guestbook TypeMeta ObjectMeta RawExtension) := mkGuestbook zero zero zero zero.
#[export] Instance GuestbookList_zero : Zero (GuestbookList TypeMeta ObjectMeta ListMeta RawExtension) := mkGuestbookList zero zero (mkSlice None).

Definition GuestbookSpec_DeepCopyInto h (in_ : GuestbookSpec RawExtension) : option (gmap loc cell * GuestbookSpec RawExtension) :=
  let out := in_ in
  let out := mkGuestbookSpec (gb_CommonSpec in_) (gb_PatchSpec out) in
  '(h, patch) ← PatchSpec_DeepCopyInto h (gb_PatchSpec in_);
  Some (h, mkGuestbookSpec (gb_CommonSpec out) patch).

Definition GuestbookSpec_DeepCopy h (in_ : ptr (GuestbookSpec RawExtension)) : option (gmap loc cell * ptr (GuestbookSpec RawExtension)) := deep_copy GuestbookSpec_DeepCopyInto h in_.

Definition GuestbookStatus_DeepCopyInto h (in_ : GuestbookStatus) : option (gmap loc cell * GuestbookStatus) :=
  '(h, common) ← CommonStatus_DeepCopyInto h (gb_CommonStatus in_);
  Some (h, mkGuestbookStatus common).

Definition GuestbookStatus_DeepCopy h (in_ : ptr (GuestbookStatus)) : option (gmap loc cell * ptr (GuestbookStatus)) := deep_copy GuestbookStatus_DeepCopyInto h in_.

Definition Guestbook_DeepCopyInto h (in_ : Guestbook TypeMeta ObjectMeta RawExtension) : option (gmap loc cell * Guestbook TypeMeta ObjectMeta RawExtension) :=
  '(h, meta) ← deep_copy_into h (gb_ObjectMeta in_);
  '(h, spec) ← GuestbookSpec_DeepCopyInto h (gb_Spec in_);
  '(h, status) ← GuestbookStatus_DeepCopyInto h (gb_Status in_);
  Some (h, mkGuestbook (gb_TypeMeta in_) meta spec status).

Definition Guestbook_DeepCopy h (in_ : ptr (Guestbook TypeMeta ObjectMeta RawExtension)) : option (gmap loc cell * ptr (Guestbook TypeMeta ObjectMeta RawExtension)) := deep_copy Guestbook_DeepCopyInto h in_.

Definition GuestbookList_DeepCopyInto h (in_ : GuestbookList TypeMeta ObjectMeta ListMeta RawExtension) : option (gmap loc cell * GuestbookList TypeMeta ObjectMeta ListMeta RawExtension) :=
  '(h, meta) ← deep_copy_into h (gbl_ListMeta in_);
  '(h, items) ← slice_copy (elem_body Guestbook_DeepCopyInto) h (gbl_Items in_);
  Some (h, mkGuestbookList (gbl_TypeMeta in_) meta items).

Definition GuestbookList_DeepCopy h (in_ : ptr (GuestbookList TypeMeta ObjectMeta ListMeta RawExtension)) : option (gmap loc cell * ptr (GuestbookList TypeMeta ObjectMeta ListMeta RawExtension)) := deep_copy GuestbookList_DeepCopyInto h in_.

(** *** DeepCopyObject *)

(** A runtime.Object: the nil interface, or a pointer and its type; a nil pointer in
    an interface is not the nil interface. *)
Inductive Object :=
  | nilObject
  | SimpleTestObject (p : ptr (SimpleTest TypeMeta ObjectMeta Condition RawExtension))
  | SimpleTestListObject (p : ptr (SimpleTestList TypeMeta ObjectMeta ListMeta Condition RawExtension))
  | GuestbookObject (p : ptr (Guestbook TypeMeta ObjectMeta RawExtension))
  | GuestbookListObject (p : ptr (GuestbookList TypeMeta ObjectMeta ListMeta RawExtension)).

Definition SimpleTest_DeepCopyObject h (in_ : ptr (SimpleTest TypeMeta ObjectMeta Condition RawExtension)) : option (gmap loc cell * Object) :=
  '(h, c) ← SimpleTest_DeepCopy h in_;
  match addr c with Some _ => Some (h, SimpleTestObject c) | None => Some (h, nilObject) end.

Definition SimpleTestList_DeepCopyObject h (in_ : ptr (SimpleTestList TypeMeta ObjectMeta ListMeta Condition RawExtension)) : option (gmap loc cell * Object) :=
  '(h, c) ← SimpleTestList_DeepCopy h in_;
  match addr c with Some _ => Some (h, SimpleTestListObject c) | None => Some (h, nilObject) end.

Definition Guestbook_DeepCopyObject h (in_ : ptr (Guestbook TypeMeta ObjectMeta RawExtension)) : option (gmap loc cell * Object) :=
  '(h, c) ← Guestbook_DeepCopy h in_;
  match addr c with Some _ => Some (h, GuestbookObject c) | None => Some (h, nilObject) end.

Definition GuestbookList_DeepCopyObject h (in_ : ptr (GuestbookList TypeMeta ObjectMeta ListMeta RawExtension)) : option (gmap loc cell * Object) :=
  '(h, c) ← GuestbookList_DeepCopy h in_;
  match addr c with Some _ => Some (h, GuestbookListObject c) | None => Some (h, nilObject) end.

(** *** The accessors of the addon objects *)

Definition SimpleTest_ComponentName (o : SimpleTest TypeMeta ObjectMeta Condition RawExtension) : string := "simpletest".
Definition SimpleTest_CommonSpec (o : SimpleTest TypeMeta ObjectMeta Condition RawExtension) : CommonSpec := st_CommonSpec (st_Spec o).
Definition SimpleTest_PatchSpec (o : SimpleTest TypeMeta ObjectMeta Condition RawExtension) : PatchSpec RawExtension := st_PatchSpec (st_Spec o).
Definition SimpleTest_GetCommonStatus (o : SimpleTest TypeMeta ObjectMeta Condition RawExtension) : CommonStatus := st_CommonStatus (st_Status o).
Definition SimpleTest_SetCommonStatus (o : SimpleTest TypeMeta ObjectMeta Condition RawExtension) (s : CommonStatus) : SimpleTest TypeMeta ObjectMeta Condition RawExtension :=
  mkSimpleTest (st_TypeMeta o) (st_ObjectMeta o) (st_Spec o) (mkSimpleTestStatus s (st_StatusConditions (st_Status o))).

Definition Guestbook_ComponentName (o : Guestbook TypeMeta ObjectMeta RawExtension) : string := "guestbook".
Definition Guestbook_CommonSpec (o : Guestbook TypeMeta ObjectMeta RawExtension) : CommonSpec := gb_CommonSpec (gb_Spec o).
Definition Guestbook_PatchSpec (o : Guestbook TypeMeta ObjectMeta RawExtension) : PatchSpec RawExtension := gb_PatchSpec (gb_Spec o).
Definition Guestbook_GetCommonStatus (o : Guestbook TypeMeta ObjectMeta RawExtension) : CommonStatus := gb_CommonStatus (gb_Status o).
Definition Guestbook_SetCommonStatus (o : Guestbook TypeMeta ObjectMeta RawExtension) (s : CommonStatus) : Guestbook TypeMeta ObjectMeta RawExtension :=
  mkGuestbook (gb_TypeMeta o) (gb_ObjectMeta o) (gb_Spec o) (mkGuestbookStatus s).

(** ** The observers of the structs: every field *)

#[local] Instance TypeMeta_deep : Deep cell TypeMeta TypeMeta := flat_deep TypeMeta.
#[export] Instance CommonSpec_deep : Deep cell CommonSpec CommonSpec := flat_deep CommonSpec.

#[export] Instance CommonStatus_deep : Deep cell (CommonStatus) _ := via_deep (λ s, ((Healthy s, Errors s), Phase s, ObservedGeneration s)).
#[export] Instance StatusConditions_deep : Deep cell (StatusConditions Condition) _ := via_deep (λ s, Conditions s).
#[export] Instance PatchSpec_deep : Deep cell (PatchSpec RawExtension) _ := via_deep (λ s, Patches s).
#[export] Instance SimpleTestSpec_deep : Deep cell (SimpleTestSpec RawExtension) _ := via_deep (λ s, (st_CommonSpec s, st_PatchSpec s)).
#[export] Instance SimpleTestStatus_deep : Deep cell (SimpleTestStatus Condition) _ := via_deep (λ s, (st_CommonStatus s, st_StatusConditions s)).
#[export] Instance SimpleTest_deep : Deep cell (SimpleTest TypeMeta ObjectMeta Condition RawExtension) _ := via_deep (λ s, (st_TypeMeta s, st_ObjectMeta s, st_Spec s, st_Status s)).
#[export] Instance SimpleTestList_deep : Deep cell (SimpleTestList TypeMeta ObjectMeta ListMeta Condition RawExtension) _ := via_deep (λ s, (stl_TypeMeta s, stl_ListMeta s, stl_Items s)).
#[export] Instance GuestbookSpec_deep : Deep cell (GuestbookSpec RawExtension) _ := via_deep (λ s, (gb_CommonSpec s, gb_PatchSpec s)).
#[export] Instance GuestbookStatus_deep : Deep cell (GuestbookStatus) _ := via_deep (λ s, gb_CommonStatus s).
#[export] Instance Guestbook_deep : Deep cell (Guestbook TypeMeta ObjectMeta RawExtension) _ := via_deep (λ s, (gb_TypeMeta s, gb_ObjectMeta s, gb_Spec s, gb_Status s)).
#[export] Instance GuestbookList_deep : Deep cell (GuestbookList TypeMeta ObjectMeta ListMeta RawExtension) _ := via_deep (λ s, (gbl_TypeMeta s, gbl_ListMeta s, gbl_Items s)).

(** The contract of the copies of apimachinery. *)
Context `{!AllocatorLaws cell}.
Context `{!DeepLaws cell ObjectMeta ObjectMetaV, !DeepCopyLaws cell ObjectMeta ObjectMetaV}.
Context `{!DeepLaws cell ListMeta ListMetaV, !DeepCopyLaws cell ListMeta ListMetaV}.
Context `{!DeepLaws cell Condition ConditionV, !DeepCopyLaws cell Condition ConditionV}.
Context `{!DeepLaws cell RawExtension RawExtensionV, !DeepCopyLaws cell RawExtension RawExtensionV}.
Context `{!StorableLaws cell (list string), !StorableLaws cell (list Condition), !StorableLaws cell (list (ptr RawExtension)),
  !StorableLaws cell RawExtension, !StorableLaws cell (list (SimpleTest TypeMeta ObjectMeta Condition RawExtension)), !StorableLaws cell (SimpleTestList TypeMeta ObjectMeta ListMeta Condition RawExtension),
  !StorableLaws cell (SimpleTest TypeMeta ObjectMeta Condition RawExtension), !StorableLaws cell (list (Guestbook TypeMeta ObjectMeta RawExtension)), !StorableLaws cell (Guestbook TypeMeta ObjectMeta RawExtension), !StorableLaws cell (GuestbookList TypeMeta ObjectMeta ListMeta RawExtension)}.

#[local] Instance TypeMeta_laws : DeepLaws cell TypeMeta TypeMeta := flat_laws TypeMeta.
#[local] Instance CommonSpec_laws : DeepLaws cell CommonSpec CommonSpec := flat_laws CommonSpec.
#[local] Instance CommonStatus_laws : DeepLaws cell (CommonStatus) _ := via_laws (λ s, ((Healthy s, Errors s), Phase s, ObservedGeneration s)).
#[local] Instance StatusConditions_laws : DeepLaws cell (StatusConditions Condition) _ := via_laws (λ s, Conditions s).
#[local] Instance PatchSpec_laws : DeepLaws cell (PatchSpec RawExtension) _ := via_laws (λ s, Patches s).
#[local] Instance SimpleTestSpec_laws : DeepLaws cell (SimpleTestSpec RawExtension) _ := via_laws (λ s, (st_CommonSpec s, st_PatchSpec s)).
#[local] Instance SimpleTestStatus_laws : DeepLaws cell (SimpleTestStatus Condition) _ := via_laws (λ s, (st_CommonStatus s, st_StatusConditions s)).
#[local] Instance SimpleTest_laws : DeepLaws cell (SimpleTest TypeMeta ObjectMeta Condition RawExtension) _ := via_laws (λ s, (st_TypeMeta s, st_ObjectMeta s, st_Spec s, st_Status s)).
#[local] Instance SimpleTestList_laws : DeepLaws cell (SimpleTestList TypeMeta ObjectMeta ListMeta Condition RawExtension) _ := via_laws (λ s, (stl_TypeMeta s, stl_ListMeta s, stl_Items s)).
#[local] Instance GuestbookSpec_laws : DeepLaws cell (GuestbookSpec RawExtension) _ := via_laws (λ s, (gb_CommonSpec s, gb_PatchSpec s)).
#[local] Instance GuestbookStatus_laws : DeepLaws cell (GuestbookStatus) _ := via_laws (λ s, gb_CommonStatus s).
#[local] Instance Guestbook_laws : DeepLaws cell (Guestbook TypeMeta ObjectMeta RawExtension) _ := via_laws (λ s, (gb_TypeMeta s, gb_ObjectMeta s, gb_Spec s, gb_Status s)).
#[local] Instance GuestbookList_laws : DeepLaws cell (GuestbookList TypeMeta ObjectMeta ListMeta RawExtension) _ := via_laws (λ s, (gbl_TypeMeta s, gbl_ListMeta s, gbl_Items s)).

(** ** Each DeepCopyInto keeps the contract *)

Lemma slice_into_ok {T V} `{!Deep cell T V, !DeepLaws cell T V, !Storable cell (list T), !StorableLaws cell (list T), !Zero T}
    (body : gmap loc cell → T → loc → nat → option (gmap loc cell)) :
  body_ok body → into_ok (T := slice T) (slice_copy body).
Proof using AllocatorLaws0. intros Hb h s v Hv; by eapply slice_copied. Qed.

Lemma errors_into_ok : into_ok (T := slice string) slice_copy_flat.
Proof using AllocatorLaws0 StorableLaws0. intros h s v Hv; by eapply slice_flat_copied. Qed.

Lemma library_into_ok {T V} `{!Deep cell T V, !DeepCopyable cell T V, !DeepCopyLaws cell T V} : into_ok (T := T) deep_copy_into.
Proof. exact deep_copied. Qed.

Ltac into_solve :=
  repeat first [ done | apply into_pair_ok | apply into_flat_ok | apply errors_into_ok | apply library_into_ok
               | apply slice_into_ok | apply elem_body_ok | apply ptr_body_ok | eassumption | eauto with deepcopy ].

Ltac step_binds :=
  repeat match goal with
  | |- context [mbind _ ?x] => lazymatch x with context [mbind] => fail | _ => destruct x as [[? ?]|]; cbn end
  end.

(** The fields of [into] are copied the way [into'] copies the tuple. *)
Ltac into_fields into into' :=
  apply (into_via_ok _ _ into'); [intros h []; unfold into, into_pair, into_flat; cbn; step_binds; reflexivity |]; into_solve.

Lemma CommonStatus_into_ok : into_ok (T := CommonStatus) CommonStatus_DeepCopyInto.
Proof using Type*.
  into_fields CommonStatus_DeepCopyInto (into_pair (into_pair (into_pair (into_flat (T := bool)) (slice_copy_flat (T := string))) (into_flat (T := string))) (into_flat (T := Z))).
Qed.
#[local] Hint Resolve CommonStatus_into_ok : deepcopy.

Lemma StatusConditions_into_ok : into_ok (T := StatusConditions Condition) StatusConditions_DeepCopyInto.
Proof using Type*.
  into_fields StatusConditions_DeepCopyInto (slice_copy (elem_body (deep_copy_into (T := Condition)))).
Qed.
#[local] Hint Resolve StatusConditions_into_ok : deepcopy.

Lemma PatchSpec_into_ok : into_ok (T := PatchSpec RawExtension) PatchSpec_DeepCopyInto.
Proof using Type*.
  into_fields PatchSpec_DeepCopyInto (slice_copy (ptr_body (deep_copy_into (T := RawExtension)))).
Qed.
#[local] Hint Resolve PatchSpec_into_ok : deepcopy.

Lemma SimpleTestSpec_into_ok : into_ok (T := SimpleTestSpec RawExtension) SimpleTestSpec_DeepCopyInto.
Proof using Type*.
  into_fields SimpleTestSpec_DeepCopyInto (into_pair (into_flat (T := CommonSpec)) PatchSpec_DeepCopyInto).
Qed.
#[local] Hint Resolve SimpleTestSpec_into_ok : deepcopy.

Lemma SimpleTestStatus_into_ok : into_ok (T := SimpleTestStatus Condition) SimpleTestStatus_DeepCopyInto.
Proof using Type*.
  into_fields SimpleTestStatus_DeepCopyInto (into_pair CommonStatus_DeepCopyInto StatusConditions_DeepCopyInto).
Qed.
#[local] Hint Resolve SimpleTestStatus_into_ok : deepcopy.

Lemma SimpleTest_into_ok : into_ok (T := SimpleTest TypeMeta ObjectMeta Condition RawExtension) SimpleTest_DeepCopyInto.
Proof using Type*.
  into_fields SimpleTest_DeepCopyInto (into_pair (into_pair (into_pair (into_flat (T := TypeMeta)) (deep_copy_into (T := ObjectMeta))) SimpleTestSpec_DeepCopyInto) SimpleTestStatus_DeepCopyInto).
Qed.
#[local] Hint Resolve SimpleTest_into_ok : deepcopy.

Lemma SimpleTestList_into_ok : into_ok (T := SimpleTestList TypeMeta ObjectMeta ListMeta Condition RawExtension) SimpleTestList_DeepCopyInto.
Proof using Type*.
  into_fields SimpleTestList_DeepCopyInto (into_pair (into_pair (into_flat (T := TypeMeta)) (deep_copy_into (T := ListMeta))) (slice_copy (elem_body SimpleTest_DeepCopyInto))).
Qed.
#[local] Hint Resolve SimpleTestList_into_ok : deepcopy.

Lemma GuestbookSpec_into_ok : into_ok (T := GuestbookSpec RawExtension) GuestbookSpec_DeepCopyInto.
Proof using Type*.
  into_fields GuestbookSpec_DeepCopyInto (into_pair (into_flat (T := CommonSpec)) PatchSpec_DeepCopyInto).
Qed.
#[local] Hint Resolve GuestbookSpec_into_ok : deepcopy.

Lemma GuestbookStatus_into_ok : into_ok (T := GuestbookStatus) GuestbookStatus_DeepCopyInto.
Proof using Type*.
  into_fields GuestbookStatus_DeepCopyInto (CommonStatus_DeepCopyInto).
Qed.
#[local] Hint Resolve GuestbookStatus_into_ok : deepcopy.

Lemma Guestbook_into_ok : into_ok (T := Guestbook TypeMeta ObjectMeta RawExtension) Guestbook_DeepCopyInto.
Proof using Type*.
  into_fields Guestbook_DeepCopyInto (into_pair (into_pair (into_pair (into_flat (T := TypeMeta)) (deep_copy_into (T := ObjectMeta))) GuestbookSpec_DeepCopyInto) GuestbookStatus_DeepCopyInto).
Qed.
#[local] Hint Resolve Guestbook_into_ok : deepcopy.

Lemma GuestbookList_into_ok : into_ok (T := GuestbookList TypeMeta ObjectMeta ListMeta RawExtension) GuestbookList_DeepCopyInto.
Proof using Type*.
  into_fields GuestbookList_DeepCopyInto (into_pair (into_pair (into_flat (T := TypeMeta)) (deep_copy_into (T := ListMeta))) (slice_copy (elem_body Guestbook_DeepCopyInto))).
Qed.
#[local] Hint Resolve GuestbookList_into_ok : deepcopy.

(** ** What the callers rely on *)

(** C6. DeepCopyObject of a list of test objects, whatever
    its conditions, patches, errors and metadata point to and whichever of its slices
    are nil: it does not panic, it returns a new list with the same value, every cell
    that existed is unchanged, and no write through the copy is ever seen through the
    original, nor through the original by the copy. *)
Theorem SimpleTestList_DeepCopyObject_isolated h a v :
  deep_read h (mkPtr (Some a) : ptr (SimpleTestList TypeMeta ObjectMeta ListMeta Condition RawExtension)) = Some v →
  ∃ h' q, SimpleTestList_DeepCopyObject h (mkPtr (Some a)) = Some (h', SimpleTestListObject (mkPtr (Some q))) ∧ h ⊆ h' ∧ h !! q = None ∧
    isolated h' (mkPtr (Some a) : ptr (SimpleTestList TypeMeta ObjectMeta ListMeta Condition RawExtension)) (mkPtr (Some q)) v.
Proof using Type*.
  intros Hv; destruct (deep_copy_isolated SimpleTestList_DeepCopyInto h a v SimpleTestList_into_ok Hv) as (h' & q & E & H).
  exists h', q; split; [|exact H]; unfold SimpleTestList_DeepCopyObject, SimpleTestList_DeepCopy; by rewrite E.
Qed.

(** The same for one test object. *)
Theorem SimpleTest_DeepCopyObject_isolated h a v :
  deep_read h (mkPtr (Some a) : ptr (SimpleTest TypeMeta ObjectMeta Condition RawExtension)) = Some v →
  ∃ h' q, SimpleTest_DeepCopyObject h (mkPtr (Some a)) = Some (h', SimpleTestObject (mkPtr (Some q))) ∧ h ⊆ h' ∧ h !! q = None ∧
    isolated h' (mkPtr (Some a) : ptr (SimpleTest TypeMeta ObjectMeta Condition RawExtension)) (mkPtr (Some q)) v.
Proof using Type*.
  intros Hv; destruct (deep_copy_isolated SimpleTest_DeepCopyInto h a v SimpleTest_into_ok Hv) as (h' & q & E & H).
  exists h', q; split; [|exact H]; unfold SimpleTest_DeepCopyObject, SimpleTest_DeepCopy; by rewrite E.
Qed.

(** The same for a list of guestbooks. *)
Theorem GuestbookList_DeepCopyObject_isolated h a v :
  deep_read h (mkPtr (Some a) : ptr (GuestbookList TypeMeta ObjectMeta ListMeta RawExtension)) = Some v →
  ∃ h' q, GuestbookList_DeepCopyObject h (mkPtr (Some a)) = Some (h', GuestbookListObject (mkPtr (Some q))) ∧ h ⊆ h' ∧ h !! q = None ∧
    isolated h' (mkPtr (Some a) : ptr (GuestbookList TypeMeta ObjectMeta ListMeta RawExtension)) (mkPtr (Some q)) v.
Proof using Type*.
  intros Hv; destruct (deep_copy_isolated GuestbookList_DeepCopyInto h a v GuestbookList_into_ok Hv) as (h' & q & E & H).
  exists h', q; split; [|exact H]; unfold GuestbookList_DeepCopyObject, GuestbookList_DeepCopy; by rewrite E.
Qed.

(** The same for one guestbook. *)
Theorem Guestbook_DeepCopyObject_isolated h a v :
  deep_read h (mkPtr (Some a) : ptr (Guestbook TypeMeta ObjectMeta RawExtension)) = Some v →
  ∃ h' q, Guestbook_DeepCopyObject h (mkPtr (Some a)) = Some (h', GuestbookObject (mkPtr (Some q))) ∧ h ⊆ h' ∧ h !! q = None ∧
    isolated h' (mkPtr (Some a) : ptr (Guestbook TypeMeta ObjectMeta RawExtension)) (mkPtr (Some q)) v.
Proof using Type*.
  intros Hv; destruct (deep_copy_isolated Guestbook_DeepCopyInto h a v Guestbook_into_ok Hv) as (h' & q & E & H).
  exists h', q; split; [|exact H]; unfold Guestbook_DeepCopyObject, Guestbook_DeepCopy; by rewrite E.
Qed.

(** A nil receiver gives the nil interface, never an interface with a nil pointer. *)
Lemma DeepCopyObject_nil h :
  SimpleTest_DeepCopyObject h (mkPtr None) = Some (h, nilObject) ∧
  SimpleTestList_DeepCopyObject h (mkPtr None) = Some (h, nilObject) ∧
  Guestbook_DeepCopyObject h (mkPtr None) = Some (h, nilObject) ∧
  GuestbookList_DeepCopyObject h (mkPtr None) = Some (h, nilObject).
Proof using Type. done. Qed.

(** DeepCopy of the addon types. *)
Lemma PatchSpec_DeepCopy_isolated h a v `{!StorableLaws cell (PatchSpec RawExtension)} :
  deep_read h (mkPtr (Some a) : ptr (PatchSpec RawExtension)) = Some v →
  ∃ h' q, PatchSpec_DeepCopy h (mkPtr (Some a)) = Some (h', mkPtr (Some q)) ∧ h ⊆ h' ∧ h !! q = None ∧
    isolated h' (mkPtr (Some a) : ptr (PatchSpec RawExtension)) (mkPtr (Some q)) v.
Proof using Type*. apply deep_copy_isolated, PatchSpec_into_ok. Qed.

(** Setting the common status keeps everything else, and what was set is read back. *)
Lemma SimpleTest_status_accessors (o : SimpleTest TypeMeta ObjectMeta Condition RawExtension) s :
  SimpleTest_GetCommonStatus (SimpleTest_SetCommonStatus o s) = s ∧
  SimpleTest_CommonSpec (SimpleTest_SetCommonStatus o s) = SimpleTest_CommonSpec o ∧
  SimpleTest_PatchSpec (SimpleTest_SetCommonStatus o s) = SimpleTest_PatchSpec o ∧
  st_ObjectMeta (SimpleTest_SetCommonStatus o s) = st_ObjectMeta o ∧
  st_StatusConditions (st_Status (SimpleTest_SetCommonStatus o s)) = st_StatusConditions (st_Status o).
Proof. done. Qed.

End deepcopy.
End deepcopy.

(** ** deepCopyEnvtestEnvironment (pkg/test/golden/validator.go) *)

Module envtestcopy.
Import heap.

Section envtest.
Context {cell : Type} `{!Allocator cell}.
Context {Rest CRD CRDV : Type} `{!Deep cell CRD CRDV, !DeepCopyable cell CRD CRDV}.
Context `{!Storable cell CRD, !Storable cell (list (ptr CRD)), !Zero CRD}.
Implicit Types h : gmap loc cell.

(** An environment: the CRDs to install, and the other fields, which are assigned. *)
Record Environment := mkEnvironment { env_rest : Rest; env_CRDs : slice (ptr CRD) }.

(** [append], into a new array each time: the capacity Go may use instead is that of
    an array only this slice has. *)
Definition append h (s : slice (ptr CRD)) (x : ptr CRD) : option (gmap loc cell * slice (ptr CRD)) :=
  l ← match header s with None => Some [] | Some w => elements_of h w end;
  let '(h, a) := alloc h (l ++ [x]) in
  Some (h, mkSlice (Some (mkWindow a 0 (Datatypes.S (length l)) (Datatypes.S (length l))))).

Fixpoint appendCopies h (out : slice (ptr CRD)) (crds : list (ptr CRD)) : option (gmap loc cell * slice (ptr CRD)) :=
  match crds with
  | [] => Some (h, out)
  | crd :: crds =>
      '(h, c) ← deep_copy deep_copy_into h crd;
      '(h, out) ← append h out c;
      appendCopies h out crds
  end.

Definition deepCopyEnvtestEnvironment h (in_ : Environment) : option (gmap loc cell * Environment) :=
  let out := mkEnvironment (env_rest in_) (mkSlice None) in
  crds ← match header (env_CRDs in_) with None => Some [] | Some w => elements_of h w end;
  '(h, crds) ← appendCopies h (env_CRDs out) crds;
  Some (h, mkEnvironment (env_rest out) crds).

Context `{!AllocatorLaws cell, !DeepLaws cell CRD CRDV, !DeepCopyLaws cell CRD CRDV}.
Context `{!StorableLaws cell CRD, !StorableLaws cell (list (ptr CRD))}.

(** A slice appended to is nil until something is. *)
Definition appended (vs : list (option CRDV)) : option (list (option CRDV)) :=
  match vs with [] => None | _ => Some vs end.

Lemma slice_read_Some h w (l : list (ptr CRD)) vs :
  elements_of h w = Some l → mapM (deep_read h) l = Some vs → deep_read h (mkSlice (Some w) : slice (ptr CRD)) = Some (Some vs).
Proof. intros El Hl; change (deep_read h (mkSlice (Some w))) with (l ← elements_of h w; vs ← mapM (deep_read h) l; Some (Some vs)).
  rewrite El; cbn [mbind option_bind]; by rewrite Hl. Qed.
Lemma slice_reach_Some h w (l : list (ptr CRD)) :
  elements_of h w = Some l → deep_reach h (mkSlice (Some w) : slice (ptr CRD)) = {[ w_array w ]} ∪ ⋃ (deep_reach h <$> l).
Proof. intros El; change (deep_reach h (mkSlice (Some w))) with ({[ w_array w ]} ∪ ⋃ (deep_reach h <$> default [] (elements_of h w))).
  by rewrite El. Qed.

Lemma append_spec h0 h s x vs v :
  h0 ⊆ h → deep_read h s = Some (appended vs) → deep_reach h s ## dom h0 →
  deep_read h x = Some v → deep_reach h x ## dom h0 →
  ∃ h' s', append h s x = Some (h', s') ∧ h ⊆ h' ∧ deep_read h' s' = Some (appended (vs ++ [v])) ∧ deep_reach h' s' ## dom h0.
Proof using Type*.
  intros Hs Hrs Hds Hx Hdx.
  assert (∃ l, match header s with None => Some [] | Some w => elements_of h w end = Some l
    ∧ mapM (deep_read h) l = Some vs ∧ ⋃ (deep_reach h <$> l) ## dom h0) as (l & El & Hl & Hdl).
  { destruct s as [[w|]]; cbn in *.
    - apply bind_Some in Hrs as (l & El & (vs' & Hvs & Hv')%bind_Some); exists l; rewrite El in *; cbn in Hds.
      split; [done|]; destruct vs; cbn in Hv'; simplify_eq; split; [done|]; set_solver.
    - destruct vs; [|done]; exists []; split; [done|]; split; [done|]; cbn; set_solver. }
  unfold append; rewrite El; cbn [mbind option_bind]; destruct (alloc h (l ++ [x])) as [h' a] eqn:Ea.
  destruct (alloc_spec h _ h' a Ea) as (Hsub & Ha & Hload).
  eexists _, _; split; [reflexivity|]; split; [exact Hsub|].
  assert (mapM (deep_read h) (l ++ [x]) = Some (vs ++ [v])) as Hm.
  { apply mapM_Some, Forall2_app; [by apply mapM_Some|]; by repeat constructor. }
  destruct (mapM_local h h' (l ++ [x]) _ Hm) as [Hm' Hr'].
  { eapply weaken_local; [done|]; by eapply mapM_reach_dom. }
  assert (elements_of h' (mkWindow a 0 (Datatypes.S (length l)) (Datatypes.S (length l))) = Some (l ++ [x])) as He
    by (apply elements_of_full; [done|rewrite length_app; cbn; lia]).
  rewrite (slice_read_Some _ _ _ _ He Hm'), (slice_reach_Some _ _ _ He), Hr', fmap_app, union_list_app_L.
  split; [by destruct vs|]; cbn [w_array fmap list_fmap union_list foldr].
  apply not_elem_of_dom in Ha; apply subseteq_dom in Hs; set_solver.
Qed.

Lemma crd_copied h p v : deep_read h (p : ptr CRD) = Some v →
  ∃ h' p', deep_copy deep_copy_into h p = Some (h', p') ∧ copied h p h' p'.
Proof using Type*.
  destruct p as [[a|]]; intros Hv.
  - destruct (deep_copied_ptr deep_copy_into h a v deep_copied Hv) as (h' & q & E & C); eauto.
  - exists h, (mkPtr None); split; [done|]; by apply copied_flat.
Qed.

Lemma appendCopies_spec h0 crds vs' : mapM (deep_read h0) crds = Some vs' →
  ∀ h out vs, h0 ⊆ h → deep_read h out = Some (appended vs) → deep_reach h out ## dom h0 →
  ∃ h' out', appendCopies h out crds = Some (h', out') ∧ h0 ⊆ h'
    ∧ deep_read h' out' = Some (appended (vs ++ vs')) ∧ deep_reach h' out' ## dom h0.
Proof using Type*.
  intros Hvs'%mapM_Some; induction Hvs' as [|crd v crds vs1 Hv Hvs1 IH]; intros h out vs Hs Hr Hd.
  { rewrite app_nil_r; by exists h, out. }
  destruct (read_weaken h0 h crd v Hv Hs) as [Hvh _].
  destruct (crd_copied h crd v Hvh) as (h1 & c & Ec & Hs1 & Hr1 & Hd1); rewrite Hvh in Hr1.
  destruct (read_weaken h h1 out _ Hr Hs1) as [Hro Hreo].
  destruct (append_spec h0 h1 out c vs v) as (h2 & out2 & Ea & Hs2 & Hr2 & Hd2);
    [by etrans|done|by rewrite Hreo|done|apply subseteq_dom in Hs; set_solver|].
  destruct (IH h2 out2 (vs ++ [v])) as (h3 & out3 & E3 & Hs3 & Hr3 & Hd3); [by do 2 (etrans; [done|])|done|done|].
  exists h3, out3; rewrite <- app_assoc in Hr3; split; [|done].
  cbn [appendCopies]; rewrite Ec; cbn; rewrite Ea; exact E3.
Qed.

(** The copy of an environment has the CRDs of the original, none of which it shares,
    so that what envtest writes to its CRDs does not reach the options of the next
    test; an empty list becomes nil. The other fields are shared. *)
Theorem deepCopyEnvtestEnvironment_isolated h in_ vs :
  deep_read h (env_CRDs in_) = Some vs →
  ∃ h' out, deepCopyEnvtestEnvironment h in_ = Some (h', out) ∧ h ⊆ h' ∧ env_rest out = env_rest in_
    ∧ deep_read h' (env_CRDs out) = Some (appended (default [] vs)) ∧ deep_reach h' (env_CRDs out) ## dom h.
Proof using Type*.
  intros Hv; unfold deepCopyEnvtestEnvironment.
  assert (∃ l, match header (env_CRDs in_) with None => Some [] | Some w => elements_of h w end = Some l
    ∧ mapM (deep_read h) l = Some (default [] vs)) as (l & El & Hl).
  { destruct (env_CRDs in_) as [[w|]]; cbn in *; [|injection Hv as <-; by exists []].
    apply bind_Some in Hv as (l & El & (vs' & Hvs & [= <-])%bind_Some); by exists l. }
  destruct (appendCopies_spec h l _ Hl h (mkSlice None) []) as (h' & out & E & Hs & Hr & Hd); [done|done|set_solver|].
  exists h', (mkEnvironment (env_rest in_) out); rewrite El; cbn; rewrite E; done.
Qed.
End envtest.
End envtestcopy.

(** ** A heap with a list in it *)

Module deepcopy_example.
Import heap deepcopy.

(** Metadata with a map of labels behind a pointer, and extensions with bytes. *)
Abbreviation labels := (list (string * string)).
Abbreviation RawExt := (slice string).
Abbreviation Test := (SimpleTest string (ptr labels) string RawExt).
Abbreviation TestList := (SimpleTestList string (ptr labels) string string RawExt).
Abbreviation Book := (Guestbook string (ptr labels) RawExt).
Abbreviation BookList := (GuestbookList string (ptr labels) string RawExt).

Inductive cell :=
  | CLabels (x : labels) | CStrings (x : list string) | CPatches (x : list (ptr RawExt)) | CRaw (x : RawExt)
  | CCommonStatus (x : CommonStatus) | CConditions (x : StatusConditions string) | CPatchSpec (x : PatchSpec RawExt)
  | CTestSpec (x : SimpleTestSpec RawExt) | CTestStatus (x : SimpleTestStatus string)
  | CTest (x : Test) | CTests (x : list Test) | CTestList (x : TestList)
  | CBookSpec (x : GuestbookSpec RawExt) | CBookStatus (x : GuestbookStatus)
  | CBook (x : Book) | CBooks (x : list Book) | CBookList (x : BookList).

#[local] Instance CLabels_storable : Storable cell labels := {| inj := CLabels; proj c := match c with CLabels x => Some x | _ => None end |}.
#[local] Instance CLabels_laws : StorableLaws cell labels. Proof. done. Qed.
#[local] Instance CStrings_storable : Storable cell (list string) := {| inj := CStrings; proj c := match c with CStrings x => Some x | _ => None end |}.
#[local] Instance CStrings_laws : StorableLaws cell (list string). Proof. done. Qed.
#[local] Instance CPatches_storable : Storable cell (list (ptr RawExt)) := {| inj := CPatches; proj c := match c with CPatches x => Some x | _ => None end |}.
#[local] Instance CPatches_laws : StorableLaws cell (list (ptr RawExt)). Proof. done. Qed.
#[local] Instance CRaw_storable : Storable cell RawExt := {| inj := CRaw; proj c := match c with CRaw x => Some x | _ => None end |}.
#[local] Instance CRaw_laws : StorableLaws cell RawExt. Proof. done. Qed.
#[local] Instance CCommonStatus_storable : Storable cell CommonStatus := {| inj := CCommonStatus; proj c := match c with CCommonStatus x => Some x | _ => None end |}.
#[local] Instance CConditions_storable : Storable cell (StatusConditions string) := {| inj := CConditions; proj c := match c with CConditions x => Some x | _ => None end |}.
#[local] Instance CPatchSpec_storable : Storable cell (PatchSpec RawExt) := {| inj := CPatchSpec; proj c := match c with CPatchSpec x => Some x | _ => None end |}.
#[local] Instance CTestSpec_storable : Storable cell (SimpleTestSpec RawExt) := {| inj := CTestSpec; proj c := match c with CTestSpec x => Some x | _ => None end |}.
#[local] Instance CTestStatus_storable : Storable cell (SimpleTestStatus string) := {| inj := CTestStatus; proj c := match c with CTestStatus x => Some x | _ => None end |}.
#[local] Instance CTest_storable : Storable cell Test := {| inj := CTest; proj c := match c with CTest x => Some x | _ => None end |}.
#[local] Instance CTest_laws : StorableLaws cell Test. Proof. done. Qed.
#[local] Instance CTests_storable : Storable cell (list Test) := {| inj := CTests; proj c := match c with CTests x => Some x | _ => None end |}.
#[local] Instance CTests_laws : StorableLaws cell (list Test). Proof. done. Qed.
#[local] Instance CTestList_storable : Storable cell TestList := {| inj := CTestList; proj c := match c with CTestList x => Some x | _ => None end |}.
#[local] Instance CTestList_laws : StorableLaws cell TestList. Proof. done. Qed.
#[local] Instance CBookSpec_storable : Storable cell (GuestbookSpec RawExt) := {| inj := CBookSpec; proj c := match c with CBookSpec x => Some x | _ => None end |}.
#[local] Instance CBookStatus_storable : Storable cell GuestbookStatus := {| inj := CBookStatus; proj c := match c with CBookStatus x => Some x | _ => None end |}.
#[local] Instance CBook_storable : Storable cell Book := {| inj := CBook; proj c := match c with CBook x => Some x | _ => None end |}.
#[local] Instance CBook_laws : StorableLaws cell Book. Proof. done. Qed.
#[local] Instance CBooks_storable : Storable cell (list Book) := {| inj := CBooks; proj c := match c with CBooks x => Some x | _ => None end |}.
#[local] Instance CBooks_laws : StorableLaws cell (list Book). Proof. done. Qed.
#[local] Instance CBookList_storable : Storable cell BookList := {| inj := CBookList; proj c := match c with CBookList x => Some x | _ => None end |}.
#[local] Instance CBookList_laws : StorableLaws cell BookList. Proof. done. Qed.

#[local] Instance cell_alloc : Allocator cell := λ h, fresh (dom h).
#[local] Instance cell_alloc_laws : AllocatorLaws cell.
Proof. intros h; apply not_elem_of_dom; unfold next_loc, cell_alloc; apply is_fresh. Qed.

#[local] Instance labels_deep : Deep cell labels labels := flat_deep labels.
#[local] Instance labels_laws : DeepLaws cell labels labels := flat_laws labels.
#[local] Instance labels_zero : Zero labels := [].
#[local] Instance str_zero : Zero string := "".
#[local] Instance raw_zero : Zero RawExt := mkSlice None.

#[local] Instance meta_copy : DeepCopyable cell (ptr labels) (option labels) := deep_copy into_flat.
#[local] Instance meta_copy_laws : DeepCopyLaws cell (ptr labels) (option labels).
Proof.
  intros h [[a|]] v Hv.
  - destruct (deep_copied_ptr into_flat h a v into_flat_ok Hv) as (h' & q & E & C); eauto.
  - exists h, (mkPtr None); split; [done |]; by apply copied_flat.
Qed.
#[local] Instance string_copy : DeepCopyable cell string string := into_flat.
#[local] Instance string_copy_laws : DeepCopyLaws cell string string.
Proof. exact into_flat_ok. Qed.
#[local] Instance raw_copy : DeepCopyable cell RawExt (option (list string)) := slice_copy_flat.
#[local] Instance raw_copy_laws : DeepCopyLaws cell RawExt (option (list string)).
Proof. intros h s v Hv; by eapply slice_flat_copied. Qed.

(** Two objects: one with labels, a patch, a nil patch, errors and a condition; one
    with nothing. *)
Definition test1 : Test :=
  mkSimpleTest "SimpleTest" (mkPtr (Some 2%positive))
    (mkSimpleTestSpec (mkCommonSpec "" "stable") (mkPatchSpec (mkSlice (Some (mkWindow 3 0 2 2)))))
    (mkSimpleTestStatus (mkCommonStatus false (mkSlice (Some (mkWindow 4 1 1 1))) "Pending" 2)
       (mkStatusConditions (mkSlice (Some (mkWindow 5 0 1 1))))).
Definition test2 : Test :=
  mkSimpleTest "SimpleTest" (mkPtr None) (mkSimpleTestSpec (mkCommonSpec "" "") (mkPatchSpec (mkSlice None)))
    (mkSimpleTestStatus (mkCommonStatus true (mkSlice None) "" 0) (mkStatusConditions (mkSlice None))).

Definition heap1 : gmap loc cell :=
  list_to_map [(1%positive, CTestList (mkSimpleTestList "List" "rv" (mkSlice (Some (mkWindow 6 0 2 2)))));
               (2%positive, CLabels [("app", "test")]);
               (3%positive, CPatches [mkPtr (Some 7%positive); mkPtr None]);
               (4%positive, CStrings ["old"; "failed"]);
               (5%positive, CStrings ["Ready"]);
               (6%positive, CTests [test1; test2]);
               (7%positive, CRaw (mkSlice (Some (mkWindow 8 0 1 1))));
               (8%positive, CStrings ["{}"])].

Lemma SimpleTestList_DeepCopyObject_isolated_witness : ∃ h' q v,
  SimpleTestList_DeepCopyObject heap1 (mkPtr (Some 1%positive)) = Some (h', SimpleTestListObject (mkPtr (Some q))) ∧
  isolated h' (mkPtr (Some 1%positive) : ptr TestList) (mkPtr (Some q)) v.
Proof.
  destruct (deep_read heap1 (mkPtr (Some 1%positive) : ptr TestList)) as [v|] eqn:E; [|vm_compute in E; discriminate E].
  destruct (SimpleTestList_DeepCopyObject_isolated heap1 1%positive v E) as (h' & q & Hc & _ & _ & Hi).
  exists h', q, v; split; [exact Hc | exact Hi].
Defined.

End deepcopy_example.
