(* ===== verification/Operator.v ===== *)
(** * The guestbook operator and the shims around controller-runtime

    The example operator (examples/guestbook-operator: main.go and
    controllers/guestbook_controller.go), the part of WithReconcileMetrics that
    registers collectors and sets durations (options.go), the two builds of
    kustomize.Run, the shims of commonclient over the versions of
    controller-runtime, and the constructors of the REST mapper. What they call of
    controller-runtime, client-go, kustomize and Prometheus is a parameter. *)

From S2P Require Import Prelude Kube Manifest Transforms Addon RestMapper Metrics Reconciler Watch Loaders Validator.
From stdpp Require Import options.
Import manifest transforms addon reconciler.

(** ** WithReconcileMetrics (options.go, metrics.go) *)

Module metricsoption.

Definition Declarative : string := "declarative_reconciler".
Definition ReconcileCount : string := "reconcile_count".
Definition ReconcileFailure : string := "reconcile_failure_count".
Definition ManagedObjectsRecord : string := "managed_objects_record".

(** The vectors of the package: a subsystem, a name, and the names of the labels. *)
Record collector := mkCollector { c_Subsystem : string; c_Name : string; c_labels : list string }.
#[export] Instance collector_eq_dec : EqDecision collector.
Proof. solve_decision. Defined.

Definition objectLabels : list string := ["group_version_kind"; "namespace"; "name"].
Definition reconcileCount : collector := mkCollector Declarative ReconcileCount objectLabels.
Definition reconcileFailure : collector := mkCollector Declarative ReconcileFailure objectLabels.
Definition managedObjectsRecord : collector := mkCollector Declarative ManagedObjectsRecord objectLabels.
Definition metricsList : list collector := [reconcileCount; reconcileFailure; managedObjectsRecord].

Section registration.
Context {R : Type} (Register : collector → R → R * option error).

(** The package's variables, and the trackers of the callers by an index. *)
Record globals := mkGlobals {
  metricsRegisterOnce : bool;
  Registry : R;
  globalObjectTracker : metrics.ObjectTracker;
  otherTrackers : gmap nat metrics.ObjectTracker
}.

(** The loop over metricsList, which stops at the first error. *)
Fixpoint registerAll (l : list collector) (r : R) : R * option error :=
  match l with
  | [] => (r, None)
  | m :: l =>
      match Register m r with
      | (r, Some e) => (r, Some e)
      | (r, None) => registerAll l r
      end
  end.

Inductive applied := Applied (g : globals) | PanicWith (e : error) (g : globals).

Definition setOn (metricsDuration : Z) (ot : option nat) (g : globals) : globals :=
  match ot with
  | None =>
      mkGlobals (metricsRegisterOnce g) (Registry g)
        (metrics.setMetricsDurationInternal metricsDuration (globalObjectTracker g)) (otherTrackers g)
  | Some i =>
      mkGlobals (metricsRegisterOnce g) (Registry g) (globalObjectTracker g)
        (alter (metrics.setMetricsDurationInternal metricsDuration) i (otherTrackers g))
  end.

(** What the option does to the package when it is applied; what it does to the
    parameters is [reconciler.WithReconcileMetrics]. The error is a variable of the
    closure, nil where the once does not run. *)
Definition WithReconcileMetrics_Do (metricsDuration : Z) (ot : option nat) (g : globals) : applied :=
  let '(g, err) :=
    if metricsRegisterOnce g then (g, None)
    else
      let '(r, err) := registerAll metricsList (Registry g) in
      (mkGlobals true r (globalObjectTracker g) (otherTrackers g), err) in
  match err with
  | Some e => PanicWith e g
  | None => Applied (setOn metricsDuration ot g)
  end.

(** Options applied one after the other. *)
Fixpoint applyAll (calls : list (Z * option nat)) (g : globals) : applied :=
  match calls with
  | [] => Applied g
  | (d, ot) :: calls =>
      match WithReconcileMetrics_Do d ot g with Applied g => applyAll calls g | p => p end
  end.

(** GetMetricsDuration and SetMetricsDuration of the package. *)
Definition pkg_GetMetricsDuration (g : globals) : Z := metrics.GetMetricsDuration (globalObjectTracker g).
Definition pkg_SetMetricsDuration (d : Z) (g : globals) : globals :=
  mkGlobals (metricsRegisterOnce g) (Registry g) (metrics.SetMetricsDuration d (globalObjectTracker g)) (otherTrackers g).

(** The duration of a tracker. *)
Definition durationOf (ot : option nat) (g : globals) : option Z :=
  match ot with
  | None => Some (pkg_GetMetricsDuration g)
  | Some i => metrics.GetMetricsDuration <$> otherTrackers g !! i
  end.

(** The durations of the calls for one tracker. *)
Definition callsFor (ot : option nat) (calls : list (Z * option nat)) : list Z :=
  omap (λ c, if decide (c.2 = ot) then Some c.1 else None) calls.

(** A tracker keeps the largest of the positive durations. *)
Definition raise (x d : Z) : Z := if decide (0 < d)%Z then Z.max x d else x.

Lemma setDuration_raise d ot :
  metrics.GetMetricsDuration (metrics.setMetricsDurationInternal d ot) = raise (metrics.GetMetricsDuration ot) d.
Proof using.
  unfold metrics.setMetricsDurationInternal, metrics.GetMetricsDuration, raise; repeat case_decide; cbn; lia.
Qed.

Lemma raise_max x d : (0 ≤ x)%Z → raise x d = Z.max x d.
Proof using. intros Hx; unfold raise; case_decide; lia. Qed.

Lemma foldl_raise_max x ds : (0 ≤ x)%Z → foldl raise x ds = foldl Z.max x ds.
Proof using. revert x; induction ds as [|d ds IH]; intros x Hx; cbn; [done|]; rewrite raise_max by done; apply IH; lia. Qed.

Lemma setOn_duration d ot ot' g :
  durationOf ot' (setOn d ot g) = if decide (ot = ot') then (λ x, raise x d) <$> durationOf ot' g else durationOf ot' g.
Proof using.
  destruct ot as [i|], ot' as [j|]; cbn; try (rewrite decide_False by done; done).
  - destruct (decide (i = j)) as [->|Hne].
    + rewrite decide_True by done; rewrite lookup_alter_eq; destruct (otherTrackers g !! j); cbn; [|done].
      f_equal; apply setDuration_raise.
    + rewrite decide_False by congruence; by rewrite lookup_alter_ne.
  - unfold pkg_GetMetricsDuration; cbn; f_equal; apply setDuration_raise.
Qed.

(** What a registry does: it takes a collector under a name it has none for, and
    refuses one it has. (Of a second collector of a name it has, with other
    labels, nothing is said: Prometheus refuses it as inconsistent.) *)
Definition fqName (m : collector) : string := c_Subsystem m +:+ "_" +:+ c_Name m.
Record registry_ok (has : R → collector → Prop) : Prop := {
  register_new m r : (∀ m', has r m' → fqName m' ≠ fqName m) → ∃ r', Register m r = (r', None) ∧ has r' m ∧ ∀ m', m' ≠ m → has r' m' ↔ has r m';
  register_again m r : has r m → ∃ e, Register m r = (r, Some e)
}.

Lemma registerAll_new has l r :
  registry_ok has → NoDup (fqName <$> l) → (∀ m m', m ∈ l → has r m' → fqName m' ≠ fqName m) →
  ∃ r', registerAll l r = (r', None) ∧ ∀ m, has r' m ↔ has r m ∨ m ∈ l.
Proof using.
  intros HR; revert r; induction l as [|m l IH]; intros r Hnd Hno; cbn [registerAll].
  { exists r; split; [done|]; set_solver. }
  rewrite fmap_cons in Hnd; apply list.NoDup_cons in Hnd as [Hm Hnd].
  destruct (register_new has HR m r) as (r1 & -> & Hhas & Hother); [intros m'; apply Hno; set_solver|].
  destruct (IH r1) as (r2 & -> & Hr2); [done| |].
  { intros m1 m' Hm1 Hh; destruct (decide (m' = m)) as [->|Hne].
    - intros E; apply Hm; rewrite E; by apply list_elem_of_fmap_2.
    - apply Hno; [set_solver|]; by apply Hother. }
  exists r2; split; [done|]; intros m'; rewrite Hr2, elem_of_cons.
  destruct (decide (m' = m)) as [->|Hne]; [naive_solver|]; rewrite Hother by done; naive_solver.
Qed.

(** Once registered, applying the option only sets durations. *)
Lemma applyAll_once calls g :
  metricsRegisterOnce g = true →
  ∃ g', applyAll calls g = Applied g' ∧ Registry g' = Registry g ∧ metricsRegisterOnce g' = true
    ∧ ∀ ot, durationOf ot g' = (λ x, foldl raise x (callsFor ot calls)) <$> durationOf ot g.
Proof using.
  revert g; induction calls as [|[d ot] calls IH]; intros g Hg; cbn [applyAll].
  { exists g; split; [done|]; split; [done|]; split; [done|]; intros ot; cbn; by rewrite option_fmap_id. }
  unfold WithReconcileMetrics_Do; rewrite Hg.
  destruct (IH (setOn d ot g)) as (g' & -> & Hr & Ho & Hd); [by destruct ot|].
  exists g'; split; [done|]; split; [rewrite Hr; by destruct ot|]; split; [done|]; intros ot'.
  rewrite Hd, setOn_duration; unfold callsFor; cbn [omap list_omap fst snd].
  case_decide; [|done]; by rewrite <- option_fmap_compose.
Qed.

(** C32. WithReconcileMetrics applied any number of times in a process, by any
    number of reconcilers: the three collectors are registered once, the first time,
    so that no call panics on a registry that had no collectors of their names, and
    nothing else of the registry changes; each tracker, the package's or a caller's,
    is left with the largest duration it was given. *)
Theorem metrics_options has calls g :
  registry_ok has → metricsRegisterOnce g = false →
  (∀ m m', m ∈ metricsList → has (Registry g) m' → fqName m' ≠ fqName m) →
  ∃ g', applyAll calls g = Applied g'
    ∧ (∀ m, has (Registry g') m ↔ has (Registry g) m ∨ (calls ≠ [] ∧ m ∈ metricsList))
    ∧ ∀ ot d, durationOf ot g = Some d → (0 ≤ d)%Z → durationOf ot g' = Some (foldl Z.max d (callsFor ot calls)).
Proof using.
  intros HR Hg Hno; destruct calls as [|[d ot] calls].
  { exists g; split; [done|]; split; [naive_solver|]; by intros ot d -> _. }
  cbn [applyAll]; unfold WithReconcileMetrics_Do; rewrite Hg.
  destruct (registerAll_new has metricsList (Registry g) HR) as (r' & -> & Hr'); [by apply (bool_decide_unpack (NoDup (fqName <$> metricsList)))|done|].
  set (g1 := mkGlobals true r' _ _).
  destruct (applyAll_once calls (setOn d ot g1)) as (g' & -> & Hr & _ & Hd); [by destruct ot|].
  exists g'; split; [done|]; split.
  { intros m; rewrite Hr; destruct ot; cbn; rewrite Hr'; naive_solver. }
  intros ot' x Hx Hx0; rewrite Hd, setOn_duration.
  assert (durationOf ot' g1 = Some x) as -> by (rewrite <- Hx; by destruct ot').
  unfold callsFor; cbn [omap list_omap fst snd]; case_decide; cbn; f_equal;
    rewrite ?raise_max by done; apply foldl_raise_max; lia.
Qed.

(** A registration that fails panics the first time only: the next application finds
    the once done and says nothing, with the collectors still missing. *)
Lemma metrics_panic_once d d' ot ot' e r g :
  metricsRegisterOnce g = false → registerAll metricsList (Registry g) = (r, Some e) →
  ∃ g1, WithReconcileMetrics_Do d ot g = PanicWith e g1
    ∧ ∃ g2, WithReconcileMetrics_Do d' ot' g1 = Applied g2 ∧ Registry g2 = r.
Proof using.
  intros Hg Hr; unfold WithReconcileMetrics_Do; rewrite Hg, Hr; eexists; split; [done|].
  eexists; split; [done|]; by destruct ot'.
Qed.

End registration.

(** A registry that keeps a list. *)
Definition example_Register (m : collector) (r : list collector) : list collector * option error :=
  if decide (m ∈ r) then (r, Some (Errorf "duplicate metrics collector registration attempted")) else (m :: r, None).

Lemma example_registry_ok : registry_ok example_Register (λ r m, m ∈ r).
Proof.
  split; intros m r Hm; unfold example_Register.
  - rewrite decide_False by (intros Hin; by apply (Hm m)); eexists; split; [done|]; set_solver.
  - rewrite decide_True by done; by eexists.
Qed.

Lemma metrics_options_witness :
  ∃ g', applyAll example_Register [(5, None); (3, None); (7, Some 0%nat)]
          (mkGlobals false [] metrics.NewObjectTracker {[0%nat := metrics.NewObjectTracker]}) = Applied g'
    ∧ durationOf None g' = Some 5%Z ∧ durationOf (Some 0%nat) g' = Some 7%Z.
Proof.
  destruct (metrics_options example_Register (λ r m, m ∈ r) [(5, None); (3, None); (7, Some 0%nat)]
    (mkGlobals false [] metrics.NewObjectTracker {[0%nat := metrics.NewObjectTracker]}) example_registry_ok eq_refl)
    as (g' & E & _ & Hd); [intros m m' _ Hin; by apply not_elem_of_nil in Hin|].
  exists g'; split; [exact E|]; split.
  - apply (Hd None 0%Z); [reflexivity|lia].
  - apply (Hd (Some 0%nat) 0%Z); [reflexivity|lia].
Defined.

End metricsoption.

(** ** kustomize.Run (kustomize/enabled.go, disabled.go) *)

Module kustomizerun.

(** The kustomizer: a run over a file system gives resources, which have a YAML
    text. *)
Class Krusty (FS Res : Type) := {
  kustomizer_Run : FS → string → res Res;
  AsYaml : Res → res string
}.

Definition Run_enabled {FS Res} `{Krusty FS Res} (fs : FS) (manifestPath : string) : res string :=
  m ← wrapV "error running kustomize" (kustomizer_Run fs manifestPath);
  wrapV "error converting kustomize output to yaml" (AsYaml m).

Definition Run_disabled {FS} (fs : FS) (manifestPath : string) : res string :=
  Err (Errorf "kustomize support is not compiled in (built with tag `without_kustomize`)").

(** The build without kustomize never answers a manifest. *)
Lemma Run_disabled_fails {FS} (fs : FS) p : is_Ok (Run_disabled fs p) = false.
Proof. done. Qed.
End kustomizerun.

(** ** commonclient *)

Module commonclient.

(** The fields of ctrl.Options the operator sets; [MetricsBindAddress] is a field of
    the options up to controller-runtime 0.15, and of options.Metrics later. *)
Record ctrlOptions := mkCtrlOptions {
  opt_Scheme : string;
  opt_HealthProbeBindAddress : string;
  opt_LeaderElection : bool;
  opt_LeaderElectionID : string;
  opt_MetricsBindAddress : string
}.

Definition with_metrics (o : ctrlOptions) (bindAddress : string) : ctrlOptions :=
  mkCtrlOptions (opt_Scheme o) (opt_HealthProbeBindAddress o) (opt_LeaderElection o) (opt_LeaderElectionID o) bindAddress.

(** The options through a pointer, which may be nil; the same text for both
    versions. *)
Definition SetMetricsBindAddress (options : option ctrlOptions) (bindAddress : string) : option ctrlOptions * option error :=
  match options with
  | None => (None, Some (Errorf "unable to set metrics bind address on non-existent manager options"))
  | Some o => (Some (with_metrics o bindAddress), None)
  end.
Definition SetMetricsBindAddress_cr16 := SetMetricsBindAddress.

Section factory.
Context {Cluster Cfg HC Ctx CEv UEv DEv GEv Q : Type}.

Definition GetHTTPClient_cr11 (HTTPClientFor : Cfg → res HC) (GetConfig : Cluster → Cfg) (c : Cluster) : res HC :=
  HTTPClientFor (GetConfig c).
Definition GetHTTPClient_cr15 (GetHTTPClient : Cluster → HC) (c : Cluster) : res HC := Ok (GetHTTPClient c).

(** The handlers of a watch, which act on the queue. *)
Record EventHandler := mkEventHandler {
  eh_Create : Ctx → CEv → Q → Q;
  eh_Update : Ctx → UEv → Q → Q;
  eh_Delete : Ctx → DEv → Q → Q;
  eh_Generic : Ctx → GEv → Q → Q
}.

(** The interface of controller-runtime before 0.15 has no context. *)
Record handlerWithoutContext := mkHandlerWithoutContext {
  hc_Create : CEv → Q → Q;
  hc_Update : UEv → Q → Q;
  hc_Delete : DEv → Q → Q;
  hc_Generic : GEv → Q → Q
}.

(** context.TODO() is [TODO]. *)
Definition WrapEventHandler (TODO : Ctx) (h : EventHandler) : handlerWithoutContext :=
  mkHandlerWithoutContext (eh_Create h TODO) (eh_Update h TODO) (eh_Delete h TODO) (eh_Generic h TODO).
End factory.

(** REST mappers. *)
Definition NewDynamicRESTMapper_cr11 {Cfg HC M} (apiutil_New : Cfg → res M) (c : Cfg) (httpClient : HC) : res M := apiutil_New c.
Definition NewDynamicRESTMapper_cr15 {Cfg HC M} (apiutil_New : Cfg → HC → res M) (c : Cfg) (httpClient : HC) : res M :=
  apiutil_New c httpClient.
Definition NewDiscoveryRESTMapper_cr15 {Cfg HC M} (apiutil_New : Cfg → HC → res M) (c : Cfg) (httpClient : HC) : res M :=
  NewDynamicRESTMapper_cr15 apiutil_New c httpClient.
End commonclient.

(** ** The constructors of the REST mapper (pkg/restmapper) *)

Module restmappers.

Section constructors.
Context {Cfg HC D : Type} (HTTPClientFor : Cfg → res HC) (NewDiscoveryClientForConfigAndClient : Cfg → HC → res D).

Record ControllerRESTMapper := mkControllerRESTMapper { uncached : D; mapper_cache : restmapper.cache }.

Definition NewControllerRESTMapper_cr11 (restConfig : Cfg) : res ControllerRESTMapper :=
  httpClient ← wrapW "error from HTTPClientFor" (HTTPClientFor restConfig);
  discoveryClient ← NewDiscoveryClientForConfigAndClient restConfig httpClient;
  Ok (mkControllerRESTMapper discoveryClient restmapper.newCache).
Definition NewForTest_cr11 (cfg : Cfg) : res ControllerRESTMapper := NewControllerRESTMapper_cr11 cfg.

Definition NewControllerRESTMapper_cr15 (cfg : Cfg) (httpClient : HC) : res ControllerRESTMapper :=
  discoveryClient ← NewDiscoveryClientForConfigAndClient cfg httpClient;
  Ok (mkControllerRESTMapper discoveryClient restmapper.newCache).
Definition NewForTest_cr15 (restConfig : Cfg) : res ControllerRESTMapper :=
  client ← wrapW "error from rest.HTTPClientFor" (HTTPClientFor restConfig);
  NewControllerRESTMapper_cr15 restConfig client.

(** The mapper of the tests is the same with every version of controller-runtime:
    the versions differ only in the text of an error. *)
Lemma NewForTest_versions cfg m : NewForTest_cr11 cfg = Ok m ↔ NewForTest_cr15 cfg = Ok m.
Proof using.
  unfold NewForTest_cr11, NewForTest_cr15, NewControllerRESTMapper_cr11, NewControllerRESTMapper_cr15.
  by destruct (HTTPClientFor cfg).
Qed.
End constructors.
End restmappers.

(** ** The controller of the guestbook (controllers/guestbook_controller.go) *)

Module guestbook.
Import watch.

Section guestbook.
Context {C W Cfg HC Mgr RM DC : Type} {CO : CommonObject C} {U : Unstructured} {CV : Converter} {KS : Kstatus}.
Context (L : WatchLibs Cfg HC Mgr RM DC) (PL : patchLibs).

Abbreviation loader := (subject C → W → W * res (gmap string string)).

Definition labels : gmap string string := {["example-app" := "guestbook"]}.

(** r.watchLabels. *)
Definition watchLabels : LabelMaker (subject C) := SourceLabel.

Definition guestbookOptions : list (ReconcilerOption (subject C) W) :=
  [WithObjectTransform [AddLabels labels];
   WithOwner (Some SourceAsOwner);
   WithLabels (Some watchLabels);
   WithStatus (Some (of_builder NewBasic));
   WithApplyPrune;
   WithObjectTransform [ApplyPatches PL];
   WithApplyKustomize;
   WithReconcileMetrics].

Definition setupReconciler (httpClient dynamicClient : res ()) (prototype : C) defaultApplier
    (begin_ end_ : list (ReconcilerOption (subject C) W)) (defaultLoader : option (res loader)) :
    res (reconcilerParams (subject C) W * option metrics.reconcileMetrics) :=
  InitWithName httpClient dynamicClient (Common prototype) defaultApplier begin_ guestbookOptions end_ defaultLoader.

(** SetupWithManager: [NewController] and [WatchKind] are controller-runtime's. *)
Definition SetupWithManager (mgr : Mgr) (httpClient dynamicClient : res ()) (prototype : C) defaultApplier begin_ end_
    defaultLoader (NewController : string → res ()) (WatchKind : option error)
    (WatchChannel : dynamicWatch RM DC → option error) :
    res (reconcilerParams (subject C) W * option metrics.reconcileMetrics
         * (dynamicWatch RM DC * clusterWatch (subject C))) :=
  params ← setupReconciler httpClient dynamicClient prototype defaultApplier begin_ end_ defaultLoader;
  _ ← NewController "guestbook-controller";
  match WatchKind with
  | Some e => Err e
  | None =>
      w ← WatchChildren L (mkWatchChildrenOptions (Some mgr) None None (Some watchLabels) WatchChannel false);
      Ok (params, w)
  end.

(** The options that addon.Init leaves for every controller. *)
Definition beginOptions (g : loaders.Globals (res loader) (subject C)) : list (ReconcilerOption (subject C) W) :=
  (λ t, WithObjectTransform [t]) <$> loaders.Options_Begin g.

Definition afterInit channelLoader (privateRegistry imagePullSecret : string) : loaders.Globals (res loader) (subject C) :=
  loaders.Init channelLoader privateRegistry imagePullSecret (loaders.mkGlobals false None []).

(** The options applied, with a default loader. *)
Lemma applyOptions_loader a (b o e : list (ReconcilerOption (subject C) W)) (mc : loader) :
  let p := foldl (λ p opt, opt p) (defaultParams a) (b ++ o ++ e) in
  ∃ q, applyOptions a b o e (Some (Ok mc)) = Ok q
    ∧ manifestController q = Some (default mc (manifestController p))
    ∧ cascadingStrategy q = (if decide (cascadingStrategy p = "") then "Foreground" else cascadingStrategy p)
    ∧ objectTransformations q = objectTransformations p ∧ labelMaker q = labelMaker p ∧ ownerFn q = ownerFn p
    ∧ prune q = prune p ∧ kustomize q = kustomize p ∧ metrics q = metrics p.
Proof using.
  intros p; unfold applyOptions; fold p; clearbody p.
  destruct (manifestController p) as [mc'|] eqn:E; cbn [mbind res_bind]; eexists; (split; [reflexivity|]);
    cbn [WithManifestController cascadingStrategy]; destruct (decide (cascadingStrategy p = "")); cbn; by rewrite ?E.
Qed.

Lemma validateOptions_ok (q : reconcilerParams (subject C) W) :
  is_Some (manifestController q) → is_Some (labelMaker q) → validateOptions q = None.
Proof using.
  intros [mc Hm] [lm Hl]; unfold validateOptions; rewrite Hm, Hl; by rewrite andb_false_r.
Qed.

Lemma WatchChildren_manager mgr lm WatchChannel dc :
  NewForConfigAndClient L (GetConfig L mgr) (Some (GetHTTPClient L mgr)) = Ok dc → (∀ dw, WatchChannel dw = None) →
  ∃ dw cw, WatchChildren L (mkWatchChildrenOptions (Some mgr) None None (Some lm) WatchChannel false) = Ok (dw, cw)
    ∧ (cw_labelMaker cw : LabelMaker (subject C)) = lm.
Proof using.
  intros Hdc Hw; unfold WatchChildren, chooseHTTPClient.
  cbn [wo_LabelMaker wo_HTTPClient wo_Manager wo_RESTConfig controller_Watch mbind res_bind]; rewrite Hdc.
  cbn [mbind res_bind]; rewrite Hw; eexists _, _; by split.
Qed.

Lemma guestbook_fields a mc registry secret :
  let g := afterInit (Ok mc) registry secret in
  let p := foldl (λ p opt, opt p) (defaultParams a) (beginOptions g ++ guestbookOptions ++ []) in
  loaders.DefaultManifestLoader g = Some (Ok mc) ∧ manifestController p = None ∧ cascadingStrategy p = ""
  ∧ objectTransformations p = [loaders.registryTransform registry secret; AddLabels labels; ApplyPatches PL]
  ∧ labelMaker p = Some watchLabels ∧ ownerFn p = Some SourceAsOwner
  ∧ prune p = true ∧ kustomize p = true ∧ metrics p = true.
Proof using. split_and!; reflexivity. Qed.

Lemma InitWithName_ok prototype defaultApplier begin_ opts end_ defaultLoader q gvk :
  applyOptions defaultApplier begin_ opts end_ defaultLoader = Ok q → validateOptions q = None → metrics q = true →
  d_GVKForObject (prototype : subject C) = Ok gvk →
  InitWithName (W := W) (Ok ()) (Ok ()) prototype defaultApplier begin_ opts end_ defaultLoader
  = Ok (q, Some (metrics.reconcileMetricsFor gvk)).
Proof using.
  intros Hq Hv Hm Hgvk; unfold InitWithName; apply bind_Ok; exists (); split; [done|]; apply bind_Ok; exists (); split; [done|].
  apply bind_Ok; exists q; split; [done|]; rewrite Hv; unfold CollectMetrics; rewrite Hm, Hgvk; done.
Qed.

(** The setup of the operator after addon.Init, when the clients can be built: the
    objects are pruned, built by kustomize and counted; they get the registry
    transform first, then the label, then the patches of the guestbook; and the
    labels they are applied with are those the watch on the children selects. *)
Theorem guestbook_setup mgr prototype defaultApplier mc registry secret NewController WatchChannel gvk dc :
  d_GVKForObject (Common prototype : subject C) = Ok gvk → NewController "guestbook-controller" = Ok () →
  NewForConfigAndClient L (GetConfig L mgr) (Some (GetHTTPClient L mgr)) = Ok dc → (∀ dw, WatchChannel dw = None) →
  let g := afterInit (Ok mc) registry secret in
  ∃ params dw cw,
    SetupWithManager mgr (Ok ()) (Ok ()) prototype defaultApplier (beginOptions g) [] (loaders.DefaultManifestLoader g)
      NewController None WatchChannel = Ok (params, Some (metrics.reconcileMetricsFor gvk), (dw, cw))
    ∧ labelMaker params = Some (cw_labelMaker cw)
    ∧ objectTransformations params
      = [loaders.registryTransform registry secret; AddLabels labels; ApplyPatches PL]
    ∧ manifestController params = Some mc ∧ ownerFn params = Some SourceAsOwner
    ∧ prune params = true ∧ kustomize params = true ∧ metrics params = true
    ∧ cascadingStrategy params = "Foreground".
Proof using.
  intros Hgvk Hc Hdc Hw g.
  destruct (guestbook_fields defaultApplier mc registry secret) as (Fl & Fmc & Fcs & Fot & Flm & Fown & Fp & Fk & Fm).
  destruct (applyOptions_loader defaultApplier (beginOptions g) guestbookOptions [] mc)
    as (q & Hq & Hmc & Hcs & Hot & Hlm & Hown & Hp & Hk & Hm).
  fold g in Fl, Fmc, Fcs, Fot, Flm, Fown, Fp, Fk, Fm; clearbody g; revert Hmc Hcs Hot Hlm Hown Hp Hk Hm.
  rewrite Fmc, Fcs, Fot, Flm, Fown, Fp, Fk, Fm, decide_True by done; intros Hmc Hcs Hot Hlm Hown Hp Hk Hm.
  destruct (WatchChildren_manager mgr watchLabels WatchChannel dc Hdc Hw) as (dw & cw & HWC & Hcw).
  exists q, dw, cw; split; [|rewrite Hcw; by split_and!].
  apply bind_Ok; eexists; split.
  { apply InitWithName_ok; [by rewrite Fl|apply validateOptions_ok; [rewrite Hmc|rewrite Hlm]; by eexists|done|done]. }
  apply bind_Ok; eexists; split; [exact Hc|]; apply bind_Ok; eexists; split; [exact HWC|done].
Qed.

(** Without addon.Init, and without a loader of its own, the controller cannot be
    set up. *)
Lemma guestbook_needs_loader mgr hc dc prototype defaultApplier NewController WatchKind WatchChannel :
  is_Ok (SetupWithManager mgr hc dc prototype defaultApplier [] [] None NewController WatchKind WatchChannel) = false.
Proof using.
  unfold SetupWithManager, setupReconciler, InitWithName.
  destruct hc as [[]|]; [|done]; destruct dc as [[]|]; [|done]; done.
Qed.

End guestbook.
End guestbook.

(** ** main.go of the operator *)

Module guestbookmain.
Import commonclient.

(** What main does, in order; [ErrorLogged] and [InfoLogged] are setupLog.Error and
    setupLog.Info. [ConfigFatal] is the end of GetConfigOrDie when there is no
    configuration: controller-runtime logs the error, on a logger of its own, and
    exits. *)
Inductive mainStep :=
  | SetLogger
  | AddonInit
  | ConfigFatal (err : error)
  | ErrorLogged (err : error) (msg : string)
  | InfoLogged (msg : string)
  | NewManager (options : ctrlOptions)
  | SetupController
  | AddCheck (name : string)
  | Start.

(** How it ends: os.Exit(1), or by returning. *)
Definition run (A : Type) : Type := list mainStep * option A.

#[export] Instance run_ret : MRet run := λ _ a, ([], Some a).
#[export] Instance run_bind : MBind run := λ _ _ f m,
  match m with
  | (steps, None) => (steps, None)
  | (steps, Some a) => let '(steps', r) := f a in (steps ++ steps', r)
  end.

Definition say (s : mainStep) : run () := ([s], Some ()).
Definition exit1 {A} : run A := ([], None).

(** [if err != nil { setupLog.Error(err, msg); os.Exit(1) }]. *)
Definition orDie {A} (msg : string) (r : res A) : run A :=
  match r with
  | Ok a => mret a
  | Err err => say (ErrorLogged err msg);; exit1
  end.
Definition check (msg : string) (e : option error) : run () :=
  match e with None => mret () | Some err => say (ErrorLogged err msg);; exit1 end.
Definition GetConfigOrDie {A} (r : res A) : run A :=
  match r with
  | Ok a => mret a
  | Err err => say (ConfigFatal err);; exit1
  end.

Section main.
Context {Cfg Mgr X : Type}.

(** What main calls of controller-runtime, and the setup of the controller. *)
Record services := mkServices {
  GetConfig : res Cfg;
  ctrl_NewManager : Cfg → ctrlOptions → res Mgr;
  SetupWithManager : Mgr → res X;
  AddHealthzCheck : Mgr → string → option error;
  AddReadyzCheck : Mgr → string → option error;
  mgr_Start : Mgr → option error
}.

(** The flags, with their defaults. *)
Definition probeAddr (flag : option string) : string := default ":8081" flag.
Definition enableLeaderElection (flag : option bool) : bool := default false flag.

Definition managerOptions (scheme : string) (probe : option string) (leader : option bool) : ctrlOptions :=
  mkCtrlOptions scheme (probeAddr probe) (enableLeaderElection leader) "c3cffa1a.example.org" "".

Definition main (scheme : string) (probe : option string) (leader : option bool) (sv : services) : run () :=
  say SetLogger;;
  say AddonInit;;
  let '(mgrOpt, err) := SetMetricsBindAddress (Some (managerOptions scheme probe leader)) "0" in
  (match err with Some err => say (ErrorLogged err "unable to configure manager") | None => mret () end);;
  cfg ← GetConfigOrDie (GetConfig sv);
  let mgrOpt := default (managerOptions scheme probe leader) mgrOpt in
  say (NewManager mgrOpt);;
  mgr ← orDie "unable to start manager" (ctrl_NewManager sv cfg mgrOpt);
  say SetupController;;
  _ ← orDie "unable to create controller" (SetupWithManager sv mgr);
  say (AddCheck "healthz");;
  check "unable to set up health check" (AddHealthzCheck sv mgr "healthz");;
  say (AddCheck "readyz");;
  check "unable to set up ready check" (AddReadyzCheck sv mgr "readyz");;
  say (InfoLogged "starting manager");;
  say Start;;
  check "problem running manager" (mgr_Start sv mgr).

(** The options the manager is made with: no metrics server, whatever the flags. *)
Definition finalOptions (scheme : string) (probe : option string) (leader : option bool) : ctrlOptions :=
  mkCtrlOptions scheme (probeAddr probe) (enableLeaderElection leader) "c3cffa1a.example.org" "0".

(** Everything succeeded up to the manager's end. *)
Definition healthy scheme probe leader (sv : services) : Prop :=
  ∃ cfg mgr x, GetConfig sv = Ok cfg ∧ ctrl_NewManager sv cfg (finalOptions scheme probe leader) = Ok mgr
    ∧ SetupWithManager sv mgr = Ok x ∧ AddHealthzCheck sv mgr "healthz" = None ∧ AddReadyzCheck sv mgr "readyz" = None
    ∧ mgr_Start sv mgr = None.

(** Which step failed, after how many steps, and what is logged for it. *)
Inductive failure scheme probe leader (sv : services) : nat → mainStep → Prop :=
  | fail_config err : GetConfig sv = Err err → failure scheme probe leader sv 2 (ConfigFatal err)
  | fail_manager cfg err :
      GetConfig sv = Ok cfg → ctrl_NewManager sv cfg (finalOptions scheme probe leader) = Err err →
      failure scheme probe leader sv 3 (ErrorLogged err "unable to start manager")
  | fail_setup cfg mgr err :
      GetConfig sv = Ok cfg → ctrl_NewManager sv cfg (finalOptions scheme probe leader) = Ok mgr →
      SetupWithManager sv mgr = Err err →
      failure scheme probe leader sv 4 (ErrorLogged err "unable to create controller")
  | fail_healthz cfg mgr x err :
      GetConfig sv = Ok cfg → ctrl_NewManager sv cfg (finalOptions scheme probe leader) = Ok mgr →
      SetupWithManager sv mgr = Ok x → AddHealthzCheck sv mgr "healthz" = Some err →
      failure scheme probe leader sv 5 (ErrorLogged err "unable to set up health check")
  | fail_readyz cfg mgr x err :
      GetConfig sv = Ok cfg → ctrl_NewManager sv cfg (finalOptions scheme probe leader) = Ok mgr →
      SetupWithManager sv mgr = Ok x → AddHealthzCheck sv mgr "healthz" = None →
      AddReadyzCheck sv mgr "readyz" = Some err →
      failure scheme probe leader sv 6 (ErrorLogged err "unable to set up ready check")
  | fail_start cfg mgr x err :
      GetConfig sv = Ok cfg → ctrl_NewManager sv cfg (finalOptions scheme probe leader) = Ok mgr →
      SetupWithManager sv mgr = Ok x → AddHealthzCheck sv mgr "healthz" = None →
      AddReadyzCheck sv mgr "readyz" = None → mgr_Start sv mgr = Some err →
      failure scheme probe leader sv 8 (ErrorLogged err "problem running manager").

(** The case in which a given step fails. *)
Ltac failed_by c :=
  split; [split; [done|]; intros (? & ? & ? & ?); destruct_and!; congruence|];
  split; [done|]; split; [split; [|done]; intros _; eexists _, _; by eapply c|];
  let F := fresh in intros ? ? F; destruct F; first [congruence|split; [done|cbn; congruence]].

(** C31. main of the guestbook operator. The addon defaults are set before anything
    else, the manager is made without a metrics server, and it is started only when
    the controller and both checks are in place. main returns exactly when every
    step succeeded. Otherwise one step failed, the steps after it are not taken, and
    the last thing main does before it exits with 1 is to log that step's own error,
    with the message of that step ([failure] lists them). *)
Theorem main_outcome scheme probe leader sv :
  let '(steps, r) := main scheme probe leader sv in
  let all := [SetLogger; AddonInit; NewManager (finalOptions scheme probe leader); SetupController;
              AddCheck "healthz"; AddCheck "readyz"; InfoLogged "starting manager"; Start] in
  (r = Some () ↔ healthy scheme probe leader sv)
  ∧ (r = Some () → steps = all)
  ∧ (r = None ↔ ∃ n logged, failure scheme probe leader sv n logged)
  ∧ ∀ n logged, failure scheme probe leader sv n logged → r = None ∧ steps = take n all ++ [logged].
Proof using.
  assert (∀ o, with_metrics (managerOptions scheme probe leader) "0" = o → o = finalOptions scheme probe leader) as Hopt
    by (by intros o <-).
  unfold main, healthy; cbn; rewrite !(Hopt _ eq_refl).
  destruct (GetConfig sv) as [cfg|] eqn:E1; cbn; [|failed_by fail_config].
  destruct (ctrl_NewManager sv cfg _) as [mgr|] eqn:E2; cbn; [|failed_by fail_manager].
  destruct (SetupWithManager sv mgr) as [x|] eqn:E3; cbn; [|failed_by fail_setup].
  destruct (AddHealthzCheck sv mgr "healthz") as [e|] eqn:E4; cbn; [failed_by fail_healthz|].
  destruct (AddReadyzCheck sv mgr "readyz") as [e|] eqn:E5; cbn; [failed_by fail_readyz|].
  destruct (mgr_Start sv mgr) as [e|] eqn:E6; cbn; [failed_by fail_start|].
  split; [split; [intros _; by exists cfg, mgr, x|done]|]. split; [done|].
  split; [split; [done|]; intros (n & l & F)|intros n l F]; destruct F; congruence.
Qed.
End main.
End guestbookmain.
