(* ===== verification/MockRuns.v ===== *)
(** * A whole ApplyOnce against the mock API server

    The composition of applylib's ApplyOnce (ApplySet.v) with the mock server of
    mockkubeapiserver (MockServer.v, through the client of MockCluster.v). [replay]
    links the log of requests to the states of the server: every program of the
    library leaves the server in the state that its logged requests lead to. What
    only a DELETE does then gives what a run without one leaves: every object the
    set desires is stored when ApplyOnce reports no failure. *)

From S2P Require Import Prelude Kube Manifest MemoryStorage GoLib ServerSideApply MockServer MockCluster Sets KubectlApplySet ApplySet.
From stdpp Require Import options.
Import manifest memorystorage jsoneq slices ssa mockserver mockcluster.

Module mockruns.

(** ** Runs as replays of their log *)

Section replay.
Context {W : Type} `{Server W}.

(** The requests take the server from one state to the other, with the answers
    that were logged. *)
Inductive replay : list Event → W → W → Prop :=
  | replay_nil w : replay [] w w
  | replay_list gvr ns selector w w1 r evs w2 :
      srv_List gvr ns selector w = (w1, r) → replay evs w1 w2 → replay (EvList gvr ns selector r :: evs) w w2
  | replay_patch gvr ns name body opts w w1 r evs w2 :
      srv_Patch gvr ns name body opts w = (w1, r) → replay evs w1 w2 → replay (EvPatch gvr ns name body opts r :: evs) w w2
  | replay_delete gvr ns name opts w w1 r evs w2 :
      srv_Delete gvr ns name opts w = (w1, r) → replay evs w1 w2 → replay (EvDelete gvr ns name opts r :: evs) w w2
  | replay_update o w w1 r evs w2 :
      srv_Update o w = (w1, r) → replay evs w1 w2 → replay (EvUpdate o r :: evs) w w2.

Lemma replay_app evs evs' w w' : replay (evs ++ evs') w w' ↔ ∃ w1, replay evs w w1 ∧ replay evs' w1 w'.
Proof.
  split.
  - revert w; induction evs as [|ev evs IH]; intros w Hr; [eexists; split; [constructor|exact Hr]|].
    inversion Hr; subst;
      match goal with Hx : replay (_ ++ _) _ _ |- _ => apply IH in Hx as (w2' & ? & ?) end;
      eexists; (split; [by econstructor|done]).
  - intros (w1 & H1 & H2); induction H1; [done|by econstructor; eauto..].
Qed.

Definition replays {A} (m : M W A) : Prop :=
  ∀ e, ∃ new, log (m e).2 = log e ++ new ∧ replay new (world e) (world (m e).2).

Lemma replays_ret {A} (a : A) : replays (mret a : M W A).
Proof. intros e; exists []; split; [by rewrite app_nil_r|constructor]. Qed.

Lemma replays_bind {A B} (m : M W A) (f : A → M W B) :
  replays m → (∀ a, replays (f a)) → replays (m ≫= f).
Proof.
  intros Hm Hf e; destruct (Hm e) as (new & Hl & Hr); unfold mbind, M_bind.
  destruct (m e) as [a e1]; cbn [snd] in *; destruct (Hf a e1) as (new' & Hl' & Hr').
  exists (new ++ new'); split; [by rewrite Hl', Hl, (assoc (++))|].
  apply replay_app; eauto.
Qed.

Lemma replays_List gvr ns selector : replays (client_List gvr ns selector).
Proof.
  intros e; unfold client_List; destruct (srv_List _ _ _ _) as [w r] eqn:E; eexists; split; [done|].
  econstructor; [done|constructor].
Qed.
Lemma replays_Patch gvr ns name body opts : replays (client_Patch gvr ns name body opts).
Proof.
  intros e; unfold client_Patch; destruct (srv_Patch _ _ _ _ _ _) as [w r] eqn:E; eexists; split; [done|].
  econstructor; [done|constructor].
Qed.
Lemma replays_Delete gvr ns name opts : replays (client_Delete gvr ns name opts).
Proof.
  intros e; unfold client_Delete; destruct (srv_Delete _ _ _ _ _) as [w r] eqn:E; eexists; split; [done|].
  econstructor; [done|constructor].
Qed.
Lemma replays_Update o : replays (client_Update o).
Proof.
  intros e; unfold client_Update; destruct (srv_Update _ _) as [w r] eqn:E; eexists; split; [done|].
  econstructor; [done|constructor].
Qed.
End replay.

Create HintDb replays.
#[export] Hint Resolve replays_ret replays_List replays_Patch replays_Delete replays_Update : replays.

(** Programs are built of answers, binds and case distinctions. *)
Ltac replays :=
  repeat first
    [ solve [eauto with replays]
    | apply replays_bind; [|intros ?]
    | match goal with |- replays (match ?x with _ => _ end) => destruct x end
    | case_decide ].

Section library.
Import applyset.
Context `{RangeOrder, SchemaText, RESTMapper, Scheduler} {W : Type} `{Server W}.
Context (Marshal : ApplyableObject → res string).

Lemma updateParent_replays subject k mode : replays (W := W) (updateParentLabelsAndAnnotations subject k mode).
Proof. unfold updateParentLabelsAndAnnotations; replays. Qed.
#[local] Hint Resolve updateParent_replays : replays.

Lemma WithParent_replays a k : replays (W := W) (WithParent a k).
Proof. unfold WithParent; replays. Qed.
#[local] Hint Resolve WithParent_replays : replays.

Lemma applyTracker_replays a rms labels t st : replays (W := W) (applyTracker Marshal a rms labels t st).
Proof. unfold applyTracker, patchTracker, failTracker; replays. Qed.
#[local] Hint Resolve applyTracker_replays : replays.

Lemma applyTrackers_replays a rms labels ts st : replays (W := W) (applyTrackers Marshal a rms labels ts st).
Proof. revert st; induction ts as [|t ts IH]; intros st; cbn [applyTrackers]; replays. Qed.
#[local] Hint Resolve applyTrackers_replays : replays.

Lemma FindAllObjectsToPrune_replays k v : replays (W := W) (kubectlapply.FindAllObjectsToPrune k v).
Proof.
  unfold kubectlapply.FindAllObjectsToPrune; destruct (kubectlapply.buildTasks k) as [tasks|e]; replays.
  generalize (sched (length tasks)) (∅ : gmap nat (res (list kubectlapply.PruneObject))).
  intros order; induction order as [|i order IH]; intros slots; cbn [kubectlapply.runTasks];
    unfold kubectlapply.findObjectsToPrune; replays.
Qed.
#[local] Hint Resolve FindAllObjectsToPrune_replays : replays.

Lemma deletePruned_replays a objs r : replays (W := W) (deletePruned a objs r).
Proof. revert r; induction objs as [|p objs IH]; intros r; cbn [deletePruned]; replays. Qed.
#[local] Hint Resolve deletePruned_replays : replays.

Lemma prunePhase_replays a k st : replays (W := W) (prunePhase a k st).
Proof. unfold prunePhase; replays. Qed.
#[local] Hint Resolve prunePhase_replays : replays.

Lemma ApplyOnce_replays a : replays (W := W) (ApplyOnce Marshal a).
Proof. unfold ApplyOnce; destruct (resolveTrackers _ _) as [rms k]; replays. Qed.
End library.

(** ** Only a DELETE removes an object *)

Section keeps.
Context {U : Unstructured} {O : ObjectMetaOps} {ST : SchemaText} {R : RangeOrder} {SS : SliceSort} {HL : HTTPLibs}.
Context {T FS : Type} {ML : MergeLib T FS} {G : Type} {UG : UIDGenerator G}.
Implicit Types s : MemoryStorage G.

(** Types, storages and the names in them are still there. *)
Definition keeps s s' : Prop :=
  grows s s' ∧ ∀ i rs, ms_storages s !! i = Some rs →
    ∃ rs', ms_storages s' !! i = Some rs' ∧ dom (rs_objects rs) ⊆ dom (rs_objects rs').

Lemma keeps_refl s : keeps s s.
Proof using. split; [apply grows_refl|]; eauto. Qed.

Lemma keeps_trans s1 s2 s3 : keeps s1 s2 → keeps s2 s3 → keeps s1 s3.
Proof using.
  intros [G1 K1] [G2 K2]; split; [by eapply grows_trans|]; intros i rs Hi.
  destruct (K1 i rs Hi) as (rs1 & Hi1 & Hd1); destruct (K2 i rs1 Hi1) as (rs2 & Hi2 & Hd2).
  exists rs2; split; [done|]; by etrans.
Qed.

Lemma keeps_same s s' : ms_resources s' = ms_resources s → ms_storages s' = ms_storages s → keeps s s'.
Proof using. intros E1 E2; split; [exists []; by rewrite E1, app_nil_r|]; rewrite E2; eauto. Qed.

Lemma keeps_append s s' new : grows s s' → ms_storages s' = ms_storages s ++ new → keeps s s'.
Proof using.
  intros Hg E; split; [done|]; intros i rs Hi; exists rs; split; [|done].
  rewrite E; by apply lookup_app_l_Some.
Qed.

Lemma keeps_storage s i rs rs' :
  ms_storages s !! i = Some rs → dom (rs_objects rs) ⊆ dom (rs_objects rs') → keeps s (with_storage s i rs').
Proof using.
  intros Hi Hd; split; [exists []; by rewrite app_nil_r|]; intros j rs0 Hj; cbn.
  destruct (decide (i = j)) as [<-|Hne].
  - rewrite list_lookup_insert_eq by (by eapply lookup_lt_Some); simplify_eq; eauto.
  - rewrite list_lookup_insert_ne by done; eauto.
Qed.

Lemma addVersions_keeps g k r sc vs s : keeps s (addVersions g k r sc vs s).1.
Proof using.
  revert s; induction vs as [|v vs IH]; intros s; cbn [addVersions]; [apply keeps_refl|].
  destruct v; try apply keeps_refl; case_decide; [apply keeps_refl|].
  case_decide; [|eapply keeps_append; [exists []; by rewrite app_nil_r|done]].
  eapply keeps_trans; [|apply IH]; eapply keeps_append; [by eexists|done].
Qed.

Lemma UpdateCRD_keeps ev s : keeps s (UpdateCRD ev s).1.
Proof using.
  unfold UpdateCRD; repeat (case_decide; [apply keeps_refl|]).
  destruct (nestedFieldNoCopy _ _) as [[[]|]|]; try apply keeps_refl; apply addVersions_keeps.
Qed.

Lemma fireOnWatchEvent_keeps hs ev s s' ev' : fireOnWatchEvent hs ev s = Some (s', ev') → keeps s s'.
Proof using.
  revert ev s; induction hs as [|h hs IH]; intros ev s; cbn [fireOnWatchEvent].
  { intros [= <- _]; apply keeps_refl. }
  destruct (OnWatchEvent h ev s) as [[s1 u]|] eqn:Ho; [|done]; intros Hf%IH.
  eapply keeps_trans; [|exact Hf]; clear Hf IH; unfold OnWatchEvent in Ho.
  destruct h; repeat case_decide; simplify_eq; try apply keeps_refl.
  - pose proof (UpdateCRD_keeps ev s) as Hg; destruct (UpdateCRD ev s) as [s2 e].
    destruct (updateCRDConditions _); by simplify_eq.
  - destruct (deploymentChanged _); simplify_eq; apply keeps_refl.
Qed.

(** The state after an outcome, where there is one. *)
Definition outcome_keeps {A} s (o : outcome G A) : Prop :=
  match o with Returns s' _ | Blocks s' => keeps s s' | Fatal => True end.

Lemma commit_keeps {A} i gvk evType u store (answer : jmap → A) s :
  (∀ v m, dom m ⊆ dom (store v m)) → outcome_keeps s (commit i gvk evType u store answer s).
Proof using.
  intros Hst; unfold commit; destruct (fireOnWatchEvent _ _ _) as [[s1 ev]|] eqn:Hf; [|done].
  apply fireOnWatchEvent_keeps in Hf; destruct (ms_storages s1 !! i) as [rs|] eqn:Hi; [|done].
  destruct (notify _ _ _) as [[slots ws]|]; (eapply keeps_trans; [exact Hf|]); (eapply keeps_storage; [exact Hi|apply Hst]).
Qed.

Lemma outcome_keeps_trans {A} s s' (o : outcome G A) : outcome_keeps s' o → keeps s s' → outcome_keeps s o.
Proof using. intros Ho Hk; destruct o; cbn in *; try done; by eapply keeps_trans. Qed.

Lemma locking_keeps {A} r s (k : resourceStorage → outcome G A) :
  (∀ rs, ms_storages s !! mi_storage r = Some rs → outcome_keeps s (k rs)) → outcome_keeps s (locking r s k).
Proof using.
  intros Hk; unfold locking; destruct (ms_storages s !! mi_storage r) as [rs|]; [|apply keeps_refl].
  destruct (rs_locked rs); [apply keeps_refl|by apply Hk].
Qed.

Lemma insert_dom_keeps (id : Kube.NamespacedName) (v : jmap) (m : gmap Kube.NamespacedName jmap) : dom m ⊆ dom (<[id := v]> m).
Proof using. rewrite dom_insert_L; set_solver. Qed.

Definition isDelete {B} (c : call B) : bool := match c with CDeleteObject _ _ => true | _ => false end.

Lemma perform_keeps {B} (c : call B) s : isDelete c = false → outcome_keeps s (perform c s).
Proof using.
  destruct c as [gr| |r id|r ns|r id u|r id u|r id|r ns cb|r w pos|r w]; intros Hd; cbn [perform];
    try apply keeps_refl; try (apply locking_keeps; intros rs Hrs); try apply keeps_refl.
  - destruct (rs_objects rs !! id); [apply keeps_refl|]; destruct (TestClock_Now _) as [now clock].
    destruct (NewUID _) as [uid uids]; unfold stamp; eapply outcome_keeps_trans; [apply commit_keeps; intros; apply insert_dom_keeps|by apply keeps_same].
  - destruct (rs_objects rs !! id); [|apply keeps_refl]; unfold stamp.
    eapply outcome_keeps_trans; [apply commit_keeps; intros; apply insert_dom_keeps|by apply keeps_same].
  - done.
  - cbv zeta; destruct (takeSlot (rs_watches rs) (length (rs_watchers rs))); by eapply keeps_storage.
  - destruct (rs_watchers rs !! w); [|apply keeps_refl]; destruct (backfill _ _) as [w' [e|]]; by eapply keeps_storage.
  - destruct (_ ≫= _) as [w'|]; [destruct (w_phase w')|]; apply keeps_refl.
Qed.

(** A handler that calls DeleteObject nowhere. *)
Fixpoint nodelete {A} (p : prog A) : Prop :=
  match p with Ret _ => True | Call c k => isDelete c = false ∧ ∀ b, nodelete (k b) end.

Lemma exec_keeps {A} (p : prog A) s : nodelete p → outcome_keeps s (exec p s).
Proof using.
  revert s; induction p as [a|B c k IH]; intros s; [intros _; apply keeps_refl|]; intros [Hc Hk]; cbn [exec].
  pose proof (perform_keeps c s Hc) as Hp; destruct (perform c s) as [s1 b|s1|]; [|done..].
  eapply outcome_keeps_trans; [by apply IH|exact Hp].
Qed.

Lemma nodelete_bind {A B} (f : A → prog B) (p : prog A) : nodelete p → (∀ a, nodelete (f a)) → nodelete (p ≫= f).
Proof using. intros Hp Hf; induction p as [a|B' c k IH]; [apply Hf|]; destruct Hp; cbn; naive_solver. Qed.

Lemma Run_nodelete req rq : (∀ c, req ≠ DeleteResource c) → nodelete (Run req rq).
Proof using.
  intros Hreq; destruct req as [| | | | | |c|c|c|c]; try done; cbn; (split; [done|]); try done; intros [r|]; try done.
  - destruct (postedObject _ _ _) as [[id obj]|]; done.
  - case_decide; cbn; (split; [done|]); intros [w pos]; [|done].
    split; [done|]; intros _; split; [done|]; by intros [evs e].
  - cbn; split; [done|]; intros existing; destruct (patchedBody rq) as [[bytes body]|e]; [|done].
    destruct existing as [existing|]; [by destruct (patchUpdate _ _ _ _ _ _) as [[updated|]|e]|].
    case_decide; [done|]; by destruct (beforeObjectCreation _).
  - cbn; split; [done|]; intros [existing|]; [|done]; by destruct (putUpdate _ _ _ _) as [[updated|]|e].
  - by destruct (Hreq c).
Qed.

Lemma route_nodelete method tokens b req : route method tokens = (b, Some req) → method ≠ "DELETE" → ∀ c, req ≠ DeleteResource c.
Proof using.
  assert (∀ common req, buildObjectRequest method common = Some req → method ≠ "DELETE" → ∀ c, req ≠ DeleteResource c) as Ho.
  { intros common req0; unfold buildObjectRequest; repeat case_decide; congruence. }
  assert (∀ g v r n req c, buildCollectionRequest method g v r n = Some req → req ≠ DeleteResource c) as Hc.
  { intros g v r n req0 c; unfold buildCollectionRequest; repeat case_decide; congruence. }
  intros Hr Hm c; unfold route, routeLong, onGet in Hr.
  repeat first [case_match | case_decide]; simplify_eq; eauto.
Qed.

Lemma ServeHTTP_keeps hooks rq s :
  hr_Method (foldl (λ rq hook, hook rq) rq hooks) ≠ "DELETE" → outcome_keeps s (exec (ServeHTTP hooks rq) s).
Proof using.
  intros Hm; apply exec_keeps; unfold ServeHTTP; cbv zeta.
  destruct (route _ _) as [b [req|]] eqn:Hr; [|by destruct b].
  assert (nodelete (Run req (foldl (λ rq hook, hook rq) rq hooks))) as Hn
    by (eapply Run_nodelete, route_nodelete; eauto).
  destruct b; (apply nodelete_bind; [exact Hn|by intros [calls err]]).
Qed.

End keeps.
(** ** A run on the mock server *)

Section runs.
Context {U : Unstructured} {O : ObjectMetaOps} {ST : SchemaText} {R : RangeOrder} {SS : SliceSort} {HL : HTTPLibs}.
Context {T FS : Type} {ML : MergeLib T FS} {G : Type} {UG : UIDGenerator G} {C : RESTClient}.
Context {RM : RESTMapper} {SC : Scheduler}.
Context (toObject : jmap → Kube.Object) (HC : client_ok C toObject) (objects_encodable : encodable).
Implicit Types s : MemoryStorage G.

(** The server has an object of that name. *)
Definition stored (gvr : GroupVersionResource) (ns name : string) s : Prop :=
  ∃ r rs v, FindResource (gr_of gvr) s = Some r ∧ ms_storages s !! mi_storage r = Some rs
    ∧ rs_objects rs !! mkNN ns name = Some v.

Lemma stored_keeps gvr ns name s s' : keeps s s' → stored gvr ns name s → stored gvr ns name s'.
Proof using.
  intros [Hg Hk] (r & rs & v & Hf & Hs & Hv); destruct (Hk _ _ Hs) as (rs' & Hs' & Hd).
  assert (is_Some (rs_objects rs' !! mkNN ns name)) as [v' Hv'] by (apply elem_of_dom, Hd, elem_of_dom; eauto).
  exists r, rs', v'; split; [by eapply FindResource_grows|done].
Qed.

Lemma send_keeps {A} rq (decode : string → res A) w s' r :
  hr_Method rq ≠ "DELETE" → send rq decode w = (Some s', r) → ∃ s, w = Some s ∧ keeps s s'.
Proof using.
  intros Hm; destruct w as [s|]; [|done]; cbn [send]; pose proof (ServeHTTP_keeps [] rq s Hm) as Hk.
  destruct (exec _ s) as [s1 calls|s1|]; cbn in Hk; [| |done]; intros [= <- _]; eauto.
Qed.

(** Without a DELETE, a server that is still running has everything it had. *)
Lemma replay_keeps evs w s' :
  filter applyset.is_delete evs = [] → replay evs w (Some s') → ∃ s, w = Some s ∧ keeps s s'.
Proof using HC.
  intros Hf Hr; remember (Some s') as w' eqn:Ew; induction Hr as [w|? ? ? w w1 ? ? ? E ? IH|? ? ? ? ? w w1 ? ? ? E ? IH|
      ? ? ? ? w w1 ? ? ? E ? IH|? w w1 ? ? ? E ? IH]; subst.
  { exists s'; split; [done|apply keeps_refl]. }
  all: rewrite filter_cons in Hf; cbn in Hf.
  3:{ done. }
  all: destruct (IH Hf eq_refl) as (s1 & -> & Hk); eapply send_keeps in E as (s & -> & Hk');
    [exists s; split; [done|by eapply keeps_trans]|].
  - by rewrite (list_method C toObject HC).
  - by rewrite (patch_method C toObject HC).
  - by rewrite (update_method C toObject HC).
Qed.

(** The names of a tracker's object make a path the server reads back. *)
Definition addressable (t : applyset.objectTracker) : Prop :=
  ∀ u rm, applyset.desired t = applyset.Unstructured u →
    mapper_RESTMapping (GVK_GroupKind (o_gvk u)) [gvk_Version (o_gvk u)] = Ok rm →
    names_ok (rm_Resource rm) (o_namespace u) ∧ segment (o_name u).

(** The object of the tracker is on the server. *)
Definition tracker_stored (t : applyset.objectTracker) s : Prop :=
  ∃ u rm, applyset.desired t = applyset.Unstructured u
    ∧ mapper_RESTMapping (GVK_GroupKind (o_gvk u)) [gvk_Version (o_gvk u)] = Ok rm
    ∧ stored (rm_Resource rm) (o_namespace u) (o_name u) s.

Lemma applied_patch_stored Marshal opts labels t ev w w1 :
  addressable t → applyset.applied_patch Marshal opts labels t ev → replay [ev] w w1 →
  ∃ s1, w1 = Some s1 ∧ tracker_stored t s1.
Proof using HC objects_encodable.
  intros Ha [(u & rm & body & r & Hd & Hrm & _ & ->) [uid Hu]] Hr; destruct r as [o|]; [|done].
  inversion Hr as [| |? ? ? ? ? ? w2 ? ? ? E Hn| |]; subst; inversion Hn; subst.
  destruct (Ha u rm Hd Hrm) as [Hok Hseg]; destruct w as [s|]; [|done].
  destruct (srv_Patch_stored toObject HC objects_encodable _ _ _ _ _ _ _ _ Hok Hseg E)
    as (s' & rs & v & -> & (ri & Hf & Hs & _) & Hv & _).
  exists s'; split; [done|]; exists u, rm; split; [done|]; split; [done|]; by exists ri, rs, v.
Qed.

(** The patches of all trackers, then requests that delete nothing. *)
Lemma patches_stored Marshal opts labels ts patches rest w s' :
  Forall2 (applyset.applied_patch Marshal opts labels) ts patches → (∀ t, t ∈ ts → addressable t) →
  filter applyset.is_delete (patches ++ rest) = [] → replay (patches ++ rest) w (Some s') →
  ∀ t, t ∈ ts → tracker_stored t s'.
Proof using HC objects_encodable.
  intros HF; revert w; induction HF as [|t ev ts patches Hev HF IH]; intros w Ha Hnd Hr t' Ht; [set_solver|].
  cbn [app] in Hr; apply (replay_app [ev]) in Hr as (w1 & Hr1 & Hr).
  assert (filter applyset.is_delete (patches ++ rest) = []) as Hnd'.
  { apply applyset.no_deletes; intros ev' Hin; apply (proj1 (applyset.no_deletes _) Hnd); cbn; set_solver. }
  apply elem_of_cons in Ht as [->|Ht]; [|eapply IH; [set_solver|done|done|done]].
  destruct (applied_patch_stored _ _ _ _ _ _ _ (Ha t ltac:(set_solver)) Hev Hr1) as (s1 & -> & u & rm & Hd & Hrm & Hst).
  destruct (replay_keeps _ _ _ Hnd' Hr) as (s1' & [= <-] & Hk).
  exists u, rm; split; [done|]; split; [done|]; by eapply stored_keeps.
Qed.

(** A server that accepted the last request is running. *)
Lemma patches_alive Marshal opts labels ts patches w w' :
  Forall2 (applyset.applied_patch Marshal opts labels) ts patches → (∀ t, t ∈ ts → addressable t) → ts ≠ [] →
  replay patches w w' → is_Some w'.
Proof using HC objects_encodable.
  intros HF; revert w; induction HF as [|t ev ts patches Hev HF IH]; intros w Ha Hne Hr; [done|].
  apply (replay_app [ev]) in Hr as (w1 & Hr1 & Hr).
  destruct (applied_patch_stored _ _ _ _ _ _ _ (Ha t ltac:(set_solver)) Hev Hr1) as (s1 & -> & _).
  inversion HF; subst; [inversion Hr; by subst|]; eapply IH; [set_solver|done|done].
Qed.

(** C5. What ApplyOnce reports is what the mock server has. When ApplyOnce against
    the mock server returns without an error and without a failed object, and no
    DELETE was sent, every desired object is in the storage of the server, under
    the resource of its kind, its namespace and its name, if the server is still
    running; without pruning it is. *)
Theorem ApplyOnce_stored Marshal (a : applyset.ApplySet) (e : Env (option (MemoryStorage G))) r :
  (∀ t, t ∈ applyset.trackers a → addressable t) →
  (applyset.ApplyOnce Marshal a e).1.2 = applyset.Returned (Some r) None → applyset.applyFailCount r = 0%Z →
  ∃ new, log (applyset.ApplyOnce Marshal a e).2 = log e ++ new
    ∧ (filter applyset.is_delete new = [] → ∀ s', world (applyset.ApplyOnce Marshal a e).2 = Some s' →
         ∀ t, t ∈ applyset.trackers a → tracker_stored t s')
    ∧ (applyset.prune a = false → applyset.trackers a ≠ [] →
         filter applyset.is_delete new = [] ∧ is_Some (world (applyset.ApplyOnce Marshal a e).2)).
Proof using HC objects_encodable.
  intros Haddr Hout Hzero.
  destruct (ApplyOnce_replays Marshal a e) as (new & Hlog & Hreplay).
  destruct (sends_run _ _ e (applyset.ApplyOnce_patched_all Marshal a)) as (new' & Hlog' & Happ).
  rewrite Hlog in Hlog'; apply app_inv_head in Hlog' as <-.
  destruct (Happ r Hout Hzero) as (up & patches & rest & -> & HF & Hup & _ & Hrest).
  apply replay_app in Hreplay as (w1 & _ & Hr).
  exists (up ++ patches ++ rest); split; [done|]; split.
  - intros Hnd s' Hs'; rewrite Hs' in Hr; eapply patches_stored; [exact HF|done| |exact Hr].
    apply applyset.no_deletes; intros ev Hin; apply (proj1 (applyset.no_deletes _) Hnd); set_solver.
  - intros Hprune Hne; rewrite (Hrest Hprune), app_nil_r in *; split; [|by eapply patches_alive].
    apply applyset.no_deletes; intros ev [Hev|Hev]%elem_of_app; [by apply Hup|by eapply applyset.applied_patches_no_deletes].
Qed.

End runs.
(** ** A run *)

#[local] Existing Instances server_unstructured example_metaops example_text canonical_range insertion_slices
  example_wire example_merge TestUIDs example_client example_mapper in_order_sched.

(** A parent that records the kind of the ConfigMap already. *)
Definition example_book : Kube.Object :=
  mkObject (mkGVK "example.org" "v1" "Guestbook") "prod" "gb" "uid-gb" ∅
    {[kubectlapply.ApplySetGKsAnnotation := "ConfigMap"; kubectlapply.ApplySetAdditionalNamespacesAnnotation := ""]} "".
Definition example_desired : Kube.Object := mkObject (mkGVK "" "v1" "ConfigMap") "prod" "settings" "" ∅ ∅ "".
Definition example_settings_set : applyset.ApplySet :=
  applyset.SetDesiredObjects (applyset.New (λ _, (None, None))
    (applyset.mkOptions (mkPatchOptions "tool" (Some true)) (mkDeleteOptions None None []) false
      (applyset.NewParentRef (Accessible example_book) "gb" "prod"
        (mkMapping (mkGVR "example.org" "v1" "guestbooks") (mkGVK "example.org" "v1" "Guestbook") RESTScopeNamespace))
      "kdp/v1" (Some applyset.example_healthy)))
    [applyset.Unstructured example_desired].

(** The text of every patch is that of the settings. *)
#[local] Abbreviation settings_run :=
  (applyset.ApplyOnce (W := option (MemoryStorage Z)) (λ _, Ok "settings") example_settings_set
     (mkEnv (Some example_storage) [])).

Lemma ApplyOnce_stored_witness : ∃ s', world settings_run.2 = Some s' ∧ stored example_gvr "prod" "settings" s'.
Proof.
  assert (match settings_run.1.2 with
          | applyset.Returned (Some r) None => bool_decide (applyset.applyFailCount r = 0%Z)
          | _ => false end = true) as HB by (vm_compute; reflexivity).
  destruct settings_run.1.2 as [[r|] [err|]|] eqn:E; try discriminate HB; apply bool_decide_eq_true in HB.
  destruct (ApplyOnce_stored example_toObject example_client_ok (λ _, eq_refl) (λ _, Ok "settings") example_settings_set
    (mkEnv (Some example_storage) []) r) as (new & _ & Hst & Hal); [|exact E|exact HB|].
  - intros t Ht; apply list_elem_of_singleton in Ht as ->; intros u rm [= <-] [= <-].
    split; [exact example_names|exact example_segment].
  - destruct (Hal eq_refl ltac:(discriminate)) as [Hnd [s' Hs']]; exists s'; split; [exact Hs'|].
    destruct (Hst Hnd s' Hs' _ (list_elem_of_here _ _)) as (u & rm & [= <-] & [= <-] & H); exact H.
Defined.

End mockruns.
