(* ===== verification/Surface.v ===== *)
(** * The edges of the packages

    Small operations that tie the modelled components to their callers: the texts of
    watch events with their caches (storage/watchevent.go), the life of the mock
    server (apiserver.go), the static client getter of the direct applier
    (direct.go), the accessors of ParentRef (parentref.go), the operations a
    ControllerRESTMapper does not support, and ErrorResult (reconciler.go). *)

From S2P Require Import Prelude Kube Manifest MemoryStorage GoLib ServerSideApply MockServer Sets KubectlApplySet ApplySet.
From stdpp Require Import options.
Import manifest memorystorage jsoneq slices ssa mockserver.

(** ** The texts of a watch event *)

Module watchtext.
Section watchtext.
Context {U : Unstructured} {O : ObjectMetaOps} {HL : HTTPLibs}.

(** An event with its two caches, nil at first; the mutex makes each call one
    step. *)
Record cachedEvent := mkCached {
  ce_event : WatchEvent;
  ce_json : option string;
  ce_partialObjectMetadataJSON : option string
}.

Definition Unstructured (ev : cachedEvent) : jmap := we_internalObject (ce_event ev).

Definition newEvent (gvk : Kube.GroupVersionKind) (evType : string) (u : jmap) : cachedEvent :=
  mkCached (BuildWatchEvent gvk evType u) None None.

(** [None] is klog.Fatalf. *)
Definition WatchEvent_JSON (ev : cachedEvent) : option (cachedEvent * string) :=
  match ce_json ev with
  | Some j => Some (ev, j)
  | None =>
      match json_Marshal (PMessage (we_eventType (ce_event ev)) (inl (we_internalObject (ce_event ev)))) with
      | Err _ => None
      | Ok j => let j := j +:+ newline in Some (mkCached (ce_event ev) (Some j) (ce_partialObjectMetadataJSON ev), j)
      end
  end.

Definition PartialObjectMetadataJSON (ev : cachedEvent) : option (cachedEvent * string) :=
  match ce_partialObjectMetadataJSON ev with
  | Some j => Some (ev, j)
  | None =>
      match json_Marshal (PMessage (we_eventType (ce_event ev))
                            (inr (partialObjectMetadata (we_internalObject (ce_event ev))))) with
      | Err _ => None
      | Ok j => let j := j +:+ newline in Some (mkCached (ce_event ev) (ce_json ev) (Some j), j)
      end
  end.

(** The callbacks of the watches of a resource, each of which asks for one of the
    texts, in any order. *)
Fixpoint texts (requests : list bool) (ev : cachedEvent) : option (cachedEvent * list string) :=
  match requests with
  | [] => Some (ev, [])
  | partial :: requests =>
      '(ev, j) ← (if partial then PartialObjectMetadataJSON ev else WatchEvent_JSON ev);
      '(ev, js) ← texts requests ev;
      Some (ev, j :: js)
  end.

(** The caches hold what would be computed. *)
Definition fresh_caches (ev : cachedEvent) : Prop :=
  (∀ j, ce_json ev = Some j → j = eventJSON false (ce_event ev))
  ∧ (∀ j, ce_partialObjectMetadataJSON ev = Some j → j = eventJSON true (ce_event ev)).

Definition event_encodable (ev : WatchEvent) : Prop := ∀ partial, is_Ok (json_Marshal (eventPayload partial ev)) = true.

Lemma one_text (partial : bool) ev :
  fresh_caches ev → event_encodable (ce_event ev) →
  ∃ ev', (if partial then PartialObjectMetadataJSON ev else WatchEvent_JSON ev) = Some (ev', eventJSON partial (ce_event ev))
    ∧ ce_event ev' = ce_event ev ∧ fresh_caches ev'.
Proof using.
  intros Hf He; pose proof Hf as [Hj Hp]; specialize (He partial); destruct partial.
  - unfold PartialObjectMetadataJSON; destruct (ce_partialObjectMetadataJSON ev) as [j|] eqn:E.
    { rewrite (Hp j eq_refl); by exists ev. }
    unfold eventJSON, eventPayload in *; destruct (json_Marshal _) as [j|] eqn:Ej; [|done].
    eexists; split; [done|]; split; [done|]; split; [exact Hj|]; intros j' [= <-]; unfold eventJSON, eventPayload; cbn; by rewrite Ej.
  - unfold WatchEvent_JSON; destruct (ce_json ev) as [j|] eqn:E.
    { rewrite (Hj j eq_refl); by exists ev. }
    unfold eventJSON, eventPayload in *; destruct (json_Marshal _) as [j|] eqn:Ej; [|done].
    eexists; split; [done|]; split; [done|]; split; [|exact Hp]; intros j' [= <-]; unfold eventJSON, eventPayload; cbn; by rewrite Ej.
Qed.

(** Every watch is sent the text of the event it asked for. However many
    watches ask for the full or the partial text of one event, in any order, the
    caches never mix the two: each gets the text of the event's object, which the
    model of the watch handlers uses without the caches. *)
Theorem event_texts gvk evType u requests :
  event_encodable (BuildWatchEvent gvk evType u) →
  ∃ ev, texts requests (newEvent gvk evType u)
    = Some (ev, (λ partial, eventJSON partial (BuildWatchEvent gvk evType u)) <$> requests).
Proof using.
  intros He; assert (fresh_caches (newEvent gvk evType u)) as Hf by (by split).
  change (BuildWatchEvent gvk evType u) with (ce_event (newEvent gvk evType u)) in *.
  revert Hf He; generalize (newEvent gvk evType u); induction requests as [|partial requests IH]; intros ev Hf He.
  { by exists ev. }
  destruct (one_text partial ev Hf He) as (ev1 & E1 & Ev1 & Hf1); rewrite <- Ev1 in He.
  destruct (IH ev1 Hf1 He) as (ev2 & E2); rewrite Ev1 in E2.
  exists ev2; cbn [texts]; rewrite E1; cbn [mbind option_bind]; rewrite E2; done.
Qed.
End watchtext.

#[local] Existing Instances server_unstructured example_metaops example_http.

Lemma event_texts_witness :
  ∃ ev, texts [true; false; true] (newEvent (mkGVK "" "v1" "ConfigMap") "ADDED" ∅)
    = Some (ev, (λ partial, eventJSON partial (BuildWatchEvent (mkGVK "" "v1" "ConfigMap") "ADDED" ∅)) <$> [true; false; true]).
Proof. apply event_texts; intros []; vm_compute; reflexivity. Defined.
End watchtext.

(** ** The mock server's life (apiserver.go) *)

Module lifecycle.
Section lifecycle.
Context {St Hk Addr : Type}.

Inductive serving := Idle | Serving (a : Addr) | Closed.

Record MockKubeAPIServer := mkServer {
  httpServer_Addr : string;
  server_storage : option St;
  server_hooks : list Hk;
  server_serving : serving
}.

Definition Option : Type := MockKubeAPIServer → res MockKubeAPIServer.

Definition WithStorage (storage : St) : Option := λ s,
  Ok (mkServer (httpServer_Addr s) (Some storage) (server_hooks s) (server_serving s)).

Fixpoint applyServerOptions (options : list Option) (s : MockKubeAPIServer) : res MockKubeAPIServer :=
  match options with
  | [] => Ok s
  | option :: options => s ← option s; applyServerOptions options s
  end.

(** [NewMemoryStorage] builds the default storage; [addHooks] are the three calls of
    AddStorageHook. *)
Definition NewServer (NewMemoryStorage : res St) (addHooks : St → St) (addr : string) (options : list Option) :
    res MockKubeAPIServer :=
  let addr := if decide (addr = "") then ":http" else addr in
  s ← applyServerOptions options (mkServer addr None [] Idle);
  storage ← match server_storage s with Some storage => Ok storage | None => NewMemoryStorage end;
  Ok (mkServer (httpServer_Addr s) (Some (addHooks storage)) (server_hooks s) (server_serving s)).

Definition AddHook (hook : Hk) (s : MockKubeAPIServer) : MockKubeAPIServer :=
  mkServer (httpServer_Addr s) (server_storage s) (server_hooks s ++ [hook]) (server_serving s).

(** The requests are served in a goroutine, until Stop. *)
Definition StartServing (Listen : string → res Addr) (s : MockKubeAPIServer) : MockKubeAPIServer * res Addr :=
  match Listen (httpServer_Addr s) with
  | Err e => (s, Err e)
  | Ok a => (mkServer (httpServer_Addr s) (server_storage s) (server_hooks s) (Serving a), Ok a)
  end.

Definition Stop (Close : option error) (s : MockKubeAPIServer) : MockKubeAPIServer * option error :=
  (mkServer (httpServer_Addr s) (server_storage s) (server_hooks s) Closed, Close).

(** The storage of a server: of several WithStorage the last, and the default only
    where there is none, which then need not be buildable. *)
Lemma NewServer_storage NewMemoryStorage addHooks addr (storages : list St) :
  NewServer NewMemoryStorage addHooks addr (WithStorage <$> storages)
  = match list.last storages with
    | Some st => Ok (mkServer (if decide (addr = "") then ":http" else addr) (Some (addHooks st)) [] Idle)
    | None => st ← NewMemoryStorage; Ok (mkServer (if decide (addr = "") then ":http" else addr) (Some (addHooks st)) [] Idle)
    end.
Proof using.
  assert (∀ a o, applyServerOptions (WithStorage <$> storages) (mkServer a o [] Idle)
    = Ok (mkServer a (match list.last storages with Some st => Some st | None => o end) [] Idle)) as H.
  { intros a; induction storages as [|st storages IH]; intros o; [done|].
    rewrite fmap_cons; etransitivity; [exact (IH (Some st))|]; rewrite list.last_cons; by destruct (list.last storages). }
  unfold NewServer; rewrite H; cbn [mbind res_bind]; by destruct (list.last storages), NewMemoryStorage.
Qed.
End lifecycle.
End lifecycle.

(** ** The static REST client getter (direct.go) *)

Module restgetter.
Section restgetter.
Context {Cfg Disc Mapper : Type}.

Record staticRESTClientGetter := mkGetter {
  RESTConfig : option Cfg;
  DiscoveryClient : option Disc;
  RESTMapper : option Mapper
}.

Definition ToRESTConfig (s : staticRESTClientGetter) : res Cfg :=
  match RESTConfig s with None => Err (Errorf "RESTConfig not set") | Some c => Ok c end.
Definition ToDiscoveryClient (s : staticRESTClientGetter) : res Disc :=
  match DiscoveryClient s with None => Err (Errorf "DiscoveryClient not set") | Some c => Ok c end.
Definition ToRESTMapper (s : staticRESTClientGetter) : res Mapper :=
  match RESTMapper s with None => Err (Errorf "RESTMapper not set") | Some m => Ok m end.
End restgetter.

(** The preference of the direct applier. *)
Record DirectApplier := mkDirectApplier { serverSideApplyPreferred : bool }.
Definition UseServerSideApply (d : DirectApplier) : DirectApplier := mkDirectApplier true.
End restgetter.

(** ** ParentRef's accessors (parentref.go) *)

Module parentaccess.
Import applyset.

Definition ParentRef_Name (p : ParentRef) : string := par_name p.
Definition ParentRef_Namespace (p : ParentRef) : string := par_namespace p.
Definition ParentRef_RESTMapping (p : ParentRef) : RESTMapping := par_restMapping p.
Definition ParentRef_GetSubject (p : ParentRef) : RuntimeObject := par_object p.

(** A parent has what it was made of; the arguments are not in the order of the
    fields. *)
Lemma NewParentRef_accessors object name namespace rest :
  ParentRef_GetSubject (NewParentRef object name namespace rest) = object
  ∧ ParentRef_Name (NewParentRef object name namespace rest) = name
  ∧ ParentRef_Namespace (NewParentRef object name namespace rest) = namespace
  ∧ ParentRef_RESTMapping (NewParentRef object name namespace rest) = rest
  ∧ ParentRef_GroupVersionKind (NewParentRef object name namespace rest) = RuntimeObject_gvk object.
Proof. done. Qed.
End parentaccess.

(** ** What a ControllerRESTMapper does not support (controllerrestmapper.go) *)

Module unsupported.
Definition KindsFor (resource : GroupVersionResource) : res (list Kube.GroupVersionKind) :=
  Err (Errorf "ControllerRESTMapper does not support KindsFor operation").
Definition ResourceFor (input : GroupVersionResource) : res GroupVersionResource :=
  Err (Errorf "ControllerRESTMapper does not support ResourceFor operation").
Definition ResourcesFor (input : GroupVersionResource) : res (list GroupVersionResource) :=
  Err (Errorf "ControllerRESTMapper does not support ResourcesFor operation").
Definition ResourceSingularizer (resource : string) : res string :=
  Err (Errorf "ControllerRESTMapper does not support ResourceSingularizer operation").
End unsupported.
